(** * Sewer-inspection platform: decoder, importer, store and search

    A shallow embedding of the ingestion and search core of the
    repository:

    - [lib/s3-stream.ts] (src/unnamed/part_004, the version with an
      offset)                       the streaming decoder [streamFromS3];
    - [lib/database/sqlite.ts]      the structured store and its queries;
    - [lib/database/importer.ts]    the batch importer, its checkpoint log
                                    and the indexed search backend;
    - [lib/search.ts] (src/unnamed/part_008, the paginated version)
                                    the streaming-scan search backend;
    - [app/api/import/route.ts]     the import HTTP handler and its guard;
    - [app/api/search/route.ts]     the search HTTP handler.

    Conventions.  A JavaScript value that may be [undefined] is an
    [option]; counters and offsets are [nat]; page numbers, scores and
    SQL [LIMIT]/[OFFSET] arguments are [Z] (scores are whole numbers in
    the data; [NaN] and JSON [null] are not modelled).  Strings are Rocq
    strings, that is sequences of bytes; the text of the data set is
    ASCII, and [Js.isAscii] marks the strings on which the byte-wise
    case mapping of the model is the one of JavaScript.  Timestamps are
    stored in the form [toISOString] produces, which sorts as text in
    the order of time.  The one place where the source computes with
    floating-point numbers, the count estimate of the streaming search,
    is modelled with the rounding of binary64 ([Js.Number]).  A function
    that may throw returns an [option] or a dedicated result type, and a
    loop whose bound is not structural takes fuel and returns [None]
    when the fuel runs out; totality lemmas show how much fuel is
    enough. *)

From Stdlib Require Import String Ascii Bool Arith PeanoNat ZArith Lia List.
From Stdlib Require Import DecimalString.
From Stdlib Require Import Sorting.Sorted Sorting.Permutation.
From Stdlib Require OrderedTypeEx.
Import ListNotations.

Set Implicit Arguments.

(* ================================================================== *)
(** * JavaScript and SQL string primitives *)
(* ================================================================== *)

Module Js.

(** Text all of whose bytes are ASCII characters, the character NUL
    apart, at which SQLite takes a text to end. *)
Definition isAscii (s : string) : bool :=
  forallb (fun c => (0 <? nat_of_ascii c) && (nat_of_ascii c <? 128))
          (list_ascii_of_string s).

(** [String.prototype.toLowerCase].  On ASCII text JavaScript maps
    the letters [A] to [Z] and nothing else, which is what this
    function does byte by byte.  JavaScript also maps letters outside
    ASCII, and the model does not: on a string that is not [isAscii]
    it says nothing about the source, and a statement that compares
    this mapping with the case folding of SQLite assumes [isAscii]. *)
Definition lower_ascii (c : ascii) : ascii :=
  let n := nat_of_ascii c in
  if (65 <=? n) && (n <=? 90) then ascii_of_nat (n + 32) else c.

Fixpoint toLowerCase (s : string) : string :=
  match s with
  | EmptyString => EmptyString
  | String c s' => String (lower_ascii c) (toLowerCase s')
  end.

(** ** Dates

    [new Date(text).toISOString()] for a text in the ECMAScript
    date-time format, as far as the result does not depend on the
    time zone of the process: the date-only forms [YYYY], [YYYY-MM]
    and [YYYY-MM-DD], which stand for midnight UTC, and the date-time
    forms with the UTC designator, [YYYY-MM-DDTHH:mmZ],
    [YYYY-MM-DDTHH:mm:ssZ] and [YYYY-MM-DDTHH:mm:ss.sssZ]; the text
    has to name a day of the calendar and a time of day before
    24:00. *)
Record DateTime := {
  year : nat; month : nat; day : nat;
  hours : nat; minutes : nat; seconds : nat; milliseconds : nat
}.

Definition digit (c : ascii) : option nat :=
  let n := nat_of_ascii c in
  if (48 <=? n) && (n <=? 57) then Some (n - 48) else None.

Fixpoint digits (s : string) (value : nat) : option nat :=
  match s with
  | EmptyString => Some value
  | String c s' =>
      match digit c with
      | Some d => digits s' (10 * value + d)
      | None => None
      end
  end.

(** The number written in the [width] characters from [start]. *)
Definition numberAt (text : string) (start width : nat) : option nat :=
  digits (substring start width text) 0.

Definition charAt (text : string) (i : nat) (c : ascii) : bool :=
  match String.get i text with
  | Some d => Ascii.eqb c d
  | None => false
  end.

Definition leapYear (y : nat) : bool :=
  ((y mod 4 =? 0) && negb (y mod 100 =? 0)) || (y mod 400 =? 0).

Definition daysInMonth (y m : nat) : nat :=
  match m with
  | 2 => if leapYear y then 29 else 28
  | 4 | 6 | 9 | 11 => 30
  | _ => 31
  end.

Definition inCalendar (t : DateTime) : bool :=
  (1 <=? month t) && (month t <=? 12)
  && (1 <=? day t) && (day t <=? daysInMonth (year t) (month t))
  && (hours t <=? 23) && (minutes t <=? 59) && (seconds t <=? 59).

(** The forms are told apart by their length: 4, 7 and 10 characters
    for a date, 17, 20 and 24 for a date and a time. *)
Definition dateForm (text : string) : bool :=
  let n := String.length text in
  (n =? 4)
  || ((n =? 7) && charAt text 4 "-"%char)
  || ((n =? 10) && charAt text 4 "-"%char && charAt text 7 "-"%char).

Definition dateTimeForm (text : string) : bool :=
  let n := String.length text in
  charAt text 4 "-"%char && charAt text 7 "-"%char
  && charAt text 10 "T"%char && charAt text 13 ":"%char
  && charAt text (n - 1) "Z"%char
  && ((n =? 17)
      || ((n =? 20) && charAt text 16 ":"%char)
      || ((n =? 24) && charAt text 16 ":"%char && charAt text 19 "."%char)).

Definition parseDateTime (text : string) : option DateTime :=
  let n := String.length text in
  if dateForm text || dateTimeForm text then
    match numberAt text 0 4,
          (if 7 <=? n then numberAt text 5 2 else Some 1),
          (if 10 <=? n then numberAt text 8 2 else Some 1),
          (if 17 <=? n then numberAt text 11 2 else Some 0),
          (if 17 <=? n then numberAt text 14 2 else Some 0),
          (if 20 <=? n then numberAt text 17 2 else Some 0),
          (if 24 <=? n then numberAt text 20 3 else Some 0)
    with
    | Some y, Some m, Some d, Some h, Some mi, Some sec, Some ms =>
        let t := {| year := y; month := m; day := d; hours := h;
                    minutes := mi; seconds := sec; milliseconds := ms |} in
        if inCalendar t then Some t else None
    | _, _, _, _, _, _, _ => None
    end
  else None.

(** The last decimal digit of [n], as a character. *)
Definition digitChar (n : nat) : ascii := ascii_of_nat (48 + n mod 10).

(** The last [width] decimal digits of [n]. *)
Fixpoint padded (width n : nat) : string :=
  match width with
  | 0 => EmptyString
  | S w => (padded w (n / 10) ++ String (digitChar n) EmptyString)%string
  end.

Definition printDateTime (t : DateTime) : string :=
  (padded 4 (year t) ++ "-" ++ padded 2 (month t) ++ "-" ++ padded 2 (day t)
   ++ "T" ++ padded 2 (hours t) ++ ":" ++ padded 2 (minutes t)
   ++ ":" ++ padded 2 (seconds t) ++ "." ++ padded 3 (milliseconds t)
   ++ "Z")%string.

(** A text outside the forms above is read by [Date] in a way that
    depends on the engine or on the time zone of the process, or not
    at all, in which case [toISOString] throws (one of the faults of
    [Sqlite.row_write_fails]).  None of this is modelled: such a text
    is handed on as it is, and a statement that depends on the stored
    timestamp assumes that [parseDateTime] reads it. *)
Definition toISOString (text : string) : string :=
  match parseDateTime text with
  | Some t => printDateTime t
  | None => text
  end.

(** ** Numbers

    A Number is an IEEE 754 binary64 value.  The finite Numbers that
    are not negative are held as the fraction they denote: [(n, d)]
    with [0 <= n] and [0 < d] stands for [n / d].  An integer below
    [2^53] is a Number as it is; a product and a quotient are the
    exact result rounded to 53 significant bits, to nearest and ties
    to even.  The range of the exponent is not modelled: the
    quantities computed here are counts and their ratios, which stay
    far from overflow and underflow. *)
Module Number.

Definition t : Type := (Z * Z)%type.

Definition ofZ (n : Z) : t := (n, 1%Z).

(** The integer nearest to [p / q], ties to even. *)
Definition nearest (p q : Z) : Z :=
  let d := (p / q)%Z in
  let r := (p mod q)%Z in
  if (2 * r <? q)%Z then d
  else if (q <? 2 * r)%Z then (d + 1)%Z
  else if Z.even d then d else (d + 1)%Z.

(** The [e] with [2^e <= p / q < 2^(e+1)], for [0 < p] and [0 < q]. *)
Definition exponent (p q : Z) : Z :=
  if (q <=? p)%Z then Z.log2 (p / q)
  else (- Z.log2_up ((q + p - 1) / p))%Z.

(** [p / q] rounded to a Number. *)
Definition round (p q : Z) : t :=
  if (p <=? 0)%Z then (0%Z, 1%Z)
  else
    let e := (exponent p q - 52)%Z in
    let up := (2 ^ Z.max 0 e)%Z in
    let down := (2 ^ Z.max 0 (- e))%Z in
    ((nearest (p * down) (q * up) * up)%Z, down).

Definition mul (x y : t) : t :=
  round (fst x * fst y) (snd x * snd y).

Definition div (x y : t) : t :=
  round (fst x * snd y) (snd x * fst y).

(** [Math.round]: the nearest integer, ties upwards. *)
Definition Math_round (x : t) : Z :=
  ((2 * fst x + snd x) / (2 * snd x))%Z.

End Number.

(** [array.length], an unsigned 32-bit integer. *)
Definition length {A} (array : list A) : Z :=
  (Z.of_nat (List.length array) mod 2 ^ 32)%Z.

(** [hay.includes(needle)]. *)
Fixpoint includes (hay needle : string) : bool :=
  if String.prefix needle hay then true
  else match hay with
       | EmptyString => false
       | String _ hay' => includes hay' needle
       end.

(** Truthiness of a possibly missing string: [undefined] and the
    empty string are falsy. *)
Definition truthy (s : option string) : bool :=
  match s with
  | Some s' => negb (String.eqb s' EmptyString)
  | None => false
  end.

(** [value !== undefined]. *)
Definition defined {A} (value : option A) : bool :=
  match value with Some _ => true | None => false end.

(** [array.slice(i, j)] for [0 <= i <= j]. *)
Definition slice {A} (l : list A) (i j : nat) : list A :=
  firstn (j - i) (skipn i l).

End Js.

Module Sql.

(** SQLite's [LIKE]: [%] matches any run of characters, [_] exactly
    one, and every other character matches itself up to ASCII case. *)
Fixpoint like (pattern text : list ascii) {struct pattern} : bool :=
  match pattern with
  | [] => match text with [] => true | _ => false end
  | p :: pattern' =>
      if Ascii.eqb p "%"%char then
        (fix any_run (t : list ascii) : bool :=
           like pattern' t
           || match t with
              | [] => false
              | _ :: t' => any_run t'
              end) text
      else
        match text with
        | [] => false
        | c :: text' =>
            (Ascii.eqb p "_"%char
             || Ascii.eqb (Js.lower_ascii p) (Js.lower_ascii c))
            && like pattern' text'
        end
  end.

(** [column LIKE '%' || needle || '%']. *)
Definition like_contains (column needle : string) : bool :=
  like (list_ascii_of_string ("%" ++ needle ++ "%")%string)
       (list_ascii_of_string column).

(** [ORDER BY key DESC] over text keys.  SQLite promises the order of
    the keys and nothing about rows with equal keys, whose order
    follows from the plan it picks.  The function below is one of the
    answers SQLite may give, the one that leaves rows with equal keys
    in storage order; [sorted_by_desc_keys] shows that every other
    answer carries the same keys at the same positions, and the
    statements about sorted results either read the keys only or
    assume that the keys they depend on are not shared. *)
Section OrderBy.
Variable A : Type.
Variable key : A -> string.

Fixpoint insert_desc (x : A) (sorted : list A) : list A :=
  match sorted with
  | [] => [x]
  | y :: rest =>
      if String.leb (key y) (key x) then x :: y :: rest
      else y :: insert_desc x rest
  end.

Fixpoint order_by_desc (rows : list A) : list A :=
  match rows with
  | [] => []
  | x :: rest => insert_desc x (order_by_desc rest)
  end.
End OrderBy.

(** [LIMIT l OFFSET o]: a negative limit means no limit and a
    negative offset is read as zero. *)
Definition limit_offset {A} (l o : Z) (rows : list A) : list A :=
  let rest := skipn (Z.to_nat o) rows in
  if (l <? 0)%Z then rest else firstn (Z.to_nat l) rest.

End Sql.

(* ================================================================== *)
(** * Data model ([lib/types.ts]) *)
(* ================================================================== *)

Module Location.
Record t := { city : option string; state : option string }.
End Location.

Module PipeDetails.
Record t := { material : option string; diameter_in : option Z }.
End PipeDetails.

(** The attributes of an inspection that the store promotes to columns
    and that the filters read.  [location] and [pipe] are themselves
    optional because the source reads them through [?.]. *)
Module SewerInspection.
Record t := {
  id : option string;
  timestamp_utc : string;
  location : option Location.t;
  pipe : option PipeDetails.t;
  inspection_score : option Z;
  requires_repair : option bool
}.

Definition city (r : t) : option string :=
  match location r with Some l => Location.city l | None => None end.
Definition state (r : t) : option string :=
  match location r with Some l => Location.state l | None => None end.
Definition material (r : t) : option string :=
  match pipe r with Some p => PipeDetails.material p | None => None end.
Definition diameter_in (r : t) : option Z :=
  match pipe r with Some p => PipeDetails.diameter_in p | None => None end.
End SewerInspection.

Module SearchFilters.
Record t := {
  city : option string;
  state : option string;
  material : option string;
  scoreMin : option Z;
  scoreMax : option Z;
  requiresRepair : option bool
}.
End SearchFilters.

(* ================================================================== *)
(** * Streaming decoder ([lib/s3-stream.ts]) *)
(* ================================================================== *)

Module S3Stream.

(** One line of a remote JSONL object, classified by what the decoder
    does with it: [line.trim()] is empty, [JSON.parse] throws, or
    [JSON.parse] yields a record. *)
Inductive Line :=
| BlankLine
| BadLine (text : string)
| JsonLine (r : SewerInspection.t).

(** The ways in which a call of [streamFromS3] ends in an exception:
    [fetch] rejects; the response is not [ok]; the response has no
    body; reading the body fails, with an [Error] that carries a
    message or with some other value. *)
Inductive Failure :=
| FetchRejected (message : string)
| NotOk (status : nat) (statusText : string)
| NoBody
| ReadFailed (message : option string).

(** The message of the exception that leaves [streamFromS3]. *)
Definition message (f : Failure) : string :=
  match f with
  | FetchRejected m => m
  | NotOk status statusText =>
      ("Failed to fetch from S3: "
       ++ NilZero.string_of_uint (Nat.to_uint status) ++ " " ++ statusText)%string
  | NoBody => "No response body received from S3"%string
  | ReadFailed inner =>
      ("Failed to stream from S3: "
       ++ match inner with
          | Some m => m
          | None => "Unknown error"
          end)%string
  end.

(** The remote bucket.  An object either can be read to its end, and
    then [object] gives its lines, or every call on it fails in the
    way [failure] tells and [object] is [None]. *)
Record Bucket := {
  object : string -> option (list Line);
  failure : string -> Failure
}.

(** The message of the exception a call on [fileName] throws when
    the object cannot be read. *)
Definition thrown (bucket : Bucket) (fileName : string) : string :=
  message (failure bucket fileName).

(** The per-line body of [streamFromS3].  The reader hands over the
    lines in order whatever the network chunking, and the trailing
    line without a newline is treated by the final-buffer code exactly
    as a line in the loop is. *)
Fixpoint scan (lines : list Line) (limit offset : nat)
         (recordsSkipped resultsCollected : nat)
         (results : list SewerInspection.t) : list SewerInspection.t :=
  match lines with
  | [] => results
  | BlankLine :: rest =>
      scan rest limit offset recordsSkipped resultsCollected results
  | line :: rest =>
      if recordsSkipped <? offset then
        scan rest limit offset (S recordsSkipped) resultsCollected results
      else if resultsCollected <? limit then
        match line with
        | JsonLine parsed =>
            scan rest limit offset recordsSkipped (S resultsCollected)
                 (results ++ [parsed])
        | _ =>
            scan rest limit offset recordsSkipped resultsCollected results
        end
      else results
  end.

(** [streamFromS3(fileName, limit, offset)]; [None] is the exception
    with message [thrown bucket fileName]. *)
Definition streamFromS3 (bucket : Bucket) (fileName : string)
           (limit offset : nat) : option (list SewerInspection.t) :=
  match object bucket fileName with
  | None => None
  | Some lines => Some (scan lines limit offset 0 0 [])
  end.

(** Reference reading of a decode call, used to reason about it: drop
    the blank lines, skip [offset] lines, keep the lines that parse and
    take the first [limit] of them. *)
Definition nonblank (lines : list Line) : list Line :=
  filter (fun l => match l with BlankLine => false | _ => true end) lines.

Fixpoint parsed (lines : list Line) : list SewerInspection.t :=
  match lines with
  | [] => []
  | JsonLine r :: rest => r :: parsed rest
  | _ :: rest => parsed rest
  end.

Definition window (lines : list Line) (limit offset : nat)
  : list SewerInspection.t :=
  firstn limit (parsed (skipn offset (nonblank lines))).

(** A record of one decode call, for instrumented runs. *)
Record DecodeCall := {
  call_file : string;
  call_limit : nat;
  call_offset : nat;
  call_produced : option (list SewerInspection.t)
}.

(** The number of records the decoder produced over a list of calls. *)
Definition produced_count (c : DecodeCall) : nat :=
  match call_produced c with Some rs => length rs | None => 0 end.

Definition total_produced (calls : list DecodeCall) : nat :=
  fold_right (fun c n => produced_count c + n) 0 calls.

End S3Stream.

(** A bucket is applied to the name of an object. *)
Coercion S3Stream.object : S3Stream.Bucket >-> Funclass.

(* ================================================================== *)
(** * Structured store ([lib/database/sqlite.ts]) *)
(* ================================================================== *)

Inductive ImportStatus := running | completed | failed | paused.

(** A row of table [inspections], restricted to the primary key, the
    sort key and the filterable columns. *)
Module InspectionRow.
Record t := {
  id : string;
  timestamp_utc : string;
  city : string;
  state : string;
  material : string;
  diameter_in : Z;
  inspection_score : Z;
  requires_repair : bool
}.
End InspectionRow.

(** A row of table [import_log]. *)
Module ImportLogRow.
Record t := {
  id : nat;
  source_file : string;
  started_at : string;
  completed_at : option string;
  records_processed : nat;
  records_imported : nat;
  errors : nat;
  status : ImportStatus;
  error_message : option string
}.
End ImportLogRow.

Module Database.
Record t := {
  inspections : list InspectionRow.t;
  import_log : list ImportLogRow.t
}.

Definition empty : t := {| inspections := []; import_log := [] |}.

Definition ids (db : t) : list string :=
  map InspectionRow.id (inspections db).
End Database.

Module Sqlite.

(** [safeValue(value, defaultValue)] at the three argument types it
    is used with. *)
Definition safeValue_string (value : option string) (defaultValue : string)
  : string :=
  match value with
  | None => defaultValue
  | Some s => if String.eqb s EmptyString then defaultValue else s
  end.

Definition safeValue_number (value : option Z) (defaultValue : Z) : Z :=
  match value with None => defaultValue | Some n => n end.

Definition safeValue_boolean (value : option bool) (defaultValue : bool)
  : bool :=
  match value with None => defaultValue | Some b => b end.

(** [transformInspectionForDb].  The timestamp column holds
    [new Date(inspection.timestamp_utc).toISOString()], which
    [safeValue] hands on as it is since it is never empty; a
    timestamp that cannot be parsed makes that call throw, which is
    one of the faults of [row_write_fails] below. *)
Definition transformInspectionForDb (inspection : SewerInspection.t)
  : InspectionRow.t :=
  {| InspectionRow.id :=
       safeValue_string (SewerInspection.id inspection) EmptyString;
     InspectionRow.timestamp_utc :=
       Js.toISOString (SewerInspection.timestamp_utc inspection);
     InspectionRow.city :=
       safeValue_string (SewerInspection.city inspection) EmptyString;
     InspectionRow.state :=
       safeValue_string (SewerInspection.state inspection) EmptyString;
     InspectionRow.material :=
       safeValue_string (SewerInspection.material inspection) EmptyString;
     InspectionRow.diameter_in :=
       safeValue_number (SewerInspection.diameter_in inspection) 0%Z;
     InspectionRow.inspection_score :=
       safeValue_number (SewerInspection.inspection_score inspection) 0%Z;
     InspectionRow.requires_repair :=
       safeValue_boolean (SewerInspection.requires_repair inspection) false
  |}.

Definition transformDbToInspection (row : InspectionRow.t)
  : SewerInspection.t :=
  {| SewerInspection.id := Some (InspectionRow.id row);
     SewerInspection.timestamp_utc := InspectionRow.timestamp_utc row;
     SewerInspection.location :=
       Some {| Location.city := Some (InspectionRow.city row);
               Location.state := Some (InspectionRow.state row) |};
     SewerInspection.pipe :=
       Some {| PipeDetails.material := Some (InspectionRow.material row);
               PipeDetails.diameter_in :=
                 Some (InspectionRow.diameter_in row) |};
     SewerInspection.inspection_score :=
       Some (InspectionRow.inspection_score row);
     SewerInspection.requires_repair :=
       Some (InspectionRow.requires_repair row)
  |}.

(** What the storage engine may refuse.  [row_write_fails] stands for
    an exception of [transformInspectionForDb] or of the
    [INSERT OR REPLACE] statement (an unparseable timestamp, a value
    that cannot be bound); [defect_write_fails] for an exception of
    [insertDefects], raised after the inspection row is written. *)
Record Faults := {
  row_write_fails : SewerInspection.t -> bool;
  defect_write_fails : SewerInspection.t -> bool
}.

Definition no_faults : Faults :=
  {| row_write_fails := fun _ => false;
     defect_write_fails := fun _ => false |}.

(** [INSERT OR REPLACE INTO inspections]: the conflicting row, if
    any, is deleted and the new row is appended. *)
Definition insert_or_replace (row : InspectionRow.t)
           (rows : list InspectionRow.t) : list InspectionRow.t :=
  filter (fun old =>
            negb (String.eqb (InspectionRow.id old) (InspectionRow.id row)))
         rows
  ++ [row].

(** [insertInspection]: [Some true] when the statement reports a
    change, [None] when it throws.  The rows are returned in both
    cases because the caller catches the exception inside the
    transaction. *)
Definition insertInspection (faults : Faults)
           (rows : list InspectionRow.t) (inspection : SewerInspection.t)
  : list InspectionRow.t * option bool :=
  if row_write_fails faults inspection then (rows, None)
  else
    let rows' := insert_or_replace (transformInspectionForDb inspection) rows in
    if defect_write_fails faults inspection then (rows', None)
    else (rows', Some true).

(** The body of the transaction of [insertInspectionsBatch]. *)
Fixpoint insert_each (faults : Faults) (rows : list InspectionRow.t)
         (inspectionBatch : list SewerInspection.t) (insertedCount : nat)
  : list InspectionRow.t * nat :=
  match inspectionBatch with
  | [] => (rows, insertedCount)
  | inspection :: rest =>
      match insertInspection faults rows inspection with
      | (rows', Some true) => insert_each faults rows' rest (S insertedCount)
      | (rows', _) => insert_each faults rows' rest insertedCount
      end
  end.

(** [insertInspectionsBatch]; [transaction_fails] says whether the
    transaction wrapper itself throws, in which case everything is
    rolled back and the exception is passed on ([None]). *)
Definition insertInspectionsBatch (faults : Faults) (transaction_fails : bool)
           (rows : list InspectionRow.t) (inspections : list SewerInspection.t)
  : option (list InspectionRow.t * nat) :=
  if transaction_fails then None
  else Some (insert_each faults rows inspections 0).

(** [if (filters.field) { conditions.push(...) }] for a text field:
    an [undefined] or empty filter value adds no condition. *)
Definition when_set {A} (value : option string) (condition : string -> A)
  : list A :=
  match value with
  | Some s => if String.eqb s EmptyString then [] else [condition s]
  | None => []
  end.

(** The [WHERE] clause that [getInspectionCount] and [getInspections]
    assemble: one condition per filter that is set, joined by [AND]. *)
Definition conditions (filters : SearchFilters.t)
  : list (InspectionRow.t -> bool) :=
  when_set (SearchFilters.city filters)
    (fun city row => Sql.like_contains (InspectionRow.city row) city)
  ++ when_set (SearchFilters.state filters)
       (fun state row => String.eqb (InspectionRow.state row) state)
  ++ when_set (SearchFilters.material filters)
       (fun material row => Sql.like_contains (InspectionRow.material row) material)
  ++ (match SearchFilters.scoreMin filters with
      | Some lo => [fun row => (lo <=? InspectionRow.inspection_score row)%Z]
      | None => []
      end)
  ++ (match SearchFilters.scoreMax filters with
      | Some hi => [fun row => (InspectionRow.inspection_score row <=? hi)%Z]
      | None => []
      end)
  ++ (match SearchFilters.requiresRepair filters with
      | Some b => [fun row => Bool.eqb (InspectionRow.requires_repair row) b]
      | None => []
      end).

Definition whereClause (filters : SearchFilters.t) (row : InspectionRow.t)
  : bool :=
  forallb (fun condition => condition row) (conditions filters).

Definition getInspectionCount (db : Database.t) (filters : SearchFilters.t)
  : nat :=
  length (filter (whereClause filters) (Database.inspections db)).

(** The rows selected by a filter in the order of
    [ORDER BY timestamp_utc DESC], before [LIMIT] and [OFFSET]. *)
Definition selected (db : Database.t) (filters : SearchFilters.t)
  : list InspectionRow.t :=
  Sql.order_by_desc InspectionRow.timestamp_utc
    (filter (whereClause filters) (Database.inspections db)).

Definition getInspections (db : Database.t) (filters : SearchFilters.t)
           (page pageSize : Z) : list SewerInspection.t :=
  let offset := ((page - 1) * pageSize)%Z in
  map transformDbToInspection
      (Sql.limit_offset pageSize offset (selected db filters)).

End Sqlite.

(* ================================================================== *)
(** * Batch importer ([lib/database/importer.ts]) *)
(* ================================================================== *)

Module ImportOptions.
Record t := {
  batchSize : nat;
  skipDuplicates : bool;
  validateData : bool
}.

Definition DEFAULT_OPTIONS : t :=
  {| batchSize := 100; skipDuplicates := true; validateData := true |}.
End ImportOptions.

Module ImportProgress.
Record t := {
  fileName : string;
  recordsProcessed : nat;
  recordsImported : nat;
  errors : nat;
  status : ImportStatus;
  errorMessage : option string
}.
End ImportProgress.

(** Everything outside the process that a run depends on.  Stop
    requests and the wall clock are indexed by the number of [await]s
    the run has passed, transaction failures by the number of
    transactions attempted. *)
Module Env.
Record t := {
  bucket : S3Stream.Bucket;
  faults : Sqlite.Faults;
  transaction_fails : nat -> bool;
  stop_requested : nat -> bool;
  clock : nat -> string
}.
End Env.

(** The two flags of a [DataImporter] object. *)
Module DataImporter.
Record t := { isRunning : bool; shouldStop : bool }.

Definition new : t := {| isRunning := false; shouldStop := false |}.

Definition stop (this : t) : t :=
  {| isRunning := isRunning this; shouldStop := true |}.

Definition isImportRunning (this : t) : bool := isRunning this.

(** [this.isRunning = true; this.shouldStop = false] at the start of
    [importFromS3], and the [finally] block at its end. *)
Definition enter (this : t) : t :=
  {| isRunning := true; shouldStop := false |}.

Definition leave (this : t) : t :=
  {| isRunning := false; shouldStop := shouldStop this |}.
End DataImporter.

Module World.
Record t := {
  db : Database.t;
  awaits : nat;
  transactions : nat;
  calls : list S3Stream.DecodeCall
}.

Definition initial (db0 : Database.t) : t :=
  {| db := db0; awaits := 0; transactions := 0; calls := [] |}.
End World.

Module Importer.

Definition chunkSize : nat := 200.

(** [createBatches]: the [for] loop advances [i] by [batchSize], so
    it does not terminate when [batchSize] is zero and the array is
    not empty; the array length is fuel enough otherwise. *)
Fixpoint createBatches_loop {A} (fuel : nat) (array : list A)
         (batchSize i : nat) (batches : list (list A))
  : option (list (list A)) :=
  if i <? length array then
    match fuel with
    | 0 => None
    | S fuel' =>
        createBatches_loop fuel' array batchSize (i + batchSize)
          (batches ++ [Js.slice array i (i + batchSize)])
    end
  else Some batches.

Definition createBatches {A} (array : list A) (batchSize : nat)
  : option (list (list A)) :=
  createBatches_loop (length array) array batchSize 0 [].

Definition validateRecord (record : SewerInspection.t) : bool :=
  if negb (Js.truthy (SewerInspection.id record))
     || negb (Js.truthy (SewerInspection.city record))
     || negb (Js.truthy (SewerInspection.state record))
  then false
  else if negb (Js.truthy (SewerInspection.material record))
          || negb (Js.defined (SewerInspection.diameter_in record))
  then false
  else if negb (Js.defined (SewerInspection.inspection_score record))
          || negb (Js.defined (SewerInspection.requires_repair record))
  then false
  else true.

(** [existingIdSet.has(record.id)]. *)
Definition has (existingIds : list string) (i : option string) : bool :=
  match i with
  | Some s => existsb (String.eqb s) existingIds
  | None => false
  end.

(** [filterDuplicates].  The [SELECT id ... WHERE id IN (...)] binds
    every identifier of the batch, an [undefined] one as [NULL], which
    no row equals; a record without identifier is therefore never
    found in [existingIdSet] and is kept.  A batch has at most
    [chunkSize] records, fewer than the statement has room for, so the
    query does not throw on account of the batch and the [catch] is
    left to a store that cannot be read at all, which is not
    modelled. *)
Definition filterDuplicates (rows : list InspectionRow.t)
           (records : list SewerInspection.t) : list SewerInspection.t :=
  match records with
  | [] => records
  | _ =>
      let ids := map SewerInspection.id records in
      let existingIds :=
        map InspectionRow.id
            (filter (fun row => existsb (has [InspectionRow.id row]) ids)
                    rows) in
      filter (fun record => negb (has existingIds (SewerInspection.id record)))
             records
  end.

(** ** The checkpoint log *)

Definition resumable (s : ImportStatus) : bool :=
  match s with
  | running | paused | failed => true
  | completed => false
  end.

Definition getResumableImports (log : list ImportLogRow.t)
  : list ImportLogRow.t :=
  Sql.order_by_desc ImportLogRow.started_at
    (filter (fun row => resumable (ImportLogRow.status row)
                        && negb (Js.defined (ImportLogRow.completed_at row)))
            log).

Definition calculateResumeOffset (log : list ImportLogRow.t)
           (fileName : string) : nat :=
  match Sql.order_by_desc ImportLogRow.started_at
          (filter (fun row => String.eqb (ImportLogRow.source_file row) fileName
                              && resumable (ImportLogRow.status row))
                  log)
  with
  | result :: _ => ImportLogRow.records_processed result
  | [] => 0
  end.

Definition canResumeImport (log : list ImportLogRow.t) (fileName : string)
  : bool :=
  0 <? calculateResumeOffset log fileName.

(** [lastInsertRowid] of the [INSERT INTO import_log]. *)
Definition next_log_id (log : list ImportLogRow.t) : nat :=
  S (fold_right Nat.max 0 (map ImportLogRow.id log)).

Definition startImportLog (log : list ImportLogRow.t) (fileName now : string)
  : list ImportLogRow.t * nat :=
  let logId := next_log_id log in
  (log ++ [{| ImportLogRow.id := logId;
              ImportLogRow.source_file := fileName;
              ImportLogRow.started_at := now;
              ImportLogRow.completed_at := None;
              ImportLogRow.records_processed := 0;
              ImportLogRow.records_imported := 0;
              ImportLogRow.errors := 0;
              ImportLogRow.status := running;
              ImportLogRow.error_message := None |}],
   logId).

Definition updateImportLog (log : list ImportLogRow.t) (logId : nat)
           (progress : ImportProgress.t) : list ImportLogRow.t :=
  map (fun row =>
         if ImportLogRow.id row =? logId then
           {| ImportLogRow.id := ImportLogRow.id row;
              ImportLogRow.source_file := ImportLogRow.source_file row;
              ImportLogRow.started_at := ImportLogRow.started_at row;
              ImportLogRow.completed_at := ImportLogRow.completed_at row;
              ImportLogRow.records_processed := ImportProgress.recordsProcessed progress;
              ImportLogRow.records_imported := ImportProgress.recordsImported progress;
              ImportLogRow.errors := ImportProgress.errors progress;
              ImportLogRow.status := ImportProgress.status progress;
              ImportLogRow.error_message := ImportLogRow.error_message row |}
         else row)
      log.

Definition completeImportLog (log : list ImportLogRow.t) (logId : nat)
           (progress : ImportProgress.t) (now : string)
           (error : option string) : list ImportLogRow.t :=
  map (fun row =>
         if ImportLogRow.id row =? logId then
           {| ImportLogRow.id := ImportLogRow.id row;
              ImportLogRow.source_file := ImportLogRow.source_file row;
              ImportLogRow.started_at := ImportLogRow.started_at row;
              ImportLogRow.completed_at := Some now;
              ImportLogRow.records_processed := ImportProgress.recordsProcessed progress;
              ImportLogRow.records_imported := ImportProgress.recordsImported progress;
              ImportLogRow.errors := ImportProgress.errors progress;
              ImportLogRow.status := ImportProgress.status progress;
              ImportLogRow.error_message := error |}
         else row)
      log.

(** ** One import run *)

(** The state threaded through a run: the world, the flags of the
    importer object and the progress record handed to the callbacks. *)
Record Run := {
  world : World.t;
  importer : DataImporter.t;
  progress : ImportProgress.t
}.

Definition with_db (w : World.t) (db' : Database.t) : World.t :=
  {| World.db := db'; World.awaits := World.awaits w;
     World.transactions := World.transactions w;
     World.calls := World.calls w |}.

(** An [await]: control returns to the event loop, where a stop
    request may be served before the run resumes. *)
Definition await (E : Env.t) (st : Run) : Run :=
  let w := world st in
  {| world := {| World.db := World.db w;
                 World.awaits := S (World.awaits w);
                 World.transactions := World.transactions w;
                 World.calls := World.calls w |};
     importer :=
       {| DataImporter.isRunning := DataImporter.isRunning (importer st);
          DataImporter.shouldStop :=
            DataImporter.shouldStop (importer st)
            || Env.stop_requested E (World.awaits w) |};
     progress := progress st |}.

Definition begin_transaction (st : Run) : Run :=
  let w := world st in
  {| world := {| World.db := World.db w;
                 World.awaits := World.awaits w;
                 World.transactions := S (World.transactions w);
                 World.calls := World.calls w |};
     importer := importer st;
     progress := progress st |}.

Definition record_call (st : Run) (c : S3Stream.DecodeCall) : Run :=
  let w := world st in
  {| world := {| World.db := World.db w;
                 World.awaits := World.awaits w;
                 World.transactions := World.transactions w;
                 World.calls := World.calls w ++ [c] |};
     importer := importer st;
     progress := progress st |}.

Definition validBatch (options : ImportOptions.t)
           (batch : list SewerInspection.t) : list SewerInspection.t :=
  if ImportOptions.validateData options
  then filter validateRecord batch
  else batch.

Definition filteredBatch (options : ImportOptions.t)
           (rows : list InspectionRow.t)
           (batch : list SewerInspection.t) : list SewerInspection.t :=
  if ImportOptions.skipDuplicates options
  then filterDuplicates rows (validBatch options batch)
  else validBatch options batch.

(** The counters after a batch whose transaction returned
    [insertedCount]. *)
Definition count_batch (p : ImportProgress.t) (batchLength insertedCount : nat)
  : ImportProgress.t :=
  {| ImportProgress.fileName := ImportProgress.fileName p;
     ImportProgress.recordsProcessed :=
       ImportProgress.recordsProcessed p + batchLength;
     ImportProgress.recordsImported :=
       ImportProgress.recordsImported p + insertedCount;
     ImportProgress.errors :=
       ImportProgress.errors p + (batchLength - insertedCount);
     ImportProgress.status := ImportProgress.status p;
     ImportProgress.errorMessage := ImportProgress.errorMessage p |}.

(** The counters after a batch whose [try] block threw. *)
Definition count_failed_batch (p : ImportProgress.t) (batchLength : nat)
  : ImportProgress.t :=
  {| ImportProgress.fileName := ImportProgress.fileName p;
     ImportProgress.recordsProcessed := ImportProgress.recordsProcessed p;
     ImportProgress.recordsImported := ImportProgress.recordsImported p;
     ImportProgress.errors := ImportProgress.errors p + batchLength;
     ImportProgress.status := ImportProgress.status p;
     ImportProgress.errorMessage := ImportProgress.errorMessage p |}.

(** The body of [for (const batch of batches)] after the stop test. *)
Definition process_batch (E : Env.t) (options : ImportOptions.t)
           (logId : nat) (st : Run) (batch : list SewerInspection.t) : Run :=
  let rows := Database.inspections (World.db (world st)) in
  let toInsert := filteredBatch options rows batch in
  let st1 := if ImportOptions.skipDuplicates options then await E st else st in
  let st2 := begin_transaction st1 in
  match Sqlite.insertInspectionsBatch (Env.faults E)
          (Env.transaction_fails E (World.transactions (world st1)))
          rows toInsert
  with
  | Some (rows', insertedCount) =>
      let p := count_batch (progress st2) (length batch) insertedCount in
      let log := Database.import_log (World.db (world st2)) in
      {| world :=
           with_db (world st2)
             {| Database.inspections := rows';
                Database.import_log := updateImportLog log logId p |};
         importer := importer st2;
         progress := p |}
  | None =>
      {| world := world st2;
         importer := importer st2;
         progress := count_failed_batch (progress st2) (length batch) |}
  end.

Fixpoint batch_loop (E : Env.t) (options : ImportOptions.t) (logId : nat)
         (st : Run) (batches : list (list SewerInspection.t)) : Run :=
  match batches with
  | [] => st
  | batch :: rest =>
      if DataImporter.shouldStop (importer st) then st
      else batch_loop E options logId (process_batch E options logId st batch) rest
  end.

(** [while (!this.shouldStop)].  The result carries the message of
    the exception that left the loop, if any; [None] as a whole means
    that the loop did not finish within the fuel. *)
Fixpoint chunk_loop (E : Env.t) (options : ImportOptions.t) (logId : nat)
         (fileName : string) (fuel : nat) (st : Run) (offset : nat)
  : option (Run * option string) :=
  if DataImporter.shouldStop (importer st) then Some (st, None)
  else
    match fuel with
    | 0 => None
    | S fuel' =>
        let fetched := S3Stream.streamFromS3 (Env.bucket E) fileName chunkSize offset in
        let st1 :=
          await E (record_call st
                     {| S3Stream.call_file := fileName;
                        S3Stream.call_limit := chunkSize;
                        S3Stream.call_offset := offset;
                        S3Stream.call_produced := fetched |}) in
        match fetched with
        | None => Some (st1, Some (S3Stream.thrown (Env.bucket E) fileName))
        | Some chunk =>
            if length chunk =? 0 then Some (st1, None)
            else
              match createBatches chunk (ImportOptions.batchSize options) with
              | None => None
              | Some batches =>
                  let st2 := batch_loop E options logId st1 batches in
                  if length chunk <? chunkSize then Some (st2, None)
                  else chunk_loop E options logId fileName fuel' st2
                                  (offset + length chunk)
              end
        end
    end.

Definition with_status (p : ImportProgress.t) (s : ImportStatus)
           (message : option string) : ImportProgress.t :=
  {| ImportProgress.fileName := ImportProgress.fileName p;
     ImportProgress.recordsProcessed := ImportProgress.recordsProcessed p;
     ImportProgress.recordsImported := ImportProgress.recordsImported p;
     ImportProgress.errors := ImportProgress.errors p;
     ImportProgress.status := s;
     ImportProgress.errorMessage := message |}.

(** The offset a run starts from. *)
Definition startOffset (log : list ImportLogRow.t) (fileName : string)
           (resume : bool) : nat :=
  if resume || canResumeImport log fileName
  then calculateResumeOffset log fileName
  else 0.

Definition existingProgress (log : list ImportLogRow.t) (fileName : string)
           (resume : bool) : option ImportLogRow.t :=
  if (resume || canResumeImport log fileName)
     && (0 <? calculateResumeOffset log fileName)
  then find (fun imp => String.eqb (ImportLogRow.source_file imp) fileName)
            (getResumableImports log)
  else None.

(** The state in which the chunk loop is entered, with the checkpoint
    row the run writes to. *)
Definition prepare (E : Env.t) (w : World.t) (this : DataImporter.t)
           (fileName : string) (resume : bool) : Run * nat :=
  let log := Database.import_log (World.db w) in
  let offset := startOffset log fileName resume in
  let existing := existingProgress log fileName resume in
  let '(log', logId) :=
    match existing with
    | Some e => (log, ImportLogRow.id e)
    | None => startImportLog log fileName (Env.clock E (World.awaits w))
    end in
  ({| world :=
        with_db w {| Database.inspections := Database.inspections (World.db w);
                     Database.import_log := log' |};
      importer := DataImporter.enter this;
      progress :=
        {| ImportProgress.fileName := fileName;
           ImportProgress.recordsProcessed :=
             match existing with
             | Some e => ImportLogRow.records_processed e
             | None => offset
             end;
           ImportProgress.recordsImported :=
             match existing with
             | Some e => ImportLogRow.records_imported e
             | None => 0
             end;
           ImportProgress.errors :=
             match existing with
             | Some e => ImportLogRow.errors e
             | None => 0
             end;
           ImportProgress.status := running;
           ImportProgress.errorMessage := None |} |},
   logId).

(** The code after the loop: the normal finalisation or the outer
    [catch], then [finally]. *)
Definition finish (E : Env.t) (logId : nat) (st : Run)
           (thrown : option string) : Run :=
  let p :=
    match thrown with
    | None =>
        with_status (progress st)
          (if DataImporter.shouldStop (importer st) then paused else completed)
          (ImportProgress.errorMessage (progress st))
    | Some message => with_status (progress st) failed (Some message)
    end in
  let w := world st in
  let log := Database.import_log (World.db w) in
  {| world :=
       with_db w
         {| Database.inspections := Database.inspections (World.db w);
            Database.import_log :=
              completeImportLog log logId p (Env.clock E (World.awaits w)) thrown |};
     importer := DataImporter.leave (importer st);
     progress := p |}.

Definition importFromS3 (E : Env.t) (options : ImportOptions.t) (fuel : nat)
           (w : World.t) (this : DataImporter.t)
           (fileName : string) (resume : bool) : option Run :=
  let '(st, logId) := prepare E w this fileName resume in
  match chunk_loop E options logId fileName fuel st
                   (startOffset (Database.import_log (World.db w)) fileName resume)
  with
  | None => None
  | Some (st', thrown) => Some (finish E logId st' thrown)
  end.

(** Fuel that lets the chunk loop of a run over [fileName] finish. *)
Definition enough_fuel (E : Env.t) (fileName : string) : nat :=
  match Env.bucket E fileName with
  | Some lines => S (length lines)
  | None => 1
  end.

End Importer.

(* ================================================================== *)
(** * Indexed search backend ([lib/database/search.ts]) *)
(* ================================================================== *)

Module SearchResult.
Record t := { results : list SewerInspection.t; totalCount : nat }.
End SearchResult.

Module DbSearch.

Definition searchInspections (db : Database.t) (filters : SearchFilters.t)
           (page pageSize : Z) : SearchResult.t :=
  let totalCount := Sqlite.getInspectionCount db filters in
  let results := Sqlite.getInspections db filters page pageSize in
  {| SearchResult.results := results; SearchResult.totalCount := totalCount |}.

End DbSearch.

(* ================================================================== *)
(** * Streaming-scan search backend ([lib/search.ts]) *)
(* ================================================================== *)

(** A computation that either returns or throws. *)
Inductive Completion (A : Type) :=
| Returned (a : A)
| Threw (message : string).
Arguments Threw {A} message.

Module S3Search.

Definition filesToSearch : list string :=
  [ "sewer-inspections-part1.jsonl"%string;
    "sewer-inspections-part2.jsonl"%string;
    "sewer-inspections-part3.jsonl"%string;
    "sewer-inspections-part4.jsonl"%string;
    "sewer-inspections-part5.jsonl"%string ].

Definition chunkSize : nat := 500.
Definition sampleSize : nat := 500.
Definition estimatedFileSize : nat := 5000.

Record Predicates := {
  hasCity : bool;
  city : option string;
  hasState : bool;
  state : option string;
  hasMaterial : bool;
  material : option string;
  hasScoreMin : bool;
  scoreMin : Z;
  hasScoreMax : bool;
  scoreMax : Z;
  hasRequiresRepair : bool;
  requiresRepair : option bool
}.

Definition compileFilterPredicates (filters : SearchFilters.t) : Predicates :=
  {| hasCity := Js.truthy (SearchFilters.city filters);
     city := option_map Js.toLowerCase (SearchFilters.city filters);
     hasState := Js.truthy (SearchFilters.state filters);
     state := option_map Js.toLowerCase (SearchFilters.state filters);
     hasMaterial := Js.truthy (SearchFilters.material filters);
     material := option_map Js.toLowerCase (SearchFilters.material filters);
     hasScoreMin := Js.defined (SearchFilters.scoreMin filters);
     scoreMin := match SearchFilters.scoreMin filters with
                 | Some n => n | None => 0%Z end;
     hasScoreMax := Js.defined (SearchFilters.scoreMax filters);
     scoreMax := match SearchFilters.scoreMax filters with
                 | Some n => if (n =? 0)%Z then 100%Z else n
                 | None => 100%Z end;
     hasRequiresRepair := Js.defined (SearchFilters.requiresRepair filters);
     requiresRepair := SearchFilters.requiresRepair filters |}.

(** [field?.toLowerCase().includes(needle)], falsy when the field is
    missing. *)
Definition lower_includes (field needle : option string) : bool :=
  match field, needle with
  | Some f, Some n => Js.includes (Js.toLowerCase f) n
  | _, _ => false
  end.

(** Strict equality of two possibly undefined strings or booleans. *)
Definition same_string (a b : option string) : bool :=
  match a, b with
  | Some x, Some y => String.eqb x y
  | None, None => true
  | _, _ => false
  end.

Definition same_boolean (a b : option bool) : bool :=
  match a, b with
  | Some x, Some y => Bool.eqb x y
  | None, None => true
  | _, _ => false
  end.

(** A comparison with a missing score is false. *)
Definition score_lt (score : option Z) (bound : Z) : bool :=
  match score with Some s => (s <? bound)%Z | None => false end.

Definition score_gt (score : option Z) (bound : Z) : bool :=
  match score with Some s => (bound <? s)%Z | None => false end.

Definition fastFilter (inspection : SewerInspection.t)
           (predicates : Predicates) : bool :=
  if hasCity predicates
     && negb (lower_includes (SewerInspection.city inspection) (city predicates))
  then false
  else if hasState predicates
          && negb (same_string
                     (option_map Js.toLowerCase (SewerInspection.state inspection))
                     (state predicates))
  then false
  else if hasMaterial predicates
          && negb (lower_includes (SewerInspection.material inspection)
                                  (material predicates))
  then false
  else if hasScoreMin predicates
          && score_lt (SewerInspection.inspection_score inspection)
                      (scoreMin predicates)
  then false
  else if hasScoreMax predicates
          && score_gt (SewerInspection.inspection_score inspection)
                      (scoreMax predicates)
  then false
  else if hasRequiresRepair predicates
          && negb (same_boolean (SewerInspection.requires_repair inspection)
                                (requiresRepair predicates))
  then false
  else true.

(** [if (filter && field) { if (!test(field, filter)) return false }]. *)
Definition both_set (test : string -> string -> bool)
           (filter field : option string) : bool :=
  match filter, field with
  | Some f, Some v =>
      if Js.truthy filter && Js.truthy field then test v f else true
  | _, _ => true
  end.

Definition matchesFilters (inspection : SewerInspection.t)
           (filters : SearchFilters.t) : bool :=
  if negb (both_set (fun v f => Js.includes (Js.toLowerCase v) (Js.toLowerCase f))
                    (SearchFilters.city filters)
                    (SewerInspection.city inspection))
  then false
  else if negb (both_set (fun v f => String.eqb (Js.toLowerCase v) (Js.toLowerCase f))
                         (SearchFilters.state filters)
                         (SewerInspection.state inspection))
  then false
  else if negb (both_set (fun v f => Js.includes (Js.toLowerCase v) (Js.toLowerCase f))
                         (SearchFilters.material filters)
                         (SewerInspection.material inspection))
  then false
  else
    let score := SewerInspection.inspection_score inspection in
    if match SearchFilters.scoreMin filters with
       | Some lo => score_lt score lo | None => false end
    then false
    else if match SearchFilters.scoreMax filters with
            | Some hi => score_gt score hi | None => false end
    then false
    else if match SearchFilters.requiresRepair filters with
            | Some b => negb (same_boolean
                                (SewerInspection.requires_repair inspection)
                                (Some b))
            | None => false end
    then false
    else true.

(** The predicate the paging scan applies to a record of a chunk. *)
Definition scanPredicate (filters : SearchFilters.t)
           (inspection : SewerInspection.t) : bool :=
  if negb (fastFilter inspection (compileFilterPredicates filters))
  then false
  else matchesFilters inspection filters.

(** The [for] loop over [filteredChunk]; the flag says that the
    function returned from inside the loop. *)
Fixpoint collect (filteredChunk : list SewerInspection.t)
         (skipCount limitCount : nat)
         (matches : list SewerInspection.t) (localSkipped : nat)
  : list SewerInspection.t * nat * bool :=
  match filteredChunk with
  | [] => (matches, localSkipped, false)
  | inspection :: rest =>
      if localSkipped <? skipCount then
        collect rest skipCount limitCount matches (S localSkipped)
      else if length matches <? limitCount then
        collect rest skipCount limitCount (matches ++ [inspection]) localSkipped
      else (matches, localSkipped, true)
  end.

Record FileScan := {
  matches : list SewerInspection.t;
  totalProcessed : nat;
  scanCalls : list S3Stream.DecodeCall
}.

Fixpoint scan_loop (bucket : S3Stream.Bucket) (fileName : string)
         (filters : SearchFilters.t) (skipCount limitCount : nat)
         (fuel : nat) (found : list SewerInspection.t)
         (processed localSkipped : nat) (calls : list S3Stream.DecodeCall)
  : option (Completion FileScan) :=
  if length found <? limitCount then
    match fuel with
    | 0 => None
    | S fuel' =>
        match S3Stream.streamFromS3 bucket fileName chunkSize processed with
        | None => Some (Threw (S3Stream.thrown bucket fileName))
        | Some chunk =>
            let calls' :=
              calls ++ [{| S3Stream.call_file := fileName;
                           S3Stream.call_limit := chunkSize;
                           S3Stream.call_offset := processed;
                           S3Stream.call_produced := Some chunk |}] in
            if length chunk =? 0 then
              Some (Returned {| matches := found; totalProcessed := processed;
                                scanCalls := calls' |})
            else
              let processed' := processed + length chunk in
              let filteredChunk := filter (scanPredicate filters) chunk in
              let '(found', localSkipped', returned) :=
                collect filteredChunk skipCount limitCount found localSkipped in
              if returned || (length chunk <? chunkSize) then
                Some (Returned {| matches := found';
                                  totalProcessed := processed';
                                  scanCalls := calls' |})
              else
                scan_loop bucket fileName filters skipCount limitCount fuel'
                          found' processed' localSkipped' calls'
        end
    end
  else
    Some (Returned {| matches := found; totalProcessed := processed;
                      scanCalls := calls |}).

Definition streamWithOffsetAndLimit (bucket : S3Stream.Bucket) (fuel : nat)
           (fileName : string) (filters : SearchFilters.t)
           (skipCount limitCount : nat) : option (Completion FileScan) :=
  scan_loop bucket fileName filters skipCount limitCount fuel [] 0 0 [].

(** The state of [for (const fileName of filesToSearch)]. *)
Record PageScan := {
  results : list SewerInspection.t;
  recordsSkipped : nat;
  totalMatchesFound : nat;
  pageCalls : list S3Stream.DecodeCall
}.

Fixpoint scanFiles (bucket : S3Stream.Bucket) (fuel : nat)
         (filters : SearchFilters.t) (offset pageSize : nat)
         (files : list string) (st : PageScan)
  : option (Completion PageScan) :=
  match files with
  | [] => Some (Returned st)
  | fileName :: rest =>
      if pageSize <=? length (results st) then Some (Returned st)
      else
        match streamWithOffsetAndLimit bucket fuel fileName filters
                (offset - recordsSkipped st)
                (pageSize - length (results st))
        with
        | None => None
        | Some (Threw message) => Some (Threw message)
        | Some (Returned scan) =>
            scanFiles bucket fuel filters offset pageSize rest
              {| results := results st ++ matches scan;
                 recordsSkipped := recordsSkipped st + totalProcessed scan;
                 totalMatchesFound := totalMatchesFound st + length (matches scan);
                 pageCalls := pageCalls st ++ scanCalls scan |}
        end
  end.

(** The sampling loop of [estimateTotalCount]; [None] is the
    exception that its [catch] turns into [totalMatches]. *)
Fixpoint sampleFiles (bucket : S3Stream.Bucket) (filters : SearchFilters.t)
         (files : list string) (totalSampled totalMatches : nat)
  : nat * nat * bool :=
  match files with
  | [] => (totalSampled, totalMatches, false)
  | fileName :: rest =>
      match S3Stream.streamFromS3 bucket fileName sampleSize 0 with
      | None => (totalSampled, totalMatches, true)
      | Some sample =>
          let sampleMatches :=
            filter (fun inspection => matchesFilters inspection filters) sample in
          sampleFiles bucket filters rest
                      (totalSampled + length sample)
                      (totalMatches + length sampleMatches)
      end
  end.

(** [Math.round(matchRatio * estimatedFileSize * filesToSearch.length)]
    with [matchRatio = totalMatches / totalSampled]: a quotient and
    two products of Numbers, each rounded, from left to right. *)
Definition roundedEstimate (totalMatches totalSampled : nat) (files : Z) : nat :=
  let matchRatio :=
    Js.Number.div (Js.Number.ofZ (Z.of_nat totalMatches))
                  (Js.Number.ofZ (Z.of_nat totalSampled)) in
  Z.to_nat
    (Js.Number.Math_round
       (Js.Number.mul
          (Js.Number.mul matchRatio
                         (Js.Number.ofZ (Z.of_nat estimatedFileSize)))
          (Js.Number.ofZ files))).

Definition estimateTotalCount (bucket : S3Stream.Bucket)
           (filters : SearchFilters.t) (files : list string) : nat :=
  let '(totalSampled, totalMatches, threw) :=
    sampleFiles bucket filters files 0 0 in
  if threw then totalMatches
  else if totalSampled =? 0 then 0
  else Nat.max totalMatches
               (roundedEstimate totalMatches totalSampled (Js.length files)).

Definition initialScan : PageScan :=
  {| results := []; recordsSkipped := 0; totalMatchesFound := 0;
     pageCalls := [] |}.

(** The paging scan of [searchInspections], kept apart so that what
    it observed can be compared with what the search reports. *)
Definition pageScan (bucket : S3Stream.Bucket) (fuel : nat)
           (filters : SearchFilters.t) (page pageSize : nat)
  : option (Completion PageScan) :=
  scanFiles bucket fuel filters ((page - 1) * pageSize) pageSize
            filesToSearch initialScan.

Definition searchInspections (bucket : S3Stream.Bucket) (fuel : nat)
           (filters : SearchFilters.t) (page pageSize : nat)
  : option (Completion SearchResult.t) :=
  match pageScan bucket fuel filters page pageSize with
  | None => None
  | Some (Threw message) => Some (Threw ("Search failed: " ++ message)%string)
  | Some (Returned scan) =>
      Some (Returned
              {| SearchResult.results := results scan;
                 SearchResult.totalCount :=
                   estimateTotalCount bucket filters filesToSearch |})
  end.

End S3Search.

(* ================================================================== *)
(** * Import HTTP handler ([app/api/import/route.ts]) *)
(* ================================================================== *)

Module ImportRoute.

(** The module-level [currentImporter] and the importer objects that
    exist in the process, addressed by their position. *)
Record State := {
  heap : list DataImporter.t;
  currentImporter : option nat
}.

Definition initial : State := {| heap := []; currentImporter := None |}.

Record Response := { status : nat; message : string }.

Fixpoint update (objects : list DataImporter.t) (i : nat)
         (f : DataImporter.t -> DataImporter.t) : list DataImporter.t :=
  match objects, i with
  | [], _ => []
  | o :: rest, 0 => f o :: rest
  | o :: rest, S i' => o :: update rest i' f
  end.

(** [currentImporter && currentImporter.isImportRunning()]. *)
Definition guard (st : State) : bool :=
  match currentImporter st with
  | Some i =>
      match nth_error (heap st) i with
      | Some importer => DataImporter.isImportRunning importer
      | None => false
      end
  | None => false
  end.

(** The part of [importFromS3] that runs before its first [await],
    on the importer at position [i]. *)
Definition importFromS3_starts (objects : list DataImporter.t) (i : nat)
  : list DataImporter.t :=
  update objects i DataImporter.enter.

(** The part of [importAllFiles] that runs before its first [await]:
    unless a stop is pending it builds a new importer for the first
    file and calls [importFromS3] on that one. *)
Definition importAllFiles_starts (objects : list DataImporter.t) (i : nat)
  : list DataImporter.t :=
  match nth_error objects i with
  | Some this =>
      if DataImporter.shouldStop this then objects
      else importFromS3_starts (objects ++ [DataImporter.new]) (length objects)
  | None => objects
  end.

(** [startImport], with the request body already read: the handler
    runs from its guard to its response without interruption. *)
Definition startImport (st : State) (fileName : option string)
  : Response * State :=
  if guard st then
    ({| status := 409; message := "Import is already running" |}, st)
  else
    let i := length (heap st) in
    let created := heap st ++ [DataImporter.new] in
    let started :=
      if Js.truthy fileName then importFromS3_starts created i
      else importAllFiles_starts created i in
    ({| status := 200; message := "Import started successfully" |},
     {| heap := started; currentImporter := Some i |}).

(** The run of the importer at position [i] reaches its [finally]. *)
Definition runEnds (st : State) (i : nat) : State :=
  {| heap := update (heap st) i DataImporter.leave;
     currentImporter := currentImporter st |}.

(** Some import run is active in the process. *)
Definition importActive (st : State) : bool :=
  existsb DataImporter.isRunning (heap st).

End ImportRoute.

(* ================================================================== *)
(** * Vocabulary of the statements *)
(* ================================================================== *)

Module Spec.

(** The inspection rows and the checkpoint log a run currently sees,
    and its three counters. *)
Definition rows (st : Importer.Run) : list InspectionRow.t :=
  Database.inspections (World.db (Importer.world st)).

Definition log (st : Importer.Run) : list ImportLogRow.t :=
  Database.import_log (World.db (Importer.world st)).

Definition stopped (st : Importer.Run) : bool :=
  DataImporter.shouldStop (Importer.importer st).

Definition processed (st : Importer.Run) : nat :=
  ImportProgress.recordsProcessed (Importer.progress st).

Definition imported (st : Importer.Run) : nat :=
  ImportProgress.recordsImported (Importer.progress st).

Definition errors (st : Importer.Run) : nat :=
  ImportProgress.errors (Importer.progress st).

Definition row_ids (rs : list InspectionRow.t) : list string :=
  map InspectionRow.id rs.

(** The state in which a chunk arrives: the call is on the trace and
    the run has been suspended once. *)
Definition fetching (E : Env.t) (st : Importer.Run)
           (c : S3Stream.DecodeCall) : Importer.Run :=
  Importer.await E (Importer.record_call st c).

(** The key under which a record is stored. *)
Definition key (r : SewerInspection.t) : string :=
  InspectionRow.id (Sqlite.transformInspectionForDb r).

(** A record that the storage engine accepts is present in the rows. *)
Definition covered (faults : Sqlite.Faults) (rs : list InspectionRow.t)
           (r : SewerInspection.t) : Prop :=
  Sqlite.row_write_fails faults r = false -> In (key r) (row_ids rs).

(** No stop request arrives and no transaction fails. *)
Definition undisturbed (E : Env.t) : Prop :=
  (forall k, Env.stop_requested E k = false)
  /\ (forall k, Env.transaction_fails E k = false).

(** Every record of the object that can reach the duplicate filter
    carries an identifier. *)
Definition identified (options : ImportOptions.t)
           (lines : list S3Stream.Line) : Prop :=
  ImportOptions.validateData options = true
  \/ forall r, In (S3Stream.JsonLine r) lines ->
               SewerInspection.id r <> None.

(** The fields [validateRecord] insists on. *)
Definition complete (r : SewerInspection.t) : Prop :=
  Js.truthy (SewerInspection.id r) = true
  /\ Js.truthy (SewerInspection.city r) = true
  /\ Js.truthy (SewerInspection.state r) = true
  /\ Js.truthy (SewerInspection.material r) = true
  /\ SewerInspection.diameter_in r <> None
  /\ SewerInspection.inspection_score r <> None
  /\ SewerInspection.requires_repair r <> None.

(** A record the importer can store: it passes validation and the
    engine accepts it. *)
Definition storable (E : Env.t) (r : SewerInspection.t) : Prop :=
  complete r
  /\ Sqlite.row_write_fails (Env.faults E) r = false
  /\ Sqlite.defect_write_fails (Env.faults E) r = false.

(** The rows of the checkpoint log other than the one a run writes. *)
Definition others (logId : nat) (l : list ImportLogRow.t)
  : list ImportLogRow.t :=
  filter (fun row => negb (ImportLogRow.id row =? logId)) l.

(** The checkpoints [calculateResumeOffset] chooses from. *)
Definition checkpoint_of (fileName : string) (row : ImportLogRow.t) : bool :=
  String.eqb (ImportLogRow.source_file row) fileName
  && Importer.resumable (ImportLogRow.status row).

(** The matches among the records that a list of decode calls
    produced. *)
Definition records_of (calls : list S3Stream.DecodeCall)
  : list SewerInspection.t :=
  flat_map (fun c => match S3Stream.call_produced c with
                     | Some rs => rs
                     | None => []
                     end) calls.

Definition matches_seen (filters : SearchFilters.t)
           (calls : list S3Stream.DecodeCall) : nat :=
  length (filter (S3Search.scanPredicate filters) (records_of calls)).

(** Most recent first. *)
Definition newer_first {A} (key : A -> string) (a b : A) : Prop :=
  String.leb (key b) (key a) = true.

End Spec.

(* ================================================================== *)
(** * Concrete inputs *)
(* ================================================================== *)

Module Examples.

Definition part1 : string := "sewer-inspections-part1.jsonl".
Definition part2 : string := "sewer-inspections-part2.jsonl".

(** A record with every field set. *)
Definition inspection (i city state : string) (score : Z) (repair : bool)
  : SewerInspection.t :=
  {| SewerInspection.id := Some i;
     SewerInspection.timestamp_utc := "2024-03-01T10:00:00.000Z";
     SewerInspection.location :=
       Some {| Location.city := Some city; Location.state := Some state |};
     SewerInspection.pipe :=
       Some {| PipeDetails.material := Some "PVC"%string;
               PipeDetails.diameter_in := Some 8%Z |};
     SewerInspection.inspection_score := Some score;
     SewerInspection.requires_repair := Some repair |}.

Definition houston : SewerInspection.t := inspection "a" "Houston" "TX" 80 false.
Definition austin : SewerInspection.t := inspection "b" "Austin" "TX" 55 true.

(** A record that has the identifier, city, state, material, score
    and repair flag, but no pipe diameter. *)
Definition no_diameter : SewerInspection.t :=
  {| SewerInspection.id := Some "c"%string;
     SewerInspection.timestamp_utc := "2024-03-01T10:00:00.000Z";
     SewerInspection.location :=
       Some {| Location.city := Some "Dallas"%string;
               Location.state := Some "TX"%string |};
     SewerInspection.pipe :=
       Some {| PipeDetails.material := Some "VCP"%string;
               PipeDetails.diameter_in := None |};
     SewerInspection.inspection_score := Some 70%Z;
     SewerInspection.requires_repair := Some false |}.

(** The answer of the bucket for an object it does not hold. *)
Definition not_found : S3Stream.Failure := S3Stream.NotOk 404 "Not Found".

(** An environment in which only [part1] can be fetched, nothing
    fails and nobody asks to stop. *)
Definition env (lines : list S3Stream.Line) : Env.t :=
  {| Env.bucket :=
       {| S3Stream.object :=
            fun f => if String.eqb f part1 then Some lines else None;
          S3Stream.failure := fun _ => not_found |};
     Env.faults := Sqlite.no_faults;
     Env.transaction_fails := fun _ => false;
     Env.stop_requested := fun _ => false;
     Env.clock := fun _ => "2025-01-01T00:00:00.000Z"%string |}.

(** One malformed line followed by two valid records. *)
Definition malformed_then_two : list S3Stream.Line :=
  [ S3Stream.BadLine "{oops"; S3Stream.JsonLine houston;
    S3Stream.JsonLine austin ].

Definition two_records : list S3Stream.Line :=
  [ S3Stream.JsonLine houston; S3Stream.JsonLine austin ].

Definition checkpoint (i : nat) (file started : string) (n : nat)
           (s : ImportStatus) : ImportLogRow.t :=
  {| ImportLogRow.id := i;
     ImportLogRow.source_file := file;
     ImportLogRow.started_at := started;
     ImportLogRow.completed_at := None;
     ImportLogRow.records_processed := n;
     ImportLogRow.records_imported := n;
     ImportLogRow.errors := 0;
     ImportLogRow.status := s;
     ImportLogRow.error_message := None |}.

(** A log in which the most recent checkpoint of [part1] that is not
    completed stands at 200 records. *)
Definition interrupted_log : list ImportLogRow.t :=
  [ checkpoint 1 part1 "2024-05-01T08:00:00.000Z" 100 failed;
    checkpoint 2 part1 "2024-05-02T08:00:00.000Z" 200 paused;
    checkpoint 3 part1 "2024-05-03T08:00:00.000Z" 400 completed ].

(** A store with one inspection from the state "TX". *)
Definition texas_db : Database.t :=
  {| Database.inspections := [Sqlite.transformInspectionForDb houston];
     Database.import_log := [] |}.

Definition state_filter (s : string) : SearchFilters.t :=
  {| SearchFilters.city := None; SearchFilters.state := Some s;
     SearchFilters.material := None; SearchFilters.scoreMin := None;
     SearchFilters.scoreMax := None; SearchFilters.requiresRepair := None |}.

Definition needs_repair : SearchFilters.t :=
  {| SearchFilters.city := None; SearchFilters.state := None;
     SearchFilters.material := None; SearchFilters.scoreMin := None;
     SearchFilters.scoreMax := None; SearchFilters.requiresRepair := Some true |}.

(** Five reachable objects, the first of which holds the given lines
    and the others nothing. *)
Definition only_part1 (lines : list S3Stream.Line) : S3Stream.Bucket :=
  {| S3Stream.object :=
       fun f => if String.eqb f part1 then Some lines else Some [];
     S3Stream.failure := fun _ => not_found |}.

(** 500 records that need no repair followed by one that does. *)
Definition late_match : list S3Stream.Line :=
  repeat (S3Stream.JsonLine houston) 500 ++ [S3Stream.JsonLine austin].

(** 20 records, all of which need repair. *)
Definition twenty_matches : list S3Stream.Line :=
  repeat (S3Stream.JsonLine austin) 20.

Definition interrupted_world : World.t :=
  World.initial {| Database.inspections := [];
                   Database.import_log := interrupted_log |}.

End Examples.

(* ================================================================== *)
(** * The remaining entry points of the importer
      ([lib/database/importer.ts]) *)
(* ================================================================== *)

Module ImportRuns.

Definition cannotResume (fileName : string) : string :=
  ("Cannot resume import for " ++ fileName
   ++ " - no incomplete import found")%string.

(** [resumeImport]: throws unless a checkpoint of the file stands
    at a positive count. *)
Definition resumeImport (E : Env.t) (options : ImportOptions.t) (fuel : nat)
           (w : World.t) (this : DataImporter.t) (fileName : string)
  : option (Completion Importer.Run) :=
  if Importer.canResumeImport (Database.import_log (World.db w)) fileName
  then
    match Importer.importFromS3 E options fuel w this fileName true with
    | None => None
    | Some run => Some (Returned run)
    end
  else Some (Threw (cannotResume fileName)).

Definition files : list string :=
  [ "sewer-inspections-part1.jsonl"%string;
    "sewer-inspections-part2.jsonl"%string;
    "sewer-inspections-part3.jsonl"%string;
    "sewer-inspections-part4.jsonl"%string;
    "sewer-inspections-part5.jsonl"%string ].

(** [stop()] reaches the object it is called on.  The importer that
    [importAllFiles] creates for a file is a local of the loop body,
    so no stop request reaches it: its run sees this environment. *)
Definition out_of_reach (E : Env.t) : Env.t :=
  {| Env.bucket := Env.bucket E;
     Env.faults := Env.faults E;
     Env.transaction_fails := Env.transaction_fails E;
     Env.stop_requested := fun _ => false;
     Env.clock := Env.clock E |}.

(** A stop request arrives at one of the awaits numbered from [a]
    up to, but not including, [b]. *)
Definition stop_between (E : Env.t) (a b : nat) : bool :=
  existsb (Env.stop_requested E) (seq a (b - a)).

(** The state of [for (let i = 0; i < files.length; i++)]: the
    world, the flags of the importer [importAllFiles] was called on,
    and [results]. *)
Record AllFiles := {
  after : World.t;
  outer : DataImporter.t;
  results : list ImportProgress.t
}.

Definition is_failed (s : ImportStatus) : bool :=
  match s with failed => true | _ => false end.

Fixpoint importAllFiles_loop (E : Env.t) (options : ImportOptions.t)
         (fuel : nat) (remaining : list string) (st : AllFiles)
  : option AllFiles :=
  match remaining with
  | [] => Some st
  | fileName :: rest =>
      if DataImporter.shouldStop (outer st) then Some st
      else
        match Importer.importFromS3 (out_of_reach E) options fuel (after st)
                DataImporter.new fileName false
        with
        | None => None
        | Some run =>
            let result := Importer.progress run in
            let st' :=
              {| after := Importer.world run;
                 outer :=
                   {| DataImporter.isRunning :=
                        DataImporter.isRunning (outer st);
                      DataImporter.shouldStop :=
                        DataImporter.shouldStop (outer st)
                        || stop_between E (World.awaits (after st))
                             (World.awaits (Importer.world run)) |};
                 results := results st ++ [result] |} in
            if is_failed (ImportProgress.status result) then Some st'
            else importAllFiles_loop E options fuel rest st'
        end
  end.

Definition importAllFiles (E : Env.t) (options : ImportOptions.t)
           (fuel : nat) (w : World.t) (this : DataImporter.t)
  : option AllFiles :=
  importAllFiles_loop E options fuel files
    {| after := w; outer := this; results := [] |}.

(** [syncWithS3] ignores its argument and imports every file. *)
Definition syncWithS3 (E : Env.t) (options : ImportOptions.t)
           (fuel : nat) (w : World.t) (this : DataImporter.t)
  : option AllFiles :=
  importAllFiles E options fuel w this.

(** [DELETE FROM import_log WHERE started_at < ? AND status IN
    ('completed', 'failed')], with the cut-off date as the ISO string
    it is bound as. *)
Definition expired (cutoffDate : string) (row : ImportLogRow.t) : bool :=
  (ImportLogRow.started_at row <? cutoffDate)%string
  && match ImportLogRow.status row with
     | completed | failed => true
     | running | paused => false
     end.

(** [clearImportHistory]: the log that is left and [result.changes]. *)
Definition clearImportHistory (log : list ImportLogRow.t)
           (cutoffDate : string) : list ImportLogRow.t * nat :=
  (filter (fun row => negb (expired cutoffDate row)) log,
   length (filter (expired cutoffDate) log)).

End ImportRuns.

(* ================================================================== *)
(** * The other actions of the import handler
      ([app/api/import/route.ts]) *)
(* ================================================================== *)

Module ImportControl.

(** [stopImport]. *)
Definition stopImport (st : ImportRoute.State)
  : ImportRoute.Response * ImportRoute.State :=
  if negb (ImportRoute.guard st) then
    ({| ImportRoute.status := 404;
        ImportRoute.message := "No import is currently running" |}, st)
  else
    ({| ImportRoute.status := 200;
        ImportRoute.message := "Import stop requested" |},
     {| ImportRoute.heap :=
          match ImportRoute.currentImporter st with
          | Some i => ImportRoute.update (ImportRoute.heap st) i DataImporter.stop
          | None => ImportRoute.heap st
          end;
        ImportRoute.currentImporter := ImportRoute.currentImporter st |}).

Record Status := { isRunning : bool; message : string }.

(** [getImportStatus]. *)
Definition getImportStatus (st : ImportRoute.State) : Status :=
  let running := ImportRoute.guard st in
  {| isRunning := running;
     message := if running then "Import in progress"%string
                else "No import running"%string |}.

(** The importer the handler holds, if any. *)
Definition held (st : ImportRoute.State) : option DataImporter.t :=
  match ImportRoute.currentImporter st with
  | Some i => nth_error (ImportRoute.heap st) i
  | None => None
  end.

End ImportControl.

(* ================================================================== *)
(** * Search HTTP handler ([app/api/search/route.ts]) *)
(* ================================================================== *)

Module SearchRoute.

Definition pageSize : Z := 10.









End SearchRoute.

(* ================================================================== *)
(** * Further vocabulary *)
(* ================================================================== *)

Module Facts.

(** An object none of whose lines is malformed. *)
Definition clean (lines : list S3Stream.Line) : Prop :=
  forall text, ~ In (S3Stream.BadLine text) lines.

(** The records of an object, in the order of its lines. *)
Definition records (lines : list S3Stream.Line) : list SewerInspection.t :=
  S3Stream.parsed (S3Stream.nonblank lines).

(** No transaction fails. *)
Definition commits (E : Env.t) : Prop :=
  forall k, Env.transaction_fails E k = false.

(** No stop request arrives from await [a] on. *)
Definition quiet_from (E : Env.t) (a : nat) : Prop :=
  forall k, a <= k -> Env.stop_requested E k = false.

(** The rows of a list of records. *)
Definition rows_of (rs : list SewerInspection.t) : list InspectionRow.t :=
  map Sqlite.transformInspectionForDb rs.

(** A record whose timestamp is in one of the forms that
    [Js.parseDateTime] reads. *)
Definition dated (r : SewerInspection.t) : Prop :=
  Js.parseDateTime (SewerInspection.timestamp_utc r) <> None.

(** The record as the store hands it back: the timestamp is in the
    form of [toISOString], everything else is as it was. *)
Definition stored (r : SewerInspection.t) : SewerInspection.t :=
  {| SewerInspection.id := SewerInspection.id r;
     SewerInspection.timestamp_utc :=
       Js.toISOString (SewerInspection.timestamp_utc r);
     SewerInspection.location := SewerInspection.location r;
     SewerInspection.pipe := SewerInspection.pipe r;
     SewerInspection.inspection_score := SewerInspection.inspection_score r;
     SewerInspection.requires_repair := SewerInspection.requires_repair r |}.

(** A text of ASCII characters, if there is one. *)
Definition ascii_text (value : option string) : Prop :=
  forall s, value = Some s -> Js.isAscii s = true.

(** A search without any filter. *)
Definition unfiltered : SearchFilters.t :=
  {| SearchFilters.city := None; SearchFilters.state := None;
     SearchFilters.material := None; SearchFilters.scoreMin := None;
     SearchFilters.scoreMax := None; SearchFilters.requiresRepair := None |}.

(** A text without the wildcards of [LIKE]. *)
Definition literal (s : string) : bool :=
  forallb (fun c => negb (Ascii.eqb c "%"%char || Ascii.eqb c "_"%char))
          (list_ascii_of_string s).

Definition literal_filter (value : option string) : Prop :=
  forall s, value = Some s -> literal s = true.

(** The slice of the matches that a scan with [skipCount] and
    [limitCount] is after. *)
Definition slice_of {A} (skipCount limitCount : nat) (found : list A)
  : list A :=
  firstn limitCount (skipn skipCount found).

(** The number of awaits a run has passed. *)
Definition awaits (st : Importer.Run) : nat :=
  World.awaits (Importer.world st).

(** A record of the object. *)
Definition in_file (E : Env.t) (fileName : string) (r : SewerInspection.t)
  : Prop :=
  exists lines,
    Env.bucket E fileName = Some lines /\ In (S3Stream.JsonLine r) lines.

(** Between two states of a run the stop flag is raised exactly by
    the requests that arrive at the awaits in between. *)
Definition passes (E : Env.t) (st st' : Importer.Run) : Prop :=
  awaits st <= awaits st'
  /\ Spec.stopped st'
     = Spec.stopped st || ImportRuns.stop_between E (awaits st) (awaits st').

(** How the three counters move between two states of a run. *)
Definition counts (E : Env.t) (st st' : Importer.Run) : Prop :=
  exists dp di de,
    Spec.processed st' = Spec.processed st + dp
    /\ Spec.imported st' = Spec.imported st + di
    /\ Spec.errors st' = Spec.errors st + de
    /\ di <= dp /\ dp <= di + de
    /\ (commits E -> dp = di + de).

(** A key under which the run may have written a row: that of a
    record of the object which the engine accepts and which, with
    validation on, is complete. *)
Definition written (E : Env.t) (options : ImportOptions.t)
           (fileName : string) (i : string) : Prop :=
  exists r,
    in_file E fileName r /\ Spec.key r = i
    /\ Sqlite.row_write_fails (Env.faults E) r = false
    /\ (ImportOptions.validateData options = true -> Spec.complete r).

(** The engine accepts the record and its defects, so that
    [insertInspection] reports a change. *)
Definition accepts (faults : Sqlite.Faults) (r : SewerInspection.t) : bool :=
  negb (Sqlite.row_write_fails faults r)
  && negb (Sqlite.defect_write_fails faults r).

(** The number of records of a list that a run without the duplicate
    filter writes. *)
Definition writes (E : Env.t) (options : ImportOptions.t)
           (records : list SewerInspection.t) : nat :=
  length (filter (accepts (Env.faults E))
                 (Importer.validBatch options records)).

(** The store holds, under the identifier of the record, the row of
    a record of the object. *)
Definition upserted (E : Env.t) (fileName : string)
           (rs : list InspectionRow.t) (r : SewerInspection.t) : Prop :=
  exists r',
    in_file E fileName r' /\ Spec.key r' = Spec.key r
    /\ In (Sqlite.transformInspectionForDb r') rs.

(** Rows are neither removed nor duplicated, and the new ones are
    written from the object. *)
Definition grows (E : Env.t) (options : ImportOptions.t)
           (fileName : string) (st st' : Importer.Run) : Prop :=
  (forall i, In i (Spec.row_ids (Spec.rows st)) ->
             In i (Spec.row_ids (Spec.rows st')))
  /\ (NoDup (Spec.row_ids (Spec.rows st)) ->
      NoDup (Spec.row_ids (Spec.rows st')))
  /\ (forall i, In i (Spec.row_ids (Spec.rows st')) ->
                In i (Spec.row_ids (Spec.rows st))
                \/ written E options fileName i).

(** The log of a run is the log it found followed by its own row. *)
Definition own_row (logId : nat) (fileName : string)
           (old : list ImportLogRow.t) (st : Importer.Run)
           (row : ImportLogRow.t) : Prop :=
  Spec.log st = old ++ [row]
  /\ ImportLogRow.id row = logId
  /\ ImportLogRow.source_file row = fileName
  /\ Forall (fun other => ImportLogRow.id other <> logId) old.

Definition logs (logId : nat) (old : list ImportLogRow.t)
           (st st' : Importer.Run) : Prop :=
  forall fileName row,
    own_row logId fileName old st row ->
    exists row', own_row logId fileName old st' row'.


(** A log without a checkpoint of the file. *)
Definition no_checkpoint (log : list ImportLogRow.t) (fileName : string)
  : Prop :=
  filter (Spec.checkpoint_of fileName) log = [].

End Facts.

(* ================================================================== *)
(** * Further concrete inputs *)
(* ================================================================== *)

Module Scenarios.

(** A record whose timestamp is written without milliseconds. *)
Definition dallas : SewerInspection.t :=
  {| SewerInspection.id := Some "d"%string;
     SewerInspection.timestamp_utc := "2024-01-15T10:30:00Z";
     SewerInspection.location :=
       Some {| Location.city := Some "Dallas"%string;
               Location.state := Some "TX"%string |};
     SewerInspection.pipe :=
       Some {| PipeDetails.material := Some "VCP"%string;
               PipeDetails.diameter_in := Some 12%Z |};
     SewerInspection.inspection_score := Some 64%Z;
     SewerInspection.requires_repair := Some true |}.

(** A record without identifier. *)
Definition nameless : SewerInspection.t :=
  {| SewerInspection.id := None;
     SewerInspection.timestamp_utc := "2024-03-01T10:00:00.000Z";
     SewerInspection.location :=
       Some {| Location.city := Some "Waco"%string;
               Location.state := Some "TX"%string |};
     SewerInspection.pipe :=
       Some {| PipeDetails.material := Some "PVC"%string;
               PipeDetails.diameter_in := Some 8%Z |};
     SewerInspection.inspection_score := Some 90%Z;
     SewerInspection.requires_repair := Some false |}.

(** A store that holds an older row under the identifier of
    [Examples.houston]. *)
Definition stale_db : Database.t :=
  {| Database.inspections :=
       [Sqlite.transformInspectionForDb
          (Examples.inspection "a" "Old Town" "TX" 10 true)];
     Database.import_log := [] |}.

(** The default options without validation. *)
Definition unvalidated : ImportOptions.t :=
  {| ImportOptions.batchSize := 100;
     ImportOptions.skipDuplicates := true;
     ImportOptions.validateData := false |}.

(** The default options without the duplicate filter. *)
Definition unfiltered_import : ImportOptions.t :=
  {| ImportOptions.batchSize := 100;
     ImportOptions.skipDuplicates := false;
     ImportOptions.validateData := true |}.

(** A search for a part of the city name and of the material, in
    another case than the data has them. *)
Definition hous_pv : SearchFilters.t :=
  {| SearchFilters.city := Some "hOUS"%string;
     SearchFilters.state := None;
     SearchFilters.material := Some "pv"%string;
     SearchFilters.scoreMin := None;
     SearchFilters.scoreMax := None;
     SearchFilters.requiresRepair := None |}.

(** One record per batch. *)
Definition one_by_one : ImportOptions.t :=
  {| ImportOptions.batchSize := 1;
     ImportOptions.skipDuplicates := true;
     ImportOptions.validateData := true |}.

(** [Examples.env] with a stop request that arrives at await [k]. *)
Definition stop_at (k : nat) (lines : list S3Stream.Line) : Env.t :=
  {| Env.bucket := Env.bucket (Examples.env lines);
     Env.faults := Sqlite.no_faults;
     Env.transaction_fails := fun _ => false;
     Env.stop_requested := fun n => n =? k;
     Env.clock := Env.clock (Examples.env lines) |}.

(** Every object holds the same two records. *)
Definition everywhere (lines : list S3Stream.Line) : Env.t :=
  {| Env.bucket :=
       {| S3Stream.object := fun _ => Some lines;
          S3Stream.failure := fun _ => Examples.not_found |};
     Env.faults := Sqlite.no_faults;
     Env.transaction_fails := fun _ => false;
     Env.stop_requested := fun _ => false;
     Env.clock := Env.clock (Examples.env lines) |}.

End Scenarios.

(* ================================================================== *)
(** * Proofs *)
(* ================================================================== *)

Unset Implicit Arguments.

(* ================================================================== *)
(** * Properties of the decoder *)
(* ================================================================== *)

Section DecoderFacts.
Import S3Stream.

Lemma scan_spec lines : forall limit offset skipped collected results,
  skipped <= offset ->
  scan lines limit offset skipped collected results
  = results ++ firstn (limit - collected)
                      (parsed (skipn (offset - skipped) (nonblank lines))).
Proof.
  induction lines as [|line rest IH]; intros limit offset skipped collected results Hle.
  - simpl. rewrite skipn_nil. simpl. rewrite firstn_nil, app_nil_r. reflexivity.
  - destruct line as [|text|r].
    + simpl. apply IH; assumption.
    + simpl. destruct (Nat.ltb_spec skipped offset) as [Hlt|Hge].
      * rewrite IH by lia.
        replace (offset - skipped) with (S (offset - S skipped)) by lia.
        reflexivity.
      * replace (offset - skipped) with 0 by lia. simpl.
        destruct (Nat.ltb_spec collected limit) as [Hc|Hc].
        -- rewrite IH by lia. replace (offset - skipped) with 0 by lia.
           reflexivity.
        -- replace (limit - collected) with 0 by lia. simpl.
           rewrite app_nil_r. reflexivity.
    + simpl. destruct (Nat.ltb_spec skipped offset) as [Hlt|Hge].
      * rewrite IH by lia.
        replace (offset - skipped) with (S (offset - S skipped)) by lia.
        reflexivity.
      * replace (offset - skipped) with 0 by lia. simpl.
        destruct (Nat.ltb_spec collected limit) as [Hc|Hc].
        -- rewrite IH by lia. replace (offset - skipped) with 0 by lia.
           replace (limit - collected) with (S (limit - S collected)) by lia.
           simpl. rewrite <- app_assoc. reflexivity.
        -- replace (limit - collected) with 0 by lia. simpl.
           rewrite app_nil_r. reflexivity.
Qed.

(** A decode call returns the window of the object it asks for. *)
Lemma streamFromS3_window (bucket : Bucket) fileName lines limit offset :
  bucket fileName = Some lines ->
  streamFromS3 bucket fileName limit offset = Some (window lines limit offset).
Proof.
  intros Hb. unfold streamFromS3, window. rewrite Hb.
  rewrite scan_spec by lia. rewrite !Nat.sub_0_r. reflexivity.
Qed.

Lemma parsed_length lines : length (parsed lines) <= length lines.
Proof.
  induction lines as [|[|t|r] rest IH]; simpl; lia.
Qed.

Lemma nonblank_length lines : length (nonblank lines) <= length lines.
Proof. unfold nonblank. apply filter_length_le. Qed.

Lemma window_length_limit lines limit offset :
  length (window lines limit offset) <= limit.
Proof. unfold window. rewrite length_firstn. lia. Qed.

Lemma window_length_rest lines limit offset :
  length (window lines limit offset) <= length lines - offset.
Proof.
  unfold window. rewrite length_firstn.
  pose proof (parsed_length (skipn offset (nonblank lines))) as Hp.
  rewrite length_skipn in Hp.
  pose proof (nonblank_length lines). lia.
Qed.

Lemma parsed_In lines r : In r (parsed lines) <-> In (JsonLine r) lines.
Proof.
  induction lines as [|[|t|r'] rest IH]; simpl.
  - tauto.
  - rewrite IH. split; [auto|]. intros [H|H]; [discriminate|exact H].
  - rewrite IH. split; [auto|]. intros [H|H]; [discriminate|exact H].
  - rewrite IH. split.
    + intros [->|H]; auto.
    + intros [H|H]; [inversion H; auto|auto].
Qed.

Lemma skipn_In {A} n (l : list A) x : In x (skipn n l) -> In x l.
Proof.
  revert l. induction n as [|n IH]; intros [|y l]; simpl; auto.
Qed.

Lemma firstn_In {A} n (l : list A) x : In x (firstn n l) -> In x l.
Proof.
  revert l. induction n as [|n IH]; intros [|y l]; simpl; auto.
  - intros [].
  - intros [H|H]; auto.
Qed.

(** Every record of a window is a record line of the object. *)
Lemma window_In lines limit offset r :
  In r (window lines limit offset) -> In (JsonLine r) lines.
Proof.
  unfold window. intros H. apply firstn_In in H. apply parsed_In in H.
  apply skipn_In in H. unfold nonblank in H. apply filter_In in H. tauto.
Qed.

End DecoderFacts.

(* ================================================================== *)
(** * Properties of the store *)
(* ================================================================== *)

Section StoreFacts.
Import Sqlite Spec.

Variable faults : Faults.

(** Dropping rows keeps the identifiers distinct. *)
Lemma row_ids_filter_NoDup (keep : InspectionRow.t -> bool) rs :
  NoDup (row_ids rs) -> NoDup (row_ids (filter keep rs)).
Proof.
  unfold row_ids. induction rs as [|row rs IH]; simpl; intros Hdistinct.
  - constructor.
  - apply NoDup_cons_iff in Hdistinct. destruct Hdistinct as [Hfresh Hrest].
    destruct (keep row); simpl; [|apply IH; exact Hrest].
    apply NoDup_cons_iff. split; [|apply IH; exact Hrest].
    intros Hin. apply Hfresh.
    apply in_map_iff in Hin. destruct Hin as [other [Hid Hin]].
    apply filter_In in Hin. apply in_map_iff. exists other. tauto.
Qed.

Lemma NoDup_snoc {A} (l : list A) (x : A) :
  NoDup l -> ~ In x l -> NoDup (l ++ [x]).
Proof.
  induction l as [|y l IH]; simpl; intros Hl Hx.
  - constructor; [intros []|constructor].
  - inversion Hl; subst. constructor.
    + rewrite in_app_iff. simpl. intros [H|[H|[]]]; [tauto|subst; tauto].
    + apply IH; tauto.
Qed.

Lemma insert_or_replace_keeps row rs i :
  In i (row_ids rs) -> In i (row_ids (insert_or_replace row rs)).
Proof.
  unfold row_ids, insert_or_replace. intros Hin.
  rewrite map_app, in_app_iff. simpl.
  destruct (String.eqb_spec i (InspectionRow.id row)) as [->|Hne]; [auto|].
  left. apply in_map_iff in Hin. destruct Hin as [old [Hid Hin]].
  apply in_map_iff. exists old. split; [exact Hid|].
  apply filter_In. split; [exact Hin|].
  apply negb_true_iff. apply String.eqb_neq. congruence.
Qed.

Lemma insert_or_replace_adds row rs :
  In (InspectionRow.id row) (row_ids (insert_or_replace row rs)).
Proof.
  unfold row_ids, insert_or_replace. rewrite map_app, in_app_iff.
  simpl. auto.
Qed.

(** The conflict key: an upsert never leaves two rows with one
    identifier. *)
Lemma insert_or_replace_NoDup row rs :
  NoDup (row_ids rs) -> NoDup (row_ids (insert_or_replace row rs)).
Proof.
  unfold row_ids, insert_or_replace. intros H. rewrite map_app. simpl.
  apply NoDup_snoc.
  - apply (row_ids_filter_NoDup _ rs H).
  - intros Hin. apply in_map_iff in Hin. destruct Hin as [old [Hid Hin]].
    apply filter_In in Hin. destruct Hin as [_ Hne].
    apply negb_true_iff in Hne. apply String.eqb_neq in Hne. congruence.
Qed.

Lemma insertInspection_keeps rs r i :
  In i (row_ids rs) -> In i (row_ids (fst (insertInspection faults rs r))).
Proof.
  unfold insertInspection. intros H.
  destruct (row_write_fails faults r); simpl; [exact H|].
  destruct (defect_write_fails faults r); simpl;
    apply insert_or_replace_keeps; exact H.
Qed.

Lemma insertInspection_NoDup rs r :
  NoDup (row_ids rs) -> NoDup (row_ids (fst (insertInspection faults rs r))).
Proof.
  unfold insertInspection. intros H.
  destruct (row_write_fails faults r); simpl; [exact H|].
  destruct (defect_write_fails faults r); simpl;
    apply insert_or_replace_NoDup; exact H.
Qed.

Lemma insertInspection_covers rs r :
  covered faults (fst (insertInspection faults rs r)) r.
Proof.
  unfold covered, insertInspection. intros Hok. rewrite Hok.
  destruct (defect_write_fails faults r); simpl;
    apply insert_or_replace_adds.
Qed.

Lemma insertInspection_refused rs r :
  row_write_fails faults r = true ->
  insertInspection faults rs r = (rs, None).
Proof. unfold insertInspection. intros ->. reflexivity. Qed.

Lemma insert_each_step rs r rest n :
  insert_each faults rs (r :: rest) n
  = insert_each faults (fst (insertInspection faults rs r)) rest
      (match snd (insertInspection faults rs r) with
       | Some true => S n
       | _ => n
       end).
Proof.
  simpl. destruct (insertInspection faults rs r) as [rs' [[|]|]]; reflexivity.
Qed.

Lemma insert_each_keeps batch : forall rs n i,
  In i (row_ids rs) -> In i (row_ids (fst (insert_each faults rs batch n))).
Proof.
  induction batch as [|r rest IH]; intros rs n i H.
  - exact H.
  - rewrite insert_each_step. apply IH. apply insertInspection_keeps. exact H.
Qed.

Lemma insert_each_NoDup batch : forall rs n,
  NoDup (row_ids rs) -> NoDup (row_ids (fst (insert_each faults rs batch n))).
Proof.
  induction batch as [|r rest IH]; intros rs n H.
  - exact H.
  - rewrite insert_each_step. apply IH. apply insertInspection_NoDup. exact H.
Qed.

Lemma insert_each_covers batch : forall rs n r,
  In r batch -> covered faults (fst (insert_each faults rs batch n)) r.
Proof.
  induction batch as [|r0 rest IH]; intros rs n r Hin.
  - destruct Hin.
  - rewrite insert_each_step. destruct Hin as [->|Hin].
    + intros Hok. apply insert_each_keeps.
      apply insertInspection_covers. exact Hok.
    + apply IH. exact Hin.
Qed.

(** The count a transaction returns is bounded by the batch. *)
Lemma insert_each_count batch : forall rs n,
  n <= snd (insert_each faults rs batch n)
  /\ snd (insert_each faults rs batch n) <= n + length batch.
Proof.
  induction batch as [|r rest IH]; intros rs n.
  - simpl. lia.
  - rewrite insert_each_step. simpl length.
    destruct (snd (insertInspection faults rs r)) as [[|]|];
      match goal with
      | |- context [insert_each faults ?a rest ?b] =>
          specialize (IH a b)
      end; lia.
Qed.

(** When the engine accepts every record, the count is the batch
    length. *)
Lemma insert_each_all batch : forall rs n,
  (forall r, In r batch -> row_write_fails faults r = false
                           /\ defect_write_fails faults r = false) ->
  snd (insert_each faults rs batch n) = n + length batch.
Proof.
  induction batch as [|r rest IH]; intros rs n Hok.
  - simpl. lia.
  - rewrite insert_each_step.
    destruct (Hok r (or_introl eq_refl)) as [Hr Hd].
    unfold insertInspection at 2. rewrite Hr, Hd. simpl snd.
    rewrite IH by (intros; apply Hok; right; assumption).
    simpl. lia.
Qed.

(** When the engine refuses every record, nothing changes. *)
Lemma insert_each_refused batch : forall rs n,
  (forall r, In r batch -> row_write_fails faults r = true) ->
  insert_each faults rs batch n = (rs, n).
Proof.
  induction batch as [|r rest IH]; intros rs n Hall.
  - reflexivity.
  - rewrite insert_each_step.
    rewrite insertInspection_refused by (apply Hall; left; reflexivity).
    simpl. apply IH. intros; apply Hall; right; assumption.
Qed.

End StoreFacts.

(* ================================================================== *)
(** * Properties of the importer: batches and the duplicate filter *)
(* ================================================================== *)

Section BatchFacts.
Import Importer Spec.

Lemma slice_In {A} (l : list A) i j x : In x (Js.slice l i j) -> In x l.
Proof.
  unfold Js.slice. intros H. apply firstn_In in H. apply skipn_In in H.
  exact H.
Qed.

Lemma createBatches_loop_total {A} (array : list A) batchSize :
  0 < batchSize ->
  forall fuel i batches,
    length array - i <= fuel ->
    exists more,
      createBatches_loop fuel array batchSize i batches = Some (batches ++ more)
      /\ forall b x, In b more -> In x b -> In x array.
Proof.
  intros Hpos. induction fuel as [|fuel IH]; intros i batches Hfuel.
  - exists []. simpl. destruct (Nat.ltb_spec i (length array)); [lia|].
    rewrite app_nil_r. split; [reflexivity|]. intros b x [].
  - simpl. destruct (Nat.ltb_spec i (length array)) as [Hlt|Hge].
    + destruct (IH (i + batchSize)
                   (batches ++ [Js.slice array i (i + batchSize)]))
        as [more [Hloop Hin]]; [lia|].
      exists (Js.slice array i (i + batchSize) :: more).
      rewrite Hloop, <- app_assoc. split; [reflexivity|].
      intros b x [<-|Hb] Hx; [eapply slice_In; eassumption|eauto].
    + exists []. rewrite app_nil_r. split; [reflexivity|]. intros b x [].
Qed.

(** With a positive batch size [createBatches] terminates, and every
    batch is cut out of the chunk. *)
Lemma createBatches_total {A} (array : list A) batchSize :
  0 < batchSize ->
  exists batches,
    createBatches array batchSize = Some batches
    /\ forall b x, In b batches -> In x b -> In x array.
Proof.
  intros Hpos. unfold createBatches.
  destruct (@createBatches_loop_total A array batchSize Hpos (length array) 0 [])
    as [more [H Hin]]; [lia|].
  exists more. split; [exact H|exact Hin].
Qed.

Lemma key_of_identified r i :
  SewerInspection.id r = Some i -> key r = i.
Proof.
  unfold key. simpl. intros ->. simpl.
  destruct (String.eqb_spec i EmptyString); congruence.
Qed.

Lemma existsb_eqb_In (i : string) (l : list string) :
  existsb (String.eqb i) l = true <-> In i l.
Proof.
  rewrite existsb_exists. split.
  - intros [x [Hin Heq]]. apply String.eqb_eq in Heq. subst. exact Hin.
  - intros Hin. exists i. split; [exact Hin|apply String.eqb_refl].
Qed.

Lemma filterDuplicates_incl rs records r :
  In r (filterDuplicates rs records) -> In r records.
Proof.
  unfold filterDuplicates. destruct records as [|r0 rest]; [auto|].
  intros H. apply filter_In in H. tauto.
Qed.

Lemma filterDuplicates_length rs records :
  length (filterDuplicates rs records) <= length records.
Proof.
  unfold filterDuplicates. destruct records as [|r0 rest]; [auto|].
  apply filter_length_le.
Qed.

Lemma has_In (existing : list string) (i : string) :
  has existing (Some i) = true <-> In i existing.
Proof. unfold has. apply existsb_eqb_In. Qed.

Lemma existingIds_In rs (ids : list (option string)) (i : string) :
  In i (map InspectionRow.id
            (filter (fun row => existsb (has [InspectionRow.id row]) ids) rs))
  <-> In i (row_ids rs) /\ In (Some i) ids.
Proof.
  rewrite in_map_iff. split.
  - intros [row [Hid Hin]]. apply filter_In in Hin. destruct Hin as [Hin Hex].
    subst i. split; [apply in_map; exact Hin|].
    apply existsb_exists in Hex. destruct Hex as [[j|] [Hj Hhas]].
    + apply has_In in Hhas. destruct Hhas as [<-|[]]. exact Hj.
    + discriminate.
  - intros [Hin Hids]. apply in_map_iff in Hin. destruct Hin as [row [Hid Hin]].
    exists row. split; [exact Hid|]. apply filter_In. split; [exact Hin|].
    apply existsb_exists. exists (Some i). split; [exact Hids|].
    apply has_In. left. exact Hid.
Qed.

(** A record with an identifier that survives the duplicate filter is
    not in the store. *)
Lemma filterDuplicates_fresh rs records r :
  SewerInspection.id r <> None ->
  In r (filterDuplicates rs records) ->
  ~ In (key r) (row_ids rs).
Proof.
  intros Hid Hin Hkey.
  assert (Hr : In r records) by (eapply filterDuplicates_incl; eassumption).
  destruct (SewerInspection.id r) as [i|] eqn:Ei; [clear Hid|congruence].
  rewrite (key_of_identified r i Ei) in Hkey.
  unfold filterDuplicates in Hin. destruct records as [|r0 rest]; [destruct Hin|].
  apply filter_In in Hin. destruct Hin as [_ Hnot].
  apply negb_true_iff in Hnot. rewrite Ei in Hnot.
  assert (Hhas : has (map InspectionRow.id
            (filter (fun row => existsb (has [InspectionRow.id row])
                                  (map SewerInspection.id (r0 :: rest))) rs))
            (Some i) = true).
  { apply has_In. apply existingIds_In. split; [exact Hkey|].
    rewrite <- Ei. apply in_map. exact Hr. }
  congruence.
Qed.

(** A record of the batch either survives the duplicate filter or is
    already in the store. *)
Lemma filterDuplicates_dropped rs records r :
  In r records ->
  In r (filterDuplicates rs records) \/ In (key r) (row_ids rs).
Proof.
  intros Hr. unfold filterDuplicates.
  destruct records as [|r0 rest]; [destruct Hr|].
  match goal with
  | |- In r (filter ?p _) \/ _ => destruct (p r) eqn:Ekeep
  end.
  - left. apply filter_In. split; assumption.
  - right. apply negb_false_iff in Ekeep.
    destruct (SewerInspection.id r) as [i|] eqn:Ei; [|discriminate].
    rewrite (key_of_identified r i Ei).
    apply has_In in Ekeep. apply existingIds_In in Ekeep. tauto.
Qed.

(** The duplicate filter keeps a record exactly when it has no
    identifier or its identifier is not in the store. *)
Lemma filterDuplicates_keeps rs records r :
  In r (filterDuplicates rs records)
  <-> In r records
      /\ forall i, SewerInspection.id r = Some i -> ~ In i (row_ids rs).
Proof.
  split.
  - intros Hin. split; [eapply filterDuplicates_incl; exact Hin|].
    intros i Hi. rewrite <- (key_of_identified r i Hi).
    apply (filterDuplicates_fresh rs records r); [congruence|exact Hin].
  - intros [Hr Hnew].
    destruct (filterDuplicates_dropped rs records r Hr) as [H|H]; [exact H|].
    destruct (SewerInspection.id r) as [i|] eqn:Ei.
    + rewrite (key_of_identified r i Ei) in H. destruct (Hnew i eq_refl H).
    + unfold filterDuplicates. destruct records as [|r0 rest]; [destruct Hr|].
      apply filter_In. split; [exact Hr|]. rewrite Ei. reflexivity.
Qed.

End BatchFacts.

(* ================================================================== *)
(** * Properties of the importer: one batch *)
(* ================================================================== *)

Section ProcessBatchFacts.
Import Importer Spec.

Variable E : Env.t.
Variable options : ImportOptions.t.
Variable logId : nat.

Let step := process_batch E options logId.

Lemma validBatch_incl batch r : In r (validBatch options batch) -> In r batch.
Proof.
  unfold validBatch. destruct (ImportOptions.validateData options); [|auto].
  intros H. apply filter_In in H. tauto.
Qed.

Lemma validBatch_length batch :
  length (validBatch options batch) <= length batch.
Proof.
  unfold validBatch. destruct (ImportOptions.validateData options); [|auto].
  apply filter_length_le.
Qed.

Lemma filteredBatch_incl rs batch r :
  In r (filteredBatch options rs batch) -> In r (validBatch options batch).
Proof.
  unfold filteredBatch. destruct (ImportOptions.skipDuplicates options); [|auto].
  apply filterDuplicates_incl.
Qed.

Lemma filteredBatch_length rs batch :
  length (filteredBatch options rs batch) <= length (validBatch options batch).
Proof.
  unfold filteredBatch. destruct (ImportOptions.skipDuplicates options); [|auto].
  apply filterDuplicates_length.
Qed.

(** The transaction a batch attempts is numbered by the state the
    batch starts in. *)
Lemma transactions_before_insert st :
  World.transactions
    (world (if ImportOptions.skipDuplicates options then await E st else st))
  = World.transactions (world st).
Proof. destruct (ImportOptions.skipDuplicates options); reflexivity. Qed.

(** A batch whose transaction commits. *)
Lemma process_batch_committed st batch :
  Env.transaction_fails E (World.transactions (world st)) = false ->
  let res := Sqlite.insert_each (Env.faults E) (rows st)
               (filteredBatch options (rows st) batch) 0 in
  rows (step st batch) = fst res
  /\ progress (step st batch)
     = count_batch (progress st) (length batch) (snd res)
  /\ log (step st batch)
     = updateImportLog (log st) logId
         (count_batch (progress st) (length batch) (snd res)).
Proof.
  intros Hok res. subst step. unfold process_batch, Sqlite.insertInspectionsBatch.
  rewrite transactions_before_insert, Hok.
  fold (rows st). fold res. destruct res as [rows' insertedCount].
  unfold rows, log. simpl.
  destruct (ImportOptions.skipDuplicates options); simpl; auto.
Qed.

(** A batch whose transaction throws. *)
Lemma process_batch_rolled_back st batch :
  Env.transaction_fails E (World.transactions (world st)) = true ->
  rows (step st batch) = rows st
  /\ progress (step st batch)
     = count_failed_batch (progress st) (length batch)
  /\ log (step st batch) = log st.
Proof.
  intros Hfail. subst step. unfold process_batch, Sqlite.insertInspectionsBatch.
  rewrite transactions_before_insert, Hfail.
  unfold rows, log. simpl.
  destruct (ImportOptions.skipDuplicates options); simpl; auto.
Qed.

Lemma process_batch_stopped st batch :
  stopped (step st batch)
  = if ImportOptions.skipDuplicates options
    then stopped st || Env.stop_requested E (World.awaits (world st))
    else stopped st.
Proof.
  subst step. unfold process_batch, stopped.
  destruct (Sqlite.insertInspectionsBatch _ _ _ _) as [[rows' n]|];
    destruct (ImportOptions.skipDuplicates options); reflexivity.
Qed.

Lemma process_batch_calls st batch :
  World.calls (world (step st batch)) = World.calls (world st).
Proof.
  subst step. unfold process_batch.
  destruct (Sqlite.insertInspectionsBatch _ _ _ _) as [[rows' n]|];
    destruct (ImportOptions.skipDuplicates options); reflexivity.
Qed.

Lemma others_updateImportLog l p :
  others logId (updateImportLog l logId p) = others logId l.
Proof.
  unfold others, updateImportLog. induction l as [|row l IH]; [reflexivity|].
  simpl. destruct (ImportLogRow.id row =? logId) eqn:Eid; simpl.
  - rewrite Eid. simpl. exact IH.
  - rewrite Eid. simpl. rewrite IH. reflexivity.
Qed.

Lemma process_batch_others st batch :
  others logId (log (step st batch)) = others logId (log st).
Proof.
  destruct (Env.transaction_fails E (World.transactions (world st))) eqn:Ef.
  - destruct (process_batch_rolled_back st batch Ef) as [_ [_ ->]].
    reflexivity.
  - destruct (process_batch_committed st batch Ef) as [_ [_ ->]].
    apply others_updateImportLog.
Qed.

(** Whatever happens to a batch, no identifier leaves the store and
    no identifier is stored twice. *)
Lemma process_batch_keeps st batch i :
  In i (row_ids (rows st)) -> In i (row_ids (rows (step st batch))).
Proof.
  intros H.
  destruct (Env.transaction_fails E (World.transactions (world st))) eqn:Ef.
  - destruct (process_batch_rolled_back st batch Ef) as [-> _]. exact H.
  - destruct (process_batch_committed st batch Ef) as [-> _].
    apply insert_each_keeps. exact H.
Qed.

Lemma process_batch_NoDup st batch :
  NoDup (row_ids (rows st)) -> NoDup (row_ids (rows (step st batch))).
Proof.
  intros H.
  destruct (Env.transaction_fails E (World.transactions (world st))) eqn:Ef.
  - destruct (process_batch_rolled_back st batch Ef) as [-> _]. exact H.
  - destruct (process_batch_committed st batch Ef) as [-> _].
    apply insert_each_NoDup. exact H.
Qed.

(** After a committed batch every record that passed validation and
    that the engine accepts is in the store. *)
Lemma process_batch_covers st batch r :
  Env.transaction_fails E (World.transactions (world st)) = false ->
  In r (validBatch options batch) ->
  covered (Env.faults E) (rows (step st batch)) r.
Proof.
  intros Hok Hr. destruct (process_batch_committed st batch Hok) as [-> _].
  unfold filteredBatch.
  destruct (ImportOptions.skipDuplicates options).
  - destruct (filterDuplicates_dropped (rows st) (validBatch options batch) r Hr)
      as [Hkept|Hthere].
    + apply insert_each_covers. exact Hkept.
    + intros _. apply insert_each_keeps. exact Hthere.
  - apply insert_each_covers. exact Hr.
Qed.

(** The count of a committed batch never exceeds what was left after
    validation and the duplicate filter. *)
Lemma insertedCount_bound rs batch :
  snd (Sqlite.insert_each (Env.faults E) rs (filteredBatch options rs batch) 0)
  <= length (filteredBatch options rs batch)
  /\ length (filteredBatch options rs batch) <= length (validBatch options batch)
  /\ length (validBatch options batch) <= length batch.
Proof.
  split; [|split].
  - pose proof (insert_each_count (Env.faults E)
                  (filteredBatch options rs batch) rs 0). lia.
  - apply filteredBatch_length.
  - apply validBatch_length.
Qed.

(** A batch that is already in the store, run with the duplicate
    filter on: nothing is written and nothing is counted as imported. *)
Lemma process_batch_again st batch :
  ImportOptions.skipDuplicates options = true ->
  Env.transaction_fails E (World.transactions (world st)) = false ->
  (forall r, In r (validBatch options batch) ->
             SewerInspection.id r <> None
             /\ covered (Env.faults E) (rows st) r) ->
  rows (step st batch) = rows st
  /\ imported (step st batch) = imported st
  /\ processed (step st batch) = processed st + length batch
  /\ errors (step st batch) = errors st + length batch.
Proof.
  intros Hskip Hok Hall.
  destruct (process_batch_committed st batch Hok) as [Hrows [Hprog _]].
  assert (Hnoop : Sqlite.insert_each (Env.faults E) (rows st)
                    (filteredBatch options (rows st) batch) 0 = (rows st, 0)).
  { apply insert_each_refused. intros r Hr.
    unfold filteredBatch in Hr. rewrite Hskip in Hr.
    assert (Hv : In r (validBatch options batch))
      by (eapply filterDuplicates_incl; eassumption).
    destruct (Sqlite.row_write_fails (Env.faults E) r) eqn:Ew; [reflexivity|].
    exfalso.
    apply (filterDuplicates_fresh (rows st) (validBatch options batch) r);
      [apply Hall; exact Hv|exact Hr|].
    apply (Hall r Hv). exact Ew. }
  rewrite Hnoop in Hrows, Hprog. simpl in Hrows, Hprog.
  unfold imported, processed, errors. rewrite Hprog. simpl.
  repeat split; [exact Hrows|lia|lia].
Qed.

End ProcessBatchFacts.

(* ================================================================== *)
(** * Properties of the importer: the batch loop and the chunk loop *)
(* ================================================================== *)

Section LoopFacts.
Import Importer Spec.

Variable E : Env.t.
Variable options : ImportOptions.t.
Variable logId : nat.
Variable fileName : string.

Let batches_of := batch_loop E options logId.
Let chunks_of := chunk_loop E options logId fileName.

(** Fetching a chunk touches neither the store nor the counters. *)
Let fetching := Spec.fetching E.

Lemma fetching_rows st c : rows (fetching st c) = rows st.
Proof. reflexivity. Qed.

Lemma fetching_log st c : log (fetching st c) = log st.
Proof. reflexivity. Qed.

Lemma fetching_progress st c : progress (fetching st c) = progress st.
Proof. reflexivity. Qed.

Lemma fetching_calls st c :
  World.calls (world (fetching st c)) = World.calls (world st) ++ [c].
Proof. reflexivity. Qed.

Lemma fetching_stopped st c :
  stopped (fetching st c)
  = stopped st || Env.stop_requested E (World.awaits (world st)).
Proof. reflexivity. Qed.

Lemma chunk_loop_unfold fuel st offset :
  chunks_of (S fuel) st offset
  = if stopped st then Some (st, None)
    else
      let fetched := S3Stream.streamFromS3 (Env.bucket E) fileName chunkSize offset in
      let st1 := fetching st {| S3Stream.call_file := fileName;
                                S3Stream.call_limit := chunkSize;
                                S3Stream.call_offset := offset;
                                S3Stream.call_produced := fetched |} in
      match fetched with
      | None => Some (st1, Some (S3Stream.thrown (Env.bucket E) fileName))
      | Some chunk =>
          if length chunk =? 0 then Some (st1, None)
          else
            match createBatches chunk (ImportOptions.batchSize options) with
            | None => None
            | Some batches =>
                let st2 := batches_of st1 batches in
                if length chunk <? chunkSize then Some (st2, None)
                else chunks_of fuel st2 (offset + length chunk)
            end
      end.
Proof. reflexivity. Qed.

(** ** Facts that hold in every environment *)

Lemma batch_loop_keeps batches : forall st i,
  In i (row_ids (rows st)) -> In i (row_ids (rows (batches_of st batches))).
Proof.
  induction batches as [|b rest IH]; intros st i H; simpl; [exact H|].
  subst batches_of. simpl. destruct (DataImporter.shouldStop (importer st)); [exact H|].
  apply IH. apply process_batch_keeps. exact H.
Qed.

Lemma batch_loop_NoDup batches : forall st,
  NoDup (row_ids (rows st)) -> NoDup (row_ids (rows (batches_of st batches))).
Proof.
  induction batches as [|b rest IH]; intros st H; simpl; [exact H|].
  subst batches_of. simpl. destruct (DataImporter.shouldStop (importer st)); [exact H|].
  apply IH. apply process_batch_NoDup. exact H.
Qed.

Lemma batch_loop_calls batches : forall st,
  World.calls (world (batches_of st batches)) = World.calls (world st).
Proof.
  induction batches as [|b rest IH]; intros st; simpl; [reflexivity|].
  subst batches_of. simpl. destruct (DataImporter.shouldStop (importer st)); [reflexivity|].
  rewrite IH. apply process_batch_calls.
Qed.

Lemma batch_loop_others batches : forall st,
  others logId (log (batches_of st batches)) = others logId (log st).
Proof.
  induction batches as [|b rest IH]; intros st; simpl; [reflexivity|].
  subst batches_of. simpl. destruct (DataImporter.shouldStop (importer st)); [reflexivity|].
  rewrite IH. apply process_batch_others.
Qed.

Lemma chunk_loop_keeps fuel : forall st offset st' thrown i,
  chunks_of fuel st offset = Some (st', thrown) ->
  In i (row_ids (rows st)) -> In i (row_ids (rows st')).
Proof.
  induction fuel as [|fuel IH]; intros st offset st' thrown i Hrun Hin.
  - subst chunks_of. simpl in Hrun.
    destruct (DataImporter.shouldStop (importer st)); [|discriminate].
    inversion Hrun; subst. exact Hin.
  - rewrite chunk_loop_unfold in Hrun. cbv zeta in Hrun.
    destruct (stopped st); [inversion Hrun; subst; exact Hin|].
    destruct (S3Stream.streamFromS3 _ _ _ _) as [chunk|];
      [|inversion Hrun; subst; exact Hin].
    destruct (length chunk =? 0); [inversion Hrun; subst; exact Hin|].
    destruct (createBatches _ _) as [batches|]; [|discriminate].
    destruct (length chunk <? chunkSize).
    + inversion Hrun; subst. apply batch_loop_keeps. exact Hin.
    + eapply IH; [exact Hrun|]. apply batch_loop_keeps. exact Hin.
Qed.

Lemma chunk_loop_NoDup fuel : forall st offset st' thrown,
  chunks_of fuel st offset = Some (st', thrown) ->
  NoDup (row_ids (rows st)) -> NoDup (row_ids (rows st')).
Proof.
  induction fuel as [|fuel IH]; intros st offset st' thrown Hrun Hin.
  - subst chunks_of. simpl in Hrun.
    destruct (DataImporter.shouldStop (importer st)); [|discriminate].
    inversion Hrun; subst. exact Hin.
  - rewrite chunk_loop_unfold in Hrun. cbv zeta in Hrun.
    destruct (stopped st); [inversion Hrun; subst; exact Hin|].
    destruct (S3Stream.streamFromS3 _ _ _ _) as [chunk|];
      [|inversion Hrun; subst; exact Hin].
    destruct (length chunk =? 0); [inversion Hrun; subst; exact Hin|].
    destruct (createBatches _ _) as [batches|]; [|discriminate].
    destruct (length chunk <? chunkSize).
    + inversion Hrun; subst. apply batch_loop_NoDup. exact Hin.
    + eapply IH; [exact Hrun|]. apply batch_loop_NoDup. exact Hin.
Qed.

Lemma chunk_loop_others fuel : forall st offset st' thrown,
  chunks_of fuel st offset = Some (st', thrown) ->
  others logId (log st') = others logId (log st).
Proof.
  induction fuel as [|fuel IH]; intros st offset st' thrown Hrun.
  - subst chunks_of. simpl in Hrun.
    destruct (DataImporter.shouldStop (importer st)); [|discriminate].
    inversion Hrun; subst. reflexivity.
  - rewrite chunk_loop_unfold in Hrun. cbv zeta in Hrun.
    destruct (stopped st); [inversion Hrun; subst; reflexivity|].
    destruct (S3Stream.streamFromS3 _ _ _ _) as [chunk|];
      [|inversion Hrun; subst; reflexivity].
    destruct (length chunk =? 0); [inversion Hrun; subst; reflexivity|].
    destruct (createBatches _ _) as [batches|]; [|discriminate].
    destruct (length chunk <? chunkSize).
    + inversion Hrun; subst. rewrite batch_loop_others. reflexivity.
    + rewrite (IH _ _ _ _ Hrun). rewrite batch_loop_others. reflexivity.
Qed.

(** The decode calls of a run are appended to the trace in order. *)
Lemma chunk_loop_calls fuel : forall st offset st' thrown,
  chunks_of fuel st offset = Some (st', thrown) ->
  exists more, World.calls (world st') = World.calls (world st) ++ more.
Proof.
  induction fuel as [|fuel IH]; intros st offset st' thrown Hrun.
  - subst chunks_of. simpl in Hrun.
    destruct (DataImporter.shouldStop (importer st)); [|discriminate].
    inversion Hrun; subst. exists []. rewrite app_nil_r. reflexivity.
  - rewrite chunk_loop_unfold in Hrun. cbv zeta in Hrun.
    destruct (stopped st);
      [inversion Hrun; subst; exists []; rewrite app_nil_r; reflexivity|].
    destruct (S3Stream.streamFromS3 _ _ _ _) as [chunk|];
      [|inversion Hrun; subst; eexists; apply fetching_calls].
    destruct (length chunk =? 0);
      [inversion Hrun; subst; eexists; apply fetching_calls|].
    destruct (createBatches _ _) as [batches|]; [|discriminate].
    destruct (length chunk <? chunkSize).
    + inversion Hrun; subst. rewrite batch_loop_calls.
      eexists; apply fetching_calls.
    + destruct (IH _ _ _ _ Hrun) as [more Hmore].
      rewrite Hmore, batch_loop_calls, fetching_calls, <- app_assoc.
      eexists; reflexivity.
Qed.

(** The first decode call of a loop that is entered asks for the
    offset the loop was given. *)
Lemma chunk_loop_first_call fuel st offset st' thrown :
  stopped st = false ->
  chunks_of fuel st offset = Some (st', thrown) ->
  exists c rest,
    World.calls (world st') = World.calls (world st) ++ c :: rest
    /\ S3Stream.call_file c = fileName
    /\ S3Stream.call_limit c = chunkSize
    /\ S3Stream.call_offset c = offset.
Proof.
  intros Hgo Hrun. destruct fuel as [|fuel].
  - subst chunks_of. simpl in Hrun. unfold stopped in Hgo.
    rewrite Hgo in Hrun. discriminate.
  - rewrite chunk_loop_unfold in Hrun. cbv zeta in Hrun. rewrite Hgo in Hrun.
    match type of Hrun with
    | context [fetching st ?call] => set (c := call) in *
    end.
    exists c.
    destruct (S3Stream.streamFromS3 _ _ _ _) as [chunk|];
      [|inversion Hrun; subst; exists []; rewrite fetching_calls; auto].
    destruct (length chunk =? 0);
      [inversion Hrun; subst; exists []; rewrite fetching_calls; auto|].
    destruct (createBatches _ _) as [batches|]; [|discriminate].
    destruct (length chunk <? chunkSize).
    + inversion Hrun; subst. exists [].
      rewrite batch_loop_calls, fetching_calls. auto.
    + destruct (chunk_loop_calls _ _ _ _ _ Hrun) as [more Hmore].
      exists more. rewrite Hmore, batch_loop_calls, fetching_calls, <- app_assoc.
      auto.
Qed.

(** ** Termination *)

Lemma chunk_loop_total lines :
  Env.bucket E fileName = Some lines ->
  0 < ImportOptions.batchSize options ->
  forall fuel st offset,
    length lines - offset < fuel ->
    exists st' thrown, chunks_of fuel st offset = Some (st', thrown).
Proof.
  intros Hb Hpos. induction fuel as [|fuel IH]; intros st offset Hfuel; [lia|].
  rewrite chunk_loop_unfold. cbv zeta.
  destruct (stopped st); [eauto|].
  rewrite (streamFromS3_window _ _ lines _ _ Hb).
  destruct (length (S3Stream.window lines chunkSize offset) =? 0); [eauto|].
  destruct (createBatches_total (S3Stream.window lines chunkSize offset) _ Hpos)
    as [batches [-> _]].
  destruct (Nat.ltb_spec (length (S3Stream.window lines chunkSize offset)) chunkSize)
    as [Hshort|Hfull]; [eauto|].
  apply IH.
  pose proof (window_length_rest lines chunkSize offset).
  unfold chunkSize in *. lia.
Qed.

Lemma chunk_loop_unreachable fuel st offset :
  Env.bucket E fileName = None ->
  exists st' thrown, chunks_of (S fuel) st offset = Some (st', thrown).
Proof.
  intros Hb. rewrite chunk_loop_unfold. cbv zeta.
  destruct (stopped st); [eauto|].
  unfold S3Stream.streamFromS3. rewrite Hb. eauto.
Qed.

End LoopFacts.

(* ================================================================== *)
(** * Runs that nobody stops and whose transactions commit *)
(* ================================================================== *)

Section UndisturbedFacts.
Import Importer Spec.

Variable E : Env.t.
Variable options : ImportOptions.t.
Hypothesis Hquiet : undisturbed E.

Lemma fetching_goes_on st c : stopped st = false -> stopped (fetching E st c) = false.
Proof.
  intros H. rewrite fetching_stopped, H. simpl. apply Hquiet.
Qed.

Lemma process_batch_goes_on logId st batch :
  stopped st = false -> stopped (process_batch E options logId st batch) = false.
Proof.
  intros H. rewrite process_batch_stopped, H. simpl.
  destruct (ImportOptions.skipDuplicates options); [apply Hquiet|reflexivity].
Qed.

Lemma batch_loop_goes_on logId batches : forall st,
  stopped st = false -> stopped (batch_loop E options logId st batches) = false.
Proof.
  induction batches as [|b rest IH]; intros st H; simpl; [exact H|].
  unfold stopped in H. rewrite H. apply IH.
  apply process_batch_goes_on. exact H.
Qed.

Lemma covered_mono rs rs' r :
  (forall i, In i (row_ids rs) -> In i (row_ids rs')) ->
  covered (Env.faults E) rs r -> covered (Env.faults E) rs' r.
Proof. unfold covered. auto. Qed.

(** After the batches of a chunk, every validated record of every
    batch that the engine accepts is in the store. *)
Lemma batch_loop_covers logId batches : forall st b r,
  stopped st = false ->
  In b batches -> In r (validBatch options b) ->
  covered (Env.faults E) (rows (batch_loop E options logId st batches)) r.
Proof.
  induction batches as [|b0 rest IH]; intros st b r Hgo Hb Hr; [destruct Hb|].
  simpl. unfold stopped in Hgo. rewrite Hgo.
  destruct Hb as [->|Hb].
  - apply covered_mono with (rs := rows (process_batch E options logId st b)).
    + intros i. apply batch_loop_keeps.
    + apply process_batch_covers; [apply Hquiet|exact Hr].
  - apply IH with (b := b); [|exact Hb|exact Hr].
    apply process_batch_goes_on. exact Hgo.
Qed.

(** The three counters stay in balance: what is processed is either
    imported or counted as an error. *)
Lemma process_batch_balance logId st batch :
  imported (process_batch E options logId st batch)
  + errors (process_batch E options logId st batch) + processed st
  = imported st + errors st
    + processed (process_batch E options logId st batch).
Proof.
  destruct (process_batch_committed E options logId st batch) as [_ [Hp _]];
    [apply Hquiet|].
  unfold imported, errors, processed. rewrite Hp. simpl.
  pose proof (insertedCount_bound E options (rows st) batch). lia.
Qed.

Lemma batch_loop_balance logId batches : forall st,
  imported (batch_loop E options logId st batches)
  + errors (batch_loop E options logId st batches) + processed st
  = imported st + errors st
    + processed (batch_loop E options logId st batches).
Proof.
  induction batches as [|b rest IH]; intros st; simpl; [lia|].
  destruct (DataImporter.shouldStop (importer st)); [lia|].
  pose proof (IH (process_batch E options logId st b)).
  pose proof (process_batch_balance logId st b). lia.
Qed.

Lemma chunk_loop_balance logId fileName fuel : forall st offset st' thrown,
  chunk_loop E options logId fileName fuel st offset = Some (st', thrown) ->
  imported st' + errors st' + processed st
  = imported st + errors st + processed st'.
Proof.
  induction fuel as [|fuel IH]; intros st offset st' thrown Hrun.
  - simpl in Hrun.
    destruct (DataImporter.shouldStop (importer st)); [|discriminate].
    inversion Hrun; subst. lia.
  - rewrite chunk_loop_unfold in Hrun. cbv zeta in Hrun.
    destruct (stopped st); [inversion Hrun; subst; lia|].
    destruct (S3Stream.streamFromS3 _ _ _ _) as [chunk|];
      [|inversion Hrun; subst; reflexivity].
    destruct (length chunk =? 0); [inversion Hrun; subst; reflexivity|].
    destruct (createBatches _ _) as [batches|]; [|discriminate].
    match type of Hrun with
    | context [batch_loop E options logId ?s batches] =>
        pose proof (batch_loop_balance logId batches s) as Hb;
        change (processed s) with (processed st) in Hb;
        change (imported s) with (imported st) in Hb;
        change (errors s) with (errors st) in Hb
    end.
    destruct (length chunk <? chunkSize).
    + inversion Hrun; subst. exact Hb.
    + pose proof (IH _ _ _ _ Hrun). lia.
Qed.

Lemma chunk_loop_goes_on logId fileName fuel : forall st offset st' thrown,
  stopped st = false ->
  chunk_loop E options logId fileName fuel st offset = Some (st', thrown) ->
  stopped st' = false.
Proof.
  induction fuel as [|fuel IH]; intros st offset st' thrown Hgo Hrun.
  - simpl in Hrun. unfold stopped in Hgo. rewrite Hgo in Hrun. discriminate.
  - rewrite chunk_loop_unfold in Hrun. cbv zeta in Hrun. rewrite Hgo in Hrun.
    destruct (S3Stream.streamFromS3 _ _ _ _) as [chunk|];
      [|inversion Hrun; subst; apply fetching_goes_on; exact Hgo].
    destruct (length chunk =? 0);
      [inversion Hrun; subst; apply fetching_goes_on; exact Hgo|].
    destruct (createBatches _ _) as [batches|]; [|discriminate].
    destruct (length chunk <? chunkSize).
    + inversion Hrun; subst. apply batch_loop_goes_on.
      apply fetching_goes_on; exact Hgo.
    + eapply IH; [|exact Hrun]. apply batch_loop_goes_on.
      apply fetching_goes_on; exact Hgo.
Qed.

(** Every record of every batch is counted as processed. *)
Lemma batch_loop_processed logId batches : forall st,
  stopped st = false ->
  processed (batch_loop E options logId st batches)
  = processed st + length (concat batches).
Proof.
  induction batches as [|b rest IH]; intros st Hgo; simpl; [lia|].
  unfold stopped in Hgo. rewrite Hgo.
  rewrite IH by (apply process_batch_goes_on; exact Hgo).
  destruct (process_batch_committed E options logId st b) as [_ [Hp _]];
    [apply Hquiet|].
  unfold processed at 1. rewrite Hp. simpl. rewrite length_app.
  unfold processed. lia.
Qed.

(** An undisturbed loop over a reachable object ends without an
    exception. *)
Lemma chunk_loop_no_exception logId fileName lines fuel :
  Env.bucket E fileName = Some lines ->
  forall st offset st' thrown,
    chunk_loop E options logId fileName fuel st offset = Some (st', thrown) ->
    thrown = None.
Proof.
  intros Hb. induction fuel as [|fuel IH]; intros st offset st' thrown Hrun.
  - simpl in Hrun.
    destruct (DataImporter.shouldStop (importer st)); [|discriminate].
    inversion Hrun; reflexivity.
  - rewrite chunk_loop_unfold in Hrun. cbv zeta in Hrun.
    destruct (stopped st); [inversion Hrun; reflexivity|].
    rewrite (streamFromS3_window _ _ lines _ _ Hb) in Hrun.
    destruct (length _ =? 0); [inversion Hrun; reflexivity|].
    destruct (createBatches _ _) as [batches|]; [|discriminate].
    destruct (length _ <? chunkSize); [inversion Hrun; reflexivity|].
    eapply IH. exact Hrun.
Qed.

(** ** Running the same batches again with the duplicate filter on *)

Hypothesis Hskip : ImportOptions.skipDuplicates options = true.

Lemma batch_loop_again logId batches : forall st,
  stopped st = false ->
  (forall b r, In b batches -> In r (validBatch options b) ->
               SewerInspection.id r <> None
               /\ covered (Env.faults E) (rows st) r) ->
  let st' := batch_loop E options logId st batches in
  rows st' = rows st
  /\ imported st' = imported st
  /\ errors st' + processed st = errors st + processed st'
  /\ stopped st' = false.
Proof.
  induction batches as [|b rest IH]; intros st Hgo Hall; simpl.
  - repeat split; auto.
  - unfold stopped in Hgo. rewrite Hgo.
    destruct (process_batch_again E options logId st b Hskip)
      as [Hrows [Himp [Hproc Herr]]];
      [apply Hquiet|intros r Hr; apply (Hall b r); [left; reflexivity|exact Hr]|].
    destruct (IH (process_batch E options logId st b)) as [Hrows' [Himp' [Hbal Hgo']]].
    + apply process_batch_goes_on. exact Hgo.
    + intros b' r Hb' Hr. rewrite Hrows. apply (Hall b' r); [right; exact Hb'|exact Hr].
    + repeat split; [congruence|congruence|lia|exact Hgo'].
Qed.

Lemma validBatch_identified lines batch r :
  identified options lines ->
  (forall x, In x batch -> In (S3Stream.JsonLine x) lines) ->
  In r (validBatch options batch) ->
  SewerInspection.id r <> None.
Proof.
  intros [Hval|Hids] Hsub Hr.
  - unfold validBatch in Hr. rewrite Hval in Hr. apply filter_In in Hr.
    destruct Hr as [_ Hvalid]. unfold validateRecord in Hvalid.
    destruct (SewerInspection.id r); [discriminate|]. simpl in Hvalid.
    discriminate.
  - apply Hids. apply Hsub. eapply validBatch_incl. exact Hr.
Qed.

(** The second of two undisturbed runs over one object: if the store
    holds every identifier the first run left behind, the second run
    goes through the same chunks, writes nothing and imports
    nothing. *)
Lemma chunk_loop_again fileName lines logId1 logId2 :
  Env.bucket E fileName = Some lines ->
  0 < ImportOptions.batchSize options ->
  identified options lines ->
  forall fuel st1 st2 offset st1' thrown1,
    stopped st1 = false -> stopped st2 = false ->
    chunk_loop E options logId1 fileName fuel st1 offset = Some (st1', thrown1) ->
    (forall i, In i (row_ids (rows st1')) -> In i (row_ids (rows st2))) ->
    exists st2',
      chunk_loop E options logId2 fileName fuel st2 offset = Some (st2', None)
      /\ rows st2' = rows st2
      /\ imported st2' = imported st2
      /\ errors st2' + processed st2 = errors st2 + processed st2'
      /\ processed st2' + processed st1 = processed st2 + processed st1'
      /\ stopped st2' = false.
Proof.
  intros Hb Hpos Hident.
  induction fuel as [|fuel IH];
    intros st1 st2 offset st1' thrown1 Hgo1 Hgo2 Hrun Hsub.
  - simpl in Hrun. unfold stopped in Hgo1. rewrite Hgo1 in Hrun. discriminate.
  - rewrite chunk_loop_unfold in Hrun. rewrite chunk_loop_unfold.
    cbv zeta in *. rewrite Hgo1 in Hrun. rewrite Hgo2.
    rewrite (streamFromS3_window _ _ lines _ _ Hb) in *.
    set (chunk := S3Stream.window lines chunkSize offset) in *.
    set (c := {| S3Stream.call_file := fileName;
                 S3Stream.call_limit := chunkSize;
                 S3Stream.call_offset := offset;
                 S3Stream.call_produced := Some chunk |}) in *.
    pose proof (fetching_goes_on st1 c Hgo1) as Hf1.
    pose proof (fetching_goes_on st2 c Hgo2) as Hf2.
    destruct (length chunk =? 0).
    { inversion Hrun; subst. exists (fetching E st2 c).
      repeat split; auto. }
    destruct (createBatches_total chunk (ImportOptions.batchSize options) Hpos)
      as [batches [Hbatches Hcut]].
    rewrite Hbatches in *.
    set (st1b := batch_loop E options logId1 (fetching E st1 c) batches) in *.
    assert (Hcov : forall b r, In b batches -> In r (validBatch options b) ->
                     covered (Env.faults E) (rows st1b) r).
    { intros b r Hin Hr. apply batch_loop_covers with (b := b); assumption. }
    assert (Hkeep : forall i, In i (row_ids (rows st1b)) ->
                              In i (row_ids (rows st2))).
    { destruct (length chunk <? chunkSize).
      - inversion Hrun; subst. exact Hsub.
      - intros i Hi. apply Hsub.
        eapply chunk_loop_keeps; [exact Hrun|exact Hi]. }
    destruct (batch_loop_again logId2 batches (fetching E st2 c) Hf2)
      as [Hrows [Himp [Hbal Hgo2b]]].
    { intros b r Hin Hr. split.
      - apply (validBatch_identified lines b r Hident); [|exact Hr].
        intros x Hx. apply window_In with (limit := chunkSize) (offset := offset).
        apply (Hcut b x Hin Hx).
      - apply covered_mono with (rs := rows st1b); [exact Hkeep|].
        apply (Hcov b r Hin Hr). }
    set (st2b := batch_loop E options logId2 (fetching E st2 c) batches) in *.
    assert (Hproc : processed st2b + processed st1 = processed st2 + processed st1b).
    { subst st1b st2b.
      rewrite (batch_loop_processed logId1 batches _ Hf1).
      rewrite (batch_loop_processed logId2 batches _ Hf2).
      change (processed (fetching E st1 c)) with (processed st1).
      change (processed (fetching E st2 c)) with (processed st2). lia. }
    destruct (length chunk <? chunkSize).
    + inversion Hrun; subst. exists st2b.
      repeat split; auto.
    + assert (Hgo1b : stopped st1b = false)
        by (apply batch_loop_goes_on; exact Hf1).
      destruct (IH st1b st2b _ st1' thrown1 Hgo1b Hgo2b Hrun)
        as [st2' [Hrun2 [Hrows2 [Himp2 [Hbal2 [Hproc2 Hgo2']]]]]].
      { intros i Hi. rewrite Hrows. apply Hsub. exact Hi. }
      exists st2'. 
      change (rows (fetching E st2 c)) with (rows st2) in Hrows.
      change (imported (fetching E st2 c)) with (imported st2) in Himp.
      change (errors (fetching E st2 c)) with (errors st2) in Hbal.
      change (processed (fetching E st2 c)) with (processed st2) in Hbal.
      repeat split; [exact Hrun2|congruence|congruence|lia|lia|exact Hgo2'].
Qed.

End UndisturbedFacts.

(* ================================================================== *)
(** * Properties of [ORDER BY ... DESC] *)
(* ================================================================== *)

Section OrderByFacts.
Import Spec.

Variable A : Type.
Variable key : A -> string.

Lemma insert_desc_perm x l : Permutation (Sql.insert_desc key x l) (x :: l).
Proof.
  induction l as [|y l IH]; simpl.
  - apply Permutation_refl.
  - destruct (String.leb (key y) (key x)).
    + apply Permutation_refl.
    + eapply Permutation_trans; [apply perm_skip; exact IH|apply perm_swap].
Qed.

Lemma order_by_desc_perm l : Permutation (Sql.order_by_desc key l) l.
Proof.
  induction l as [|x l IH]; simpl.
  - constructor.
  - eapply Permutation_trans; [apply insert_desc_perm|].
    apply perm_skip. exact IH.
Qed.

Lemma leb_false_flip (a b : string) :
  String.leb a b = false -> String.leb b a = true.
Proof.
  intros H. destruct (String.leb_total a b) as [H'|H']; congruence.
Qed.

Lemma insert_desc_sorted x l :
  Sorted (newer_first key) l -> Sorted (newer_first key) (Sql.insert_desc key x l).
Proof.
  induction l as [|y l IH]; simpl; intros Hs.
  - constructor; constructor.
  - destruct (String.leb (key y) (key x)) eqn:Eyx.
    + constructor; [exact Hs|]. constructor. exact Eyx.
    + inversion Hs as [|? ? Hl Hhd]; subst.
      constructor; [apply IH; exact Hl|].
      destruct l as [|z l]; simpl.
      * constructor. apply leb_false_flip. exact Eyx.
      * destruct (String.leb (key z) (key x)).
        -- constructor. apply leb_false_flip. exact Eyx.
        -- inversion Hhd; subst. constructor. assumption.
Qed.

(** The rows come out most recent first. *)
Lemma order_by_desc_sorted l : Sorted (newer_first key) (Sql.order_by_desc key l).
Proof.
  induction l as [|x l IH]; simpl.
  - constructor.
  - apply insert_desc_sorted. exact IH.
Qed.

Lemma ltb_leb (a b : string) : String.ltb a b = true -> String.leb a b = true.
Proof.
  unfold String.ltb, String.leb.
  destruct (String.compare a b); intros H;
    first [discriminate H | reflexivity].
Qed.

Lemma ltb_not_leb (a b : string) : String.ltb a b = true -> String.leb b a = false.
Proof.
  unfold String.ltb, String.leb. rewrite (String.compare_antisym a b).
  destruct (String.compare b a); simpl; intros H;
    first [discriminate H | reflexivity].
Qed.

(** [ORDER BY key DESC LIMIT 1] returns the row whose key is strictly
    the greatest, when there is one. *)
Lemma order_by_desc_head l top :
  In top l ->
  (forall x, In x l -> x = top \/ String.ltb (key x) (key top) = true) ->
  exists rest, Sql.order_by_desc key l = top :: rest.
Proof.
  induction l as [|x l IH]; intros Hin Hmax; [destruct Hin|].
  simpl.
  assert (Hsub : forall y, In y l -> y = top \/ String.ltb (key y) (key top) = true)
    by (intros y Hy; apply Hmax; right; exact Hy).
  destruct (Hmax x (or_introl eq_refl)) as [->|Hlt].
  - (* the row being inserted is the top row *)
    destruct (Sql.order_by_desc key l) as [|y sorted] eqn:Es; simpl; [eauto|].
    assert (Hy : In y l).
    { apply (Permutation_in y (order_by_desc_perm l)). rewrite Es. left; reflexivity. }
    destruct (Hsub y Hy) as [->|Hylt].
    + assert (Hrefl : String.leb (key top) (key top) = true).
      { destruct (String.leb_total (key top) (key top)); assumption. }
      rewrite Hrefl. eauto.
    + rewrite (ltb_leb _ _ Hylt). eauto.
  - destruct Hin as [->|Hin].
    + (* x = top is handled above unless the key is smaller than itself *)
      exfalso. pose proof (ltb_not_leb _ _ Hlt) as Hn.
      pose proof (ltb_leb _ _ Hlt). congruence.
    + destruct (IH Hin Hsub) as [rest ->]. simpl.
      rewrite (ltb_not_leb _ _ Hlt). eauto.
Qed.

(** ** Rows with equal keys

    Whatever order SQLite gives to rows with equal keys, the keys of
    its answer are those of [Sql.order_by_desc], position by
    position. *)

Lemma leb_trans (a b c : string) :
  String.leb a b = true -> String.leb b c = true -> String.leb a c = true.
Proof.
  unfold String.leb.
  destruct (String.compare a b) eqn:Hab;
    destruct (String.compare b c) eqn:Hbc;
    try (intros H; discriminate H); try (intros _ H; discriminate H);
    intros _ _.
  - apply String.compare_eq_iff in Hab. subst b. rewrite Hbc. reflexivity.
  - apply String.compare_eq_iff in Hab. subst b. rewrite Hbc. reflexivity.
  - apply String.compare_eq_iff in Hbc. subst c. rewrite Hab. reflexivity.
  - apply OrderedTypeEx.String_as_OT.cmp_lt in Hab, Hbc.
    pose proof (OrderedTypeEx.String_as_OT.lt_trans _ _ _ Hab Hbc) as Hac.
    apply OrderedTypeEx.String_as_OT.cmp_lt in Hac.
    unfold OrderedTypeEx.String_as_OT.cmp in Hac. rewrite Hac. reflexivity.
Qed.

Let descending (a b : string) : Prop := String.leb b a = true.

Lemma descending_head (x : string) (l : list string) :
  Sorted descending (x :: l) -> forall y, In y l -> String.leb y x = true.
Proof.
  intros Hs. apply Sorted_StronglySorted in Hs.
  - inversion Hs as [|? ? _ Hall]; subst.
    intros y Hy. apply (proj1 (Forall_forall _ _) Hall y Hy).
  - intros a b c Hab Hbc. unfold descending in *.
    eapply leb_trans; eassumption.
Qed.

Lemma descending_unique (k1 : list string) : forall k2,
  Sorted descending k1 -> Sorted descending k2 -> Permutation k1 k2 ->
  k1 = k2.
Proof.
  induction k1 as [|x k1 IH]; intros k2 H1 H2 Hperm.
  - apply Permutation_nil in Hperm. congruence.
  - destruct k2 as [|y k2];
      [apply Permutation_sym, Permutation_nil in Hperm; discriminate|].
    assert (Hxy : x = y).
    { assert (Hy : In y (x :: k1))
        by (apply (Permutation_in y (Permutation_sym Hperm)); left; reflexivity).
      assert (Hx : In x (y :: k2))
        by (apply (Permutation_in x Hperm); left; reflexivity).
      destruct Hy as [Hy|Hy]; [exact Hy|].
      destruct Hx as [Hx|Hx]; [congruence|].
      apply String.leb_antisym.
      - apply (descending_head y k2 H2 x Hx).
      - apply (descending_head x k1 H1 y Hy). }
    subst y. f_equal. apply IH.
    + inversion H1; assumption.
    + inversion H2; assumption.
    + apply Permutation_cons_inv with (a := x). exact Hperm.
Qed.

Lemma newer_first_keys l :
  Sorted (newer_first key) l -> Sorted descending (map key l).
Proof.
  induction 1 as [|x l Hs IH Hhd]; simpl; constructor; [exact IH|].
  destruct Hhd; simpl; constructor. assumption.
Qed.

Lemma sorted_by_desc_keys rows answer :
  Permutation answer rows ->
  Sorted (newer_first key) answer ->
  map key answer = map key (Sql.order_by_desc key rows).
Proof.
  intros Hperm Hsorted. apply descending_unique.
  - apply newer_first_keys. exact Hsorted.
  - apply newer_first_keys. apply order_by_desc_sorted.
  - apply Permutation_map.
    eapply Permutation_trans; [exact Hperm|].
    apply Permutation_sym. apply order_by_desc_perm.
Qed.

End OrderByFacts.

(* ================================================================== *)
(** * Properties of the checkpoint log *)
(* ================================================================== *)

Section LogFacts.
Import Importer Spec.

Lemma calculateResumeOffset_filter l fileName :
  calculateResumeOffset l fileName
  = match Sql.order_by_desc ImportLogRow.started_at
            (filter (checkpoint_of fileName) l) with
    | result :: _ => ImportLogRow.records_processed result
    | [] => 0
    end.
Proof. reflexivity. Qed.

Lemma log_ids_below l row :
  In row l -> ImportLogRow.id row < next_log_id l.
Proof.
  unfold next_log_id. induction l as [|x l IH]; simpl; [intros []|].
  intros [->|Hin]; [lia|]. specialize (IH Hin). lia.
Qed.

Lemma others_fresh l row :
  ImportLogRow.id row = next_log_id l ->
  others (next_log_id l) (l ++ [row]) = l.
Proof.
  intros Hid. unfold others. rewrite filter_app. simpl.
  rewrite Hid, Nat.eqb_refl. simpl. rewrite app_nil_r.
  apply forallb_filter_id. apply forallb_forall. intros x Hx.
  apply negb_true_iff. apply Nat.eqb_neq.
  pose proof (log_ids_below l x Hx). lia.
Qed.

Lemma others_completeImportLog l logId p now e :
  others logId (completeImportLog l logId p now e) = others logId l.
Proof.
  unfold others, completeImportLog. induction l as [|row l IH]; [reflexivity|].
  simpl. destruct (ImportLogRow.id row =? logId) eqn:Eid; simpl.
  - rewrite Eid. simpl. exact IH.
  - rewrite Eid. simpl. rewrite IH. reflexivity.
Qed.

(** Once a run is finalised as completed, its own row is no longer a
    checkpoint to resume from. *)
Lemma checkpoints_after_completion l logId p now e fileName :
  ImportProgress.status p = completed ->
  filter (checkpoint_of fileName) (completeImportLog l logId p now e)
  = filter (checkpoint_of fileName) (others logId l).
Proof.
  intros Hdone. unfold others, completeImportLog.
  induction l as [|row l IH]; [reflexivity|].
  simpl. destruct (ImportLogRow.id row =? logId) eqn:Eid; simpl.
  - match goal with
    | |- (if checkpoint_of fileName ?r then _ else _) = _ =>
        assert (Hno : checkpoint_of fileName r = false)
          by (unfold checkpoint_of; simpl; rewrite Hdone; apply andb_false_r);
        rewrite Hno
    end.
    exact IH.
  - rewrite IH. reflexivity.
Qed.

End LogFacts.

(* ================================================================== *)
(** * Properties of a whole run *)
(* ================================================================== *)

Section RunFacts.
Import Importer Spec.

Variable E : Env.t.
Variable options : ImportOptions.t.

Lemma importFromS3_unfold fuel w this fileName resume :
  importFromS3 E options fuel w this fileName resume
  = match chunk_loop E options (snd (prepare E w this fileName resume)) fileName
            fuel (fst (prepare E w this fileName resume))
            (startOffset (Database.import_log (World.db w)) fileName resume)
    with
    | None => None
    | Some (st', thrown) =>
        Some (finish E (snd (prepare E w this fileName resume)) st' thrown)
    end.
Proof.
  unfold importFromS3. destruct (prepare E w this fileName resume). reflexivity.
Qed.

Lemma prepare_rows w this fileName resume :
  rows (fst (prepare E w this fileName resume))
  = Database.inspections (World.db w).
Proof.
  unfold prepare.
  destruct (existingProgress _ _ _); reflexivity.
Qed.

Lemma prepare_stopped w this fileName resume :
  stopped (fst (prepare E w this fileName resume)) = false.
Proof.
  unfold prepare.
  destruct (existingProgress _ _ _); reflexivity.
Qed.

Lemma prepare_calls w this fileName resume :
  World.calls (world (fst (prepare E w this fileName resume))) = World.calls w.
Proof.
  unfold prepare.
  destruct (existingProgress _ _ _); reflexivity.
Qed.

(** A run over an object that has no checkpoint to resume from starts
    at offset zero with a new checkpoint row and zeroed counters. *)
Lemma prepare_fresh w this fileName resume :
  calculateResumeOffset (Database.import_log (World.db w)) fileName = 0 ->
  let l := Database.import_log (World.db w) in
  startOffset l fileName resume = 0
  /\ snd (prepare E w this fileName resume) = next_log_id l
  /\ log (fst (prepare E w this fileName resume))
     = fst (startImportLog l fileName (Env.clock E (World.awaits w)))
  /\ processed (fst (prepare E w this fileName resume)) = 0
  /\ imported (fst (prepare E w this fileName resume)) = 0
  /\ errors (fst (prepare E w this fileName resume)) = 0.
Proof.
  intros Hzero l.
  assert (Hoff : startOffset l fileName resume = 0).
  { unfold startOffset. subst l. rewrite Hzero.
    destruct (resume || _); reflexivity. }
  assert (Hex : existingProgress l fileName resume = None).
  { unfold existingProgress. subst l. rewrite Hzero. simpl.
    rewrite andb_false_r. reflexivity. }
  unfold prepare. fold l. rewrite Hex, Hoff. simpl.
  repeat split; reflexivity.
Qed.

Lemma finish_rows logId st thrown : rows (finish E logId st thrown) = rows st.
Proof. reflexivity. Qed.

Lemma finish_calls logId st thrown :
  World.calls (world (finish E logId st thrown)) = World.calls (world st).
Proof. reflexivity. Qed.

Lemma finish_completed logId st :
  stopped st = false ->
  let run := finish E logId st None in
  ImportProgress.status (progress run) = completed
  /\ processed run = processed st
  /\ imported run = imported st
  /\ errors run = errors st
  /\ log run
     = completeImportLog (log st) logId (progress run)
         (Env.clock E (World.awaits (world st))) None.
Proof.
  intros Hgo. unfold finish, stopped in *. rewrite Hgo. simpl. auto.
Qed.

(** The store never holds two rows with one identifier, whatever the
    options and whatever goes wrong during the run. *)
Lemma importFromS3_NoDup fuel w this fileName resume run :
  importFromS3 E options fuel w this fileName resume = Some run ->
  NoDup (Database.ids (World.db w)) ->
  NoDup (Database.ids (World.db (world run))).
Proof.
  rewrite importFromS3_unfold. intros Hrun Hnodup.
  destruct (chunk_loop _ _ _ _ _ _ _) as [[st' thrown]|] eqn:Eloop; [|discriminate].
  inversion Hrun; subst run.
  change (NoDup (row_ids (rows (finish E (snd (prepare E w this fileName resume))
                                        st' thrown)))).
  rewrite finish_rows.
  eapply chunk_loop_NoDup; [exact Eloop|].
  rewrite prepare_rows. exact Hnodup.
Qed.

(** With a positive batch size and enough fuel a run returns. *)
Lemma importFromS3_total w this fileName resume fuel :
  0 < ImportOptions.batchSize options ->
  enough_fuel E fileName <= fuel ->
  exists run, importFromS3 E options fuel w this fileName resume = Some run.
Proof.
  intros Hpos Hfuel. rewrite importFromS3_unfold. unfold enough_fuel in Hfuel.
  destruct (Env.bucket E fileName) as [lines|] eqn:Eb.
  - destruct (chunk_loop_total E options (snd (prepare E w this fileName resume))
                fileName lines Eb Hpos fuel
                (fst (prepare E w this fileName resume))
                (startOffset (Database.import_log (World.db w)) fileName resume))
      as [st' [thrown ->]]; [lia|]. eauto.
  - destruct fuel as [|fuel]; [lia|].
    destruct (chunk_loop_unreachable E options (snd (prepare E w this fileName resume))
                fileName fuel (fst (prepare E w this fileName resume))
                (startOffset (Database.import_log (World.db w)) fileName resume) Eb)
      as [st' [thrown ->]]. eauto.
Qed.

(** The first decode call of a run asks for the starting offset. *)
Lemma importFromS3_first_call fuel w this fileName resume run :
  importFromS3 E options fuel w this fileName resume = Some run ->
  exists c rest,
    World.calls (world run) = World.calls w ++ c :: rest
    /\ S3Stream.call_file c = fileName
    /\ S3Stream.call_limit c = chunkSize
    /\ S3Stream.call_offset c
       = startOffset (Database.import_log (World.db w)) fileName resume.
Proof.
  rewrite importFromS3_unfold. intros Hrun.
  destruct (chunk_loop _ _ _ _ _ _ _) as [[st' thrown]|] eqn:Eloop; [|discriminate].
  inversion Hrun; subst run. rewrite finish_calls.
  destruct (chunk_loop_first_call E options _ fileName fuel _ _ st' thrown
              (prepare_stopped w this fileName resume) Eloop)
    as [c [rest [Hcalls Hc]]].
  exists c, rest. rewrite Hcalls, prepare_calls. auto.
Qed.

(** ** Importing an unchanged object twice *)

(** A run that started without a checkpoint and was finalised as
    completed leaves no checkpoint to resume from. *)
Lemma checkpoint_closed fuel w this fileName run :
  calculateResumeOffset (Database.import_log (World.db w)) fileName = 0 ->
  importFromS3 E options fuel w this fileName false = Some run ->
  ImportProgress.status (progress run) = completed ->
  calculateResumeOffset (Database.import_log (World.db (world run))) fileName = 0.
Proof.
  intros Hzero Hrun Hdone.
  destruct (prepare_fresh w this fileName false Hzero)
    as [_ [Hid [Hlog _]]].
  rewrite importFromS3_unfold in Hrun.
  destruct (chunk_loop _ _ _ _ _ _ _) as [[st' thrown]|] eqn:Eloop; [|discriminate].
  inversion Hrun; subst run. clear Hrun.
  rewrite calculateResumeOffset_filter.
  change (Database.import_log
            (World.db (world (finish E (snd (prepare E w this fileName false))
                                     st' thrown))))
    with (completeImportLog (log st') (snd (prepare E w this fileName false))
            (progress (finish E (snd (prepare E w this fileName false)) st' thrown))
            (Env.clock E (World.awaits (world st'))) thrown).
  rewrite (checkpoints_after_completion _ _ _ _ _ _ Hdone).
  rewrite (chunk_loop_others E options _ fileName fuel _ _ st' thrown Eloop).
  rewrite Hlog, Hid. unfold startImportLog. simpl fst.
  rewrite others_fresh by reflexivity.
  rewrite <- calculateResumeOffset_filter. exact Hzero.
Qed.

Lemma reimport w this fileName lines fuel :
  undisturbed E ->
  Env.bucket E fileName = Some lines ->
  0 < ImportOptions.batchSize options ->
  ImportOptions.skipDuplicates options = true ->
  identified options lines ->
  calculateResumeOffset (Database.import_log (World.db w)) fileName = 0 ->
  length lines < fuel ->
  exists run1 run2,
    importFromS3 E options fuel w this fileName false = Some run1
    /\ importFromS3 E options fuel (world run1) (importer run1) fileName false
       = Some run2
    /\ ImportProgress.status (progress run1) = completed
    /\ ImportProgress.status (progress run2) = completed
    /\ imported run2 = 0
    /\ errors run2 = processed run2
    /\ processed run2 = processed run1
    /\ rows run2 = rows run1.
Proof.
  intros Hquiet Hb Hpos Hskip Hident Hzero Hfuel.
  (* the first run *)
  destruct (prepare_fresh w this fileName false Hzero)
    as [Hoff1 [Hid1 [Hlog1 [Hp1 [Hi1 He1]]]]].
  set (st1 := fst (prepare E w this fileName false)) in *.
  set (id1 := snd (prepare E w this fileName false)) in *.
  destruct (chunk_loop_total E options id1 fileName lines Hb Hpos fuel st1 0)
    as [st1' [thrown1 Hloop1]]; [lia|].
  pose proof (chunk_loop_no_exception E options id1 fileName lines fuel Hb
                st1 0 st1' thrown1 Hloop1) as Hnone. subst thrown1.
  pose proof (chunk_loop_goes_on E options Hquiet id1 fileName fuel st1 0 st1' None
                (prepare_stopped w this fileName false) Hloop1) as Hgo1.
  destruct (finish_completed id1 st1' Hgo1) as [Hs1 [Hpr1 [Him1 [Her1 Hl1]]]].
  set (run1 := finish E id1 st1' None) in *.
  assert (Hrun1 : importFromS3 E options fuel w this fileName false = Some run1).
  { rewrite importFromS3_unfold. fold st1 id1. rewrite Hoff1, Hloop1. reflexivity. }
  (* the log after the first run offers nothing to resume from *)
  pose proof (checkpoint_closed fuel w this fileName run1 Hzero Hrun1 Hs1)
    as Hzero2.
  (* the second run *)
  destruct (prepare_fresh (world run1) (importer run1) fileName false Hzero2)
    as [Hoff2 [_ [_ [Hp2 [Hi2 He2]]]]].
  set (st2 := fst (prepare E (world run1) (importer run1) fileName false)) in *.
  set (id2 := snd (prepare E (world run1) (importer run1) fileName false)) in *.
  destruct (chunk_loop_again E options Hquiet Hskip fileName lines id1 id2 Hb Hpos
              Hident fuel st1 st2 0 st1' None
              (prepare_stopped w this fileName false)
              (prepare_stopped (world run1) (importer run1) fileName false)
              Hloop1)
    as [st2' [Hloop2 [Hrows2 [Himp2 [Hbal2 [Hproc2 Hgo2]]]]]].
  { intros i Hi. subst st2. rewrite prepare_rows. exact Hi. }
  destruct (finish_completed id2 st2' Hgo2) as [Hs2 [Hpr2 [Him2 [Her2 _]]]].
  exists run1, (finish E id2 st2' None).
  split; [exact Hrun1|]. split.
  { rewrite importFromS3_unfold. fold st2 id2. rewrite Hoff2, Hloop2. reflexivity. }
  split; [exact Hs1|]. split; [exact Hs2|].
  rewrite Him2, Her2, Hpr2, Hpr1, finish_rows, Hrows2.
  subst st2. rewrite prepare_rows.
  repeat split; try lia. 
Qed.

End RunFacts.

(* ================================================================== *)
(** * Writing records whose identifiers are already stored, and
      records whose identifiers are new *)
(* ================================================================== *)

Section UpsertFacts.
Import Importer Spec.

Variable E : Env.t.
Variable options : ImportOptions.t.
Hypothesis Hquiet : undisturbed E.

Lemma insert_or_replace_only row rs i :
  In i (row_ids (Sqlite.insert_or_replace row rs)) ->
  In i (row_ids rs) \/ i = InspectionRow.id row.
Proof.
  unfold row_ids, Sqlite.insert_or_replace. rewrite map_app, in_app_iff. simpl.
  intros [H|[H|[]]]; [left|right; congruence].
  apply in_map_iff in H. destruct H as [old [Hid Hin]].
  apply filter_In in Hin. apply in_map_iff. exists old. tauto.
Qed.

Lemma insert_each_only batch : forall rs n i,
  In i (row_ids (fst (Sqlite.insert_each (Env.faults E) rs batch n))) ->
  In i (row_ids rs) \/ exists r, In r batch /\ key r = i.
Proof.
  induction batch as [|r rest IH]; intros rs n i Hin; [left; exact Hin|].
  rewrite insert_each_step in Hin. apply IH in Hin.
  destruct Hin as [Hin|[x [Hx Hk]]].
  - unfold Sqlite.insertInspection in Hin.
    destruct (Sqlite.row_write_fails (Env.faults E) r); [left; exact Hin|].
    assert (Hin' : In i (row_ids (Sqlite.insert_or_replace
                                    (Sqlite.transformInspectionForDb r) rs)))
      by (destruct (Sqlite.defect_write_fails (Env.faults E) r); exact Hin).
    apply insert_or_replace_only in Hin'. destruct Hin' as [H|H]; [left; exact H|].
    right. exists r. split; [left; reflexivity|symmetry; exact H].
  - right. exists x. split; [right; exact Hx|exact Hk].
Qed.

(** Upserting records that are all stored already adds no
    identifier. *)
Lemma insert_each_no_new batch rs n i :
  (forall r, In r batch -> covered (Env.faults E) rs r) ->
  In i (row_ids (fst (Sqlite.insert_each (Env.faults E) rs batch n))) ->
  In i (row_ids rs).
Proof.
  revert rs n. induction batch as [|r rest IH]; intros rs n Hcov Hin; [exact Hin|].
  rewrite insert_each_step in Hin.
  assert (Hsame : forall j,
             In j (row_ids (fst (Sqlite.insertInspection (Env.faults E) rs r))) ->
             In j (row_ids rs)).
  { intros j Hj. unfold Sqlite.insertInspection in Hj.
    destruct (Sqlite.row_write_fails (Env.faults E) r) eqn:Ew; [exact Hj|].
    assert (Hj' : In j (row_ids (Sqlite.insert_or_replace
                                   (Sqlite.transformInspectionForDb r) rs)))
      by (destruct (Sqlite.defect_write_fails (Env.faults E) r); exact Hj).
    apply insert_or_replace_only in Hj'. destruct Hj' as [H| ->]; [exact H|].
    apply (Hcov r (or_introl eq_refl) Ew). }
  apply Hsame. eapply IH; [|exact Hin].
  intros x Hx Hw. apply insertInspection_keeps.
  apply (Hcov x (or_intror Hx) Hw).
Qed.

Lemma process_batch_no_new logId st batch i :
  (forall r, In r (validBatch options batch) ->
             covered (Env.faults E) (rows st) r) ->
  In i (row_ids (rows (process_batch E options logId st batch))) ->
  In i (row_ids (rows st)).
Proof.
  intros Hcov.
  destruct (process_batch_committed E options logId st batch) as [-> _];
    [apply Hquiet|].
  apply insert_each_no_new. intros r Hr. apply Hcov.
  eapply filteredBatch_incl. exact Hr.
Qed.

Lemma batch_loop_no_new logId batches : forall st i,
  (forall b r, In b batches -> In r (validBatch options b) ->
               covered (Env.faults E) (rows st) r) ->
  In i (row_ids (rows (batch_loop E options logId st batches))) ->
  In i (row_ids (rows st)).
Proof.
  induction batches as [|b rest IH]; intros st i Hcov Hin; [exact Hin|].
  simpl in Hin. destruct (DataImporter.shouldStop (importer st)); [exact Hin|].
  apply (process_batch_no_new logId st b).
  - intros r Hr. apply (Hcov b r); [left; reflexivity|exact Hr].
  - eapply IH; [|exact Hin]. intros b' r Hb' Hr.
    apply covered_mono with (rs := rows st).
    + intros j. apply process_batch_keeps.
    + apply (Hcov b' r); [right; exact Hb'|exact Hr].
Qed.

(** The second of two undisturbed runs over one object adds no
    identifier to the store, with or without the duplicate filter. *)
Lemma chunk_loop_no_new fileName lines logId1 logId2 :
  Env.bucket E fileName = Some lines ->
  forall fuel st1 st2 offset st1' thrown1 st2' thrown2,
    stopped st1 = false ->
    chunk_loop E options logId1 fileName fuel st1 offset = Some (st1', thrown1) ->
    chunk_loop E options logId2 fileName fuel st2 offset = Some (st2', thrown2) ->
    (forall i, In i (row_ids (rows st1')) -> In i (row_ids (rows st2))) ->
    forall i, In i (row_ids (rows st2')) -> In i (row_ids (rows st2)).
Proof.
  intros Hb. induction fuel as [|fuel IH];
    intros st1 st2 offset st1' thrown1 st2' thrown2 Hgo1 Hrun1 Hrun2 Hsub i Hi.
  - simpl in Hrun2.
    destruct (DataImporter.shouldStop (importer st2)); [|discriminate].
    inversion Hrun2; subst. exact Hi.
  - rewrite chunk_loop_unfold in Hrun1, Hrun2. cbv zeta in *.
    rewrite Hgo1 in Hrun1.
    destruct (stopped st2); [inversion Hrun2; subst; exact Hi|].
    rewrite (streamFromS3_window _ _ lines _ _ Hb) in *.
    set (chunk := S3Stream.window lines chunkSize offset) in *.
    set (c := {| S3Stream.call_file := fileName;
                 S3Stream.call_limit := chunkSize;
                 S3Stream.call_offset := offset;
                 S3Stream.call_produced := Some chunk |}) in *.
    destruct (length chunk =? 0); [inversion Hrun2; subst; exact Hi|].
    destruct (createBatches chunk (ImportOptions.batchSize options))
      as [batches|]; [|discriminate].
    pose proof (fetching_goes_on E Hquiet st1 c Hgo1) as Hf1.
    set (st1b := batch_loop E options logId1 (fetching E st1 c) batches) in *.
    set (st2b := batch_loop E options logId2 (fetching E st2 c) batches) in *.
    assert (Hkeep : forall j, In j (row_ids (rows st1b)) ->
                              In j (row_ids (rows st2))).
    { destruct (length chunk <? chunkSize).
      - inversion Hrun1; subst. exact Hsub.
      - intros j Hj. apply Hsub.
        eapply chunk_loop_keeps; [exact Hrun1|exact Hj]. }
    assert (Hback : forall j, In j (row_ids (rows st2b)) ->
                              In j (row_ids (rows st2))).
    { intros j Hj. apply (batch_loop_no_new logId2 batches (fetching E st2 c) j);
        [|exact Hj].
      intros b r Hin Hr.
      apply covered_mono with (rs := rows st1b); [exact Hkeep|].
      apply (batch_loop_covers E options Hquiet logId1 batches
               (fetching E st1 c) b r Hf1 Hin Hr). }
    destruct (length chunk <? chunkSize).
    + inversion Hrun2; subst. apply Hback. exact Hi.
    + apply Hback.
      apply (IH st1b st2b (offset + length chunk) st1' thrown1 st2' thrown2); auto.
      * apply batch_loop_goes_on; assumption.
      * intros j Hj. apply batch_loop_keeps. apply Hsub. exact Hj.
Qed.

Lemma NoDup_same_length (l1 l2 : list string) :
  NoDup l1 -> NoDup l2 ->
  (forall i, In i l1 -> In i l2) -> (forall i, In i l2 -> In i l1) ->
  length l1 = length l2.
Proof.
  intros H1 H2 H12 H21. apply Nat.le_antisymm; apply NoDup_incl_length; assumption.
Qed.

(** Importing an object a second time leaves the store with the same
    identifiers, each of them once. *)
Lemma reimport_upserts w this fileName lines fuel run1 run2 :
  Env.bucket E fileName = Some lines ->
  calculateResumeOffset (Database.import_log (World.db w)) fileName = 0 ->
  NoDup (Database.ids (World.db w)) ->
  importFromS3 E options fuel w this fileName false = Some run1 ->
  importFromS3 E options fuel (world run1) (importer run1) fileName false
  = Some run2 ->
  ImportProgress.status (progress run1) = completed ->
  NoDup (row_ids (rows run2))
  /\ length (rows run2) = length (rows run1)
  /\ forall i, In i (row_ids (rows run2)) <-> In i (row_ids (rows run1)).
Proof.
  intros Hb Hzero Hnodup Hrun1 Hrun2 Hdone.
  pose proof (importFromS3_NoDup E options fuel w this fileName false run1
                Hrun1 Hnodup) as Hnd1.
  pose proof (importFromS3_NoDup E options fuel _ _ fileName false run2
                Hrun2 Hnd1) as Hnd2.
  assert (Hsame : forall i, In i (row_ids (rows run2)) <-> In i (row_ids (rows run1))).
  { pose proof (checkpoint_closed E options fuel w this fileName run1
                  Hzero Hrun1 Hdone) as Hzero2.
    destruct (prepare_fresh E w this fileName false Hzero) as [Hoff1 _].
    destruct (prepare_fresh E (world run1) (importer run1) fileName false Hzero2)
      as [Hoff2 _].
    rewrite importFromS3_unfold in Hrun1, Hrun2.
    rewrite Hoff1 in Hrun1. rewrite Hoff2 in Hrun2.
    destruct (chunk_loop E options (snd (prepare E w this fileName false)) _ _ _ _)
      as [[st1' thrown1]|] eqn:Eloop1; [|discriminate].
    destruct (chunk_loop E options
                (snd (prepare E (world run1) (importer run1) fileName false)) _ _ _ _)
      as [[st2' thrown2]|] eqn:Eloop2; [|discriminate].
    inversion Hrun2; subst run2. rewrite finish_rows.
    assert (Hr1 : rows run1 = rows st1')
      by (inversion Hrun1; subst run1; apply finish_rows).
    assert (Hp2 : rows (fst (prepare E (world run1) (importer run1) fileName false))
                  = rows run1) by apply prepare_rows.
    intros i. split.
    - intros Hi. rewrite <- Hp2.
      apply (chunk_loop_no_new fileName lines _ _ Hb fuel _ _ 0
               st1' thrown1 st2' thrown2
               (prepare_stopped E w this fileName false) Eloop1 Eloop2); [|exact Hi].
      intros j Hj. rewrite Hp2, Hr1. exact Hj.
    - intros Hi. eapply chunk_loop_keeps; [exact Eloop2|].
      rewrite Hp2. exact Hi. }
  split; [exact Hnd2|]. split; [|exact Hsame].
  unfold row_ids in *. rewrite <- (length_map InspectionRow.id (rows run2)).
  rewrite <- (length_map InspectionRow.id (rows run1)).
  apply NoDup_same_length; [exact Hnd2|exact Hnd1| |]; intros i; apply Hsame.
Qed.

End UpsertFacts.

(* ================================================================== *)
(** * Validation *)
(* ================================================================== *)

Section ValidationFacts.
Import Importer Spec.

Lemma defined_iff {A} (v : option A) : Js.defined v = true <-> v <> None.
Proof. destruct v; simpl; split; congruence. Qed.

(** [validateRecord] accepts exactly the records that have the seven
    fields it reads. *)
Lemma validateRecord_complete r : validateRecord r = true <-> complete r.
Proof.
  unfold validateRecord, complete.
  rewrite <- !defined_iff.
  destruct (Js.truthy (SewerInspection.id r));
    destruct (Js.truthy (SewerInspection.city r));
    destruct (Js.truthy (SewerInspection.state r));
    destruct (Js.truthy (SewerInspection.material r));
    destruct (Js.defined (SewerInspection.diameter_in r));
    destruct (Js.defined (SewerInspection.inspection_score r));
    destruct (Js.defined (SewerInspection.requires_repair r));
    simpl; intuition congruence.
Qed.

Lemma validBatch_complete options batch r :
  ImportOptions.validateData options = true ->
  In r (validBatch options batch) <-> In r batch /\ complete r.
Proof.
  intros Hval. unfold validBatch. rewrite Hval, filter_In.
  rewrite validateRecord_complete. tauto.
Qed.

Lemma validBatch_all options batch :
  (forall r, In r batch -> complete r) -> validBatch options batch = batch.
Proof.
  intros Hall. unfold validBatch.
  destruct (ImportOptions.validateData options); [|reflexivity].
  apply forallb_filter_id. apply forallb_forall. intros r Hr.
  apply validateRecord_complete. apply Hall. exact Hr.
Qed.

Lemma complete_identified r : complete r -> SewerInspection.id r <> None.
Proof.
  intros [Hid _]. destruct (SewerInspection.id r); [congruence|discriminate].
Qed.

End ValidationFacts.

(* ================================================================== *)
(** * Batches of new records *)
(* ================================================================== *)

Section FreshBatchFacts.
Import Importer Spec.

Variable E : Env.t.
Variable options : ImportOptions.t.
Hypothesis Hquiet : undisturbed E.

Let storable := Spec.storable E.

Lemma filterDuplicates_all_new rs records :
  (forall r, In r records ->
             SewerInspection.id r <> None /\ ~ In (key r) (row_ids rs)) ->
  filterDuplicates rs records = records.
Proof.
  intros Hall. unfold filterDuplicates.
  destruct records as [|r0 rest] eqn:Er; [reflexivity|]. rewrite <- Er in *.
  apply forallb_filter_id. apply forallb_forall. intros r Hr.
  destruct (Hall r Hr) as [Hid Hnew].
  destruct (SewerInspection.id r) as [i|] eqn:Ei; [|congruence].
  apply negb_true_iff. apply not_true_is_false. intros Hhas.
  apply has_In in Hhas. apply existingIds_In in Hhas.
  rewrite (key_of_identified r i Ei) in Hnew. tauto.
Qed.

(** A batch of storable records whose identifiers are not in the
    store is imported whole and counts no error.  Without the
    duplicate filter the identifiers may as well be in the store. *)
Lemma process_batch_fresh logId st batch :
  (forall r, In r batch -> storable r) ->
  (ImportOptions.skipDuplicates options = true ->
   forall r, In r batch -> ~ In (key r) (row_ids (rows st))) ->
  stopped st = false ->
  let st' := process_batch E options logId st batch in
  imported st' = imported st + length batch
  /\ processed st' = processed st + length batch
  /\ errors st' = errors st
  /\ stopped st' = false
  /\ forall i, In i (row_ids (rows st')) ->
               In i (row_ids (rows st)) \/ exists r, In r batch /\ key r = i.
Proof.
  intros Hall Hnew Hgo st'.
  destruct (process_batch_committed E options logId st batch)
    as [Hrows [Hprog _]]; [apply Hquiet|].
  assert (Hsame : filteredBatch options (rows st) batch = batch).
  { unfold filteredBatch.
    rewrite validBatch_all by (intros r Hr; apply (Hall r Hr)).
    destruct (ImportOptions.skipDuplicates options) eqn:Eskip; [|reflexivity].
    apply filterDuplicates_all_new. intros r Hr. split.
    - apply complete_identified. apply (Hall r Hr).
    - apply (Hnew eq_refl r Hr). }
  rewrite Hsame in Hrows, Hprog.
  rewrite insert_each_all in Hprog
    by (intros r Hr; destruct (Hall r Hr) as [_ Hok]; exact Hok).
  subst st'. unfold imported, processed, errors. rewrite Hprog. simpl.
  repeat split; try lia.
  - apply process_batch_goes_on; assumption.
  - intros i Hi. rewrite Hrows in Hi. apply insert_each_only in Hi. exact Hi.
Qed.

End FreshBatchFacts.

(* ================================================================== *)
(** * The importer: resume, idempotence, validation and error counts *)
(* ================================================================== *)

Section ImporterClaims.
Import Importer Spec.

(** C3.  When [importFromS3] is called with [resume = true] for an
    object that has a most recent checkpoint whose status is not
    completed, the run returns and its first decode call asks for an
    offset equal to that checkpoint's [records_processed]; when the log
    holds no such checkpoint for the object, the first decode call asks
    for offset 0, with or without [resume]. *)
Theorem resume_starts_at_last_checkpoint
  (E : Env.t) (options : ImportOptions.t) (w : World.t) (this : DataImporter.t)
  (fileName : string) (fuel : nat) :
  0 < ImportOptions.batchSize options ->
  enough_fuel E fileName <= fuel ->
  (forall row,
      In row (Database.import_log (World.db w)) ->
      checkpoint_of fileName row = true ->
      (forall other,
          In other (Database.import_log (World.db w)) ->
          checkpoint_of fileName other = true ->
          other = row
          \/ String.ltb (ImportLogRow.started_at other)
                        (ImportLogRow.started_at row) = true) ->
      exists run c rest,
        importFromS3 E options fuel w this fileName true = Some run
        /\ World.calls (world run) = World.calls w ++ c :: rest
        /\ S3Stream.call_file c = fileName
        /\ S3Stream.call_offset c = ImportLogRow.records_processed row)
  /\ ((forall row,
          In row (Database.import_log (World.db w)) ->
          checkpoint_of fileName row = false) ->
      forall resume,
      exists run c rest,
        importFromS3 E options fuel w this fileName resume = Some run
        /\ World.calls (world run) = World.calls w ++ c :: rest
        /\ S3Stream.call_file c = fileName
        /\ S3Stream.call_offset c = 0).
Proof.
  intros Hpos Hfuel. split.
  - intros row Hin Hck Hlatest.
    destruct (importFromS3_total E options w this fileName true fuel Hpos Hfuel)
      as [run Hrun].
    destruct (importFromS3_first_call E options fuel w this fileName true run Hrun)
      as [c [rest [Hcalls [Hfile [_ Hoff]]]]].
    exists run, c, rest. repeat split; auto.
    rewrite Hoff. unfold startOffset. simpl.
    rewrite calculateResumeOffset_filter.
    destruct (order_by_desc_head ImportLogRow.t ImportLogRow.started_at
                (filter (checkpoint_of fileName) (Database.import_log (World.db w)))
                row) as [others ->].
    + apply filter_In. split; assumption.
    + intros x Hx. apply filter_In in Hx. destruct Hx as [Hx Hcx].
      apply Hlatest; assumption.
    + reflexivity.
  - intros Hnone resume.
    destruct (importFromS3_total E options w this fileName resume fuel Hpos Hfuel)
      as [run Hrun].
    destruct (importFromS3_first_call E options fuel w this fileName resume run Hrun)
      as [c [rest [Hcalls [Hfile [_ Hoff]]]]].
    exists run, c, rest. repeat split; auto.
    rewrite Hoff.
    assert (Hzero : calculateResumeOffset (Database.import_log (World.db w)) fileName = 0).
    { rewrite calculateResumeOffset_filter.
      assert (Hnil : filter (checkpoint_of fileName)
                       (Database.import_log (World.db w)) = []).
      { clear - Hnone. revert Hnone.
        generalize (Database.import_log (World.db w)) as l.
        induction l as [|x l IH]; intros Hnone; [reflexivity|].
        simpl. rewrite (Hnone x (or_introl eq_refl)).
        apply IH. intros y Hy. apply Hnone. right. exact Hy. }
      rewrite Hnil. reflexivity. }
    unfold startOffset. rewrite Hzero. destruct (resume || _); reflexivity.
Qed.

Lemma resume_starts_at_last_checkpoint_witness :
  (exists run c rest,
      importFromS3 (Examples.env Examples.two_records)
        ImportOptions.DEFAULT_OPTIONS 3 Examples.interrupted_world
        DataImporter.new Examples.part1 true = Some run
      /\ World.calls (world run)
         = World.calls Examples.interrupted_world ++ c :: rest
      /\ S3Stream.call_file c = Examples.part1
      /\ S3Stream.call_offset c = 200)
  /\ (exists run c rest,
      importFromS3 (Examples.env Examples.two_records)
        ImportOptions.DEFAULT_OPTIONS 3 Examples.interrupted_world
        DataImporter.new Examples.part2 false = Some run
      /\ World.calls (world run)
         = World.calls Examples.interrupted_world ++ c :: rest
      /\ S3Stream.call_file c = Examples.part2
      /\ S3Stream.call_offset c = 0).
Proof.
  split.
  - apply (proj1 (resume_starts_at_last_checkpoint
                    (Examples.env Examples.two_records)
                    ImportOptions.DEFAULT_OPTIONS Examples.interrupted_world
                    DataImporter.new Examples.part1 3
                    ltac:(simpl; lia) ltac:(vm_compute; lia))
                 (Examples.checkpoint 2 Examples.part1
                    "2024-05-02T08:00:00.000Z" 200 paused)).
    + simpl. tauto.
    + reflexivity.
    + intros other Hin Hck. simpl in Hin.
      destruct Hin as [<-|[<-|[<-|[]]]].
      * right. reflexivity.
      * left. reflexivity.
      * discriminate Hck.
  - apply (proj2 (resume_starts_at_last_checkpoint
                    (Examples.env Examples.two_records)
                    ImportOptions.DEFAULT_OPTIONS Examples.interrupted_world
                    DataImporter.new Examples.part2 3
                    ltac:(simpl; lia) ltac:(vm_compute; lia))).
    intros row Hin. simpl in Hin.
    destruct Hin as [<-|[<-|[<-|[]]]]; reflexivity.
Defined.

(** C10.  After a batch whose transaction commits, the errors counter
    has grown by exactly the batch length minus the inserted count, the
    inserted count being at most the batch length, so that every record
    dropped by validation and every record dropped by the duplicate
    filter is counted as an error.  In particular, when an unchanged
    object is imported a second time with the duplicate filter on, the
    second run completes with nothing imported and with every record it
    processed counted as an error. *)
Theorem errors_count_every_record_not_inserted
  (E : Env.t) (options : ImportOptions.t) :
  (forall logId st batch,
      Env.transaction_fails E (World.transactions (world st)) = false ->
      let toInsert := filteredBatch options (rows st) batch in
      let insertedCount :=
        snd (Sqlite.insert_each (Env.faults E) (rows st) toInsert 0) in
      let st' := process_batch E options logId st batch in
      insertedCount <= length batch
      /\ errors st' = errors st + (length batch - insertedCount)
      /\ imported st' = imported st + insertedCount
      /\ processed st' = processed st + length batch
      /\ (length batch - length (validBatch options batch))
         + (length (validBatch options batch) - length toInsert)
         <= length batch - insertedCount)
  /\ (forall w this fileName lines fuel,
        undisturbed E ->
        Env.bucket E fileName = Some lines ->
        0 < ImportOptions.batchSize options ->
        ImportOptions.skipDuplicates options = true ->
        identified options lines ->
        calculateResumeOffset (Database.import_log (World.db w)) fileName = 0 ->
        length lines < fuel ->
        exists run1 run2,
          importFromS3 E options fuel w this fileName false = Some run1
          /\ importFromS3 E options fuel (world run1) (importer run1) fileName false
             = Some run2
          /\ ImportProgress.status (progress run2) = completed
          /\ ImportProgress.recordsImported (progress run2) = 0
          /\ ImportProgress.recordsProcessed (progress run2)
             = ImportProgress.recordsProcessed (progress run1)
          /\ ImportProgress.errors (progress run2)
             = ImportProgress.recordsProcessed (progress run2)).
Proof.
  split.
  - intros logId st batch Hok toInsert insertedCount st'.
    destruct (process_batch_committed E options logId st batch Hok)
      as [_ [Hprog _]].
    destruct (insertedCount_bound E options (rows st) batch) as [H1 [H2 H3]].
    fold toInsert in H1, H2, Hprog. fold insertedCount in H1, Hprog.
    subst st'. unfold errors, imported, processed. rewrite Hprog. simpl.
    repeat split; lia.
  - intros w this fileName lines fuel Hquiet Hb Hpos Hskip Hident Hzero Hfuel.
    destruct (reimport E options w this fileName lines fuel Hquiet Hb Hpos Hskip
                Hident Hzero Hfuel)
      as [run1 [run2 [Hr1 [Hr2 [_ [Hdone [Himp [Herr [Hproc _]]]]]]]]].
    exists run1, run2. repeat split; assumption.
Qed.

Lemma errors_count_every_record_not_inserted_witness :
  (let st := fst (prepare (Examples.env Examples.two_records)
                    (World.initial Database.empty) DataImporter.new
                    Examples.part1 false) in
   let batch := [Examples.houston; Examples.no_diameter] in
   let st' := process_batch (Examples.env Examples.two_records)
                ImportOptions.DEFAULT_OPTIONS 1 st batch in
   errors st' = errors st + (length batch - 1)
   /\ imported st' = imported st + 1
   /\ processed st' = processed st + length batch)
  /\ (exists run1 run2,
        importFromS3 (Examples.env Examples.two_records)
          ImportOptions.DEFAULT_OPTIONS 3 (World.initial Database.empty)
          DataImporter.new Examples.part1 false = Some run1
        /\ importFromS3 (Examples.env Examples.two_records)
             ImportOptions.DEFAULT_OPTIONS 3 (world run1) (importer run1)
             Examples.part1 false = Some run2
        /\ ImportProgress.status (progress run2) = completed
        /\ ImportProgress.recordsImported (progress run2) = 0
        /\ ImportProgress.recordsProcessed (progress run2)
           = ImportProgress.recordsProcessed (progress run1)
        /\ ImportProgress.errors (progress run2)
           = ImportProgress.recordsProcessed (progress run2)).
Proof.
  split.
  - destruct (proj1 (errors_count_every_record_not_inserted
                       (Examples.env Examples.two_records)
                       ImportOptions.DEFAULT_OPTIONS)
                    1
                    (fst (prepare (Examples.env Examples.two_records)
                            (World.initial Database.empty) DataImporter.new
                            Examples.part1 false))
                    [Examples.houston; Examples.no_diameter]
                    eq_refl)
      as [_ [Herrors [Himported [Hprocessed _]]]].
    repeat split; assumption.
  - apply (proj2 (errors_count_every_record_not_inserted
                    (Examples.env Examples.two_records)
                    ImportOptions.DEFAULT_OPTIONS)
                 (World.initial Database.empty) DataImporter.new
                 Examples.part1 Examples.two_records 3).
    + split; intros k; reflexivity.
    + reflexivity.
    + simpl; lia.
    + reflexivity.
    + left. reflexivity.
    + reflexivity.
    + simpl; lia.
Defined.

(** C8 (as amended).  With validation on, a record is kept for
    insertion exactly when it is in the batch and has a non-empty
    identifier, city, state and pipe material, a pipe diameter, an
    inspection score and a repair flag; and every batch raises the
    errors counter by at least the number of records validation
    discarded. *)
Theorem validation_keeps_exactly_complete_records
  (E : Env.t) (options : ImportOptions.t) (logId : nat) (st : Run)
  (batch : list SewerInspection.t) :
  ImportOptions.validateData options = true ->
  (forall r, In r (validBatch options batch) <-> In r batch /\ complete r)
  /\ errors st + (length batch - length (validBatch options batch))
     <= errors (process_batch E options logId st batch).
Proof.
  intros Hval. split.
  - intros r. apply validBatch_complete. exact Hval.
  - destruct (Env.transaction_fails E (World.transactions (world st))) eqn:Ef.
    + destruct (process_batch_rolled_back E options logId st batch Ef)
        as [_ [Hprog _]].
      unfold errors. rewrite Hprog. simpl. lia.
    + destruct (process_batch_committed E options logId st batch Ef)
        as [_ [Hprog _]].
      destruct (insertedCount_bound E options (rows st) batch) as [H1 [H2 H3]].
      unfold errors. rewrite Hprog. simpl. lia.
Qed.

Lemma validation_keeps_exactly_complete_records_witness :
  (forall r, In r (validBatch ImportOptions.DEFAULT_OPTIONS
                     [Examples.houston; Examples.no_diameter])
             <-> In r [Examples.houston; Examples.no_diameter] /\ complete r)
  /\ errors (fst (prepare (Examples.env Examples.two_records)
                     (World.initial Database.empty) DataImporter.new
                     Examples.part1 false))
     + (length [Examples.houston; Examples.no_diameter]
        - length (validBatch ImportOptions.DEFAULT_OPTIONS
                    [Examples.houston; Examples.no_diameter]))
     <= errors (process_batch (Examples.env Examples.two_records)
                  ImportOptions.DEFAULT_OPTIONS 1
                  (fst (prepare (Examples.env Examples.two_records)
                          (World.initial Database.empty) DataImporter.new
                          Examples.part1 false))
                  [Examples.houston; Examples.no_diameter]).
Proof.
  apply (validation_keeps_exactly_complete_records
           (Examples.env Examples.two_records) ImportOptions.DEFAULT_OPTIONS 1
           (fst (prepare (Examples.env Examples.two_records)
                   (World.initial Database.empty) DataImporter.new
                   Examples.part1 false))
           [Examples.houston; Examples.no_diameter]).
  reflexivity.
Defined.

(** C8, counterexample.  A record that has the identifier, the city,
    the state, the pipe material, the score and the repair flag is
    discarded all the same when its pipe diameter is missing. *)
Lemma validation_discards_record_without_diameter :
  Js.truthy (SewerInspection.id Examples.no_diameter) = true
  /\ Js.truthy (SewerInspection.city Examples.no_diameter) = true
  /\ Js.truthy (SewerInspection.state Examples.no_diameter) = true
  /\ Js.truthy (SewerInspection.material Examples.no_diameter) = true
  /\ SewerInspection.inspection_score Examples.no_diameter <> None
  /\ SewerInspection.requires_repair Examples.no_diameter <> None
  /\ validateRecord Examples.no_diameter = false
  /\ validBatch ImportOptions.DEFAULT_OPTIONS [Examples.no_diameter] = [].
Proof.
  repeat split; try reflexivity; discriminate.
Qed.

End ImporterClaims.

Section MalformedLineClaim.
Import Importer Spec.

Lemma createBatches_pair {A} (a b : A) (batchSize : nat) :
  0 < batchSize ->
  createBatches [a; b] batchSize
  = Some (if batchSize =? 1 then [[a]; [b]] else [[a; b]]).
Proof.
  intros Hpos. destruct batchSize as [|[|n]]; [lia|reflexivity|].
  unfold createBatches. simpl. unfold Js.slice. simpl.
  rewrite firstn_nil. reflexivity.
Qed.

(** C6 (as amended).  For an object that consists of one malformed line
    followed by two valid records that the store accepts and, when the
    duplicate filter is on, does not hold yet, an undisturbed run that
    starts without a checkpoint completes with [recordsProcessed = 2],
    [recordsImported = 2] and [errors = 0]: the decoder drops the
    malformed line and goes on, and the importer never learns of it. *)
Theorem malformed_line_is_dropped_and_not_counted
  (E : Env.t) (options : ImportOptions.t) (w : World.t) (this : DataImporter.t)
  (fileName text : string) (a b : SewerInspection.t) (fuel : nat) :
  undisturbed E ->
  Env.bucket E fileName
  = Some [S3Stream.BadLine text; S3Stream.JsonLine a; S3Stream.JsonLine b] ->
  0 < ImportOptions.batchSize options ->
  storable E a ->
  storable E b ->
  (ImportOptions.skipDuplicates options = true ->
   key a <> key b
   /\ ~ In (key a) (Database.ids (World.db w))
   /\ ~ In (key b) (Database.ids (World.db w))) ->
  calculateResumeOffset (Database.import_log (World.db w)) fileName = 0 ->
  0 < fuel ->
  exists run,
    importFromS3 E options fuel w this fileName false = Some run
    /\ ImportProgress.status (progress run) = completed
    /\ ImportProgress.recordsProcessed (progress run) = 2
    /\ ImportProgress.recordsImported (progress run) = 2
    /\ ImportProgress.errors (progress run) = 0.
Proof.
  intros Hquiet Hb Hpos Ha Hbb Hnew Hzero Hfuel.
  destruct (prepare_fresh E w this fileName false Hzero)
    as [Hoff [_ [_ [Hp0 [Hi0 He0]]]]].
  pose proof (prepare_stopped E w this fileName false) as Hgo.
  pose proof (prepare_rows E w this fileName false) as Hrows0.
  rewrite importFromS3_unfold, Hoff.
  set (st := fst (prepare E w this fileName false)) in *.
  set (logId := snd (prepare E w this fileName false)).
  destruct fuel as [|fuel]; [lia|].
  rewrite chunk_loop_unfold. cbv zeta. rewrite Hgo.
  rewrite (streamFromS3_window _ _ _ _ _ Hb).
  change (S3Stream.window [S3Stream.BadLine text; S3Stream.JsonLine a;
                           S3Stream.JsonLine b] chunkSize 0) with [a; b].
  change (length [a; b] =? 0) with false.
  change (length [a; b] <? chunkSize) with true. cbv iota.
  rewrite (createBatches_pair a b _ Hpos).
  match goal with
  | |- context [fetching E st ?call] => set (c := call)
  end.
  pose proof (fetching_goes_on E Hquiet st c Hgo) as Hgo1.
  set (st1 := fetching E st c) in *.
  assert (Hcount : processed st1 = 0 /\ imported st1 = 0 /\ errors st1 = 0)
    by (subst st1; repeat split; assumption).
  assert (Hrows1 : rows st1 = Database.inspections (World.db w)) by exact Hrows0.
  destruct Hcount as [Hp1 [Hi1 He1]].
  clearbody st1. clear c.
  assert (Hend : forall st2,
             stopped st2 = false -> processed st2 = 2 -> imported st2 = 2 ->
             errors st2 = 0 ->
             exists run,
               Some (finish E logId st2 None) = Some run
               /\ ImportProgress.status (progress run) = completed
               /\ ImportProgress.recordsProcessed (progress run) = 2
               /\ ImportProgress.recordsImported (progress run) = 2
               /\ ImportProgress.errors (progress run) = 0).
  { intros st2 Hg Hp Hi He.
    destruct (finish_completed E logId st2 Hg) as [Hs [Hpr [Him [Her _]]]].
    eexists. split; [reflexivity|].
    unfold processed, imported, errors in *. repeat split; congruence. }
  destruct (ImportOptions.batchSize options =? 1).
  - (* two batches of one record *)
    unfold batch_loop. unfold stopped in Hgo1. rewrite Hgo1.
    destruct (process_batch_fresh E options Hquiet logId st1 [a])
      as [Hia [Hpa [Hea [Hga Honly]]]].
    { intros r [<-|[]]. exact Ha. }
    { intros Hskip r [<-|[]]. rewrite Hrows1. apply (Hnew Hskip). }
    { exact Hgo1. }
    set (sta := process_batch E options logId st1 [a]) in *.
    clearbody sta. unfold stopped in Hga. rewrite Hga.
    destruct (process_batch_fresh E options Hquiet logId sta [b])
      as [Hib [Hpb [Heb [Hgb _]]]].
    { intros r [<-|[]]. exact Hbb. }
    { intros Hskip r [<-|[]] Hin. destruct (Hnew Hskip) as [Hne [Hna Hnb]].
      apply Honly in Hin. destruct Hin as [Hin|[x [[<-|[]] Hk]]].
      - rewrite Hrows1 in Hin. exact (Hnb Hin).
      - exact (Hne Hk). }
    { exact Hga. }
    apply Hend; [exact Hgb| | |]; simpl in *; lia.
  - (* one batch of two records *)
    unfold batch_loop. unfold stopped in Hgo1. rewrite Hgo1.
    destruct (process_batch_fresh E options Hquiet logId st1 [a; b])
      as [Hiab [Hpab [Heab [Hgab _]]]].
    { intros r [<-|[<-|[]]]; assumption. }
    { intros Hskip r Hr. rewrite Hrows1. destruct (Hnew Hskip) as [_ [Hna Hnb]].
      destruct Hr as [<-|[<-|[]]]; assumption. }
    { exact Hgo1. }
    apply Hend; [exact Hgab| | |]; simpl in *; lia.
Qed.

Lemma malformed_line_is_dropped_and_not_counted_witness :
  exists run,
    importFromS3 (Examples.env Examples.malformed_then_two)
      ImportOptions.DEFAULT_OPTIONS 1 (World.initial Database.empty)
      DataImporter.new Examples.part1 false = Some run
    /\ ImportProgress.status (progress run) = completed
    /\ ImportProgress.recordsProcessed (progress run) = 2
    /\ ImportProgress.recordsImported (progress run) = 2
    /\ ImportProgress.errors (progress run) = 0.
Proof.
  apply (malformed_line_is_dropped_and_not_counted
           (Examples.env Examples.malformed_then_two)
           ImportOptions.DEFAULT_OPTIONS (World.initial Database.empty)
           DataImporter.new Examples.part1 "{oops"
           Examples.houston Examples.austin 1).
  - split; intros k; reflexivity.
  - reflexivity.
  - simpl; lia.
  - repeat split; discriminate.
  - repeat split; discriminate.
  - intros _. repeat split; [discriminate|intros []|intros []].
  - reflexivity.
  - lia.
Defined.

(** C6, counterexample.  On an object that consists of one malformed
    line followed by two valid records the run completes with two
    records imported and with the errors counter at zero, not at one or
    more. *)
Lemma malformed_line_leaves_errors_at_zero :
  exists run,
    importFromS3 (Examples.env Examples.malformed_then_two)
      ImportOptions.DEFAULT_OPTIONS 3 (World.initial Database.empty)
      DataImporter.new Examples.part1 false = Some run
    /\ ImportProgress.status (progress run) = completed
    /\ ImportProgress.recordsImported (progress run) = 2
    /\ ~ (1 <= ImportProgress.errors (progress run)).
Proof.
  eexists. split; [vm_compute; reflexivity|].
  simpl. repeat split. lia.
Qed.

End MalformedLineClaim.

(* ================================================================== *)
(** * The indexed search backend *)
(* ================================================================== *)

Section IndexedSearchClaims.
Import Spec.

Lemma NoDup_app_disjoint {A} (l1 l2 : list A) x :
  NoDup (l1 ++ l2) -> In x l1 -> In x l2 -> False.
Proof.
  induction l1 as [|y l1 IH]; simpl; intros Hnd H1 H2; [exact H1|].
  inversion Hnd as [|? ? Hnot Hrest]; subst.
  destruct H1 as [->|H1].
  - apply Hnot. apply in_or_app. right. exact H2.
  - exact (IH Hrest H1 H2).
Qed.

Lemma NoDup_skipn {A} n (l : list A) : NoDup l -> NoDup (skipn n l).
Proof.
  intros H. rewrite <- (firstn_skipn n l) in H.
  eapply NoDup_app_remove_l. exact H.
Qed.


Lemma selected_perm db filters :
  Permutation (Sqlite.selected db filters)
              (filter (Sqlite.whereClause filters) (Database.inspections db)).
Proof. apply order_by_desc_perm. Qed.

Lemma selected_NoDup db filters :
  NoDup (Database.ids db) ->
  NoDup (map Sqlite.transformDbToInspection (Sqlite.selected db filters)).
Proof.
  intros Hnd.
  apply (NoDup_map_inv
           (fun r => match SewerInspection.id r with
                     | Some i => i
                     | None => EmptyString
                     end)).
  rewrite map_map. simpl.
  change (NoDup (map InspectionRow.id (Sqlite.selected db filters))).
  apply (Permutation_NoDup
           (Permutation_sym (Permutation_map InspectionRow.id
                               (selected_perm db filters)))).
  apply (row_ids_filter_NoDup _ _ Hnd).
Qed.




(** What the state filter means in each backend. *)
Lemma indexed_state_filter_is_exact s row :
  s <> EmptyString ->
  Sqlite.whereClause (Examples.state_filter s) row = true
  <-> InspectionRow.state row = s.
Proof.
  intros Hs. unfold Sqlite.whereClause, Sqlite.conditions, Sqlite.when_set,
    Examples.state_filter.
  simpl. destruct (String.eqb_spec s EmptyString) as [|_]; [contradiction|].
  simpl. rewrite andb_true_r. apply String.eqb_eq.
Qed.

Lemma scan_state_filter_ignores_case s r :
  s <> EmptyString ->
  S3Search.scanPredicate (Examples.state_filter s) r = true
  <-> exists v, SewerInspection.state r = Some v
                /\ Js.toLowerCase v = Js.toLowerCase s.
Proof.
  intros Hs.
  unfold S3Search.scanPredicate, S3Search.fastFilter, S3Search.matchesFilters,
    S3Search.compileFilterPredicates, Examples.state_filter. simpl.
  destruct (String.eqb_spec s EmptyString) as [|_]; [contradiction|]. simpl.
  destruct (SewerInspection.state r) as [v|]; simpl.
  - destruct (String.eqb_spec (Js.toLowerCase v) (Js.toLowerCase s)) as [Heq|Hne];
      simpl.
    + split; [intros _; exists v; auto|intros _].
      destruct (String.eqb v EmptyString); reflexivity.
    + split; [discriminate|]. intros [v' [Hv Hl]]. inversion Hv; subst. contradiction.
  - split; [discriminate|]. intros [v [Hv _]]. discriminate.
Qed.

(** C2.  The two backends disagree on the state filter: the streaming
    scan accepts a record whose state is "TX" under the filter "tx",
    and the indexed backend, whose query compares with [state = ?],
    returns it for "TX" and returns nothing for "tx". *)
Theorem indexed_state_filter_is_case_sensitive :
  S3Search.scanPredicate (Examples.state_filter "tx") Examples.houston = true
  /\ S3Search.matchesFilters Examples.houston (Examples.state_filter "tx") = true
  /\ SearchResult.results
       (DbSearch.searchInspections Examples.texas_db (Examples.state_filter "TX") 1 10)
     = [Sqlite.transformDbToInspection
          (Sqlite.transformInspectionForDb Examples.houston)]
  /\ SearchResult.results
       (DbSearch.searchInspections Examples.texas_db (Examples.state_filter "tx") 1 10)
     = []
  /\ SearchResult.totalCount
       (DbSearch.searchInspections Examples.texas_db (Examples.state_filter "tx") 1 10)
     = 0.
Proof. repeat split; reflexivity. Qed.

End IndexedSearchClaims.

(* ================================================================== *)
(** * The streaming-scan search backend *)
(* ================================================================== *)

Section StreamingSearchFacts.
Import S3Search Spec.

Variable filters : SearchFilters.t.
Variable skipCount limitCount : nat.

Lemma records_of_app calls more :
  records_of (calls ++ more) = records_of calls ++ records_of more.
Proof. unfold records_of. apply flat_map_app. Qed.

Lemma matches_seen_snoc calls fileName offset chunk :
  matches_seen filters
    (calls ++ [{| S3Stream.call_file := fileName;
                  S3Stream.call_limit := chunkSize;
                  S3Stream.call_offset := offset;
                  S3Stream.call_produced := Some chunk |}])
  = matches_seen filters calls + length (filter (scanPredicate filters) chunk).
Proof.
  unfold matches_seen. rewrite records_of_app, filter_app, length_app.
  simpl. rewrite app_nil_r. reflexivity.
Qed.

(** What the [for] loop over a filtered chunk does to the number of
    matches skipped and the number collected, as long as it does not
    return from inside the loop. *)
Lemma collect_counts filteredChunk : forall found localSkipped seen,
  localSkipped = Nat.min skipCount seen ->
  length found = seen - localSkipped ->
  length found <= limitCount ->
  let '(found', localSkipped', returned) :=
    collect filteredChunk skipCount limitCount found localSkipped in
  length found' <= limitCount
  /\ (returned = false ->
      localSkipped' = Nat.min skipCount (seen + length filteredChunk)
      /\ length found' = seen + length filteredChunk - localSkipped').
Proof.
  induction filteredChunk as [|r rest IH]; intros found localSkipped seen Hs Hf Hl.
  - simpl. split; [exact Hl|]. intros _. rewrite Nat.add_0_r. auto.
  - simpl. destruct (Nat.ltb_spec localSkipped skipCount) as [Hlt|Hge].
    + specialize (IH found (S localSkipped) (S seen)).
      destruct (collect rest skipCount limitCount found (S localSkipped))
        as [[found' localSkipped'] returned].
      replace (seen + S (length rest)) with (S seen + length rest) by lia.
      apply IH; lia.
    + destruct (Nat.ltb_spec (length found) limitCount) as [Hroom|Hfull].
      * specialize (IH (found ++ [r]) localSkipped (S seen)).
        destruct (collect rest skipCount limitCount (found ++ [r]) localSkipped)
          as [[found' localSkipped'] returned].
        replace (seen + S (length rest)) with (S seen + length rest) by lia.
        apply IH; [lia| |]; rewrite length_app; simpl length; lia.
      * split; [exact Hl|discriminate].
Qed.

Let wellFormed (c : S3Stream.DecodeCall) : Prop :=
  S3Stream.call_limit c = chunkSize /\ S3Stream.produced_count c <= chunkSize.

(** The chunk loop of one file: it returns, every call asks for one
    chunk, and a call is only issued while the chunks decoded before
    it hold fewer matches than the page still needs. *)
Lemma scan_loop_stops (bucket : S3Stream.Bucket) fileName lines :
  bucket fileName = Some lines ->
  forall fuel found processed localSkipped calls,
    length lines - processed < fuel ->
    localSkipped = Nat.min skipCount (matches_seen filters calls) ->
    length found = matches_seen filters calls - localSkipped ->
    length found <= limitCount ->
    exists scan more,
      scan_loop bucket fileName filters skipCount limitCount fuel
                found processed localSkipped calls
      = Some (Returned scan)
      /\ scanCalls scan = calls ++ more
      /\ Forall wellFormed more
      /\ (forall n, n < length more ->
                    matches_seen filters (calls ++ firstn n more)
                    < skipCount + limitCount)
      /\ length (matches scan) <= limitCount.
Proof.
  intros Hb. induction fuel as [|fuel IH];
    intros found processed localSkipped calls Hfuel Hs Hf Hl; [lia|].
  simpl. destruct (Nat.ltb_spec (length found) limitCount) as [Hroom|Hfull].
  - rewrite (streamFromS3_window _ _ lines _ _ Hb).
    set (chunk := S3Stream.window lines chunkSize processed).
    set (c := {| S3Stream.call_file := fileName;
                 S3Stream.call_limit := chunkSize;
                 S3Stream.call_offset := processed;
                 S3Stream.call_produced := Some chunk |}).
    assert (Hc : wellFormed c).
    { split; [reflexivity|]. apply window_length_limit. }
    assert (Hnow : matches_seen filters calls < skipCount + limitCount) by lia.
    assert (Hone : forall n, n < length [c] ->
               matches_seen filters (calls ++ firstn n [c]) < skipCount + limitCount).
    { intros n Hn. simpl in Hn. replace n with 0 by lia. simpl.
      rewrite app_nil_r. exact Hnow. }
    destruct (length chunk =? 0).
    { eexists; exists [c]. repeat split; simpl; auto; try lia. }
    pose proof (collect_counts (filter (scanPredicate filters) chunk)
                  found localSkipped (matches_seen filters calls) Hs Hf Hl) as Hcol.
    destruct (collect (filter (scanPredicate filters) chunk) skipCount limitCount
                      found localSkipped) as [[found' localSkipped'] returned].
    destruct Hcol as [Hl' Hinv].
    destruct returned; simpl.
    { eexists; exists [c]. repeat split; simpl; auto; try lia. }
    destruct (Nat.ltb_spec (length chunk) chunkSize) as [Hshort|Hlong].
    { eexists; exists [c]. repeat split; simpl; auto; try lia. }
    destruct (Hinv eq_refl) as [Hs' Hf'].
    destruct (IH found' (processed + length chunk) localSkipped' (calls ++ [c]))
      as [scan [more [Hrun [Hcalls [Hwf [Hbound Hlen]]]]]].
    + pose proof (window_length_rest lines chunkSize processed).
      fold chunk in H. unfold chunkSize in *. lia.
    + subst c. rewrite matches_seen_snoc. exact Hs'.
    + subst c. rewrite matches_seen_snoc. exact Hf'.
    + exact Hl'.
    + exists scan, (c :: more). rewrite Hrun.
      split; [reflexivity|]. split; [rewrite Hcalls, <- app_assoc; reflexivity|].
      split; [constructor; assumption|]. split; [|exact Hlen].
      intros [|n] Hn; simpl.
      * rewrite app_nil_r. exact Hnow.
      * replace (calls ++ c :: firstn n more)
          with ((calls ++ [c]) ++ firstn n more)
          by (rewrite <- app_assoc; reflexivity).
        apply Hbound. simpl in Hn. lia.
  - eexists; exists []. rewrite app_nil_r.
    repeat split; simpl; auto. intros n Hn. lia.
Qed.

End StreamingSearchFacts.

Section StreamingSearchClaims.
Import S3Search Spec.

(** C7 (as amended).  Scanning one object for a page, the streaming
    backend returns; every decode call it issues asks for one chunk of
    500 records; a decode call is issued only while the records decoded
    by the calls before it hold fewer than [skipCount + limitCount]
    matches, so that no chunk is requested once the page is filled; and
    at most [limitCount] records are kept. *)
Theorem scan_requests_no_chunk_after_page_is_filled
  (filters : SearchFilters.t) (skipCount limitCount : nat)
  (bucket : S3Stream.Bucket) (fileName : string)
  (lines : list S3Stream.Line) (fuel : nat) :
  bucket fileName = Some lines ->
  length lines < fuel ->
  exists scan,
    streamWithOffsetAndLimit bucket fuel fileName filters skipCount limitCount
    = Some (Returned scan)
    /\ Forall (fun c => S3Stream.call_limit c = chunkSize
                        /\ S3Stream.produced_count c <= chunkSize)
              (scanCalls scan)
    /\ (forall n, n < length (scanCalls scan) ->
                  matches_seen filters (firstn n (scanCalls scan))
                  < skipCount + limitCount)
    /\ length (matches scan) <= limitCount.
Proof.
  intros Hb Hfuel.
  destruct (scan_loop_stops filters skipCount limitCount bucket fileName lines
              Hb fuel [] 0 0 [])
    as [scan [more [Hrun [Hcalls [Hwf [Hbound Hlen]]]]]];
    [lia|unfold matches_seen; simpl; lia|reflexivity|simpl; lia|].
  exists scan. simpl in Hcalls. subst more.
  split; [exact Hrun|]. split; [exact Hwf|]. split; [exact Hbound|exact Hlen].
Qed.

Lemma scan_requests_no_chunk_after_page_is_filled_witness :
  exists scan,
    streamWithOffsetAndLimit (Examples.only_part1 Examples.twenty_matches) 21
      Examples.part1 Examples.needs_repair 0 10
    = Some (Returned scan)
    /\ Forall (fun c => S3Stream.call_limit c = chunkSize
                        /\ S3Stream.produced_count c <= chunkSize)
              (scanCalls scan)
    /\ (forall n, n < length (scanCalls scan) ->
                  matches_seen Examples.needs_repair (firstn n (scanCalls scan))
                  < 0 + 10)
    /\ length (matches scan) <= 10.
Proof.
  apply (scan_requests_no_chunk_after_page_is_filled
           Examples.needs_repair 0 10
           (Examples.only_part1 Examples.twenty_matches)
           Examples.part1 Examples.twenty_matches 21).
  - reflexivity.
  - simpl; lia.
Defined.

(** C7, counterexample.  Asked for the first page of ten records of an
    object that holds twenty matching records, the paging scan has the
    decoder produce all twenty, more than [skip + pageSize = 10]. *)
Lemma scan_decodes_more_than_skip_plus_page :
  exists scan,
    pageScan (Examples.only_part1 Examples.twenty_matches) 21
             Examples.needs_repair 1 10
    = Some (Returned scan)
    /\ length (results scan) = 10
    /\ S3Stream.total_produced (pageCalls scan) = 20
    /\ ~ (S3Stream.total_produced (pageCalls scan) <= (1 - 1) * 10 + 10).
Proof.
  eexists. split; [vm_compute; reflexivity|].
  split; [reflexivity|]. split; [reflexivity|].
  vm_compute. lia.
Qed.

(** What the estimate does guarantee: it is never below the number
    of matches in its own sample. *)
Lemma sampleFiles_matches_le_sampled bucket filters files :
  forall totalSampled totalMatches,
    totalMatches <= totalSampled ->
    let '(sampled, found, _) :=
      sampleFiles bucket filters files totalSampled totalMatches in
    found <= sampled.
Proof.
  induction files as [|fileName rest IH]; intros totalSampled totalMatches Hle;
    simpl; [exact Hle|].
  destruct (S3Stream.streamFromS3 bucket fileName sampleSize 0) as [sample|];
    [|exact Hle].
  apply IH.
  pose proof (filter_length_le
                (fun inspection => matchesFilters inspection filters) sample).
  lia.
Qed.

Lemma estimate_at_least_sample_matches bucket filters files :
  let '(_, found, _) := sampleFiles bucket filters files 0 0 in
  found <= estimateTotalCount bucket filters files.
Proof.
  unfold estimateTotalCount.
  pose proof (sampleFiles_matches_le_sampled bucket filters files 0 0 (le_n 0)) as Hle.
  destruct (sampleFiles bucket filters files 0 0) as [[sampled found] threw].
  destruct threw; [lia|].
  destruct (Nat.eqb_spec sampled 0); lia.
Qed.

(** C1.  The total the streaming backend reports can fall below the
    number of matches its own scan found: 500 records that do not match
    are followed by one that does; the scan returns that record, and
    the estimate, which samples the first 500 records of each object,
    reports a total of zero. *)
Theorem estimate_falls_below_matches_of_the_scan :
  exists scan result,
    pageScan (Examples.only_part1 Examples.late_match) 502
             Examples.needs_repair 1 10
    = Some (Returned scan)
    /\ searchInspections (Examples.only_part1 Examples.late_match) 502
                         Examples.needs_repair 1 10
       = Some (Returned result)
    /\ totalMatchesFound scan = 1
    /\ SearchResult.results result = [Examples.austin]
    /\ SearchResult.totalCount result = 0.
Proof.
  eexists. eexists. split; [vm_compute; reflexivity|].
  split; [vm_compute; reflexivity|].
  repeat split; reflexivity.
Qed.

End StreamingSearchClaims.

(* ================================================================== *)
(** * The import handler *)
(* ================================================================== *)

Section ImportRouteClaims.
Import ImportRoute.

Lemma update_snoc objects o f :
  update (objects ++ [o]) (length objects) f = objects ++ [f o].
Proof.
  induction objects as [|x objects IH]; simpl; [reflexivity|].
  rewrite IH. reflexivity.
Qed.

Lemma nth_error_snoc (objects : list DataImporter.t) o :
  nth_error (objects ++ [o]) (length objects) = Some o.
Proof.
  induction objects as [|x objects IH]; simpl; [reflexivity|exact IH].
Qed.

(** A start request is accepted when the guard is open. *)
Lemma startImport_accepted st fileName :
  guard st = false ->
  status (fst (startImport st fileName)) = 200.
Proof. intros H. unfold startImport. rewrite H. reflexivity. Qed.

(** A start request for one file closes the guard: until that run
    ends, every further start request is answered with 409. *)
Lemma startImport_single_file_guards st fileName next :
  guard st = false ->
  Js.truthy (Some fileName) = true ->
  let st' := snd (startImport st (Some fileName)) in
  guard st' = true
  /\ importActive st' = true
  /\ fst (startImport st' next)
     = {| status := 409; message := "Import is already running" |}.
Proof.
  intros Hopen Hname st'.
  assert (Hguard : guard st' = true).
  { subst st'. unfold startImport. rewrite Hopen, Hname. simpl.
    unfold guard, importFromS3_starts. simpl.
    rewrite update_snoc, nth_error_snoc. reflexivity. }
  split; [exact Hguard|]. split.
  - subst st'. unfold startImport. rewrite Hopen, Hname. simpl.
    unfold importActive, importFromS3_starts. simpl.
    rewrite update_snoc, existsb_app. simpl. apply orb_true_r.
  - unfold startImport. rewrite Hguard. reflexivity.
Qed.

Lemma nth_error_update_other objects f : forall i j,
  i <> j -> nth_error (update objects i f) j = nth_error objects j.
Proof.
  induction objects as [|o objects IH]; intros [|i] [|j] Hne; simpl;
    try reflexivity; try lia.
  apply IH. lia.
Qed.

Lemma existsb_update_enter objects : forall i,
  i < length objects ->
  existsb DataImporter.isRunning (update objects i DataImporter.enter) = true.
Proof.
  induction objects as [|o objects IH]; intros [|i] Hi; simpl in *;
    first [lia | reflexivity | rewrite IH by lia; apply orb_true_r].
Qed.

(** A start request without a file name starts an import and leaves
    the guard open, whatever the state it is accepted in. *)
Lemma startImport_all_files_leaves_guard_open st :
  guard st = false ->
  let st' := snd (startImport st None) in
  guard st' = false /\ importActive st' = true.
Proof.
  intros Hopen st'. subst st'. unfold startImport. rewrite Hopen. simpl.
  unfold importAllFiles_starts. rewrite nth_error_snoc. simpl.
  unfold guard, importActive, importFromS3_starts. simpl.
  rewrite length_app. simpl. split.
  - rewrite nth_error_update_other by lia.
    rewrite nth_error_app1 by (rewrite length_app; simpl; lia).
    rewrite nth_error_snoc. reflexivity.
  - apply existsb_update_enter. rewrite !length_app. simpl. lia.
Qed.

(** C9.  A start request without a file name launches [importAllFiles],
    which runs each file on a new importer and never marks the importer
    the guard looks at as running: the import is active, the guard
    stays open, and a second start request is answered with 200
    "Import started successfully" and starts a second run beside the
    first. *)
Theorem second_start_is_accepted_while_all_files_import_runs :
  let first := startImport initial None in
  let second := startImport (snd first) None in
  status (fst first) = 200
  /\ importActive (snd first) = true
  /\ guard (snd first) = false
  /\ fst second
     = {| status := 200; message := "Import started successfully" |}
  /\ length (filter DataImporter.isRunning (heap (snd second))) = 2.
Proof. repeat split; reflexivity. Qed.

End ImportRouteClaims.

(* ================================================================== *)
(** * More on the decoder and on batches *)
(* ================================================================== *)

Section DecoderContract.
Import S3Stream Facts.

(** X1.  A decode call on an object that can be fetched returns the
    first [limit] records that parse among the non-blank lines after
    the first [offset] of them, in the order of the lines: never more
    than [limit] records and only records of the object.  On an object
    that cannot be fetched it throws. *)
Theorem decoder_returns_the_requested_window
  (bucket : Bucket) (fileName : string) (limit offset : nat) :
  match bucket fileName with
  | Some lines =>
      exists chunk,
        streamFromS3 bucket fileName limit offset = Some chunk
        /\ chunk = firstn limit (parsed (skipn offset (nonblank lines)))
        /\ length chunk <= limit
        /\ length chunk <= length lines - offset
        /\ forall r, In r chunk -> In (JsonLine r) lines
  | None => streamFromS3 bucket fileName limit offset = None
  end.
Proof.
  destruct (bucket fileName) as [lines|] eqn:Hb.
  - exists (window lines limit offset).
    split; [apply streamFromS3_window; exact Hb|].
    split; [reflexivity|].
    split; [apply window_length_limit|].
    split; [apply window_length_rest|].
    intros r. apply window_In.
  - unfold streamFromS3. rewrite Hb. reflexivity.
Qed.

Lemma nonblank_clean lines : clean lines -> clean (nonblank lines).
Proof.
  intros Hc text Hin. unfold nonblank in Hin. apply filter_In in Hin.
  exact (Hc text (proj1 Hin)).
Qed.

Lemma skipn_clean n lines : clean lines -> clean (skipn n lines).
Proof. intros Hc text Hin. apply skipn_In in Hin. exact (Hc text Hin). Qed.

(** Among non-blank lines that all parse, skipping lines and
    skipping records is the same. *)
Lemma parsed_skipn n : forall lines,
  clean lines ->
  parsed (skipn n (nonblank lines)) = skipn n (parsed (nonblank lines)).
Proof.
  induction n as [|n IH]; intros lines Hc; [reflexivity|].
  induction lines as [|[|text|r] rest IHl].
  - reflexivity.
  - apply IHl. intros t Hin. apply (Hc t). right. exact Hin.
  - exfalso. apply (Hc text). left. reflexivity.
  - simpl. apply IH. intros t Hin. apply (Hc t). right. exact Hin.
Qed.

Lemma window_records lines limit offset :
  clean lines ->
  window lines limit offset = firstn limit (skipn offset (records lines)).
Proof.
  intros Hc. unfold window, records. rewrite parsed_skipn by exact Hc.
  reflexivity.
Qed.

Lemma firstn_then_more {A} (l : list A) a b :
  firstn a l ++ firstn b (skipn (length (firstn a l)) l) = firstn (a + b) l.
Proof.
  revert l b. induction a as [|a IH]; intros l b; [reflexivity|].
  destruct l as [|x l]; simpl.
  - rewrite firstn_nil. reflexivity.
  - rewrite IH. reflexivity.
Qed.

(** X2.  On an object without malformed lines, a decode call for [a]
    records at [offset] followed by a decode call for [b] records at
    [offset] plus the number of records the first call returned yields
    together what one call for [a + b] records at [offset] yields: the
    chunks neither overlap nor leave a gap. *)
Theorem decode_calls_tile_a_clean_object
  (bucket : Bucket) (fileName : string) (lines : list Line)
  (a b offset : nat) :
  bucket fileName = Some lines ->
  clean lines ->
  exists first second,
    streamFromS3 bucket fileName a offset = Some first
    /\ streamFromS3 bucket fileName b (offset + length first) = Some second
    /\ streamFromS3 bucket fileName (a + b) offset = Some (first ++ second).
Proof.
  intros Hb Hc.
  exists (window lines a offset), (window lines b (offset + length (window lines a offset))).
  rewrite !(streamFromS3_window bucket fileName lines _ _ Hb).
  split; [reflexivity|]. split; [reflexivity|]. f_equal.
  rewrite !(window_records lines _ _ Hc).
  replace (offset + length (firstn a (skipn offset (records lines))))
    with (length (firstn a (skipn offset (records lines))) + offset) by lia.
  rewrite <- skipn_skipn. symmetry. apply firstn_then_more.
Qed.

Lemma decode_calls_tile_a_clean_object_witness :
  exists first second,
    streamFromS3 (Examples.only_part1 Examples.two_records) Examples.part1 1 0
    = Some first
    /\ streamFromS3 (Examples.only_part1 Examples.two_records) Examples.part1 1
         (0 + length first) = Some second
    /\ streamFromS3 (Examples.only_part1 Examples.two_records) Examples.part1
         (1 + 1) 0 = Some (first ++ second).
Proof.
  apply (decode_calls_tile_a_clean_object
           (Examples.only_part1 Examples.two_records) Examples.part1
           Examples.two_records 1 1 0).
  - reflexivity.
  - intros text [H|[H|[]]]; discriminate H.
Defined.

End DecoderContract.

Section BatchingContract.
Import Importer Facts.

Lemma firstn_slice {A} (array : list A) i n :
  firstn i array ++ Js.slice array i (i + n) = firstn (i + n) array.
Proof.
  unfold Js.slice. replace (i + n - i) with n by lia.
  revert array. induction i as [|i IH]; intros array; [reflexivity|].
  destruct array as [|x array]; simpl.
  - rewrite firstn_nil. reflexivity.
  - rewrite IH. reflexivity.
Qed.

Lemma slice_length {A} (array : list A) i n :
  i < length array -> 0 < n ->
  0 < length (Js.slice array i (i + n)) <= n.
Proof.
  intros Hi Hn. unfold Js.slice. replace (i + n - i) with n by lia.
  rewrite length_firstn, length_skipn. lia.
Qed.

Lemma createBatches_loop_partition {A} (array : list A) batchSize :
  0 < batchSize ->
  forall fuel i batches,
    length array - i <= fuel ->
    concat batches = firstn i array ->
    Forall (fun b => 0 < length b <= batchSize) batches ->
    exists all,
      createBatches_loop fuel array batchSize i batches = Some all
      /\ concat all = array
      /\ Forall (fun b => 0 < length b <= batchSize) all.
Proof.
  intros Hpos. induction fuel as [|fuel IH]; intros i batches Hfuel Hcat Hall.
  - exists batches. simpl. destruct (Nat.ltb_spec i (length array)); [lia|].
    split; [reflexivity|]. split; [|exact Hall].
    rewrite Hcat. apply firstn_all2. lia.
  - simpl. destruct (Nat.ltb_spec i (length array)) as [Hlt|Hge].
    + apply IH; [lia| |].
      * rewrite concat_app. simpl. rewrite app_nil_r, Hcat. apply firstn_slice.
      * apply Forall_app. split; [exact Hall|].
        constructor; [|constructor]. apply slice_length; assumption.
    + exists batches. split; [reflexivity|]. split; [|exact Hall].
      rewrite Hcat. apply firstn_all2. lia.
Qed.

(** X3.  With a positive batch size [createBatches] cuts the array
    into batches that, put end to end, are the array again; every batch
    holds at least one and at most [batchSize] elements. *)
Theorem createBatches_partitions_the_array
  (A : Type) (array : list A) (batchSize : nat) :
  0 < batchSize ->
  exists batches,
    createBatches array batchSize = Some batches
    /\ concat batches = array
    /\ Forall (fun b => 0 < length b <= batchSize) batches.
Proof.
  intros Hpos. unfold createBatches.
  apply (createBatches_loop_partition array batchSize Hpos); [lia|reflexivity|constructor].
Qed.

Lemma createBatches_partitions_the_array_witness :
  exists batches,
    createBatches [1; 2; 3; 4; 5] 2 = Some batches
    /\ concat batches = [1; 2; 3; 4; 5]
    /\ Forall (fun b => 0 < length b <= 2) batches.
Proof.
  apply (createBatches_partitions_the_array nat [1; 2; 3; 4; 5] 2). lia.
Defined.

Lemma createBatches_loop_hangs {A} (array : list A) fuel : forall i batches,
  i < length array ->
  createBatches_loop fuel array 0 i batches = None.
Proof.
  induction fuel as [|fuel IH]; intros i batches Hi; simpl;
    destruct (Nat.ltb_spec i (length array)); try lia; [reflexivity|].
  rewrite Nat.add_0_r. apply IH. exact Hi.
Qed.

(** X4.  With a batch size of zero the loop of [createBatches] never
    advances: an import whose first chunk holds a record does not
    return, whatever the fuel. *)
Theorem import_with_batch_size_zero_does_not_return
  (E : Env.t) (options : ImportOptions.t) (w : World.t) (this : DataImporter.t)
  (fileName : string) (resume : bool) (lines : list S3Stream.Line) (fuel : nat) :
  ImportOptions.batchSize options = 0 ->
  Env.bucket E fileName = Some lines ->
  S3Stream.window lines chunkSize
    (startOffset (Database.import_log (World.db w)) fileName resume) <> [] ->
  importFromS3 E options fuel w this fileName resume = None.
Proof.
  intros Hzero Hb Hsome. rewrite importFromS3_unfold.
  destruct fuel as [|fuel].
  - simpl. pose proof (prepare_stopped E w this fileName resume) as Hgo.
    unfold Spec.stopped in Hgo. rewrite Hgo. reflexivity.
  - rewrite chunk_loop_unfold. cbv zeta.
    rewrite (prepare_stopped E w this fileName resume).
    rewrite (streamFromS3_window _ _ lines _ _ Hb).
    destruct (S3Stream.window lines chunkSize _) as [|r chunk] eqn:Ew;
      [contradiction|].
    simpl length. simpl Nat.eqb. cbv iota.
    unfold createBatches. rewrite Hzero.
    rewrite createBatches_loop_hangs by (simpl; lia). reflexivity.
Qed.

Lemma import_with_batch_size_zero_does_not_return_witness :
  importFromS3 (Examples.env Examples.two_records)
    {| ImportOptions.batchSize := 0; ImportOptions.skipDuplicates := true;
       ImportOptions.validateData := true |}
    1000 (World.initial Database.empty) DataImporter.new Examples.part1 false
  = None.
Proof.
  apply (import_with_batch_size_zero_does_not_return
           (Examples.env Examples.two_records) _ (World.initial Database.empty)
           DataImporter.new Examples.part1 false Examples.two_records 1000).
  - reflexivity.
  - reflexivity.
  - discriminate.
Defined.

End BatchingContract.

(* ================================================================== *)
(** * More on the store *)
(* ================================================================== *)

Section Dates.
Import Js.

Lemma digit_digitChar (n : nat) : digit (digitChar n) = Some (n mod 10).
Proof.
  unfold digit, digitChar.
  pose proof (Nat.mod_upper_bound n 10 ltac:(lia)) as Hlt.
  rewrite nat_ascii_embedding by lia.
  destruct (Nat.leb_spec 48 (48 + n mod 10)) as [Hlo|Hlo]; [|lia].
  destruct (Nat.leb_spec (48 + n mod 10) 57) as [Hhi|Hhi]; [|lia].
  simpl. f_equal. lia.
Qed.

Lemma digit_bound (c : ascii) (d : nat) : digit c = Some d -> d <= 9.
Proof.
  unfold digit.
  destruct (Nat.leb_spec 48 (nat_of_ascii c)) as [Hlo|Hlo]; simpl;
    [|discriminate].
  destruct (Nat.leb_spec (nat_of_ascii c) 57) as [Hhi|Hhi]; [|discriminate].
  intros Heq. inversion Heq. lia.
Qed.

Lemma digits_bound (s : string) : forall value n,
  digits s value = Some n -> n < (value + 1) * 10 ^ String.length s.
Proof.
  induction s as [|c s IH]; intros value n H.
  - simpl in H. inversion H. simpl. lia.
  - simpl in H. destruct (digit c) as [d|] eqn:Hd; [|discriminate].
    apply digit_bound in Hd. apply IH in H.
    change (String.length (String c s)) with (S (String.length s)).
    rewrite Nat.pow_succ_r'. nia.
Qed.

Lemma substring_length (start width : nat) : forall text,
  String.length (substring start width text) <= width.
Proof.
  revert width. induction start as [|start IH]; intros width text.
  - revert text. induction width as [|width IHw]; intros text.
    + destruct text; simpl; lia.
    + destruct text as [|c text]; simpl; [lia|].
      specialize (IHw text). lia.
  - destruct text as [|c text]; simpl; [destruct width; simpl; lia|].
    apply IH.
Qed.

Lemma numberAt_bound text start width n :
  numberAt text start width = Some n -> n < 10 ^ width.
Proof.
  unfold numberAt. intros H. apply digits_bound in H.
  pose proof (substring_length start width text) as Hl.
  assert (10 ^ String.length (substring start width text) <= 10 ^ width)
    by (apply Nat.pow_le_mono_r; lia).
  lia.
Qed.

Lemma last_digit (n : nat) (bound : nat) :
  n < 10 * bound -> n = 10 * (n / 10) + n mod 10 /\ n / 10 < bound /\ n mod 10 < 10.
Proof.
  intros Hn. pose proof (Nat.div_mod_eq n 10) as Hdm.
  pose proof (Nat.mod_upper_bound n 10 ltac:(lia)). lia.
Qed.

Lemma digits_2 (n : nat) :
  n < 100 -> 10 * (10 * 0 + (n / 10) mod 10) + n mod 10 = n.
Proof.
  intros Hn. destruct (last_digit n 10 ltac:(lia)) as (E0 & B0 & _).
  rewrite (Nat.mod_small (n / 10)) by lia. lia.
Qed.

Lemma digits_3 (n : nat) :
  n < 10 ^ 3 ->
  10 * (10 * (10 * 0 + (n / 10 / 10) mod 10) + (n / 10) mod 10) + n mod 10 = n.
Proof.
  intros Hn. change (10 ^ 3) with (10 * 100) in Hn.
  destruct (last_digit n 100 Hn) as (E0 & B0 & _).
  pose proof (digits_2 (n / 10) B0) as E1. lia.
Qed.

Lemma digits_4 (n : nat) :
  n < 10 ^ 4 ->
  10 * (10 * (10 * (10 * 0 + (n / 10 / 10 / 10) mod 10) + (n / 10 / 10) mod 10)
        + (n / 10) mod 10) + n mod 10 = n.
Proof.
  intros Hn. change (10 ^ 4) with (10 * 10 ^ 3) in Hn.
  destruct (last_digit n (10 ^ 3) Hn) as (E0 & B0 & _).
  pose proof (digits_3 (n / 10) B0) as E1. lia.
Qed.

Lemma padded_2 n :
  padded 2 n = String (digitChar (n / 10)) (String (digitChar n) EmptyString).
Proof. reflexivity. Qed.

Lemma padded_3 n :
  padded 3 n
  = String (digitChar (n / 10 / 10))
      (String (digitChar (n / 10)) (String (digitChar n) EmptyString)).
Proof. reflexivity. Qed.

Lemma padded_4 n :
  padded 4 n
  = String (digitChar (n / 10 / 10 / 10))
      (String (digitChar (n / 10 / 10))
         (String (digitChar (n / 10)) (String (digitChar n) EmptyString))).
Proof. reflexivity. Qed.

Lemma inCalendar_bounds (t : DateTime) :
  inCalendar t = true ->
  month t <= 12 /\ day t <= 31 /\ hours t <= 23 /\ minutes t <= 59
  /\ seconds t <= 59.
Proof.
  unfold inCalendar. rewrite !andb_true_iff, !Nat.leb_le.
  intros ((((((_ & Hm) & _) & Hd) & Hh) & Hmi) & Hs).
  repeat split; try assumption.
  unfold daysInMonth in Hd.
  destruct (month t) as [|[|[|[|[|[|[|[|[|[|[|[|?]]]]]]]]]]]];
    try destruct (leapYear (year t)); lia.
Qed.

(** Reading a printed date gives the date back. *)
Lemma parse_print (t : DateTime) :
  inCalendar t = true -> year t < 10 ^ 4 -> milliseconds t < 10 ^ 3 ->
  parseDateTime (printDateTime t) = Some t.
Proof.
  intros Hcal Hy Hms.
  destruct (inCalendar_bounds t Hcal) as (Hm & Hd & Hh & Hmi & Hs).
  destruct t as [y m d h mi sec ms]. cbn [year month day hours minutes seconds milliseconds] in *.
  unfold printDateTime.
  cbn [year month day hours minutes seconds milliseconds].
  rewrite padded_4, !padded_2, padded_3.
  cbn [String.append].
  pose proof (digit_digitChar (y / 10 / 10 / 10)) as Y3.
  pose proof (digit_digitChar (y / 10 / 10)) as Y2.
  pose proof (digit_digitChar (y / 10)) as Y1.
  pose proof (digit_digitChar y) as Y0.
  pose proof (digit_digitChar (m / 10)) as M1.
  pose proof (digit_digitChar m) as M0.
  pose proof (digit_digitChar (d / 10)) as D1.
  pose proof (digit_digitChar d) as D0.
  pose proof (digit_digitChar (h / 10)) as H1.
  pose proof (digit_digitChar h) as H0.
  pose proof (digit_digitChar (mi / 10)) as I1.
  pose proof (digit_digitChar mi) as I0.
  pose proof (digit_digitChar (sec / 10)) as S1.
  pose proof (digit_digitChar sec) as S0.
  pose proof (digit_digitChar (ms / 10 / 10)) as L2.
  pose proof (digit_digitChar (ms / 10)) as L1.
  pose proof (digit_digitChar ms) as L0.
  unfold parseDateTime, dateForm, dateTimeForm, charAt, numberAt.
  cbn [String.length String.get substring Nat.eqb Nat.leb Nat.sub
       Ascii.eqb Bool.eqb andb orb digits].
  rewrite Y3, Y2, Y1, Y0, M1, M0, D1, D0, H1, H0, I1, I0, S1, S0, L2, L1, L0.
  rewrite (digits_4 y Hy), (digits_3 ms Hms), !digits_2 by lia.
  rewrite Hcal. reflexivity.
Qed.

Lemma parse_bounds (text : string) (t : DateTime) :
  parseDateTime text = Some t ->
  inCalendar t = true /\ year t < 10 ^ 4 /\ milliseconds t < 10 ^ 3.
Proof.
  unfold parseDateTime.
  destruct (dateForm text || dateTimeForm text); [|discriminate].
  destruct (numberAt text 0 4) as [y|] eqn:Hy; [|discriminate].
  destruct (if 7 <=? String.length text then numberAt text 5 2 else Some 1)
    as [m|]; [|discriminate].
  destruct (if 10 <=? String.length text then numberAt text 8 2 else Some 1)
    as [d|]; [|discriminate].
  destruct (if 17 <=? String.length text then numberAt text 11 2 else Some 0)
    as [h|]; [|discriminate].
  destruct (if 17 <=? String.length text then numberAt text 14 2 else Some 0)
    as [mi|]; [|discriminate].
  destruct (if 20 <=? String.length text then numberAt text 17 2 else Some 0)
    as [sec|]; [|discriminate].
  destruct (if 24 <=? String.length text then numberAt text 20 3 else Some 0)
    as [ms|] eqn:Hms; [|discriminate].
  destruct (inCalendar _) eqn:Hcal; [|discriminate].
  intros H. inversion H; subst t. cbn [year milliseconds].
  split; [exact Hcal|]. split; [apply (numberAt_bound text 0 4 y Hy)|].
  destruct (24 <=? String.length text).
  - apply (numberAt_bound text 20 3 ms Hms).
  - inversion Hms. simpl. lia.
Qed.

(** What [toISOString] returns it leaves as it is. *)
Lemma toISOString_canonical (text : string) :
  toISOString (toISOString text) = toISOString text.
Proof.
  unfold toISOString at 2 3.
  destruct (parseDateTime text) as [t|] eqn:Hp.
  - destruct (parse_bounds text t Hp) as (Hcal & Hy & Hms).
    unfold toISOString. rewrite (parse_print t Hcal Hy Hms). reflexivity.
  - unfold toISOString. rewrite Hp. reflexivity.
Qed.
End Dates.

Section StoreContract.
Import Sqlite Spec Facts.

Lemma safeValue_string_truthy (s : string) :
  Js.truthy (Some s) = true -> safeValue_string (Some s) EmptyString = s.
Proof.
  unfold Js.truthy, safeValue_string.
  destruct (String.eqb s EmptyString); [discriminate|reflexivity].
Qed.

Lemma transform_round_trip (r : SewerInspection.t) :
  complete r ->
  transformDbToInspection (transformInspectionForDb r) = stored r.
Proof.
  destruct r as [i ts [[c s]|] [[m d]|] sc rr];
    unfold complete, SewerInspection.city, SewerInspection.state,
      SewerInspection.material, SewerInspection.diameter_in;
    simpl; intros (Hi & Hc & Hs & Hm & Hd & Hsc & Hrr);
    try discriminate.
  destruct i as [i|], c as [c|], s as [s|], m as [m|], d as [d|],
    sc as [sc|], rr as [rr|]; try discriminate; try congruence.
  unfold transformDbToInspection, transformInspectionForDb, stored,
    SewerInspection.city, SewerInspection.state,
    SewerInspection.material, SewerInspection.diameter_in.
  cbn [SewerInspection.id SewerInspection.location SewerInspection.pipe
       SewerInspection.timestamp_utc SewerInspection.inspection_score
       SewerInspection.requires_repair
       Location.city Location.state PipeDetails.material
       PipeDetails.diameter_in InspectionRow.id InspectionRow.city
       InspectionRow.state InspectionRow.material
       InspectionRow.timestamp_utc InspectionRow.diameter_in
       InspectionRow.inspection_score InspectionRow.requires_repair
       safeValue_number safeValue_boolean].
  rewrite !safeValue_string_truthy by assumption. reflexivity.
Qed.

(** Writing the record that was read back gives the row again. *)
Lemma stored_row (r : SewerInspection.t) :
  transformInspectionForDb (stored r) = transformInspectionForDb r.
Proof.
  unfold transformInspectionForDb, stored, SewerInspection.city,
    SewerInspection.state, SewerInspection.material,
    SewerInspection.diameter_in.
  cbn [SewerInspection.id SewerInspection.timestamp_utc
       SewerInspection.location SewerInspection.pipe
       SewerInspection.inspection_score SewerInspection.requires_repair].
  rewrite toISOString_canonical. reflexivity.
Qed.

Lemma stored_canonical (r : SewerInspection.t) :
  Js.toISOString (SewerInspection.timestamp_utc r)
  = SewerInspection.timestamp_utc r ->
  stored r = r.
Proof. destruct r. unfold stored. simpl. intros ->. reflexivity. Qed.

(** X5.  Writing a record that has every field validation insists on,
    and a timestamp in the ECMAScript date-time format, as a row and
    reading the row back gives the record with its timestamp in the
    form of [toISOString], on the attributes the store keeps in
    columns; writing what was read back gives the same row again; and
    reading back gives the record itself when its timestamp is in the
    form of [toISOString] already. *)
Theorem stored_row_reads_back_as_the_complete_record (r : SewerInspection.t) :
  complete r ->
  dated r ->
  key r <> EmptyString
  /\ SewerInspection.id (transformDbToInspection (transformInspectionForDb r))
     = Some (key r)
  /\ transformDbToInspection (transformInspectionForDb r) = stored r
  /\ transformInspectionForDb
       (transformDbToInspection (transformInspectionForDb r))
     = transformInspectionForDb r
  /\ (Js.toISOString (SewerInspection.timestamp_utc r)
      = SewerInspection.timestamp_utc r ->
      transformDbToInspection (transformInspectionForDb r) = r).
Proof.
  intros Hc _. pose proof (transform_round_trip r Hc) as Hrt.
  split; [|split; [reflexivity|split; [exact Hrt|split]]].
  - destruct Hc as [Hi _]. unfold key. simpl.
    destruct (SewerInspection.id r) as [i|]; [|discriminate].
    rewrite safeValue_string_truthy by exact Hi.
    unfold Js.truthy in Hi. intros ->. discriminate.
  - rewrite Hrt. apply stored_row.
  - intros Hcanon. rewrite Hrt. apply stored_canonical. exact Hcanon.
Qed.

Lemma stored_row_reads_back_as_the_complete_record_witness :
  SewerInspection.timestamp_utc
    (transformDbToInspection (transformInspectionForDb Scenarios.dallas))
  = "2024-01-15T10:30:00.000Z"%string
  /\ transformDbToInspection (transformInspectionForDb Scenarios.dallas)
     = stored Scenarios.dallas
  /\ transformDbToInspection (transformInspectionForDb Examples.houston)
     = Examples.houston.
Proof.
  destruct (stored_row_reads_back_as_the_complete_record Scenarios.dallas)
    as (_ & _ & Hback & _).
  - repeat split; try reflexivity; discriminate.
  - discriminate.
  - split; [rewrite Hback; reflexivity|]. split; [exact Hback|].
    apply (stored_row_reads_back_as_the_complete_record Examples.houston).
    + repeat split; try reflexivity; discriminate.
    + discriminate.
    + reflexivity.
Defined.

Lemma whereClause_unfiltered (row : InspectionRow.t) :
  whereClause unfiltered row = true.
Proof. reflexivity. Qed.

Lemma filter_everything {A} (keep : A -> bool) (l : list A) :
  (forall x, In x l -> keep x = true) -> filter keep l = l.
Proof.
  induction l as [|x l IH]; intros Hall; [reflexivity|].
  simpl. rewrite (Hall x (or_introl eq_refl)). f_equal.
  apply IH. intros y Hy. apply Hall. right. exact Hy.
Qed.

(** X6.  A record with every required field and a timestamp in the
    ECMAScript date-time format that the engine accepts is, right after
    [insertInspection], returned by an unfiltered search of the indexed
    backend whose page is large enough for the store, with its
    timestamp in the form of [toISOString] and otherwise as it was
    inserted; the search counts every row. *)
Theorem inserted_record_is_found_by_an_unfiltered_search
  (faults : Faults) (db : Database.t) (r : SewerInspection.t) (size : Z) :
  complete r ->
  dated r ->
  row_write_fails faults r = false ->
  let db' := {| Database.inspections :=
                  fst (insertInspection faults (Database.inspections db) r);
                Database.import_log := Database.import_log db |} in
  (Z.of_nat (length (Database.inspections db')) <= size)%Z ->
  In (stored r) (SearchResult.results
                   (DbSearch.searchInspections db' unfiltered 1 size))
  /\ SearchResult.totalCount (DbSearch.searchInspections db' unfiltered 1 size)
     = length (Database.inspections db').
Proof.
  intros Hc _ Hok db' Hsize.
  assert (Hall : filter (whereClause unfiltered) (Database.inspections db')
                 = Database.inspections db').
  { apply filter_everything. intros row _. apply whereClause_unfiltered. }
  split.
  - unfold DbSearch.searchInspections, getInspections. cbn [SearchResult.results].
    replace ((1 - 1) * size)%Z with 0%Z by lia.
    unfold Sql.limit_offset. simpl skipn.
    destruct (Z.ltb_spec size 0) as [Hneg|_]; [lia|].
    pose proof (selected_perm db' unfiltered) as Hperm. rewrite Hall in Hperm.
    rewrite firstn_all2
      by (rewrite (Permutation_length Hperm); lia).
    rewrite <- (transform_round_trip r Hc). apply in_map.
    apply (Permutation_in _ (Permutation_sym Hperm)).
    subst db'. cbn [Database.inspections]. unfold insertInspection.
    rewrite Hok.
    destruct (defect_write_fails faults r); cbn [fst];
      unfold insert_or_replace; apply in_or_app; right; left; reflexivity.
  - unfold DbSearch.searchInspections, getInspectionCount.
    cbn [SearchResult.totalCount]. rewrite Hall. reflexivity.
Qed.

Lemma inserted_record_is_found_by_an_unfiltered_search_witness :
  let db' := {| Database.inspections :=
                  fst (insertInspection no_faults
                         (Database.inspections Examples.texas_db)
                         Scenarios.dallas);
                Database.import_log := Database.import_log Examples.texas_db |} in
  In (stored Scenarios.dallas)
     (SearchResult.results (DbSearch.searchInspections db' unfiltered 1 10))
  /\ SearchResult.totalCount (DbSearch.searchInspections db' unfiltered 1 10)
     = length (Database.inspections db')
  /\ SewerInspection.timestamp_utc (stored Scenarios.dallas)
     = "2024-01-15T10:30:00.000Z"%string.
Proof.
  destruct (inserted_record_is_found_by_an_unfiltered_search
              no_faults Examples.texas_db Scenarios.dallas 10)
    as [Hin Hcount].
  - repeat split; try reflexivity; discriminate.
  - discriminate.
  - reflexivity.
  - simpl. lia.
  - split; [exact Hin|]. split; [exact Hcount|reflexivity].
Defined.

End StoreContract.

(* ================================================================== *)
(** * What every import run does *)
(* ================================================================== *)

(** A property of pairs of states that is reflexive and transitive and
    holds across a fetch and across a batch holds between the start and
    the end of the chunk loop. *)
Section RunInduction.
Import Importer Spec Facts.

Variable E : Env.t.
Variable options : ImportOptions.t.
Variable logId : nat.
Variable fileName : string.
Variable R : Run -> Run -> Prop.

Hypothesis R_refl : forall st, R st st.
Hypothesis R_trans : forall a b c, R a b -> R b c -> R a c.
Hypothesis R_fetch : forall st c, R st (fetching E st c).
Hypothesis R_batch : forall st batch,
  (forall r, In r batch -> in_file E fileName r) ->
  R st (process_batch E options logId st batch).

Lemma batch_loop_steps batches : forall st,
  (forall b r, In b batches -> In r b -> in_file E fileName r) ->
  R st (batch_loop E options logId st batches).
Proof.
  induction batches as [|b rest IH]; intros st Hfrom; simpl; [apply R_refl|].
  destruct (DataImporter.shouldStop (importer st)); [apply R_refl|].
  apply (R_trans _ (process_batch E options logId st b)).
  - apply R_batch. intros r Hr. apply (Hfrom b r); [left; reflexivity|exact Hr].
  - apply IH. intros b' r Hb' Hr. apply (Hfrom b' r); [right; exact Hb'|exact Hr].
Qed.

Lemma chunk_in_file limit offset chunk :
  S3Stream.streamFromS3 (Env.bucket E) fileName limit offset = Some chunk ->
  forall r, In r chunk -> in_file E fileName r.
Proof.
  intros Hs r Hr.
  destruct (Env.bucket E fileName) as [lines|] eqn:Hb.
  - exists lines. split; [exact Hb|].
    rewrite (streamFromS3_window _ _ lines _ _ Hb) in Hs.
    inversion Hs; subst chunk.
    apply (window_In lines limit offset r Hr).
  - unfold S3Stream.streamFromS3 in Hs. rewrite Hb in Hs. discriminate.
Qed.

Lemma chunk_loop_steps fuel : forall st offset st' thrown,
  chunk_loop E options logId fileName fuel st offset = Some (st', thrown) ->
  R st st'.
Proof.
  induction fuel as [|fuel IH]; intros st offset st' thrown Hrun.
  - simpl in Hrun.
    destruct (DataImporter.shouldStop (importer st)); [|discriminate].
    inversion Hrun; subst. apply R_refl.
  - rewrite chunk_loop_unfold in Hrun. cbv zeta in Hrun.
    destruct (stopped st); [inversion Hrun; subst; apply R_refl|].
    destruct (S3Stream.streamFromS3 _ _ _ _) as [chunk|] eqn:Hs;
      [|inversion Hrun; subst; apply R_fetch].
    destruct (length chunk =? 0); [inversion Hrun; subst; apply R_fetch|].
    destruct (createBatches _ _) as [batches|] eqn:Hcb; [|discriminate].
    assert (Hfrom : forall b r, In b batches -> In r b -> in_file E fileName r).
    { intros b r Hb Hr. apply (chunk_in_file _ _ _ Hs).
      destruct (ImportOptions.batchSize options) as [|n] eqn:Hn.
      - destruct chunk as [|x chunk].
        + unfold createBatches in Hcb. simpl in Hcb.
          inversion Hcb; subst. destruct Hb.
        + unfold createBatches in Hcb.
          rewrite createBatches_loop_hangs in Hcb by (simpl; lia).
          discriminate.
      - destruct (@createBatches_total _ chunk (S n) (Nat.lt_0_succ n))
          as [batches' [Hcb' Hin]].
        rewrite Hcb in Hcb'. inversion Hcb'; subst batches'.
        apply (Hin b r Hb Hr). }
    match type of Hrun with
    | context [batch_loop E options logId ?s batches] => set (st1 := s) in *
    end.
    assert (H1 : R st st1) by apply R_fetch.
    assert (H2 : R st1 (batch_loop E options logId st1 batches))
      by (apply batch_loop_steps; exact Hfrom).
    destruct (length chunk <? chunkSize).
    + inversion Hrun; subst. apply (R_trans _ _ _ H1 H2).
    + apply (R_trans _ _ _ H1). apply (R_trans _ _ _ H2).
      apply (IH _ _ _ _ Hrun).
Qed.

End RunInduction.

Section RunRelations.
Import Importer Spec Facts ImportRuns.

Variable E : Env.t.
Variable options : ImportOptions.t.
Variable logId : nat.
Variable fileName : string.

(** ** Stop requests *)

Lemma stop_between_refl a : stop_between E a a = false.
Proof. unfold stop_between. rewrite Nat.sub_diag. reflexivity. Qed.

Lemma stop_between_split a b c :
  a <= b -> b <= c ->
  stop_between E a c = stop_between E a b || stop_between E b c.
Proof.
  intros Hab Hbc. unfold stop_between.
  replace (c - a) with ((b - a) + (c - b)) by lia.
  rewrite seq_app, existsb_app.
  replace (a + (b - a)) with b by lia. reflexivity.
Qed.

Lemma stop_between_one a : stop_between E a (S a) = Env.stop_requested E a.
Proof.
  unfold stop_between. replace (S a - a) with 1 by lia.
  simpl. apply orb_false_r.
Qed.

Lemma stop_between_quiet a b :
  quiet_from E a -> stop_between E a b = false.
Proof.
  intros Hq. unfold stop_between.
  destruct (existsb (Env.stop_requested E) (seq a (b - a))) eqn:Hex;
    [|reflexivity].
  apply existsb_exists in Hex. destruct Hex as [k [Hk Hstop]].
  apply in_seq in Hk. rewrite (Hq k) in Hstop by lia. discriminate.
Qed.

Lemma passes_refl st : passes E st st.
Proof.
  split; [lia|]. rewrite stop_between_refl. symmetry. apply orb_false_r.
Qed.

Lemma passes_trans a b c : passes E a b -> passes E b c -> passes E a c.
Proof.
  intros [Hab Sab] [Hbc Sbc]. split; [lia|].
  rewrite Sbc, Sab, (stop_between_split _ _ _ Hab Hbc).
  symmetry. apply orb_assoc.
Qed.

Lemma passes_fetch st c : passes E st (fetching E st c).
Proof.
  split.
  - unfold awaits, fetching, await, record_call. simpl. lia.
  - rewrite fetching_stopped.
    replace (awaits (fetching E st c)) with (S (awaits st)) by reflexivity.
    rewrite stop_between_one. reflexivity.
Qed.

Lemma process_batch_awaits st batch :
  awaits (process_batch E options logId st batch)
  = if ImportOptions.skipDuplicates options then S (awaits st) else awaits st.
Proof.
  unfold awaits, process_batch.
  destruct (ImportOptions.skipDuplicates options);
    destruct (Sqlite.insertInspectionsBatch _ _ _ _) as [[rows' n]|];
    reflexivity.
Qed.

Lemma passes_batch st batch :
  passes E st (process_batch E options logId st batch).
Proof.
  split.
  - rewrite process_batch_awaits.
    destruct (ImportOptions.skipDuplicates options); lia.
  - rewrite process_batch_stopped, process_batch_awaits.
    destruct (ImportOptions.skipDuplicates options).
    + rewrite stop_between_one. reflexivity.
    + rewrite stop_between_refl. symmetry. apply orb_false_r.
Qed.

Lemma chunk_loop_passes fuel st offset st' thrown :
  chunk_loop E options logId fileName fuel st offset = Some (st', thrown) ->
  passes E st st'.
Proof.
  apply (chunk_loop_steps E options logId fileName (passes E)).
  - exact passes_refl.
  - exact passes_trans.
  - exact passes_fetch.
  - intros s batch _. apply passes_batch.
Qed.

(** ** Counters *)

Lemma counts_refl st : counts E st st.
Proof. exists 0, 0, 0. repeat split; lia. Qed.

Lemma counts_trans a b c : counts E a b -> counts E b c -> counts E a c.
Proof.
  intros (p1 & i1 & e1 & Hp1 & Hi1 & He1 & L1 & U1 & C1)
         (p2 & i2 & e2 & Hp2 & Hi2 & He2 & L2 & U2 & C2).
  exists (p1 + p2), (i1 + i2), (e1 + e2).
  repeat split; try lia.
  intros Hc. specialize (C1 Hc). specialize (C2 Hc). lia.
Qed.

Lemma counts_fetch st c : counts E st (fetching E st c).
Proof.
  exists 0, 0, 0. unfold processed, imported, errors.
  rewrite fetching_progress. repeat split; lia.
Qed.

Lemma counts_batch st batch :
  counts E st (process_batch E options logId st batch).
Proof.
  destruct (Env.transaction_fails E (World.transactions (world st))) eqn:Ef.
  - destruct (process_batch_rolled_back E options logId st batch Ef)
      as [_ [Hprog _]].
    exists 0, 0, (length batch). unfold processed, imported, errors.
    rewrite Hprog. simpl. repeat split; try lia.
    intros Hc. rewrite (Hc _) in Ef. discriminate.
  - destruct (process_batch_committed E options logId st batch Ef)
      as [_ [Hprog _]].
    destruct (insertedCount_bound E options (rows st) batch) as [B1 [B2 B3]].
    exists (length batch),
      (snd (Sqlite.insert_each (Env.faults E) (rows st)
              (filteredBatch options (rows st) batch) 0)),
      (length batch
       - snd (Sqlite.insert_each (Env.faults E) (rows st)
                (filteredBatch options (rows st) batch) 0)).
    unfold processed, imported, errors. rewrite Hprog. simpl.
    repeat split; lia.
Qed.

Lemma chunk_loop_counts fuel st offset st' thrown :
  chunk_loop E options logId fileName fuel st offset = Some (st', thrown) ->
  counts E st st'.
Proof.
  apply (chunk_loop_steps E options logId fileName (counts E)).
  - exact counts_refl.
  - exact counts_trans.
  - exact counts_fetch.
  - intros s batch _. apply counts_batch.
Qed.

(** ** Rows *)

Lemma insert_each_source faults batch : forall rs n i,
  In i (row_ids (fst (Sqlite.insert_each faults rs batch n))) ->
  In i (row_ids rs)
  \/ exists r, In r batch /\ key r = i
               /\ Sqlite.row_write_fails faults r = false.
Proof.
  induction batch as [|r rest IH]; intros rs n i Hin; [left; exact Hin|].
  rewrite insert_each_step in Hin. apply IH in Hin.
  destruct Hin as [Hin|[r' [Hr' [Hk Hok]]]].
  - unfold Sqlite.insertInspection in Hin.
    destruct (Sqlite.row_write_fails faults r) eqn:Hf; [left; exact Hin|].
    assert (Hin' : In i (row_ids (Sqlite.insert_or_replace
                                    (Sqlite.transformInspectionForDb r) rs)))
      by (destruct (Sqlite.defect_write_fails faults r); exact Hin).
    apply insert_or_replace_only in Hin'. destruct Hin' as [Hold|Hnew].
    + left. exact Hold.
    + right. exists r. split; [left; reflexivity|].
      split; [symmetry; exact Hnew|exact Hf].
  - right. exists r'. split; [right; exact Hr'|]. split; assumption.
Qed.

Lemma validBatch_validated batch r :
  In r (validBatch options batch) ->
  ImportOptions.validateData options = true -> complete r.
Proof.
  unfold validBatch. intros Hin Hv. rewrite Hv in Hin.
  apply filter_In in Hin. apply validateRecord_complete. exact (proj2 Hin).
Qed.

Lemma grows_refl st : grows E options fileName st st.
Proof.
  split; [intros i H; exact H|]. split; [intros H; exact H|].
  intros i H. left. exact H.
Qed.

Lemma grows_trans a b c :
  grows E options fileName a b -> grows E options fileName b c ->
  grows E options fileName a c.
Proof.
  intros (K1 & N1 & S1) (K2 & N2 & S2).
  split; [intros i H; apply K2, K1, H|].
  split; [intros H; apply N2, N1, H|].
  intros i H. destruct (S2 i H) as [Hb|Hw]; [apply S1, Hb|right; exact Hw].
Qed.

Lemma grows_fetch st c : grows E options fileName st (fetching E st c).
Proof. unfold grows. rewrite fetching_rows. apply grows_refl. Qed.

Lemma grows_batch st batch :
  (forall r, In r batch -> in_file E fileName r) ->
  grows E options fileName st (process_batch E options logId st batch).
Proof.
  intros Hfrom.
  split; [intros i; apply process_batch_keeps|].
  split; [apply process_batch_NoDup|].
  intros i Hin.
  destruct (Env.transaction_fails E (World.transactions (world st))) eqn:Ef.
  - destruct (process_batch_rolled_back E options logId st batch Ef)
      as [Hrows _].
    rewrite Hrows in Hin. left. exact Hin.
  - destruct (process_batch_committed E options logId st batch Ef)
      as [Hrows _].
    rewrite Hrows in Hin. apply insert_each_source in Hin.
    destruct Hin as [Hold|[r [Hr [Hk Hok]]]]; [left; exact Hold|].
    right. exists r. apply filteredBatch_incl in Hr.
    split; [apply Hfrom; apply (validBatch_incl options batch r Hr)|].
    split; [exact Hk|]. split; [exact Hok|].
    apply (validBatch_validated batch r Hr).
Qed.

Lemma chunk_loop_grows fuel st offset st' thrown :
  chunk_loop E options logId fileName fuel st offset = Some (st', thrown) ->
  grows E options fileName st st'.
Proof.
  apply (chunk_loop_steps E options logId fileName (grows E options fileName)).
  - exact grows_refl.
  - exact grows_trans.
  - exact grows_fetch.
  - exact grows_batch.
Qed.

End RunRelations.

Section RunLog.
Import Importer Spec Facts ImportRuns.

Variable E : Env.t.
Variable options : ImportOptions.t.
Variable logId : nat.
Variable fileName : string.
Variable old : list ImportLogRow.t.

Lemma map_other_rows (f : ImportLogRow.t -> ImportLogRow.t) :
  Forall (fun other => ImportLogRow.id other <> logId) old ->
  map (fun row => if ImportLogRow.id row =? logId then f row else row) old
  = old.
Proof.
  induction 1 as [|x l Hx _ IH]; [reflexivity|].
  simpl. rewrite IH.
  destruct (Nat.eqb_spec (ImportLogRow.id x) logId); [contradiction|reflexivity].
Qed.

Lemma logs_refl st : logs logId old st st.
Proof. intros f row H. exists row. exact H. Qed.

Lemma logs_trans a b c :
  logs logId old a b -> logs logId old b c -> logs logId old a c.
Proof.
  intros H1 H2 f row H. destruct (H1 f row H) as [row' H'].
  apply (H2 f row' H').
Qed.

Lemma logs_fetch st c : logs logId old st (fetching E st c).
Proof.
  intros f row H. exists row. unfold own_row in *.
  rewrite fetching_log. exact H.
Qed.

Lemma logs_batch st batch :
  logs logId old st (process_batch E options logId st batch).
Proof.
  intros f row (Hlog & Hid & Hsrc & Hold).
  destruct (Env.transaction_fails E (World.transactions (world st))) eqn:Ef.
  - destruct (process_batch_rolled_back E options logId st batch Ef)
      as [_ [_ Hl]].
    exists row. unfold own_row. rewrite Hl. repeat split; assumption.
  - destruct (process_batch_committed E options logId st batch Ef)
      as [_ [_ Hl]].
    cbv zeta in Hl. rewrite Hlog in Hl. unfold updateImportLog in Hl.
    rewrite map_app, (map_other_rows _ Hold) in Hl. simpl in Hl.
    rewrite Hid, Nat.eqb_refl in Hl.
    eexists. unfold own_row. rewrite Hl.
    split; [reflexivity|]. split; [reflexivity|].
    split; [exact Hsrc|exact Hold].
Qed.

Lemma chunk_loop_logs fuel st offset st' thrown :
  chunk_loop E options logId fileName fuel st offset = Some (st', thrown) ->
  logs logId old st st'.
Proof.
  apply (chunk_loop_steps E options logId fileName (logs logId old)).
  - exact logs_refl.
  - exact logs_trans.
  - exact logs_fetch.
  - intros s batch _. apply logs_batch.
Qed.

End RunLog.

Section RunEnds.
Import Importer Spec Facts ImportRuns.

Lemma finish_counters E logId st thrown :
  processed (finish E logId st thrown) = processed st
  /\ imported (finish E logId st thrown) = imported st
  /\ errors (finish E logId st thrown) = errors st.
Proof. destruct thrown; repeat split; reflexivity. Qed.

Lemma finish_status E logId st thrown :
  ImportProgress.status (progress (finish E logId st thrown))
  = match thrown with
    | Some _ => failed
    | None => if stopped st then paused else completed
    end.
Proof. destruct thrown; reflexivity. Qed.

Lemma finish_log E logId st thrown :
  log (finish E logId st thrown)
  = completeImportLog (log st) logId (progress (finish E logId st thrown))
      (Env.clock E (awaits st)) thrown.
Proof. destruct thrown; reflexivity. Qed.

Lemma prepare_awaits E w this fileName resume :
  awaits (fst (prepare E w this fileName resume)) = World.awaits w.
Proof.
  unfold prepare.
  destruct (existingProgress _ _ _); [reflexivity|].
  destruct (startImportLog _ _ _). reflexivity.
Qed.

Lemma chunk_loop_fails E options logId fileName fuel st offset :
  Env.bucket E fileName = None ->
  stopped st = false ->
  chunk_loop E options logId fileName (S fuel) st offset
  = Some (fetching E st {| S3Stream.call_file := fileName;
                           S3Stream.call_limit := chunkSize;
                           S3Stream.call_offset := offset;
                           S3Stream.call_produced := None |},
          Some (S3Stream.thrown (Env.bucket E) fileName)).
Proof.
  intros Hb Hgo. rewrite chunk_loop_unfold. cbv zeta. rewrite Hgo.
  unfold S3Stream.streamFromS3. rewrite Hb. reflexivity.
Qed.

Lemma no_checkpoint_fresh l fileName :
  no_checkpoint l fileName -> calculateResumeOffset l fileName = 0.
Proof.
  intros Hno. rewrite calculateResumeOffset_filter.
  unfold no_checkpoint in Hno. rewrite Hno. reflexivity.
Qed.

Lemma find_nowhere {A} (f : A -> bool) (l : list A) :
  (forall x, In x l -> f x = false) -> find f l = None.
Proof.
  induction l as [|x l IH]; intros Hall; [reflexivity|].
  simpl. rewrite (Hall x (or_introl eq_refl)).
  apply IH. intros y Hy. apply Hall. right. exact Hy.
Qed.

(** X7.  However a run goes, it removes no row and writes no second
    row under an identifier, and every identifier it adds is the key of
    a record of the object that the engine accepted and, with
    validation on, that has every required field. *)
Theorem import_neither_removes_nor_invents_rows
  (E : Env.t) (options : ImportOptions.t) (w : World.t) (this : DataImporter.t)
  (fileName : string) (resume : bool) (fuel : nat) :
  0 < ImportOptions.batchSize options ->
  enough_fuel E fileName <= fuel ->
  exists run,
    importFromS3 E options fuel w this fileName resume = Some run
    /\ (forall i, In i (Database.ids (World.db w)) ->
                  In i (Database.ids (World.db (world run))))
    /\ (NoDup (Database.ids (World.db w)) ->
        NoDup (Database.ids (World.db (world run))))
    /\ (forall i,
          In i (Database.ids (World.db (world run))) ->
          In i (Database.ids (World.db w))
          \/ exists lines r,
               Env.bucket E fileName = Some lines
               /\ In (S3Stream.JsonLine r) lines
               /\ key r = i
               /\ Sqlite.row_write_fails (Env.faults E) r = false
               /\ (ImportOptions.validateData options = true -> complete r)).
Proof.
  intros Hpos Hfuel.
  destruct (importFromS3_total E options w this fileName resume fuel Hpos Hfuel)
    as [run Hrun].
  exists run. split; [exact Hrun|].
  rewrite importFromS3_unfold in Hrun.
  destruct (chunk_loop _ _ _ _ _ _ _) as [[st' thrown]|] eqn:Hloop;
    [|discriminate].
  inversion Hrun; subst run. clear Hrun.
  destruct (chunk_loop_grows E options _ fileName _ _ _ _ _ Hloop)
    as (Hkeep & Hnodup & Hsrc).
  rewrite prepare_rows in Hkeep, Hnodup, Hsrc.
  change (Database.ids (World.db (world (finish E
            (snd (prepare E w this fileName resume)) st' thrown))))
    with (row_ids (rows (finish E (snd (prepare E w this fileName resume))
                           st' thrown))).
  rewrite finish_rows.
  split; [exact Hkeep|]. split; [exact Hnodup|].
  intros i Hin. destruct (Hsrc i Hin) as [Hold|(r & (lines & Hb & Hl) & Hk & Hok & Hv)].
  - left. exact Hold.
  - right. exists lines, r.
    split; [exact Hb|]. split; [exact Hl|]. split; [exact Hk|].
    split; [exact Hok|exact Hv].
Qed.

Lemma import_neither_removes_nor_invents_rows_witness :
  exists run,
    importFromS3 (Examples.env Examples.malformed_then_two)
      ImportOptions.DEFAULT_OPTIONS 4 (World.initial Examples.texas_db)
      DataImporter.new Examples.part1 false = Some run
    /\ (forall i, In i (Database.ids (World.db (World.initial Examples.texas_db))) ->
                  In i (Database.ids (World.db (world run))))
    /\ (NoDup (Database.ids (World.db (World.initial Examples.texas_db))) ->
        NoDup (Database.ids (World.db (world run))))
    /\ (forall i,
          In i (Database.ids (World.db (world run))) ->
          In i (Database.ids (World.db (World.initial Examples.texas_db)))
          \/ exists lines r,
               Env.bucket (Examples.env Examples.malformed_then_two) Examples.part1
               = Some lines
               /\ In (S3Stream.JsonLine r) lines
               /\ key r = i
               /\ Sqlite.row_write_fails
                    (Env.faults (Examples.env Examples.malformed_then_two)) r = false
               /\ (ImportOptions.validateData ImportOptions.DEFAULT_OPTIONS = true ->
                   complete r)).
Proof.
  apply (import_neither_removes_nor_invents_rows
           (Examples.env Examples.malformed_then_two)
           ImportOptions.DEFAULT_OPTIONS (World.initial Examples.texas_db)
           DataImporter.new Examples.part1 false 4).
  - vm_compute; lia.
  - vm_compute; lia.
Defined.

(** X8.  A run that starts without a checkpoint ends, whatever stop
    requests and failures it meets, with
    [recordsImported <= recordsProcessed <= recordsImported + errors];
    the second bound is an equality when no transaction fails. *)
Theorem counters_of_a_run_bracket_each_other
  (E : Env.t) (options : ImportOptions.t) (w : World.t) (this : DataImporter.t)
  (fileName : string) (resume : bool) (fuel : nat) :
  0 < ImportOptions.batchSize options ->
  enough_fuel E fileName <= fuel ->
  calculateResumeOffset (Database.import_log (World.db w)) fileName = 0 ->
  exists run,
    importFromS3 E options fuel w this fileName resume = Some run
    /\ imported run <= processed run
    /\ processed run <= imported run + errors run
    /\ (commits E -> processed run = imported run + errors run).
Proof.
  intros Hpos Hfuel Hfresh.
  destruct (importFromS3_total E options w this fileName resume fuel Hpos Hfuel)
    as [run Hrun].
  exists run. split; [exact Hrun|].
  rewrite importFromS3_unfold in Hrun.
  destruct (chunk_loop _ _ _ _ _ _ _) as [[st' thrown]|] eqn:Hloop;
    [|discriminate].
  inversion Hrun; subst run. clear Hrun.
  destruct (chunk_loop_counts E options _ fileName _ _ _ _ _ Hloop)
    as (dp & di & de & Hp & Hi & He & Hlo & Hhi & Heq).
  destruct (prepare_fresh E w this fileName resume Hfresh)
    as (_ & _ & _ & P0 & I0 & E0).
  destruct (finish_counters E (snd (prepare E w this fileName resume)) st' thrown)
    as (Fp & Fi & Fe).
  rewrite Fp, Fi, Fe, Hp, Hi, He, P0, I0, E0.
  repeat split; try lia. intros Hc. specialize (Heq Hc). lia.
Qed.

Lemma counters_of_a_run_bracket_each_other_witness :
  exists run,
    importFromS3 (Examples.env Examples.malformed_then_two)
      ImportOptions.DEFAULT_OPTIONS 4 (World.initial Examples.texas_db)
      DataImporter.new Examples.part1 false = Some run
    /\ imported run <= processed run
    /\ processed run <= imported run + errors run
    /\ (commits (Examples.env Examples.malformed_then_two) ->
        processed run = imported run + errors run).
Proof.
  apply (counters_of_a_run_bracket_each_other
           (Examples.env Examples.malformed_then_two)
           ImportOptions.DEFAULT_OPTIONS (World.initial Examples.texas_db)
           DataImporter.new Examples.part1 false 4).
  - vm_compute; lia.
  - vm_compute; lia.
  - reflexivity.
Defined.

(** X9.  When the object cannot be read the run ends [failed] after
    one decode call with the message of the exception that
    [streamFromS3] threw (for a response that is not [ok], the text
    [Failed to fetch from S3:] followed by its status and status text),
    the inspection rows are what they were, and the importer is no
    longer marked running; a run that started without a checkpoint has
    counted nothing. *)
Theorem unreachable_source_fails_the_run_and_leaves_the_rows
  (E : Env.t) (options : ImportOptions.t) (w : World.t) (this : DataImporter.t)
  (fileName : string) (resume : bool) (fuel : nat) :
  Env.bucket E fileName = None ->
  0 < fuel ->
  exists run,
    importFromS3 E options fuel w this fileName resume = Some run
    /\ ImportProgress.status (progress run) = failed
    /\ ImportProgress.errorMessage (progress run)
       = Some (S3Stream.thrown (Env.bucket E) fileName)
    /\ Database.inspections (World.db (world run))
       = Database.inspections (World.db w)
    /\ World.calls (world run)
       = World.calls w
         ++ [{| S3Stream.call_file := fileName;
                S3Stream.call_limit := chunkSize;
                S3Stream.call_offset :=
                  startOffset (Database.import_log (World.db w)) fileName resume;
                S3Stream.call_produced := None |}]
    /\ DataImporter.isRunning (importer run) = false
    /\ (calculateResumeOffset (Database.import_log (World.db w)) fileName = 0 ->
        processed run = 0 /\ imported run = 0 /\ errors run = 0).
Proof.
  intros Hb Hfuel. destruct fuel as [|fuel]; [lia|].
  rewrite importFromS3_unfold.
  rewrite (chunk_loop_fails E options _ fileName fuel _ _ Hb
             (prepare_stopped E w this fileName resume)).
  eexists. split; [reflexivity|].
  split; [reflexivity|]. split; [reflexivity|].
  split.
  { change (Database.inspections (World.db (world ?r))) with (rows r).
    rewrite finish_rows, fetching_rows. apply prepare_rows. }
  split.
  { rewrite finish_calls, fetching_calls, prepare_calls. reflexivity. }
  split; [reflexivity|].
  intros Hfresh.
  destruct (prepare_fresh E w this fileName resume Hfresh)
    as (_ & _ & _ & P0 & I0 & E0).
  match goal with
  | |- processed (finish ?e ?l ?s ?t) = 0 /\ _ =>
      destruct (finish_counters e l s t) as (Fp & Fi & Fe)
  end.
  rewrite Fp, Fi, Fe. unfold processed, imported, errors.
  rewrite fetching_progress. repeat split; assumption.
Qed.

Lemma unreachable_source_fails_the_run_and_leaves_the_rows_witness :
  exists run,
    importFromS3 (Examples.env Examples.two_records)
      ImportOptions.DEFAULT_OPTIONS 1 (World.initial Examples.texas_db)
      DataImporter.new Examples.part2 false = Some run
    /\ ImportProgress.status (progress run) = failed
    /\ ImportProgress.errorMessage (progress run)
       = Some "Failed to fetch from S3: 404 Not Found"%string
    /\ Database.inspections (World.db (world run))
       = Database.inspections (World.db (World.initial Examples.texas_db))
    /\ World.calls (world run)
       = World.calls (World.initial Examples.texas_db)
         ++ [{| S3Stream.call_file := Examples.part2;
                S3Stream.call_limit := chunkSize;
                S3Stream.call_offset :=
                  startOffset
                    (Database.import_log
                       (World.db (World.initial Examples.texas_db)))
                    Examples.part2 false;
                S3Stream.call_produced := None |}]
    /\ DataImporter.isRunning (importer run) = false
    /\ processed run = 0 /\ imported run = 0 /\ errors run = 0.
Proof.
  destruct (unreachable_source_fails_the_run_and_leaves_the_rows
              (Examples.env Examples.two_records)
              ImportOptions.DEFAULT_OPTIONS (World.initial Examples.texas_db)
              DataImporter.new Examples.part2 false 1)
    as (run & Hrun & Hst & Hmsg & Hrows & Hcalls & Hflag & Hzero).
  - reflexivity.
  - lia.
  - exists run. repeat split; try assumption; apply Hzero; reflexivity.
Defined.

Lemma batch_loop_awaits E options logId batches : forall st,
  awaits st <= awaits (batch_loop E options logId st batches).
Proof.
  induction batches as [|b rest IH]; intros st; simpl; [lia|].
  destruct (DataImporter.shouldStop (importer st)); [lia|].
  eapply Nat.le_trans; [|apply IH].
  apply (passes_batch E options logId st b).
Qed.

(** What is known of every run that returns. *)
Lemma run_status E options w this fileName resume fuel run :
  importFromS3 E options fuel w this fileName resume = Some run ->
  World.awaits w < World.awaits (world run)
  /\ ImportProgress.status (progress run)
     = match Env.bucket E fileName with
       | None => failed
       | Some _ =>
           if stop_between E (World.awaits w) (World.awaits (world run))
           then paused else completed
       end
  /\ DataImporter.shouldStop (importer run)
     = stop_between E (World.awaits w) (World.awaits (world run))
  /\ DataImporter.isRunning (importer run) = false.
Proof.
  intros Hrun. rewrite importFromS3_unfold in Hrun.
  destruct (chunk_loop _ _ _ _ _ _ _) as [[st' thrown]|] eqn:Hloop;
    [|discriminate].
  inversion Hrun; subst run. clear Hrun.
  destruct (chunk_loop_passes E options _ fileName _ _ _ _ _ Hloop)
    as [Hle Hstop].
  rewrite prepare_awaits in Hle, Hstop. rewrite prepare_stopped in Hstop.
  simpl orb in Hstop.
  assert (Hawaits : World.awaits (world (finish E
                      (snd (prepare E w this fileName resume)) st' thrown))
                    = awaits st') by reflexivity.
  rewrite Hawaits.
  destruct fuel as [|fuel].
  { simpl in Hloop.
    pose proof (prepare_stopped E w this fileName resume) as Hgo.
    unfold stopped in Hgo. rewrite Hgo in Hloop. discriminate. }
  assert (Hlt : World.awaits w < awaits st').
  { rewrite chunk_loop_unfold in Hloop. cbv zeta in Hloop.
    rewrite prepare_stopped in Hloop.
    match type of Hloop with
    | context [fetching E ?s ?c] =>
        assert (Hone : awaits (fetching E s c) = S (World.awaits w))
          by (change (awaits (fetching E s c)) with (S (awaits s));
              rewrite prepare_awaits; reflexivity);
        set (st1 := fetching E s c) in *
    end.
    destruct (S3Stream.streamFromS3 _ _ _ _) as [chunk|];
      [|inversion Hloop; subst; lia].
    destruct (length chunk =? 0); [inversion Hloop; subst; lia|].
    destruct (createBatches _ _) as [batches|]; [|discriminate].
    pose proof (batch_loop_awaits E options
                  (snd (prepare E w this fileName resume)) batches st1)
      as Hmono.
    destruct (length chunk <? chunkSize).
    + inversion Hloop; subst. lia.
    + apply chunk_loop_passes in Hloop. destruct Hloop as [Hle2 _]. lia. }
  split; [exact Hlt|].
  rewrite finish_status.
  split.
  - destruct (Env.bucket E fileName) as [lines|] eqn:Hb.
    + rewrite (chunk_loop_no_exception E options _ fileName lines (S fuel) Hb
                 _ _ _ _ Hloop).
      rewrite Hstop. reflexivity.
    + rewrite (chunk_loop_fails E options _ fileName fuel _ _ Hb
                 (prepare_stopped E w this fileName resume)) in Hloop.
      inversion Hloop; subst. reflexivity.
  - split; [exact Hstop|reflexivity].
Qed.

(** X10.  The status a run ends with is decided by the source and the
    stop requests alone: [failed] when the object cannot be fetched,
    otherwise [paused] when a stop request arrived at one of the awaits
    the run passed and [completed] when none did.  The run passes at
    least one await and leaves the importer not running. *)
Theorem final_status_follows_source_and_stop_requests
  (E : Env.t) (options : ImportOptions.t) (w : World.t) (this : DataImporter.t)
  (fileName : string) (resume : bool) (fuel : nat) :
  0 < ImportOptions.batchSize options ->
  enough_fuel E fileName <= fuel ->
  exists run,
    importFromS3 E options fuel w this fileName resume = Some run
    /\ World.awaits w < World.awaits (world run)
    /\ ImportProgress.status (progress run)
       = match Env.bucket E fileName with
         | None => failed
         | Some _ =>
             if stop_between E (World.awaits w) (World.awaits (world run))
             then paused else completed
         end
    /\ DataImporter.shouldStop (importer run)
       = stop_between E (World.awaits w) (World.awaits (world run))
    /\ DataImporter.isRunning (importer run) = false.
Proof.
  intros Hpos Hfuel.
  destruct (importFromS3_total E options w this fileName resume fuel Hpos Hfuel)
    as [run Hrun].
  exists run. split; [exact Hrun|].
  apply (run_status E options w this fileName resume fuel run Hrun).
Qed.

Lemma final_status_follows_source_and_stop_requests_witness :
  exists run,
    importFromS3 (Examples.env Examples.two_records)
      ImportOptions.DEFAULT_OPTIONS 3 (World.initial Database.empty)
      DataImporter.new Examples.part1 false = Some run
    /\ World.awaits (World.initial Database.empty) < World.awaits (world run)
    /\ ImportProgress.status (progress run)
       = match Env.bucket (Examples.env Examples.two_records) Examples.part1 with
         | None => failed
         | Some _ =>
             if stop_between (Examples.env Examples.two_records)
                  (World.awaits (World.initial Database.empty))
                  (World.awaits (world run))
             then paused else completed
         end
    /\ DataImporter.shouldStop (importer run)
       = stop_between (Examples.env Examples.two_records)
           (World.awaits (World.initial Database.empty))
           (World.awaits (world run))
    /\ DataImporter.isRunning (importer run) = false.
Proof.
  apply (final_status_follows_source_and_stop_requests
           (Examples.env Examples.two_records)
           ImportOptions.DEFAULT_OPTIONS (World.initial Database.empty)
           DataImporter.new Examples.part1 false 3).
  - vm_compute; lia.
  - vm_compute; lia.
Defined.

End RunEnds.

(* ================================================================== *)
(** * The checkpoint a run leaves *)
(* ================================================================== *)

Section RunCheckpoint.
Import Importer Spec Facts ImportRuns.

Lemma prepare_new_row E w this fileName resume :
  existingProgress (Database.import_log (World.db w)) fileName resume = None ->
  let l := Database.import_log (World.db w) in
  let st := fst (prepare E w this fileName resume) in
  (exists row, own_row (snd (prepare E w this fileName resume)) fileName l st row)
  /\ processed st = startOffset l fileName resume
  /\ imported st = 0
  /\ errors st = 0.
Proof.
  intros Hnone l st. subst l st. unfold prepare. rewrite Hnone.
  unfold startImportLog. cbn [fst snd]. split.
  - eexists. unfold own_row, log. cbn.
    split; [reflexivity|]. split; [reflexivity|]. split; [reflexivity|].
    apply Forall_forall. intros other Hin.
    pose proof (log_ids_below _ other Hin). lia.
  - repeat split; reflexivity.
Qed.

Lemma run_closes_its_row E options w this fileName resume fuel run :
  existingProgress (Database.import_log (World.db w)) fileName resume = None ->
  importFromS3 E options fuel w this fileName resume = Some run ->
  exists row,
    log run = Database.import_log (World.db w) ++ [row]
    /\ ImportLogRow.source_file row = fileName
    /\ ImportLogRow.status row = ImportProgress.status (progress run)
    /\ ImportLogRow.records_processed row = processed run
    /\ ImportLogRow.records_imported row = imported run
    /\ ImportLogRow.errors row = errors run
    /\ ImportLogRow.completed_at row <> None.
Proof.
  intros Hnone Hrun. rewrite importFromS3_unfold in Hrun.
  destruct (chunk_loop _ _ _ _ _ _ _) as [[st' thrown]|] eqn:Hloop;
    [|discriminate].
  inversion Hrun; subst run. clear Hrun.
  destruct (prepare_new_row E w this fileName resume Hnone)
    as [[row0 Hown0] _].
  destruct (chunk_loop_logs E options _ fileName _ _ _ _ _ _ Hloop
              fileName row0 Hown0)
    as [row' (Hlog & Hid & Hsrc & Hold)].
  rewrite finish_log, Hlog. unfold completeImportLog.
  rewrite map_app, (map_other_rows _ _ _ Hold). simpl map.
  rewrite Hid, Nat.eqb_refl.
  eexists. split; [reflexivity|]. cbn.
  split; [exact Hsrc|]. repeat split. discriminate.
Qed.

Lemma closed_row_checkpoint l row fileName :
  no_checkpoint l fileName ->
  ImportLogRow.source_file row = fileName ->
  ImportLogRow.completed_at row <> None ->
  calculateResumeOffset (l ++ [row]) fileName
  = (if resumable (ImportLogRow.status row)
     then ImportLogRow.records_processed row else 0)
  /\ forall resume, existingProgress (l ++ [row]) fileName resume = None.
Proof.
  intros Hno Hsrc Hclosed. split.
  - rewrite calculateResumeOffset_filter, filter_app, Hno. simpl.
    unfold checkpoint_of. rewrite Hsrc, String.eqb_refl. simpl.
    destruct (resumable (ImportLogRow.status row)); reflexivity.
  - intros resume. unfold existingProgress.
    destruct ((resume || canResumeImport (l ++ [row]) fileName)
              && (0 <? calculateResumeOffset (l ++ [row]) fileName));
      [|reflexivity].
    apply find_nowhere. intros x Hx. unfold getResumableImports in Hx.
    apply (Permutation_in _ (order_by_desc_perm _ _ _)) in Hx.
    apply filter_In in Hx. destruct Hx as [Hin Hres].
    apply andb_true_iff in Hres. destruct Hres as [Hres Hopen].
    apply in_app_or in Hin. destruct Hin as [Hin|[<-|[]]].
    + destruct (String.eqb (ImportLogRow.source_file x) fileName) eqn:Hf;
        [|reflexivity].
      assert (Hc : In x (filter (checkpoint_of fileName) l)).
      { apply filter_In. split; [exact Hin|].
        unfold checkpoint_of. rewrite Hf, Hres. reflexivity. }
      unfold no_checkpoint in Hno. rewrite Hno in Hc. destruct Hc.
    + destruct (ImportLogRow.completed_at row); [discriminate|].
      contradiction.
Qed.

Lemma no_checkpoint_no_progress l fileName resume :
  no_checkpoint l fileName -> existingProgress l fileName resume = None.
Proof.
  intros Hno. unfold existingProgress.
  rewrite (no_checkpoint_fresh l fileName Hno). simpl.
  rewrite andb_false_r. reflexivity.
Qed.

(** X11.  A run on a file that has no checkpoint in the log adds one
    row to the log, which carries the final status and counters and is
    closed.  [calculateResumeOffset] afterwards gives the number of
    records processed unless the run completed, in which case it gives
    zero; [canResumeImport] holds when the run did not complete and
    processed at least one record; and the row is not among the imports
    a later run takes its progress from. *)
Theorem a_run_leaves_one_closed_checkpoint
  (E : Env.t) (options : ImportOptions.t) (w : World.t) (this : DataImporter.t)
  (fileName : string) (resume : bool) (fuel : nat) :
  0 < ImportOptions.batchSize options ->
  enough_fuel E fileName <= fuel ->
  no_checkpoint (Database.import_log (World.db w)) fileName ->
  exists run row,
    importFromS3 E options fuel w this fileName resume = Some run
    /\ log run = Database.import_log (World.db w) ++ [row]
    /\ ImportLogRow.source_file row = fileName
    /\ ImportLogRow.status row = ImportProgress.status (progress run)
    /\ ImportLogRow.records_processed row = processed run
    /\ ImportLogRow.records_imported row = imported run
    /\ ImportLogRow.errors row = errors run
    /\ ImportLogRow.completed_at row <> None
    /\ calculateResumeOffset (log run) fileName
       = (if resumable (ImportProgress.status (progress run))
          then processed run else 0)
    /\ canResumeImport (log run) fileName
       = resumable (ImportProgress.status (progress run))
         && (0 <? processed run)
    /\ existingProgress (log run) fileName true = None.
Proof.
  intros Hpos Hfuel Hno.
  destruct (importFromS3_total E options w this fileName resume fuel Hpos Hfuel)
    as [run Hrun].
  destruct (run_closes_its_row E options w this fileName resume fuel run
              (no_checkpoint_no_progress _ _ resume Hno) Hrun)
    as [row (Hlog & Hsrc & Hst & Hp & Hi & He & Hclosed)].
  destruct (closed_row_checkpoint _ row fileName Hno Hsrc Hclosed)
    as [Hoff Hnone].
  exists run, row. split; [exact Hrun|].
  split; [exact Hlog|]. split; [exact Hsrc|]. split; [exact Hst|].
  split; [exact Hp|]. split; [exact Hi|]. split; [exact He|].
  split; [exact Hclosed|].
  rewrite Hlog. unfold canResumeImport. rewrite Hoff, Hst, Hp.
  split; [reflexivity|]. split; [|apply Hnone].
  destruct (resumable (ImportProgress.status (progress run))); reflexivity.
Qed.

Lemma a_run_leaves_one_closed_checkpoint_witness :
  exists run row,
    importFromS3 (Examples.env Examples.two_records)
      ImportOptions.DEFAULT_OPTIONS 3 (World.initial Database.empty)
      DataImporter.new Examples.part1 false = Some run
    /\ log run
       = Database.import_log (World.db (World.initial Database.empty)) ++ [row]
    /\ ImportLogRow.source_file row = Examples.part1
    /\ ImportLogRow.status row = ImportProgress.status (progress run)
    /\ ImportLogRow.records_processed row = processed run
    /\ ImportLogRow.records_imported row = imported run
    /\ ImportLogRow.errors row = errors run
    /\ ImportLogRow.completed_at row <> None
    /\ calculateResumeOffset (log run) Examples.part1
       = (if resumable (ImportProgress.status (progress run))
          then processed run else 0)
    /\ canResumeImport (log run) Examples.part1
       = resumable (ImportProgress.status (progress run))
         && (0 <? processed run)
    /\ existingProgress (log run) Examples.part1 true = None.
Proof.
  apply (a_run_leaves_one_closed_checkpoint
           (Examples.env Examples.two_records)
           ImportOptions.DEFAULT_OPTIONS (World.initial Database.empty)
           DataImporter.new Examples.part1 false 3).
  - vm_compute; lia.
  - vm_compute; lia.
  - reflexivity.
Defined.

End RunCheckpoint.

(* ================================================================== *)
(** * Importing an object of new records *)
(* ================================================================== *)

Section NewRecords.
Import Importer Spec Facts ImportRuns.

Variable E : Env.t.
Variable options : ImportOptions.t.
Variable fileName : string.
Variable lines : list S3Stream.Line.

Hypothesis Hbucket : Env.bucket E fileName = Some lines.
Hypothesis Hclean : clean lines.
Hypothesis Hcommits : commits E.
Hypothesis Hpos : 0 < ImportOptions.batchSize options.
Hypothesis Hstorable : forall r, In r (records lines) -> storable E r.
Hypothesis Hdistinct : NoDup (map key (records lines)).

Lemma row_ids_rows_of rs : row_ids (rows_of rs) = map key rs.
Proof. unfold row_ids, rows_of. rewrite map_map. reflexivity. Qed.

Lemma insert_new_row row rs :
  ~ In (InspectionRow.id row) (row_ids rs) ->
  Sqlite.insert_or_replace row rs = rs ++ [row].
Proof.
  intros Hnew. unfold Sqlite.insert_or_replace. f_equal.
  apply filter_everything. intros x Hx.
  destruct (String.eqb_spec (InspectionRow.id x) (InspectionRow.id row))
    as [Heq|_]; [|reflexivity].
  exfalso. apply Hnew. rewrite <- Heq. apply in_map. exact Hx.
Qed.

Lemma insert_each_appends faults batch : forall rs n,
  (forall r, In r batch ->
             Sqlite.row_write_fails faults r = false
             /\ Sqlite.defect_write_fails faults r = false) ->
  NoDup (map key batch) ->
  (forall r, In r batch -> ~ In (key r) (row_ids rs)) ->
  Sqlite.insert_each faults rs batch n
  = (rs ++ rows_of batch, n + length batch).
Proof.
  induction batch as [|r rest IH]; intros rs n Hok Hnd Hnew.
  - simpl. rewrite app_nil_r, Nat.add_0_r. reflexivity.
  - rewrite insert_each_step.
    destruct (Hok r (or_introl eq_refl)) as [Hrow Hdef].
    assert (Hins : Sqlite.insertInspection faults rs r
                   = (rs ++ [Sqlite.transformInspectionForDb r], Some true)).
    { unfold Sqlite.insertInspection. rewrite Hrow, Hdef.
      rewrite insert_new_row; [reflexivity|].
      apply (Hnew r). left. reflexivity. }
    rewrite Hins. cbn [fst snd]. inversion Hnd as [|k ks Hk Hks]; subst.
    rewrite IH.
    + simpl. rewrite <- app_assoc. simpl. f_equal. lia.
    + intros x Hx. apply Hok. right. exact Hx.
    + exact Hks.
    + intros x Hx Hin. unfold row_ids in Hin. rewrite map_app in Hin.
      apply in_app_or in Hin. destruct Hin as [Hin|[Hin|[]]].
      * apply (Hnew x (or_intror Hx)). exact Hin.
      * apply Hk. change (InspectionRow.id (Sqlite.transformInspectionForDb r))
          with (key r) in Hin. rewrite Hin. apply in_map. exact Hx.
Qed.

Lemma filteredBatch_new rs batch :
  (forall r, In r batch -> complete r) ->
  (forall r, In r batch -> ~ In (key r) (row_ids rs)) ->
  filteredBatch options rs batch = batch.
Proof.
  intros Hc Hnew. unfold filteredBatch.
  rewrite (validBatch_all options batch Hc).
  destruct (ImportOptions.skipDuplicates options); [|reflexivity].
  apply (filterDuplicates_all_new E). intros r Hr.
  split; [apply complete_identified, Hc, Hr|apply Hnew, Hr].
Qed.

Lemma process_batch_appends logId st batch :
  (forall r, In r batch -> storable E r) ->
  NoDup (map key batch) ->
  (forall r, In r batch -> ~ In (key r) (row_ids (rows st))) ->
  let st' := process_batch E options logId st batch in
  rows st' = rows st ++ rows_of batch
  /\ processed st' = processed st + length batch
  /\ imported st' = imported st + length batch
  /\ errors st' = errors st.
Proof.
  intros Hst Hnd Hnew st'. subst st'.
  destruct (process_batch_committed E options logId st batch (Hcommits _))
    as [Hrows [Hprog _]].
  cbv zeta in Hrows, Hprog.
  rewrite filteredBatch_new in Hrows, Hprog;
    try (intros r Hr; apply (proj1 (Hst r Hr))); try exact Hnew.
  rewrite insert_each_appends in Hrows, Hprog;
    try exact Hnd; try exact Hnew;
    try (intros r Hr; apply (proj2 (Hst r Hr))).
  cbn [fst snd] in Hrows, Hprog.
  unfold processed, imported, errors. rewrite Hrows, Hprog. simpl.
  repeat split; lia.
Qed.

Lemma batch_loop_appends logId batches : forall st,
  (forall r, In r (concat batches) -> storable E r) ->
  NoDup (map key (concat batches)) ->
  (forall r, In r (concat batches) -> ~ In (key r) (row_ids (rows st))) ->
  let st' := batch_loop E options logId st batches in
  exists done rest,
    concat batches = done ++ rest
    /\ rows st' = rows st ++ rows_of done
    /\ processed st' = processed st + length done
    /\ imported st' = imported st + length done
    /\ errors st' = errors st
    /\ (stopped st' = false -> rest = []).
Proof.
  induction batches as [|b bs IH]; intros st Hst Hnd Hnew; cbv zeta.
  - exists [], []. simpl. rewrite app_nil_r.
    repeat split; try lia; reflexivity.
  - simpl batch_loop.
    destruct (DataImporter.shouldStop (importer st)) eqn:Hstop.
    + exists [], (concat (b :: bs)). simpl rows_of. rewrite app_nil_r.
      simpl length. repeat split; try lia; try reflexivity.
      unfold stopped. rewrite Hstop. discriminate.
    + simpl concat in Hst, Hnd, Hnew. rewrite map_app in Hnd.
      destruct (process_batch_appends logId st b) as (Hr & Hp & Hi & He).
      { intros r Hr. apply Hst. apply in_or_app. left. exact Hr. }
      { apply (NoDup_app_remove_r _ _ Hnd). }
      { intros r Hr. apply Hnew. apply in_or_app. left. exact Hr. }
      destruct (IH (process_batch E options logId st b))
        as (done & rest & Hcat & Hr' & Hp' & Hi' & He' & Hrest).
      { intros r Hr0. apply Hst. apply in_or_app. right. exact Hr0. }
      { apply (NoDup_app_remove_l _ _ Hnd). }
      { intros r Hr0 Hin. rewrite Hr in Hin. unfold row_ids in Hin.
        rewrite map_app in Hin. apply in_app_or in Hin.
        destruct Hin as [Hin|Hin].
        - apply (Hnew r); [apply in_or_app; right; exact Hr0|exact Hin].
        - fold (row_ids (rows_of b)) in Hin. rewrite row_ids_rows_of in Hin.
          apply (NoDup_app_disjoint _ _ (key r) Hnd Hin).
          apply in_map. exact Hr0. }
      exists (b ++ done), rest. simpl concat.
      rewrite Hcat, Hr', Hp', Hi', He', Hr, Hp, Hi, He.
      unfold rows_of. rewrite map_app, length_app, <- !app_assoc.
      repeat split; try lia. exact Hrest.
Qed.

Lemma chunk_of_records offset :
  S3Stream.streamFromS3 (Env.bucket E) fileName chunkSize offset
  = Some (firstn chunkSize (skipn offset (records lines))).
Proof.
  rewrite (streamFromS3_window _ _ lines _ _ Hbucket).
  rewrite (window_records lines _ _ Hclean). reflexivity.
Qed.

Lemma chunk_loop_appends logId fuel : forall st offset st' thrown,
  chunk_loop E options logId fileName fuel st offset = Some (st', thrown) ->
  (forall r, In r (skipn offset (records lines)) ->
             ~ In (key r) (row_ids (rows st))) ->
  exists done rest,
    skipn offset (records lines) = done ++ rest
    /\ rows st' = rows st ++ rows_of done
    /\ processed st' = processed st + length done
    /\ imported st' = imported st + length done
    /\ errors st' = errors st
    /\ (stopped st' = false -> rest = []).
Proof.
  induction fuel as [|fuel IH]; intros st offset st' thrown Hrun Hnew.
  - simpl in Hrun.
    destruct (DataImporter.shouldStop (importer st)) eqn:Hstop; [|discriminate].
    inversion Hrun; subst. exists [], (skipn offset (records lines)).
    simpl. rewrite app_nil_r. repeat split; try lia.
    unfold stopped. rewrite Hstop. discriminate.
  - rewrite chunk_loop_unfold in Hrun. cbv zeta in Hrun.
    destruct (stopped st) eqn:Hstop.
    { inversion Hrun; subst. exists [], (skipn offset (records lines)).
      simpl. rewrite app_nil_r. repeat split; try lia.
      rewrite Hstop. discriminate. }
    rewrite chunk_of_records in Hrun.
    set (rest0 := skipn offset (records lines)) in *.
    set (chunk := firstn chunkSize rest0) in *.
    match type of Hrun with
    | context [fetching E st ?c] => set (st1 := fetching E st c) in *
    end.
    assert (Hrows1 : rows st1 = rows st) by apply fetching_rows.
    assert (Hprog1 : progress st1 = progress st) by apply fetching_progress.
    destruct (length chunk =? 0) eqn:Hempty.
    { inversion Hrun; subst st' thrown. exists [], rest0.
      simpl. rewrite app_nil_r, Hrows1.
      unfold processed, imported, errors. rewrite Hprog1.
      repeat split; try lia. intros _.
      apply Nat.eqb_eq in Hempty. subst chunk.
      destruct rest0; [reflexivity|].
      unfold chunkSize in Hempty. simpl in Hempty. discriminate. }
    destruct (createBatches_loop_partition chunk
                (ImportOptions.batchSize options) Hpos
                (length chunk) 0 [] ltac:(lia) eq_refl (Forall_nil _))
      as (batches & Hcb & Hcat & _).
    fold (createBatches chunk (ImportOptions.batchSize options)) in Hcb.
    rewrite Hcb in Hrun.
    assert (Hsplit : rest0 = chunk ++ skipn (offset + length chunk) (records lines)).
    { subst chunk rest0.
      replace (offset + length (firstn chunkSize (skipn offset (records lines))))
        with (length (firstn chunkSize (skipn offset (records lines))) + offset)
        by lia.
      rewrite <- skipn_skipn.
      rewrite <- (firstn_skipn chunkSize (skipn offset (records lines))) at 1.
      f_equal. rewrite length_firstn.
      destruct (Nat.le_ge_cases chunkSize (length (skipn offset (records lines))))
        as [Hle|Hge].
      - rewrite Nat.min_l by exact Hle. reflexivity.
      - rewrite Nat.min_r by exact Hge.
        rewrite !skipn_all2; [reflexivity|lia|lia]. }
    assert (Hnd0 : NoDup (map key rest0)).
    { subst rest0. rewrite <- skipn_map. apply NoDup_skipn. exact Hdistinct. }
    assert (Hst0 : forall r, In r rest0 -> storable E r).
    { intros r Hr. apply Hstorable. apply (skipn_In offset _ r Hr). }
    rewrite Hsplit, map_app in Hnd0.
    destruct (batch_loop_appends logId batches st1)
      as (done & rest & Hdr & Hr2 & Hp2 & Hi2 & He2 & Hrest2).
    { rewrite Hcat. intros r Hr. apply Hst0. rewrite Hsplit.
      apply in_or_app. left. exact Hr. }
    { rewrite Hcat. apply (NoDup_app_remove_r _ _ Hnd0). }
    { rewrite Hcat, Hrows1. intros r Hr. apply Hnew. rewrite Hsplit.
      apply in_or_app. left. exact Hr. }
    rewrite Hcat in Hdr. rewrite Hrows1 in Hr2.
    unfold processed, imported, errors in Hp2, Hi2, He2.
    rewrite Hprog1 in Hp2, Hi2, He2.
    fold (processed st) in Hp2. fold (imported st) in Hi2.
    fold (errors st) in He2.
    set (st2 := batch_loop E options logId st1 batches) in *.
    fold (processed st2) in Hp2. fold (imported st2) in Hi2.
    fold (errors st2) in He2.
    destruct (length chunk <? chunkSize) eqn:Hshort.
    { inversion Hrun; subst st' thrown. exists done, rest.
      split; [|repeat split; assumption].
      rewrite <- Hdr. subst chunk. apply Nat.ltb_lt in Hshort.
      rewrite length_firstn in Hshort.
      symmetry. apply firstn_all2. lia. }
    destruct (stopped st2) eqn:Hstop2.
    { destruct fuel as [|fuel'].
      - simpl in Hrun. unfold stopped in Hstop2. rewrite Hstop2 in Hrun.
        inversion Hrun; subst st' thrown.
        exists done, (rest ++ skipn (offset + length chunk) (records lines)).
        rewrite Hsplit, Hdr, <- app_assoc.
        repeat split; try assumption.
        unfold stopped in *. rewrite Hstop2. discriminate.
      - rewrite chunk_loop_unfold in Hrun. cbv zeta in Hrun.
        rewrite Hstop2 in Hrun. inversion Hrun; subst st' thrown.
        exists done, (rest ++ skipn (offset + length chunk) (records lines)).
        rewrite Hsplit, Hdr, <- app_assoc.
        repeat split; try assumption.
        rewrite Hstop2. discriminate. }
    specialize (Hrest2 eq_refl). subst rest. rewrite app_nil_r in Hdr.
    subst done.
    destruct (IH st2 (offset + length chunk) st' thrown Hrun)
      as (done' & rest' & Hdr' & Hr3 & Hp3 & Hi3 & He3 & Hrest3).
    { intros r Hr Hin. rewrite Hr2 in Hin. unfold row_ids in Hin.
      rewrite map_app in Hin. apply in_app_or in Hin.
      destruct Hin as [Hin|Hin].
      - apply (Hnew r); [rewrite Hsplit; apply in_or_app; right; exact Hr
                        |exact Hin].
      - fold (row_ids (rows_of chunk)) in Hin. rewrite row_ids_rows_of in Hin.
        apply (NoDup_app_disjoint _ _ (key r) Hnd0 Hin).
        apply in_map. exact Hr. }
    exists (chunk ++ done'), rest'.
    rewrite Hsplit, Hdr', Hr3, Hp3, Hi3, He3, Hr2, Hp2, Hi2, He2.
    unfold rows_of. rewrite map_app, length_app, <- !app_assoc.
    repeat split; try lia. exact Hrest3.
Qed.

End NewRecords.

Section NewRecordsRuns.
Import Importer Spec Facts ImportRuns.

Lemma fuel_for_lines E fileName lines fuel :
  Env.bucket E fileName = Some lines ->
  length lines < fuel -> enough_fuel E fileName <= fuel.
Proof. intros Hb Hf. unfold enough_fuel. rewrite Hb. lia. Qed.

(** X12.  Importing, undisturbed and without a checkpoint, an object
    that has no malformed line and whose records are storable, carry
    distinct identifiers and are not in the store yet, completes and
    leaves the inspection rows that were there followed by the rows of
    the records in the order of the object; every record is counted as
    processed and imported, none as an error. *)
Theorem clean_import_appends_the_row_of_every_record
  (E : Env.t) (options : ImportOptions.t) (w : World.t) (this : DataImporter.t)
  (fileName : string) (lines : list S3Stream.Line) (resume : bool)
  (fuel : nat) :
  Env.bucket E fileName = Some lines ->
  clean lines ->
  undisturbed E ->
  0 < ImportOptions.batchSize options ->
  length lines < fuel ->
  calculateResumeOffset (Database.import_log (World.db w)) fileName = 0 ->
  (forall r, In r (records lines) -> storable E r) ->
  NoDup (map key (records lines)) ->
  (forall r, In r (records lines) -> ~ In (key r) (Database.ids (World.db w))) ->
  exists run,
    importFromS3 E options fuel w this fileName resume = Some run
    /\ ImportProgress.status (progress run) = completed
    /\ Database.inspections (World.db (world run))
       = Database.inspections (World.db w) ++ rows_of (records lines)
    /\ processed run = length (records lines)
    /\ imported run = length (records lines)
    /\ errors run = 0.
Proof.
  intros Hb Hclean Hquiet Hpos Hfuel Hfresh Hst Hnd Hnew.
  destruct (importFromS3_total E options w this fileName resume fuel Hpos
              (fuel_for_lines E fileName lines fuel Hb Hfuel))
    as [run Hrun].
  exists run. split; [exact Hrun|].
  rewrite importFromS3_unfold in Hrun.
  destruct (chunk_loop _ _ _ _ _ _ _) as [[st' thrown]|] eqn:Hloop;
    [|discriminate].
  inversion Hrun; subst run. clear Hrun.
  destruct (prepare_fresh E w this fileName resume Hfresh)
    as (Hoff & _ & _ & P0 & I0 & E0).
  cbv zeta in Hoff. rewrite Hoff in Hloop.
  pose proof (chunk_loop_no_exception E options _ fileName lines fuel Hb
                _ _ _ _ Hloop) as Hnone.
  pose proof (chunk_loop_goes_on E options Hquiet _ fileName fuel _ _ _ _
                (prepare_stopped E w this fileName resume) Hloop) as Hgo.
  destruct (chunk_loop_appends E options fileName lines Hb Hclean (proj2 Hquiet)
              Hpos Hst Hnd _ fuel _ 0 st' thrown Hloop)
    as (done & rest & Hdr & Hrows & Hp & Hi & He & Hrest).
  { rewrite prepare_rows. exact Hnew. }
  specialize (Hrest Hgo). subst rest. rewrite app_nil_r in Hdr.
  simpl skipn in Hdr. subst done thrown.
  destruct (finish_counters E (snd (prepare E w this fileName resume)) st' None)
    as (Fp & Fi & Fe).
  rewrite Fp, Fi, Fe, Hp, Hi, He, P0, I0, E0, finish_status, Hgo.
  change (Database.inspections (World.db (world ?r))) with (rows r).
  rewrite finish_rows, Hrows, prepare_rows.
  repeat split; reflexivity.
Qed.

Lemma clean_import_appends_the_row_of_every_record_witness :
  exists run,
    importFromS3 (Examples.env Examples.two_records)
      ImportOptions.DEFAULT_OPTIONS 3 (World.initial Database.empty)
      DataImporter.new Examples.part1 false = Some run
    /\ ImportProgress.status (progress run) = completed
    /\ Database.inspections (World.db (world run))
       = Database.inspections (World.db (World.initial Database.empty))
         ++ rows_of (records Examples.two_records)
    /\ processed run = length (records Examples.two_records)
    /\ imported run = length (records Examples.two_records)
    /\ errors run = 0.
Proof.
  apply (clean_import_appends_the_row_of_every_record
           (Examples.env Examples.two_records)
           ImportOptions.DEFAULT_OPTIONS (World.initial Database.empty)
           DataImporter.new Examples.part1 Examples.two_records false 3).
  - reflexivity.
  - intros text [H|[H|[]]]; discriminate H.
  - split; intros k; reflexivity.
  - vm_compute; lia.
  - vm_compute; lia.
  - reflexivity.
  - intros r [<-|[<-|[]]]; (split; [|split; reflexivity]);
      repeat split; try reflexivity; discriminate.
  - constructor; [intros [H|[]]; discriminate H|].
    constructor; [intros []|constructor].
  - intros r _ [].
Defined.

(** X13.  A run over such an object that a stop request pauses after
    it has processed some records has stored exactly the rows of the
    records it counted as processed; [resumeImport] then returns with
    the import completed, the inspection rows being those that were
    there before the first run followed by the rows of all records of
    the object in order, none twice and none missing. *)
Theorem resuming_a_paused_import_completes_the_object
  (E : Env.t) (options : ImportOptions.t) (w : World.t) (this : DataImporter.t)
  (fileName : string) (lines : list S3Stream.Line) (fuel : nat) (run1 : Run) :
  Env.bucket E fileName = Some lines ->
  clean lines ->
  commits E ->
  0 < ImportOptions.batchSize options ->
  length lines < fuel ->
  no_checkpoint (Database.import_log (World.db w)) fileName ->
  (forall r, In r (records lines) -> storable E r) ->
  NoDup (map key (records lines)) ->
  (forall r, In r (records lines) -> ~ In (key r) (Database.ids (World.db w))) ->
  importFromS3 E options fuel w this fileName false = Some run1 ->
  ImportProgress.status (progress run1) = paused ->
  0 < processed run1 ->
  quiet_from E (World.awaits (world run1)) ->
  exists run2,
    resumeImport E options fuel (world run1) (importer run1) fileName
    = Some (Returned run2)
    /\ rows run1
       = Database.inspections (World.db w)
         ++ rows_of (firstn (processed run1) (records lines))
    /\ ImportProgress.status (progress run2) = completed
    /\ rows run2 = Database.inspections (World.db w) ++ rows_of (records lines)
    /\ processed run2 = length (records lines)
    /\ imported run1 + imported run2 = length (records lines)
    /\ errors run1 + errors run2 = 0.
Proof.
  intros Hb Hclean Hcommits Hpos Hfuel Hno Hst Hnd Hnew Hrun1 Hpaused Hsome
         Hquiet.
  pose proof (no_checkpoint_fresh _ _ Hno) as Hfresh.
  (* the first run *)
  destruct (run_closes_its_row E options w this fileName false fuel run1
              (no_checkpoint_no_progress _ _ false Hno) Hrun1)
    as [row (Hlog & Hsrc & Hstat & Hrp & _ & _ & Hclosed)].
  destruct (closed_row_checkpoint _ row fileName Hno Hsrc Hclosed)
    as [Hoff Hnone].
  rewrite Hstat, Hpaused, Hrp in Hoff. simpl in Hoff.
  rewrite importFromS3_unfold in Hrun1.
  destruct (chunk_loop _ _ _ _ _ _ _) as [[st1 thrown1]|] eqn:Hloop1;
    [|discriminate].
  destruct (prepare_fresh E w this fileName false Hfresh)
    as (Hoff0 & _ & _ & P0 & I0 & E0).
  cbv zeta in Hoff0. rewrite Hoff0 in Hloop1.
  destruct (chunk_loop_appends E options fileName lines Hb Hclean Hcommits
              Hpos Hst Hnd _ fuel _ 0 st1 thrown1 Hloop1)
    as (done1 & rest1 & Hdr1 & Hrows1 & Hp1 & Hi1 & He1 & _).
  { rewrite prepare_rows. exact Hnew. }
  simpl skipn in Hdr1. rewrite prepare_rows in Hrows1.
  rewrite P0 in Hp1. rewrite I0 in Hi1. rewrite E0 in He1.
  destruct (finish_counters E (snd (prepare E w this fileName false)) st1 thrown1)
    as (Fp1 & Fi1 & Fe1).
  pose proof (finish_rows E (snd (prepare E w this fileName false)) st1 thrown1)
    as Frows1.
  injection Hrun1 as Hr1. rewrite Hr1 in Fp1, Fi1, Fe1, Frows1.
  clear Hr1 Hloop1.
  rewrite Hp1 in Fp1. rewrite Hi1 in Fi1. rewrite He1 in Fe1.
  rewrite Hrows1 in Frows1. simpl in Fp1, Fi1, Fe1.
  assert (Hdone1 : firstn (processed run1) (records lines) = done1).
  { rewrite Fp1, Hdr1, firstn_app, Nat.sub_diag, firstn_all. simpl.
    apply app_nil_r. }
  assert (Hrest1 : skipn (processed run1) (records lines) = rest1).
  { rewrite Fp1, Hdr1, skipn_app, Nat.sub_diag, skipn_all. reflexivity. }
  (* the second run *)
  assert (Hlog' : Database.import_log (World.db (world run1)) = log run1)
    by reflexivity.
  assert (Hcan : canResumeImport (Database.import_log (World.db (world run1)))
                   fileName = true).
  { unfold canResumeImport. rewrite Hlog', Hlog, Hoff.
    apply Nat.ltb_lt. exact Hsome. }
  destruct (importFromS3_total E options (world run1) (importer run1) fileName
              true fuel Hpos (fuel_for_lines E fileName lines fuel Hb Hfuel))
    as [run2 Hrun2].
  exists run2.
  split; [unfold resumeImport; rewrite Hcan, Hrun2; reflexivity|].
  split; [rewrite Hdone1; exact Frows1|].
  rewrite importFromS3_unfold in Hrun2.
  destruct (chunk_loop _ _ _ _ _ _ _) as [[st2 thrown2]|] eqn:Hloop2;
    [|discriminate].
  inversion Hrun2; subst run2. clear Hrun2.
  assert (Hstart : startOffset (Database.import_log (World.db (world run1)))
                     fileName true = processed run1).
  { unfold startOffset. rewrite Hlog', Hlog, Hoff. reflexivity. }
  rewrite Hstart in Hloop2.
  assert (Hnone2 : existingProgress
                     (Database.import_log (World.db (world run1))) fileName true
                   = None)
    by (rewrite Hlog', Hlog; apply Hnone).
  destruct (prepare_new_row E (world run1) (importer run1) fileName true Hnone2)
    as (_ & P2 & I2 & E2).
  rewrite Hstart in P2.
  pose proof (chunk_loop_no_exception E options _ fileName lines fuel Hb
                _ _ _ _ Hloop2) as Hthrown2.
  destruct (chunk_loop_passes E options _ fileName _ _ _ _ _ Hloop2)
    as [_ Hstop2].
  rewrite prepare_stopped, prepare_awaits in Hstop2.
  rewrite (stop_between_quiet E _ _ Hquiet) in Hstop2. simpl in Hstop2.
  destruct (chunk_loop_appends E options fileName lines Hb Hclean Hcommits
              Hpos Hst Hnd _ fuel _ _ st2 thrown2 Hloop2)
    as (done2 & rest2 & Hdr2 & Hrows2 & Hp2 & Hi2 & He2 & Hrest2).
  { rewrite prepare_rows.
    change (Database.inspections (World.db (world run1))) with (rows run1).
    rewrite Frows1, Hrest1. intros r Hr Hin.
    unfold row_ids in Hin. rewrite map_app in Hin. apply in_app_or in Hin.
    destruct Hin as [Hin|Hin].
    - apply (Hnew r); [rewrite Hdr1; apply in_or_app; right; exact Hr|exact Hin].
    - fold (row_ids (rows_of done1)) in Hin.
      rewrite row_ids_rows_of in Hin.
      rewrite Hdr1, map_app in Hnd.
      apply (NoDup_app_disjoint _ _ (key r) Hnd Hin).
      apply in_map. exact Hr. }
  specialize (Hrest2 Hstop2). subst rest2 thrown2.
  rewrite app_nil_r, Hrest1 in Hdr2. subst done2.
  rewrite prepare_rows in Hrows2.
  change (Database.inspections (World.db (world run1))) with (rows run1)
    in Hrows2.
  rewrite Frows1 in Hrows2. rewrite P2 in Hp2. rewrite I2 in Hi2.
  rewrite E2 in He2.
  destruct (finish_counters E
              (snd (prepare E (world run1) (importer run1) fileName true))
              st2 None)
    as (Fp2 & Fi2 & Fe2).
  rewrite Fp2, Fi2, Fe2, finish_status, finish_rows, Hstop2, Hrows2, Hp2, Hi2,
    He2, Fi1, Fe1, Fp1.
  rewrite Hdr1. unfold rows_of. rewrite map_app, length_app, <- app_assoc.
  repeat split; lia.
Qed.

Lemma resuming_a_paused_import_completes_the_object_witness :
  exists run1 run2,
    importFromS3 (Scenarios.stop_at 1 Examples.two_records)
      Scenarios.one_by_one 3 (World.initial Database.empty)
      DataImporter.new Examples.part1 false = Some run1
    /\ ImportProgress.status (progress run1) = paused
    /\ resumeImport (Scenarios.stop_at 1 Examples.two_records)
         Scenarios.one_by_one 3 (world run1) (importer run1) Examples.part1
       = Some (Returned run2)
    /\ rows run1
       = Database.inspections (World.db (World.initial Database.empty))
         ++ rows_of (firstn (processed run1) (records Examples.two_records))
    /\ ImportProgress.status (progress run2) = completed
    /\ rows run2
       = Database.inspections (World.db (World.initial Database.empty))
         ++ rows_of (records Examples.two_records)
    /\ processed run2 = length (records Examples.two_records)
    /\ imported run1 + imported run2 = length (records Examples.two_records)
    /\ errors run1 + errors run2 = 0.
Proof.
  assert (H1 : exists run1,
             importFromS3 (Scenarios.stop_at 1 Examples.two_records)
               Scenarios.one_by_one 3 (World.initial Database.empty)
               DataImporter.new Examples.part1 false = Some run1
             /\ ImportProgress.status (progress run1) = paused
             /\ 0 < processed run1
             /\ quiet_from (Scenarios.stop_at 1 Examples.two_records)
                  (World.awaits (world run1))).
  { eexists. split; [vm_compute; reflexivity|].
    split; [reflexivity|]. split; [vm_compute; lia|].
    intros k Hk. simpl in Hk. simpl.
    destruct (Nat.eqb_spec k 1); [lia|reflexivity]. }
  destruct H1 as (run1 & Hrun1 & Hpaused & Hsome & Hquiet).
  destruct (resuming_a_paused_import_completes_the_object
              (Scenarios.stop_at 1 Examples.two_records)
              Scenarios.one_by_one (World.initial Database.empty)
              DataImporter.new Examples.part1 Examples.two_records 3 run1)
    as (run2 & Hres); try assumption.
  - reflexivity.
  - intros text [H|[H|[]]]; discriminate H.
  - intros k; reflexivity.
  - vm_compute; lia.
  - vm_compute; lia.
  - reflexivity.
  - intros r [<-|[<-|[]]]; (split; [|split; reflexivity]);
      repeat split; try reflexivity; discriminate.
  - constructor; [intros [H|[]]; discriminate H|].
    constructor; [intros []|constructor].
  - intros r _ [].
  - exists run1, run2. split; [exact Hrun1|]. split; [exact Hpaused|].
    exact Hres.
Defined.

End NewRecordsRuns.

(* ================================================================== *)
(** * Importing every file, and clearing the log *)
(* ================================================================== *)

Section AllFiles.
Import Importer Spec Facts ImportRuns.

Lemma prepare_fileName E w this fileName resume :
  ImportProgress.fileName (progress (fst (prepare E w this fileName resume)))
  = fileName.
Proof.
  unfold prepare.
  destruct (existingProgress _ _ _); [reflexivity|].
  destruct (startImportLog _ _ _). reflexivity.
Qed.

Lemma process_batch_fileName E options logId st batch :
  ImportProgress.fileName (progress (process_batch E options logId st batch))
  = ImportProgress.fileName (progress st).
Proof.
  destruct (Env.transaction_fails E (World.transactions (world st))) eqn:Ef.
  - destruct (process_batch_rolled_back E options logId st batch Ef)
      as [_ [Hprog _]].
    rewrite Hprog. reflexivity.
  - destruct (process_batch_committed E options logId st batch Ef)
      as [_ [Hprog _]].
    rewrite Hprog. reflexivity.
Qed.

Lemma run_fileName E options w this fileName resume fuel run :
  importFromS3 E options fuel w this fileName resume = Some run ->
  ImportProgress.fileName (progress run) = fileName.
Proof.
  intros Hrun. rewrite importFromS3_unfold in Hrun.
  destruct (chunk_loop _ _ _ _ _ _ _) as [[st' thrown]|] eqn:Hloop;
    [|discriminate].
  inversion Hrun; subst run. clear Hrun.
  pose proof (chunk_loop_steps E options _ fileName
                (fun a b => ImportProgress.fileName (progress b)
                            = ImportProgress.fileName (progress a))
                (fun a => eq_refl)
                (fun a b c H1 H2 => eq_trans H2 H1)
                (fun a c => f_equal ImportProgress.fileName
                              (fetching_progress E a c))
                (fun a batch _ => process_batch_fileName E options _ a batch)
                fuel _ _ _ _ Hloop) as Hname.
  cbv beta in Hname. rewrite prepare_fileName in Hname.
  destruct thrown; exact Hname.
Qed.

Lemma run_keeps_rows E options w this fileName resume fuel run :
  importFromS3 E options fuel w this fileName resume = Some run ->
  (forall i, In i (Database.ids (World.db w)) ->
             In i (Database.ids (World.db (world run))))
  /\ (NoDup (Database.ids (World.db w)) ->
      NoDup (Database.ids (World.db (world run)))).
Proof.
  intros Hrun. split.
  - rewrite importFromS3_unfold in Hrun.
    destruct (chunk_loop _ _ _ _ _ _ _) as [[st' thrown]|] eqn:Hloop;
      [|discriminate].
    inversion Hrun; subst run. clear Hrun. intros i Hin.
    change (In i (row_ids (rows (finish E
              (snd (prepare E w this fileName resume)) st' thrown)))).
    rewrite finish_rows.
    apply (chunk_loop_keeps E options _ fileName _ _ _ _ _ i Hloop).
    rewrite prepare_rows. exact Hin.
  - apply (importFromS3_NoDup E options fuel w this fileName resume run Hrun).
Qed.

Lemma out_of_reach_quiet E a : quiet_from (out_of_reach E) a.
Proof. intros k _. reflexivity. Qed.

Lemma out_of_reach_status E options w this fileName resume fuel run :
  importFromS3 (out_of_reach E) options fuel w this fileName resume = Some run ->
  ImportProgress.status (progress run) = completed
  \/ ImportProgress.status (progress run) = failed.
Proof.
  intros Hrun.
  destruct (run_status _ _ _ _ _ _ _ _ Hrun) as (_ & Hst & _).
  rewrite (stop_between_quiet _ _ _ (out_of_reach_quiet E _)) in Hst.
  rewrite Hst. destruct (Env.bucket (out_of_reach E) fileName); auto.
Qed.

Lemma importAllFiles_loop_spec E options fuel :
  0 < ImportOptions.batchSize options ->
  forall remaining st,
    (forall f, In f remaining -> enough_fuel E f <= fuel) ->
    exists st' more,
      importAllFiles_loop E options fuel remaining st = Some st'
      /\ results st' = results st ++ more
      /\ map ImportProgress.fileName more = firstn (length more) remaining
      /\ Forall (fun p => ImportProgress.status p = completed
                          \/ ImportProgress.status p = failed) more
      /\ (forall n p, nth_error more n = Some p ->
                      ImportProgress.status p = failed ->
                      S n = length more)
      /\ (DataImporter.shouldStop (outer st') = false ->
          Forall (fun p => ImportProgress.status p = completed) more ->
          length more = length remaining)
      /\ DataImporter.isRunning (outer st') = DataImporter.isRunning (outer st)
      /\ (DataImporter.shouldStop (outer st) = true -> st' = st)
      /\ (forall i, In i (Database.ids (World.db (after st))) ->
                    In i (Database.ids (World.db (after st'))))
      /\ (NoDup (Database.ids (World.db (after st))) ->
          NoDup (Database.ids (World.db (after st')))).
Proof.
  intros Hpos. induction remaining as [|f rest IH]; intros st Hfuel.
  - exists st, []. simpl. rewrite app_nil_r.
    repeat split; auto. intros [|n] p H; discriminate H.
  - simpl importAllFiles_loop.
    destruct (DataImporter.shouldStop (outer st)) eqn:Hstop.
    + exists st, []. simpl. rewrite app_nil_r.
      repeat split; auto; try (intros [|n] p H; discriminate H).
      intros Hgo. rewrite Hstop in Hgo. discriminate.
    + destruct (importFromS3_total (out_of_reach E) options (after st)
                  DataImporter.new f false fuel Hpos
                  (Hfuel f (or_introl eq_refl)))
        as [run Hrun].
      rewrite Hrun.
      pose proof (out_of_reach_status E options _ _ _ _ _ _ Hrun) as Hstat.
      pose proof (run_fileName _ _ _ _ _ _ _ _ Hrun) as Hname.
      destruct (run_keeps_rows _ _ _ _ _ _ _ _ Hrun) as [Hkeep Hnd].
      destruct (is_failed (ImportProgress.status (progress run))) eqn:Hfail.
      * eexists. exists [progress run].
        split; [reflexivity|]. cbn [results outer after].
        split; [reflexivity|]. split; [simpl; rewrite Hname; reflexivity|].
        split; [constructor; [exact Hstat|constructor]|].
        split.
        { intros [|[|n]] p H; try discriminate H. reflexivity. }
        split.
        { intros _ Hall. inversion Hall as [|p l Hp _]; subst.
          rewrite Hp in Hfail. discriminate. }
        split; [reflexivity|]. split; [discriminate|].
        split; assumption.
      * match goal with
        | |- context [importAllFiles_loop E options fuel rest ?s] =>
            destruct (IH s (fun g Hg => Hfuel g (or_intror Hg)))
              as (st' & more & Hloop & Hres & Hnames & Hall & Hlast & Hfull
                  & Hrun' & _ & Hkeep' & Hnd')
        end.
        cbn [results outer after DataImporter.isRunning] in *.
        exists st', (progress run :: more).
        split; [exact Hloop|].
        split; [rewrite Hres, <- app_assoc; reflexivity|].
        split; [simpl; rewrite Hname, Hnames; reflexivity|].
        split; [constructor; assumption|].
        split.
        { intros [|n] p H Hp.
          - simpl in H. inversion H; subst p. rewrite Hp in Hfail. discriminate.
          - simpl. f_equal. apply (Hlast n p H Hp). }
        split.
        { intros Hgo Hcompl. inversion Hcompl; subst. simpl. f_equal.
          apply Hfull; assumption. }
        split; [exact Hrun'|]. split; [discriminate|].
        split; [intros i Hi; apply Hkeep', Hkeep, Hi|].
        intros H. apply Hnd', Hnd, H.
Qed.

(** X14.  [importAllFiles] returns one result per file it started, in
    the order of its list of files.  No result is [paused]: a stop
    request does not reach the importer of the file in progress, which
    runs to its end.  Only the last result can be [failed]; when
    nothing failed and no stop request was seen, every file has a
    result.  The importer it was called on is never marked running; if
    its stop flag was already set, nothing is imported.  No inspection
    row is removed or written twice. *)
Theorem all_files_import_never_pauses_a_file
  (E : Env.t) (options : ImportOptions.t) (w : World.t) (this : DataImporter.t)
  (fuel : nat) :
  0 < ImportOptions.batchSize options ->
  (forall f, In f files -> enough_fuel E f <= fuel) ->
  exists st,
    importAllFiles E options fuel w this = Some st
    /\ map ImportProgress.fileName (results st)
       = firstn (length (results st)) files
    /\ Forall (fun p => ImportProgress.status p = completed
                        \/ ImportProgress.status p = failed) (results st)
    /\ (forall n p, nth_error (results st) n = Some p ->
                    ImportProgress.status p = failed ->
                    S n = length (results st))
    /\ (DataImporter.shouldStop (outer st) = false ->
        Forall (fun p => ImportProgress.status p = completed) (results st) ->
        length (results st) = length files)
    /\ DataImporter.isRunning (outer st) = DataImporter.isRunning this
    /\ (DataImporter.shouldStop this = true -> results st = [] /\ after st = w)
    /\ (forall i, In i (Database.ids (World.db w)) ->
                  In i (Database.ids (World.db (after st))))
    /\ (NoDup (Database.ids (World.db w)) ->
        NoDup (Database.ids (World.db (after st)))).
Proof.
  intros Hpos Hfuel. unfold importAllFiles.
  destruct (importAllFiles_loop_spec E options fuel Hpos files
              {| after := w; outer := this; results := [] |} Hfuel)
    as (st & more & Hloop & Hres & Hnames & Hall & Hlast & Hfull & Hrun
        & Hstopped & Hkeep & Hnd).
  cbn [results outer after] in *. simpl in Hres. subst more.
  exists st. split; [exact Hloop|].
  split; [exact Hnames|]. split; [exact Hall|]. split; [exact Hlast|].
  split; [exact Hfull|]. split; [exact Hrun|].
  split; [|split; assumption].
  intros Hs. rewrite (Hstopped Hs). split; reflexivity.
Qed.

Lemma all_files_import_never_pauses_a_file_witness :
  exists st,
    importAllFiles (Scenarios.everywhere Examples.two_records)
      ImportOptions.DEFAULT_OPTIONS 3 (World.initial Database.empty)
      DataImporter.new = Some st
    /\ map ImportProgress.fileName (results st)
       = firstn (length (results st)) files
    /\ Forall (fun p => ImportProgress.status p = completed
                        \/ ImportProgress.status p = failed) (results st)
    /\ (forall n p, nth_error (results st) n = Some p ->
                    ImportProgress.status p = failed ->
                    S n = length (results st))
    /\ (DataImporter.shouldStop (outer st) = false ->
        Forall (fun p => ImportProgress.status p = completed) (results st) ->
        length (results st) = length files)
    /\ DataImporter.isRunning (outer st)
       = DataImporter.isRunning DataImporter.new
    /\ (DataImporter.shouldStop DataImporter.new = true ->
        results st = [] /\ after st = World.initial Database.empty)
    /\ (forall i, In i (Database.ids (World.db (World.initial Database.empty))) ->
                  In i (Database.ids (World.db (after st))))
    /\ (NoDup (Database.ids (World.db (World.initial Database.empty))) ->
        NoDup (Database.ids (World.db (after st)))).
Proof.
  apply (all_files_import_never_pauses_a_file
           (Scenarios.everywhere Examples.two_records)
           ImportOptions.DEFAULT_OPTIONS (World.initial Database.empty)
           DataImporter.new 3).
  - vm_compute; lia.
  - intros f _. vm_compute; lia.
Defined.

End AllFiles.

Section ClearHistory.
Import Importer Spec Facts ImportRuns.

Lemma filter_split_length {A} (f : A -> bool) (l : list A) :
  length (filter f l) + length (filter (fun x => negb (f x)) l) = length l.
Proof.
  induction l as [|x l IH]; [reflexivity|].
  simpl. destruct (f x); simpl; lia.
Qed.

Lemma top_checkpoint_offset l fileName top :
  In top l ->
  checkpoint_of fileName top = true ->
  (forall x, In x l -> checkpoint_of fileName x = true ->
             x = top
             \/ (ImportLogRow.started_at x <? ImportLogRow.started_at top)%string
                = true) ->
  calculateResumeOffset l fileName = ImportLogRow.records_processed top.
Proof.
  intros Hin Hcp Hlatest. rewrite calculateResumeOffset_filter.
  destruct (order_by_desc_head _ ImportLogRow.started_at
              (filter (checkpoint_of fileName) l) top)
    as [rest Hhead].
  - apply filter_In. split; assumption.
  - intros x Hx. apply filter_In in Hx. apply Hlatest; tauto.
  - rewrite Hhead. reflexivity.
Qed.

(** X15.  [clearImportHistory] returns the number of rows it deleted
    and never deletes a row that is [running] or [paused].  When the
    latest checkpoint of a file is such a row, the offset a resumed
    import of the file starts from is the same before and after the
    log is cleared, whatever the cut-off date. *)
Theorem clearing_the_log_keeps_an_open_checkpoint
  (log : list ImportLogRow.t) (cutoffDate fileName : string)
  (top : ImportLogRow.t) :
  In top log ->
  ImportLogRow.source_file top = fileName ->
  ImportLogRow.status top = paused \/ ImportLogRow.status top = running ->
  (forall x, In x log -> checkpoint_of fileName x = true ->
             x = top
             \/ (ImportLogRow.started_at x <? ImportLogRow.started_at top)%string
                = true) ->
  snd (clearImportHistory log cutoffDate)
  + length (fst (clearImportHistory log cutoffDate))
  = length log
  /\ (forall row, In row log ->
                  ImportLogRow.status row = paused
                  \/ ImportLogRow.status row = running ->
                  In row (fst (clearImportHistory log cutoffDate)))
  /\ (forall row, In row (fst (clearImportHistory log cutoffDate)) ->
                  In row log)
  /\ calculateResumeOffset log fileName = ImportLogRow.records_processed top
  /\ calculateResumeOffset (fst (clearImportHistory log cutoffDate)) fileName
     = ImportLogRow.records_processed top.
Proof.
  intros Hin Hsrc Hopen Hlatest.
  assert (Hkept : forall row, In row log ->
                    ImportLogRow.status row = paused
                    \/ ImportLogRow.status row = running ->
                    In row (fst (clearImportHistory log cutoffDate))).
  { intros row Hrow Hst. unfold clearImportHistory. cbn [fst].
    apply filter_In. split; [exact Hrow|].
    unfold expired. destruct Hst as [-> | ->]; rewrite andb_false_r;
      reflexivity. }
  assert (Hcp : checkpoint_of fileName top = true).
  { unfold checkpoint_of. rewrite Hsrc, String.eqb_refl.
    destruct Hopen as [-> | ->]; reflexivity. }
  split.
  { unfold clearImportHistory. cbn [fst snd]. apply filter_split_length. }
  split; [exact Hkept|].
  split.
  { intros row Hrow. unfold clearImportHistory in Hrow. cbn [fst] in Hrow.
    apply filter_In in Hrow. exact (proj1 Hrow). }
  split.
  - apply (top_checkpoint_offset log fileName top Hin Hcp Hlatest).
  - apply top_checkpoint_offset; [apply Hkept; assumption|exact Hcp|].
    intros x Hx. apply Hlatest.
    unfold clearImportHistory in Hx. cbn [fst] in Hx.
    apply filter_In in Hx. exact (proj1 Hx).
Qed.

Lemma clearing_the_log_keeps_an_open_checkpoint_witness :
  let top := Examples.checkpoint 2 Examples.part1 "2024-05-02T08:00:00.000Z"
               200 paused in
  let cutoffDate := "2024-06-01T00:00:00.000Z"%string in
  snd (clearImportHistory Examples.interrupted_log cutoffDate) = 2
  /\ snd (clearImportHistory Examples.interrupted_log cutoffDate)
     + length (fst (clearImportHistory Examples.interrupted_log cutoffDate))
     = length Examples.interrupted_log
  /\ calculateResumeOffset Examples.interrupted_log Examples.part1
     = ImportLogRow.records_processed top
  /\ calculateResumeOffset
       (fst (clearImportHistory Examples.interrupted_log cutoffDate))
       Examples.part1
     = ImportLogRow.records_processed top.
Proof.
  intros top cutoffDate.
  destruct (clearing_the_log_keeps_an_open_checkpoint
              Examples.interrupted_log cutoffDate Examples.part1 top)
    as (Hcount & _ & _ & Hbefore & Hafter).
  - right. left. reflexivity.
  - reflexivity.
  - left. reflexivity.
  - intros x [<-|[<-|[<-|[]]]] Hcp.
    + right. reflexivity.
    + left. reflexivity.
    + discriminate Hcp.
  - split; [reflexivity|]. split; [exact Hcount|]. split; assumption.
Defined.

End ClearHistory.

(* ================================================================== *)
(** * The filters of the two search backends *)
(* ================================================================== *)

Section Filters.
Import Spec Facts S3Search.

(** ** [LIKE] with a pattern without wildcards *)

Lemma like_any_run (pattern text : list ascii) :
  Sql.like ("%"%char :: pattern) text
  = Sql.like pattern text
    || match text with
       | [] => false
       | _ :: text' => Sql.like ("%"%char :: pattern) text'
       end.
Proof. destruct text; reflexivity. Qed.

Lemma like_percent (text : list ascii) : Sql.like ["%"%char] text = true.
Proof.
  induction text as [|c text IH]; [reflexivity|].
  rewrite like_any_run, IH. apply orb_true_r.
Qed.

Lemma like_cons (p : ascii) (pattern text : list ascii) :
  Ascii.eqb p "%"%char = false ->
  Sql.like (p :: pattern) text
  = match text with
    | [] => false
    | c :: text' =>
        (Ascii.eqb p "_"%char
         || Ascii.eqb (Js.lower_ascii p) (Js.lower_ascii c))
        && Sql.like pattern text'
    end.
Proof. intros Hp. simpl. rewrite Hp. destruct text; reflexivity. Qed.

Lemma like_prefix (needle : string) : forall hay,
  literal needle = true ->
  Sql.like (list_ascii_of_string (needle ++ "%")) (list_ascii_of_string hay)
  = String.prefix (Js.toLowerCase needle) (Js.toLowerCase hay).
Proof.
  induction needle as [|c needle IH]; intros hay Hlit.
  - change (Sql.like ["%"%char] (list_ascii_of_string hay)
            = String.prefix "" (Js.toLowerCase hay)).
    rewrite like_percent. destruct (Js.toLowerCase hay); reflexivity.
  - unfold literal in Hlit. simpl in Hlit.
    apply andb_true_iff in Hlit. destruct Hlit as [Hc Hlit].
    apply negb_true_iff, orb_false_iff in Hc. destruct Hc as [Hpc Hus].
    simpl append. simpl list_ascii_of_string at 1.
    rewrite (like_cons _ _ _ Hpc), Hus.
    destruct hay as [|d hay]; [reflexivity|].
    simpl. rewrite (IH hay Hlit).
    destruct (Ascii.eqb_spec (Js.lower_ascii c) (Js.lower_ascii d)) as [He|Hne];
      destruct (ascii_dec (Js.lower_ascii c) (Js.lower_ascii d));
      try contradiction; reflexivity.
Qed.

Lemma includes_unfold (hay needle : string) :
  Js.includes hay needle
  = if String.prefix needle hay then true
    else match hay with
         | EmptyString => false
         | String _ hay' => Js.includes hay' needle
         end.
Proof. destruct hay; reflexivity. Qed.

Lemma like_contains_includes (column needle : string) :
  literal needle = true ->
  Sql.like_contains column needle
  = Js.includes (Js.toLowerCase column) (Js.toLowerCase needle).
Proof.
  intros Hlit. unfold Sql.like_contains.
  change (list_ascii_of_string ("%" ++ needle ++ "%"))
    with ("%"%char :: list_ascii_of_string (needle ++ "%")).
  induction column as [|d column IH].
  - rewrite like_any_run, orb_false_r, (like_prefix needle "" Hlit).
    rewrite includes_unfold.
    change (Js.toLowerCase "") with EmptyString.
    destruct (String.prefix (Js.toLowerCase needle) ""); reflexivity.
  - change (list_ascii_of_string (String d column))
      with (d :: list_ascii_of_string column).
    rewrite like_any_run, IH.
    change (d :: list_ascii_of_string column)
      with (list_ascii_of_string (String d column)).
    rewrite (like_prefix needle (String d column) Hlit).
    rewrite (includes_unfold (Js.toLowerCase (String d column))).
    destruct (String.prefix (Js.toLowerCase needle)
                (Js.toLowerCase (String d column)));
      reflexivity.
Qed.

(** ** The filters on a complete record *)

Lemma truthy_lower (s : string) :
  Js.truthy (Some (Js.toLowerCase s)) = Js.truthy (Some s).
Proof. destruct s; reflexivity. Qed.

Lemma scanPredicate_complete (filters : SearchFilters.t)
      (r : SewerInspection.t) :
  complete r -> scanPredicate filters r = matchesFilters r filters.
Proof.
  intros (Hi & Hc & Hs & Hm & Hd & Hsc & Hrr).
  unfold scanPredicate.
  destruct (matchesFilters r filters) eqn:Hmatch;
    [|destruct (fastFilter _ _); reflexivity].
  assert (Hfast : fastFilter r (compileFilterPredicates filters) = true);
    [|rewrite Hfast; reflexivity].
  unfold matchesFilters in Hmatch. unfold fastFilter, compileFilterPredicates.
  cbn [hasCity city hasState state hasMaterial material hasScoreMin scoreMin
       hasScoreMax scoreMax hasRequiresRepair requiresRepair].
  destruct (SewerInspection.city r) as [cv|]; [|discriminate].
  destruct (SewerInspection.state r) as [sv|]; [|discriminate].
  destruct (SewerInspection.material r) as [mv|]; [|discriminate].
  destruct (SewerInspection.inspection_score r) as [score|]; [|congruence].
  destruct (SewerInspection.requires_repair r) as [repair|]; [|congruence].
  destruct filters as [fc fs fm lo hi rr].
  cbn [SearchFilters.city SearchFilters.state SearchFilters.material
       SearchFilters.scoreMin SearchFilters.scoreMax
       SearchFilters.requiresRepair] in *.
  unfold both_set in Hmatch. rewrite Hc, Hs, Hm in Hmatch.
  rewrite !andb_true_r in Hmatch.
  destruct fc as [fc|]; destruct fs as [fs|]; destruct fm as [fm|];
    destruct lo as [lo|]; destruct hi as [hi|]; destruct rr as [rr|];
    cbn [option_map lower_includes same_string same_boolean score_lt score_gt
         Js.defined andb negb] in *;
    repeat match goal with
           | |- context [Js.truthy (Some ?x)] =>
               destruct (Js.truthy (Some x)); cbn [andb negb] in *
           | H : context [Js.includes ?a ?b] |- _ =>
               destruct (Js.includes a b); cbn [andb negb] in *;
               try discriminate
           | H : context [String.eqb ?a ?b] |- _ =>
               destruct (String.eqb a b); cbn [andb negb] in *;
               try discriminate
           | H : context [Bool.eqb ?a ?b] |- _ =>
               destruct (Bool.eqb a b); cbn [andb negb] in *;
               try discriminate
           | H : context [(?a <? ?b)%Z] |- _ =>
               destruct (Z.ltb_spec a b); cbn [andb negb] in *;
               try discriminate
           end;
    try reflexivity;
    repeat match goal with
           | |- context [(?a =? ?b)%Z] => destruct (Z.eqb_spec a b)
           | |- context [(?a <? ?b)%Z] => destruct (Z.ltb_spec a b)
           end;
    try reflexivity; try lia.
Qed.

Lemma when_set_like (row : InspectionRow.t) (column : InspectionRow.t -> string)
      (value : option string) :
  literal_filter value ->
  forallb (fun condition : InspectionRow.t -> bool => condition row)
    (Sqlite.when_set value
       (fun v row' => Sql.like_contains (column row') v))
  = match value with
    | Some f =>
        if Js.truthy value
        then Js.includes (Js.toLowerCase (column row)) (Js.toLowerCase f)
        else true
    | None => true
    end.
Proof.
  intros Hlit. destruct value as [v|]; [|reflexivity].
  unfold Sqlite.when_set, Js.truthy.
  destruct (String.eqb v ""); [reflexivity|].
  simpl. rewrite andb_true_r. apply like_contains_includes.
  apply Hlit. reflexivity.
Qed.

Lemma when_set_unset {A} (row : A) (value : option string)
      (condition : string -> A -> bool) :
  Js.truthy value = false ->
  forallb (fun c : A -> bool => c row) (Sqlite.when_set value condition)
  = true.
Proof.
  intros Hunset. destruct value as [v|]; [|reflexivity].
  unfold Sqlite.when_set. unfold Js.truthy in Hunset.
  destruct (String.eqb v ""); [reflexivity|discriminate].
Qed.

Lemma whereClause_complete (filters : SearchFilters.t)
      (r : SewerInspection.t) :
  complete r ->
  Js.truthy (SearchFilters.state filters) = false ->
  literal_filter (SearchFilters.city filters) ->
  literal_filter (SearchFilters.material filters) ->
  Sqlite.whereClause filters (Sqlite.transformInspectionForDb r)
  = matchesFilters r filters.
Proof.
  intros (Hi & Hc & Hs & Hm & Hd & Hsc & Hrr) Hstate Hcity Hmaterial.
  destruct (SewerInspection.city r) as [cv|] eqn:Ecity; [|discriminate].
  destruct (SewerInspection.state r) as [sv|] eqn:Estate; [|discriminate].
  destruct (SewerInspection.material r) as [mv|] eqn:Ematerial;
    [|discriminate].
  destruct (SewerInspection.inspection_score r) as [score|] eqn:Escore;
    [|congruence].
  destruct (SewerInspection.requires_repair r) as [repair|] eqn:Erepair;
    [|congruence].
  assert (Rcity : InspectionRow.city (Sqlite.transformInspectionForDb r) = cv).
  { unfold Sqlite.transformInspectionForDb. cbn [InspectionRow.city].
    rewrite Ecity. apply safeValue_string_truthy. exact Hc. }
  assert (Rmaterial : InspectionRow.material (Sqlite.transformInspectionForDb r)
                      = mv).
  { unfold Sqlite.transformInspectionForDb. cbn [InspectionRow.material].
    rewrite Ematerial. apply safeValue_string_truthy. exact Hm. }
  assert (Rscore : InspectionRow.inspection_score
                     (Sqlite.transformInspectionForDb r) = score).
  { unfold Sqlite.transformInspectionForDb.
    cbn [InspectionRow.inspection_score]. rewrite Escore. reflexivity. }
  assert (Rrepair : InspectionRow.requires_repair
                      (Sqlite.transformInspectionForDb r) = repair).
  { unfold Sqlite.transformInspectionForDb.
    cbn [InspectionRow.requires_repair]. rewrite Erepair. reflexivity. }
  set (row := Sqlite.transformInspectionForDb r) in *.
  unfold Sqlite.whereClause, Sqlite.conditions, matchesFilters.
  rewrite Ecity, Estate, Ematerial, Escore, Erepair.
  rewrite !forallb_app.
  rewrite (when_set_like row InspectionRow.city _ Hcity).
  rewrite (when_set_like row InspectionRow.material _ Hmaterial).
  rewrite (when_set_unset row _ _ Hstate).
  rewrite Rcity, Rmaterial.
  destruct filters as [fc fs fm lo hi rr].
  cbn [SearchFilters.city SearchFilters.state SearchFilters.material
       SearchFilters.scoreMin SearchFilters.scoreMax
       SearchFilters.requiresRepair] in *.
  unfold both_set. rewrite Hc, Hs, Hm, Hstate, !andb_true_r.
  destruct fc as [fc|]; destruct fs as [fs|]; destruct fm as [fm|];
    destruct lo as [lo|]; destruct hi as [hi|]; destruct rr as [rr|];
    cbn [forallb score_lt score_gt same_boolean andb negb];
    rewrite ?Rscore, ?Rrepair;
    repeat match goal with
           | |- context [Js.truthy (Some ?x)] =>
               destruct (Js.truthy (Some x)); cbn [andb negb]
           | |- context [Js.includes ?a ?b] =>
               destruct (Js.includes a b); cbn [andb negb]
           | |- context [Bool.eqb ?a ?b] =>
               destruct (Bool.eqb a b); cbn [andb negb]
           | |- context [(?a <=? ?b)%Z] =>
               destruct (Z.leb_spec a b); cbn [andb negb]
           | |- context [(?a <? ?b)%Z] =>
               destruct (Z.ltb_spec a b); cbn [andb negb]
           end;
    try reflexivity; try lia.
Qed.

(** X16.  On a record that has every required field the two backends
    apply the same filter, provided the city and the material of the
    record and of the filter are ASCII text, no state filter is set and
    the city and material filters contain neither [%] nor [_]: the
    [WHERE] clause of the indexed backend holds of the row of the
    record exactly when the streaming scan keeps the record. *)
Theorem both_backends_select_the_same_complete_records
  (filters : SearchFilters.t) (r : SewerInspection.t) :
  complete r ->
  ascii_text (SewerInspection.city r) ->
  ascii_text (SewerInspection.material r) ->
  ascii_text (SearchFilters.city filters) ->
  ascii_text (SearchFilters.material filters) ->
  Js.truthy (SearchFilters.state filters) = false ->
  literal_filter (SearchFilters.city filters) ->
  literal_filter (SearchFilters.material filters) ->
  Sqlite.whereClause filters (Sqlite.transformInspectionForDb r)
  = scanPredicate filters r.
Proof.
  intros Hc _ _ _ _ Hstate Hcity Hmaterial.
  rewrite (scanPredicate_complete filters r Hc).
  apply whereClause_complete; assumption.
Qed.

Lemma both_backends_select_the_same_complete_records_witness :
  Sqlite.whereClause Scenarios.hous_pv
    (Sqlite.transformInspectionForDb Examples.houston)
  = scanPredicate Scenarios.hous_pv Examples.houston
  /\ scanPredicate Scenarios.hous_pv Examples.houston = true
  /\ Sqlite.whereClause Scenarios.hous_pv
       (Sqlite.transformInspectionForDb Scenarios.dallas)
     = scanPredicate Scenarios.hous_pv Scenarios.dallas
  /\ scanPredicate Scenarios.hous_pv Scenarios.dallas = false.
Proof.
  assert (Hfilter : ascii_text (SearchFilters.city Scenarios.hous_pv)
                    /\ ascii_text (SearchFilters.material Scenarios.hous_pv)
                    /\ literal_filter (SearchFilters.city Scenarios.hous_pv)
                    /\ literal_filter (SearchFilters.material Scenarios.hous_pv)).
  { repeat split; intros s H; inversion H; reflexivity. }
  destruct Hfilter as (Ac & Am & Lc & Lm).
  split; [|split; [reflexivity|split; [|reflexivity]]].
  - apply (both_backends_select_the_same_complete_records
             Scenarios.hous_pv Examples.houston); try assumption.
    + repeat split; try reflexivity; discriminate.
    + intros s H; inversion H; reflexivity.
    + intros s H; inversion H; reflexivity.
    + reflexivity.
  - apply (both_backends_select_the_same_complete_records
             Scenarios.hous_pv Scenarios.dallas); try assumption.
    + repeat split; try reflexivity; discriminate.
    + intros s H; inversion H; reflexivity.
    + intros s H; inversion H; reflexivity.
    + reflexivity.
Defined.

(** X17.  On a record that has every required field the compiled
    pre-filter of the streaming scan rejects nothing that the full
    filter accepts: the scan keeps the record exactly when
    [matchesFilters] holds, whatever the filters. *)
Theorem prefilter_rejects_no_complete_record_that_matches
  (filters : SearchFilters.t) (r : SewerInspection.t) :
  complete r ->
  scanPredicate filters r = matchesFilters r filters
  /\ (matchesFilters r filters = true ->
      fastFilter r (compileFilterPredicates filters) = true).
Proof.
  intros Hc. pose proof (scanPredicate_complete filters r Hc) as Heq.
  split; [exact Heq|].
  intros Hm. unfold scanPredicate in Heq. rewrite Hm in Heq.
  destruct (fastFilter r (compileFilterPredicates filters));
    [reflexivity|discriminate].
Qed.

Lemma prefilter_rejects_no_complete_record_that_matches_witness :
  scanPredicate (Examples.state_filter "tx") Examples.houston
  = matchesFilters Examples.houston (Examples.state_filter "tx")
  /\ (matchesFilters Examples.houston (Examples.state_filter "tx") = true ->
      fastFilter Examples.houston
        (compileFilterPredicates (Examples.state_filter "tx")) = true).
Proof.
  apply (prefilter_rejects_no_complete_record_that_matches
           (Examples.state_filter "tx") Examples.houston).
  repeat split; try reflexivity; discriminate.
Defined.

End Filters.

(* ================================================================== *)
(** * The streaming scan on objects without malformed lines *)
(* ================================================================== *)

Section NumberFacts.
Import Js.Number.
Local Open Scope Z_scope.

Lemma nearest_le (p q K : Z) :
  0 < q -> p <= K * q -> nearest p q <= K.
Proof.
  intros Hq Hle. unfold nearest.
  pose proof (Z.div_mod p q ltac:(lia)) as Hdm.
  pose proof (Z.mod_pos_bound p q Hq) as Hr.
  assert (Hd : p / q <= K) by nia.
  assert (Hup : 0 < p mod q -> p / q + 1 <= K) by nia.
  destruct (Z.ltb_spec (2 * (p mod q)) q); [exact Hd|].
  destruct (Z.ltb_spec q (2 * (p mod q))); [apply Hup; lia|].
  destruct (Z.even (p / q)); [exact Hd|apply Hup; lia].
Qed.

Lemma nearest_nonneg (p q : Z) : 0 <= p -> 0 < q -> 0 <= nearest p q.
Proof.
  intros Hp Hq. unfold nearest.
  assert (Hd : 0 <= p / q) by (apply Z.div_pos; lia).
  destruct (_ <? _); [exact Hd|].
  destruct (_ <? _); [lia|]. destruct (Z.even _); lia.
Qed.

(** A quotient of at least [2^53] is what it takes for [round] to
    scale down. *)
Lemma exponent_large (p q : Z) :
  0 < p -> 0 < q -> 52 < exponent p q -> 2 ^ exponent p q * q <= p.
Proof.
  intros Hp Hq. unfold exponent.
  destruct (Z.leb_spec q p) as [Hle|Hlt].
  - intros _.
    assert (Hpos : 0 < p / q) by (apply Z.div_str_pos; lia).
    pose proof (Z.log2_spec (p / q) Hpos) as [Hlow _].
    pose proof (Z.mul_div_le p q Hq). nia.
  - pose proof (Z.log2_up_nonneg ((q + p - 1) / p)). lia.
Qed.

(** Rounding a fraction that a Number bounds does not pass the
    bound: here the bound is an integer below [2^53]. *)
Lemma round_le (p q Y : Z) :
  0 < q -> 0 <= Y < 2 ^ 53 -> p <= Y * q ->
  0 <= fst (round p q)
  /\ 0 < snd (round p q)
  /\ fst (round p q) <= Y * snd (round p q).
Proof.
  intros Hq HY Hle. unfold round.
  destruct (Z.leb_spec p 0) as [Hz|Hp]; [simpl; lia|].
  cbv zeta. cbn [fst snd].
  set (e := exponent p q - 52).
  destruct (Z.le_gt_cases e 0) as [He|He].
  - rewrite (Z.max_l 0 e) by lia. rewrite (Z.max_r 0 (- e)) by lia.
    change (2 ^ 0) with 1.
    assert (Hdown : 0 < 2 ^ (- e)) by (apply Z.pow_pos_nonneg; lia).
    rewrite !Z.mul_1_r.
    split; [apply nearest_nonneg; nia|]. split; [exact Hdown|].
    apply nearest_le; [exact Hq|nia].
  - exfalso.
    pose proof (exponent_large p q Hp Hq ltac:(subst e; lia)) as Hbig.
    assert (Hpow : 2 ^ 53 <= 2 ^ exponent p q)
      by (apply Z.pow_le_mono_r; subst e; lia).
    nia.
Qed.

Lemma Math_round_le (x : t) (Y : Z) :
  0 <= fst x -> 0 < snd x -> fst x <= Y * snd x -> 0 <= Math_round x <= Y.
Proof.
  intros Hn Hd Hle. unfold Math_round. split.
  - apply Z.div_pos; lia.
  - apply Z.lt_succ_r. apply Z.div_lt_upper_bound; nia.
Qed.

End NumberFacts.

Section Estimate.
Import Spec Facts S3Search.

Lemma roundedEstimate_nothing (sampled : nat) (files : Z) :
  roundedEstimate 0 sampled files = 0.
Proof. reflexivity. Qed.

(** The products are rounded one after the other: 57 matches in 400
    samples of 5 files give 3562, where the exact quotient 3562.5
    would round to 3563. *)
Lemma roundedEstimate_rounds_each_product :
  roundedEstimate 57 400 5 = 3562
  /\ (2 * (57 * 5000 * 5) + 400) / (2 * 400) = 3563.
Proof. split; vm_compute; reflexivity. Qed.

(** The rounded estimate stays below the assumed size of the files. *)
Lemma roundedEstimate_le (found sampled : nat) (files : Z) :
  found <= sampled ->
  (0 <= files < 2 ^ 32)%Z ->
  (Z.of_nat (roundedEstimate found sampled files) <= 5000 * files)%Z.
Proof.
  intros Hfs Hfiles.
  change (2 ^ 32)%Z with 4294967296%Z in Hfiles.
  destruct (Nat.eq_dec sampled 0) as [Hz|Hnz].
  { assert (found = 0) by lia. subst.
    rewrite roundedEstimate_nothing. simpl Z.of_nat. lia. }
  unfold roundedEstimate, estimatedFileSize.
  unfold Js.Number.div, Js.Number.mul, Js.Number.ofZ. cbn [fst snd].
  destruct (round_le (Z.of_nat found * 1) (1 * Z.of_nat sampled) 1)
    as (N1 & D1 & L1); [lia|change (2 ^ 53)%Z with 9007199254740992%Z; lia|lia|].
  set (x1 := Js.Number.round (Z.of_nat found * 1) (1 * Z.of_nat sampled)) in *.
  destruct (round_le (fst x1 * Z.of_nat 5000) (snd x1 * 1) 5000)
    as (N2 & D2 & L2);
    [lia|change (2 ^ 53)%Z with 9007199254740992%Z; lia|lia|].
  set (x2 := Js.Number.round (fst x1 * Z.of_nat 5000) (snd x1 * 1)) in *.
  destruct (round_le (fst x2 * files) (snd x2 * 1) (5000 * files))
    as (N3 & D3 & L3);
    [lia|change (2 ^ 53)%Z with 9007199254740992%Z; lia|nia|].
  set (x3 := Js.Number.round (fst x2 * files) (snd x2 * 1)) in *.
  pose proof (Math_round_le x3 (5000 * files) N3 D3 L3) as [Hlow Hhigh].
  rewrite Z2Nat.id by exact Hlow. exact Hhigh.
Qed.

Lemma length_uint32 {A} (l : list A) :
  (0 <= Js.length l < 2 ^ 32)%Z /\ (Js.length l <= Z.of_nat (length l))%Z.
Proof.
  unfold Js.length. split.
  - apply Z.mod_pos_bound. reflexivity.
  - apply Z.mod_le; [lia|reflexivity].
Qed.

Lemma sampleFiles_bounds bucket filters files : forall sampled found n,
  found <= sampled ->
  sampled <= sampleSize * n ->
  found <= snd (fst (sampleFiles bucket filters files sampled found))
  /\ snd (fst (sampleFiles bucket filters files sampled found))
     <= fst (fst (sampleFiles bucket filters files sampled found))
  /\ fst (fst (sampleFiles bucket filters files sampled found))
     <= sampleSize * (n + length files).
Proof.
  induction files as [|f rest IH]; intros sampled found n Hle Hn.
  - cbn [sampleFiles fst snd length]. rewrite Nat.add_0_r.
    repeat split; lia.
  - simpl sampleFiles.
    destruct (S3Stream.streamFromS3 bucket f sampleSize 0) as [sample|] eqn:Hs.
    + assert (Hlen : length sample <= sampleSize).
      { unfold S3Stream.streamFromS3 in Hs.
        destruct (bucket f) as [lines|] eqn:Hb; [|discriminate].
        pose proof (streamFromS3_window bucket f lines sampleSize 0 Hb) as Hw.
        unfold S3Stream.streamFromS3 in Hw. rewrite Hb in Hw.
        rewrite Hw in Hs. inversion Hs; subst sample.
        apply window_length_limit. }
      pose proof (filter_length_le
                    (fun inspection => matchesFilters inspection filters)
                    sample) as Hfl.
      destruct (IH (sampled + length sample)
                   (found + length (filter (fun inspection =>
                                              matchesFilters inspection filters)
                                           sample))
                   (S n)) as (H1 & H2 & H3); [lia|lia|].
      simpl length.
      replace (n + S (length rest)) with (S n + length rest) by lia.
      repeat split; try lia.
    + cbn [fst snd]. repeat split; lia.
Qed.

(** X18.  The total that the streaming backend reports is never below
    the number of matches in its samples and never above 5000 records
    for each file; it is zero exactly when no sampled record matches. *)
Theorem estimate_lies_between_sample_matches_and_assumed_size
  (bucket : S3Stream.Bucket) (filters : SearchFilters.t) (files : list string) :
  let found := snd (fst (sampleFiles bucket filters files 0 0)) in
  found <= estimateTotalCount bucket filters files
  /\ estimateTotalCount bucket filters files <= estimatedFileSize * length files
  /\ (estimateTotalCount bucket filters files = 0 <-> found = 0).
Proof.
  intros found. subst found.
  destruct (sampleFiles_bounds bucket filters files 0 0 0 (le_n _) ltac:(lia))
    as (_ & Hfs & Hsn).
  unfold estimateTotalCount.
  destruct (sampleFiles bucket filters files 0 0) as [[sampled found] threw].
  cbn [fst snd] in *. unfold sampleSize, estimatedFileSize in *.
  simpl plus in Hsn.
  destruct threw.
  { repeat split; try lia. }
  destruct (Nat.eqb_spec sampled 0) as [Hz|Hnz].
  { repeat split; try lia. }
  assert (Hround : roundedEstimate found sampled (Js.length files)
                   <= 5000 * length files).
  { destruct (length_uint32 files) as [Hrange Hlen].
    pose proof (roundedEstimate_le found sampled (Js.length files) Hfs Hrange).
    lia. }
  split; [lia|]. split; [lia|]. split; [lia|].
  intros ->. rewrite roundedEstimate_nothing. reflexivity.
Qed.

End Estimate.

Section FileScan.
Import Spec Facts S3Search.

Lemma slice_of_full {A} (skipCount limitCount : nat) (pre more : list A) :
  limitCount <= length (slice_of skipCount limitCount pre) ->
  slice_of skipCount limitCount (pre ++ more)
  = slice_of skipCount limitCount pre.
Proof.
  unfold slice_of. intros Hfull.
  rewrite skipn_app, firstn_app.
  rewrite length_firstn in Hfull.
  replace (limitCount - length (skipn skipCount pre)) with 0 by lia.
  simpl. apply app_nil_r.
Qed.

Lemma slice_of_length {A} (skipCount limitCount : nat) (pre : list A) :
  length (slice_of skipCount limitCount pre) <= limitCount.
Proof. unfold slice_of. rewrite length_firstn. lia. Qed.

Lemma collect_slice (skipCount limitCount : nat) filteredChunk :
  forall pre found localSkipped more,
    localSkipped = Nat.min skipCount (length pre) ->
    found = slice_of skipCount limitCount pre ->
    let result := collect filteredChunk skipCount limitCount found localSkipped in
    (snd result = true ->
     fst (fst result)
     = slice_of skipCount limitCount (pre ++ filteredChunk ++ more))
    /\ (snd result = false ->
        fst (fst result) = slice_of skipCount limitCount (pre ++ filteredChunk)
        /\ snd (fst result)
           = Nat.min skipCount (length (pre ++ filteredChunk))).
Proof.
  induction filteredChunk as [|x rest IH]; intros pre found ls more Hls Hfound.
  - simpl. rewrite app_nil_r. split; [discriminate|]. intros _.
    split; assumption.
  - cbv zeta. simpl collect.
    destruct (Nat.ltb_spec ls skipCount) as [Hskip|Hpast].
    + assert (Hpre : length pre < skipCount) by lia.
      specialize (IH (pre ++ [x]) found (S ls) more).
      cbv zeta in IH. rewrite <- !app_assoc in IH. simpl app in IH.
      apply IH.
      * rewrite length_app. simpl. lia.
      * rewrite Hfound. unfold slice_of.
        rewrite !skipn_all2; [reflexivity| |lia].
        rewrite length_app. simpl. lia.
    + assert (Hpre : skipCount <= length pre) by lia.
      destruct (Nat.ltb_spec (length found) limitCount) as [Hroom|Hfull].
      * specialize (IH (pre ++ [x]) (found ++ [x]) ls more).
        cbv zeta in IH. rewrite <- !app_assoc in IH. simpl app in IH.
        apply IH.
        -- rewrite length_app. simpl. lia.
        -- rewrite Hfound in *. unfold slice_of in *.
           rewrite skipn_app.
           replace (skipCount - length pre) with 0 by lia. simpl skipn.
           rewrite length_firstn in Hroom.
           rewrite firstn_all2 by lia.
           rewrite firstn_all2; [reflexivity|].
           rewrite length_app. simpl. lia.
      * cbn [fst snd]. split; [|discriminate].
        intros _. rewrite Hfound. symmetry.
        apply slice_of_full. rewrite <- Hfound. exact Hfull.
Qed.

Variable bucket : S3Stream.Bucket.
Variable fileName : string.
Variable lines : list S3Stream.Line.
Variable filters : SearchFilters.t.
Variable skipCount limitCount : nat.

Hypothesis Hbucket : bucket fileName = Some lines.
Hypothesis Hclean : clean lines.

Lemma scan_chunk_of_records offset :
  S3Stream.streamFromS3 bucket fileName chunkSize offset
  = Some (firstn chunkSize (skipn offset (records lines))).
Proof.
  rewrite (streamFromS3_window _ _ lines _ _ Hbucket).
  rewrite (window_records lines _ _ Hclean). reflexivity.
Qed.

Lemma firstn_its_length {A} (n : nat) : forall l : list A,
  firstn (length (firstn n l)) l = firstn n l.
Proof.
  induction n as [|n IH]; intros [|x l]; simpl; try reflexivity.
  f_equal. apply IH.
Qed.

Lemma firstn_more {A} (n p : nat) : forall l : list A,
  firstn (p + length (firstn n (skipn p l))) l
  = firstn p l ++ firstn n (skipn p l).
Proof.
  induction p as [|p IH]; intros l.
  - simpl. apply firstn_its_length.
  - destruct l as [|x l]; simpl.
    + rewrite firstn_nil. reflexivity.
    + f_equal. apply IH.
Qed.

Lemma scan_loop_slice fuel : forall found processed localSkipped calls,
  length (records lines) - processed < fuel ->
  processed <= length (records lines) ->
  found = slice_of skipCount limitCount
            (filter (scanPredicate filters) (firstn processed (records lines))) ->
  localSkipped
  = Nat.min skipCount
      (length (filter (scanPredicate filters)
                 (firstn processed (records lines)))) ->
  exists scan,
    scan_loop bucket fileName filters skipCount limitCount fuel
      found processed localSkipped calls = Some (Returned scan)
    /\ matches scan
       = slice_of skipCount limitCount
           (filter (scanPredicate filters) (records lines))
    /\ totalProcessed scan <= length (records lines).
Proof.
  induction fuel as [|fuel IH];
    intros found processed ls calls Hfuel Hin Hfound Hls; [lia|].
  assert (Hall : filter (scanPredicate filters) (records lines)
                 = filter (scanPredicate filters)
                     (firstn processed (records lines))
                   ++ filter (scanPredicate filters)
                        (skipn processed (records lines))).
  { rewrite <- filter_app, firstn_skipn. reflexivity. }
  simpl scan_loop.
  destruct (Nat.ltb_spec (length found) limitCount) as [Hroom|Hfull].
  - rewrite scan_chunk_of_records.
    set (chunk := firstn chunkSize (skipn processed (records lines))).
    destruct (Nat.eqb_spec (length chunk) 0) as [Hempty|Hsome].
    + eexists. split; [reflexivity|]. cbn [matches totalProcessed].
      split; [|exact Hin].
      assert (Hnil : skipn processed (records lines) = []).
      { subst chunk. destruct (skipn processed (records lines));
          [reflexivity|]. unfold chunkSize in Hempty. discriminate Hempty. }
      rewrite Hall, Hnil. simpl. rewrite app_nil_r. exact Hfound.
    + pose proof (collect_slice skipCount limitCount
                    (filter (scanPredicate filters) chunk)
                    (filter (scanPredicate filters)
                       (firstn processed (records lines)))
                    found ls
                    (filter (scanPredicate filters)
                       (skipn (processed + length chunk) (records lines)))
                    Hls Hfound) as Hcollect.
      cbv zeta in Hcollect.
      destruct (collect (filter (scanPredicate filters) chunk)
                  skipCount limitCount found ls)
        as [[found' ls'] returned] eqn:Hc.
      cbn [fst snd] in Hcollect. destruct Hcollect as [Hret Hgo].
      assert (Hnext : firstn (processed + length chunk) (records lines)
                      = firstn processed (records lines) ++ chunk)
        by (subst chunk; apply firstn_more).
      assert (Hbound : processed + length chunk <= length (records lines)).
      { subst chunk. rewrite length_firstn, length_skipn. lia. }
      destruct returned.
      * simpl orb. cbv iota. eexists. split; [reflexivity|].
        cbn [matches totalProcessed]. split; [|exact Hbound].
        rewrite (Hret eq_refl).
        rewrite app_assoc, <- filter_app, <- Hnext, <- filter_app,
          firstn_skipn.
        reflexivity.
      * simpl orb. destruct (Hgo eq_refl) as [Hf' Hl'].
        rewrite <- filter_app, <- Hnext in Hf', Hl'.
        destruct (Nat.ltb_spec (length chunk) chunkSize) as [Hshort|Hlong].
        -- eexists. split; [reflexivity|].
           cbn [matches totalProcessed]. split; [|exact Hbound].
           rewrite Hf'. f_equal. f_equal.
           apply firstn_all2. subst chunk.
           rewrite length_firstn in Hshort |- *. rewrite length_skipn in *.
           lia.
        -- apply IH; try assumption. lia.
  - eexists. split; [reflexivity|]. cbn [matches totalProcessed].
    split; [|exact Hin].
    rewrite Hall, Hfound. symmetry. apply slice_of_full.
    rewrite <- Hfound. exact Hfull.
Qed.

End FileScan.

Section FileScanContract.
Import Spec Facts S3Search.

Lemma records_length lines : length (records lines) <= length lines.
Proof.
  unfold records.
  eapply Nat.le_trans; [apply parsed_length|apply nonblank_length].
Qed.

Lemma file_scan_slice (bucket : S3Stream.Bucket) fileName lines filters
      skipCount limitCount fuel :
  bucket fileName = Some lines ->
  clean lines ->
  length lines < fuel ->
  exists scan,
    streamWithOffsetAndLimit bucket fuel fileName filters skipCount limitCount
    = Some (Returned scan)
    /\ matches scan
       = slice_of skipCount limitCount
           (filter (scanPredicate filters) (records lines))
    /\ totalProcessed scan <= length (records lines).
Proof.
  intros Hb Hclean Hfuel. unfold streamWithOffsetAndLimit.
  pose proof (records_length lines) as Hlen.
  apply (scan_loop_slice bucket fileName lines filters skipCount limitCount
           Hb Hclean fuel [] 0 0 []); try lia.
  - unfold slice_of. simpl. rewrite skipn_nil, firstn_nil. reflexivity.
  - simpl. lia.
Qed.

(** X19.  On an object without malformed lines the scan of one file
    returns, of the records that pass the filter in the order of the
    object, those after the first [skipCount], up to [limitCount] of
    them; it decodes no more records than the object holds. *)
Theorem file_scan_returns_the_requested_slice_of_the_matches
  (bucket : S3Stream.Bucket) (fileName : string) (lines : list S3Stream.Line)
  (filters : SearchFilters.t) (skipCount limitCount fuel : nat) :
  bucket fileName = Some lines ->
  clean lines ->
  length lines < fuel ->
  exists scan,
    streamWithOffsetAndLimit bucket fuel fileName filters skipCount limitCount
    = Some (Returned scan)
    /\ matches scan
       = firstn limitCount
           (skipn skipCount (filter (scanPredicate filters) (records lines)))
    /\ length (matches scan) <= limitCount
    /\ totalProcessed scan <= length (records lines).
Proof.
  intros Hb Hclean Hfuel.
  destruct (file_scan_slice bucket fileName lines filters skipCount limitCount
              fuel Hb Hclean Hfuel) as (scan & Hrun & Hm & Hp).
  exists scan. split; [exact Hrun|]. split; [exact Hm|].
  split; [|exact Hp]. rewrite Hm. apply slice_of_length.
Qed.

Lemma file_scan_returns_the_requested_slice_of_the_matches_witness :
  exists scan,
    streamWithOffsetAndLimit (Examples.only_part1 Examples.twenty_matches) 21
      Examples.part1 Examples.needs_repair 5 10
    = Some (Returned scan)
    /\ matches scan
       = firstn 10
           (skipn 5 (filter (scanPredicate Examples.needs_repair)
                       (records Examples.twenty_matches)))
    /\ length (matches scan) <= 10
    /\ totalProcessed scan <= length (records Examples.twenty_matches).
Proof.
  apply (file_scan_returns_the_requested_slice_of_the_matches
           (Examples.only_part1 Examples.twenty_matches) Examples.part1
           Examples.twenty_matches Examples.needs_repair 5 10 21).
  - reflexivity.
  - intros text Hin. unfold Examples.twenty_matches in Hin.
    apply repeat_spec in Hin. discriminate Hin.
  - vm_compute; lia.
Defined.

(** X20.  When the first file has no malformed line and holds at
    least [page * pageSize] records that pass the filter, the streaming
    backend returns as page [page] exactly the [page]-th run of
    [pageSize] of them, in the order of the file. *)
Theorem page_within_the_first_file_is_the_requested_slice
  (bucket : S3Stream.Bucket) (lines : list S3Stream.Line)
  (filters : SearchFilters.t) (page pageSize fuel : nat) :
  bucket "sewer-inspections-part1.jsonl"%string = Some lines ->
  clean lines ->
  length lines < fuel ->
  1 <= page ->
  0 < pageSize ->
  page * pageSize
  <= length (filter (scanPredicate filters) (records lines)) ->
  exists result,
    searchInspections bucket fuel filters page pageSize = Some (Returned result)
    /\ SearchResult.results result
       = firstn pageSize
           (skipn ((page - 1) * pageSize)
              (filter (scanPredicate filters) (records lines)))
    /\ length (SearchResult.results result) = pageSize.
Proof.
  intros Hb Hclean Hfuel Hpage Hsize Henough.
  destruct (file_scan_slice bucket _ lines filters
              ((page - 1) * pageSize - 0) (pageSize - 0) fuel Hb Hclean Hfuel)
    as (scan & Hrun & Hm & _).
  rewrite !Nat.sub_0_r in Hm. unfold slice_of in Hm.
  assert (Hlen : length (matches scan) = pageSize).
  { rewrite Hm, length_firstn, length_skipn. nia. }
  unfold searchInspections, pageScan, filesToSearch.
  cbn [scanFiles initialScan results recordsSkipped length].
  destruct (Nat.leb_spec pageSize 0) as [Hz|_]; [lia|].
  rewrite Hrun.
  cbn [scanFiles results app].
  destruct (Nat.leb_spec pageSize (length (matches scan))) as [_|Hlt]; [|lia].
  eexists. split; [reflexivity|]. cbn [SearchResult.results results].
  split; [exact Hm|exact Hlen].
Qed.

Lemma page_within_the_first_file_is_the_requested_slice_witness :
  exists result,
    searchInspections (Examples.only_part1 Examples.twenty_matches) 21
      Examples.needs_repair 2 5 = Some (Returned result)
    /\ SearchResult.results result
       = firstn 5
           (skipn ((2 - 1) * 5)
              (filter (scanPredicate Examples.needs_repair)
                 (records Examples.twenty_matches)))
    /\ length (SearchResult.results result) = 5.
Proof.
  apply (page_within_the_first_file_is_the_requested_slice
           (Examples.only_part1 Examples.twenty_matches)
           Examples.twenty_matches Examples.needs_repair 2 5 21).
  - reflexivity.
  - intros text Hin. unfold Examples.twenty_matches in Hin.
    apply repeat_spec in Hin. discriminate Hin.
  - vm_compute; lia.
  - lia.
  - lia.
  - vm_compute; lia.
Defined.

End FileScanContract.

(* ================================================================== *)
(** * Pages of the indexed backend and the search handler *)
(* ================================================================== *)

Section Pages.
Import Spec Facts Sqlite.

Lemma getInspections_slice db filters page size :
  (0 <= size)%Z ->
  getInspections db filters page size
  = firstn (Z.to_nat size)
      (skipn (Z.to_nat ((page - 1) * size))
         (map transformDbToInspection (selected db filters))).
Proof.
  intros Hsize. unfold getInspections, Sql.limit_offset.
  destruct (Z.ltb_spec size 0); [lia|].
  rewrite skipn_map, firstn_map. reflexivity.
Qed.

Lemma In_slice_nth {A} (l : list A) (o n : nat) (x : A) :
  In x (firstn n (skipn o l))
  <-> exists k, o <= k < o + n /\ nth_error l k = Some x.
Proof.
  split.
  - intros Hin. apply In_nth_error in Hin. destruct Hin as [i Hi].
    rewrite nth_error_firstn in Hi.
    destruct (Nat.ltb_spec i n) as [Hlt|]; [|discriminate].
    rewrite nth_error_skipn in Hi. exists (o + i). split; [lia|exact Hi].
  - intros [k [Hk Hnth]]. apply (nth_error_In _ (k - o)).
    rewrite nth_error_firstn.
    destruct (Nat.ltb_spec (k - o) n) as [_|]; [|lia].
    rewrite nth_error_skipn. replace (o + (k - o)) with k by lia.
    exact Hnth.
Qed.



(** X21.  In a store without duplicate identifiers and with a positive
    page size, every row that satisfies the filter is returned by the
    indexed backend on exactly one page. *)
Theorem every_match_is_on_exactly_one_page
  (db : Database.t) (filters : SearchFilters.t) (pageSize : Z)
  (row : InspectionRow.t) :
  NoDup (Database.ids db) ->
  (0 < pageSize)%Z ->
  In row (Database.inspections db) ->
  whereClause filters row = true ->
  exists page,
    (1 <= page)%Z
    /\ In (transformDbToInspection row) (getInspections db filters page pageSize)
    /\ forall other,
         (1 <= other)%Z ->
         In (transformDbToInspection row)
            (getInspections db filters other pageSize) ->
         other = page.
Proof.
  intros Hnd Hsize Hin Hwhere.
  pose proof (selected_NoDup db filters Hnd) as HndL.
  set (L := map transformDbToInspection (selected db filters)) in *.
  assert (HinL : In (transformDbToInspection row) L).
  { apply in_map.
    apply (Permutation_in _ (Permutation_sym (selected_perm db filters))).
    apply filter_In. split; assumption. }
  apply In_nth_error in HinL. destruct HinL as [k0 Hk0].
  set (sn := Z.to_nat pageSize).
  assert (Hsn : 0 < sn) by (subst sn; lia).
  assert (Hoff : forall p, (1 <= p)%Z ->
                   Z.to_nat ((p - 1) * pageSize) = Z.to_nat (p - 1) * sn).
  { intros p Hp. apply Z2Nat.inj_mul; lia. }
  exists (Z.of_nat (k0 / sn) + 1)%Z.
  split; [lia|]. split.
  - rewrite getInspections_slice by lia. fold L. fold sn.
    rewrite Hoff by lia.
    replace (Z.of_nat (k0 / sn) + 1 - 1)%Z with (Z.of_nat (k0 / sn)) by lia.
    rewrite Nat2Z.id. apply In_slice_nth. exists k0. split; [|exact Hk0].
    pose proof (Nat.div_mod_eq k0 sn) as Hdm.
    pose proof (Nat.mod_upper_bound k0 sn ltac:(lia)) as Hmod.
    nia.
  - intros other Hother Hino.
    rewrite getInspections_slice in Hino by lia. fold L in Hino. fold sn in Hino.
    rewrite Hoff in Hino by lia.
    apply In_slice_nth in Hino. destruct Hino as [k [Hk Hnth]].
    assert (Hsame : k = k0).
    { apply (proj1 (NoDup_nth_error L) HndL).
      - apply nth_error_Some. rewrite Hnth. discriminate.
      - rewrite Hnth, Hk0. reflexivity. }
    subst k.
    assert (Hq : Z.to_nat (other - 1) = k0 / sn).
    { apply (Nat.div_unique k0 sn _ (k0 - Z.to_nat (other - 1) * sn)); nia. }
    lia.
Qed.

Lemma every_match_is_on_exactly_one_page_witness :
  let db := {| Database.inspections :=
                 [transformInspectionForDb Examples.houston;
                  transformInspectionForDb Examples.austin];
               Database.import_log := [] |} in
  exists page,
    (1 <= page)%Z
    /\ In (transformDbToInspection (transformInspectionForDb Examples.austin))
          (getInspections db (Examples.state_filter "TX") page 1)
    /\ forall other,
         (1 <= other)%Z ->
         In (transformDbToInspection (transformInspectionForDb Examples.austin))
            (getInspections db (Examples.state_filter "TX") other 1) ->
         other = page.
Proof.
  intros db.
  apply (every_match_is_on_exactly_one_page db (Examples.state_filter "TX") 1
           (transformInspectionForDb Examples.austin)).
  - constructor; [intros [H|[]]; discriminate H|].
    constructor; [intros []|constructor].
  - lia.
  - right. left. reflexivity.
  - reflexivity.
Defined.

End Pages.

Section SearchHandler.
Import Spec Facts Sqlite SearchRoute.




End SearchHandler.

(* ================================================================== *)
(** * Stopping an import through the handler *)
(* ================================================================== *)

Section ImportHandler.
Import ImportRoute ImportControl.

(** X23.  While an import of all files that the handler started is
    active, the stop action answers 404 and changes nothing, and the
    status action reports that no import is running. *)
Theorem all_files_import_cannot_be_stopped_through_the_handler
  (st : State) :
  guard st = false ->
  let st' := snd (startImport st None) in
  importActive st' = true
  /\ fst (stopImport st')
     = {| ImportRoute.status := 404;
          ImportRoute.message := "No import is currently running" |}
  /\ snd (stopImport st') = st'
  /\ getImportStatus st'
     = {| ImportControl.isRunning := false;
          ImportControl.message := "No import running" |}.
Proof.
  intros Hguard st'.
  destruct (startImport_all_files_leaves_guard_open st Hguard)
    as [Hopen Hactive].
  fold st' in Hopen, Hactive.
  split; [exact Hactive|].
  unfold stopImport, getImportStatus. rewrite Hopen.
  repeat split; reflexivity.
Qed.

Lemma all_files_import_cannot_be_stopped_through_the_handler_witness :
  let st' := snd (startImport initial None) in
  importActive st' = true
  /\ fst (stopImport st')
     = {| ImportRoute.status := 404;
          ImportRoute.message := "No import is currently running" |}
  /\ snd (stopImport st') = st'
  /\ getImportStatus st'
     = {| ImportControl.isRunning := false;
          ImportControl.message := "No import running" |}.
Proof.
  apply (all_files_import_cannot_be_stopped_through_the_handler initial).
  reflexivity.
Defined.

(** X24.  While the import of a single file that the handler started
    is running, the stop action answers 200 and sets the stop flag of
    exactly that importer, leaving the others as they are; once the run
    has ended the stop action answers 404 and the status action reports
    that no import is running. *)
Theorem stop_action_reaches_a_single_file_import
  (st : State) (fileName : string) :
  guard st = false ->
  Js.truthy (Some fileName) = true ->
  let i := length (heap st) in
  let st1 := snd (startImport st (Some fileName)) in
  let st2 := snd (stopImport st1) in
  let st3 := runEnds st2 i in
  status (fst (stopImport st1)) = 200
  /\ held st2
     = Some {| DataImporter.isRunning := true; DataImporter.shouldStop := true |}
  /\ (forall j, j <> i -> nth_error (heap st2) j = nth_error (heap st) j)
  /\ isRunning (getImportStatus st2) = true
  /\ status (fst (stopImport st3)) = 404
  /\ isRunning (getImportStatus st3) = false.
Proof.
  intros Hguard Hname i st1 st2 st3.
  assert (H1 : st1 = {| heap := heap st ++ [DataImporter.enter DataImporter.new];
                        currentImporter := Some i |}).
  { subst st1. unfold startImport. rewrite Hguard, Hname.
    unfold importFromS3_starts. rewrite update_snoc. reflexivity. }
  assert (G1 : guard st1 = true).
  { rewrite H1. unfold guard. cbn [currentImporter heap]. subst i.
    rewrite nth_error_snoc. reflexivity. }
  assert (H2 : st2 = {| heap := heap st
                                ++ [DataImporter.stop
                                      (DataImporter.enter DataImporter.new)];
                        currentImporter := Some i |}).
  { subst st2. unfold stopImport. rewrite G1. cbn [negb snd].
    rewrite H1. cbn [currentImporter heap]. subst i.
    rewrite update_snoc. reflexivity. }
  assert (H3 : st3 = {| heap := heap st
                                ++ [DataImporter.leave
                                      (DataImporter.stop
                                         (DataImporter.enter DataImporter.new))];
                        currentImporter := Some i |}).
  { subst st3. unfold runEnds. rewrite H2. cbn [currentImporter heap]. subst i.
    rewrite update_snoc. reflexivity. }
  assert (G3 : guard st3 = false).
  { rewrite H3. unfold guard. cbn [currentImporter heap]. subst i.
    rewrite nth_error_snoc. reflexivity. }
  split; [unfold stopImport; rewrite G1; reflexivity|].
  split.
  { rewrite H2. unfold held. cbn [currentImporter heap]. subst i.
    rewrite nth_error_snoc. reflexivity. }
  split.
  { intros j Hj. rewrite H2. cbn [heap].
    destruct (Nat.lt_ge_cases j (length (heap st))) as [Hlt|Hge].
    - rewrite nth_error_app1 by exact Hlt. reflexivity.
    - assert (Hgt : length (heap st) < j) by (subst i; lia).
      rewrite (proj2 (nth_error_None (heap st) j)) by exact Hge.
      apply nth_error_None. rewrite length_app. simpl. lia. }
  split.
  { unfold getImportStatus. cbn [isRunning]. rewrite H2. unfold guard.
    cbn [currentImporter heap]. subst i. rewrite nth_error_snoc. reflexivity. }
  split.
  { unfold stopImport. rewrite G3. reflexivity. }
  unfold getImportStatus. cbn [isRunning]. exact G3.
Qed.

Lemma stop_action_reaches_a_single_file_import_witness :
  let st1 := snd (startImport initial (Some Examples.part1)) in
  let st2 := snd (stopImport st1) in
  let st3 := runEnds st2 0 in
  status (fst (stopImport st1)) = 200
  /\ held st2
     = Some {| DataImporter.isRunning := true; DataImporter.shouldStop := true |}
  /\ (forall j, j <> 0 -> nth_error (heap st2) j = nth_error (heap initial) j)
  /\ isRunning (getImportStatus st2) = true
  /\ status (fst (stopImport st3)) = 404
  /\ isRunning (getImportStatus st3) = false.
Proof.
  apply (stop_action_reaches_a_single_file_import initial Examples.part1).
  - reflexivity.
  - reflexivity.
Defined.

End ImportHandler.

(* ================================================================== *)
(** * What a page of the streaming backend holds *)
(* ================================================================== *)

Section StreamingPage.
Import Spec Facts S3Search.

Variable bucket : S3Stream.Bucket.
Variable filters : SearchFilters.t.




End StreamingPage.

Section StreamingPageContract.
Import Spec Facts S3Search.



End StreamingPageContract.

(* ================================================================== *)
(** * The duplicate filter and the start of a run *)
(* ================================================================== *)

Section RunStart.
Import Importer Spec Facts.

(** X26.  [filterDuplicates] keeps, in their order, exactly the records
    that have no identifier, which the query cannot find, and the
    records whose identifier is not the identifier of a stored row. *)
Theorem duplicate_filter_keeps_exactly_the_records_not_stored
  (rs : list InspectionRow.t) (records : list SewerInspection.t) :
  filterDuplicates rs records
  = filter (fun r => match SewerInspection.id r with
                     | Some i => negb (existsb (String.eqb i) (row_ids rs))
                     | None => true
                     end)
           records.
Proof.
  unfold filterDuplicates.
  destruct records as [|r0 rest]; [reflexivity|].
  set (records := r0 :: rest).
  apply filter_ext_in. intros r Hr.
  destruct (SewerInspection.id r) as [i|] eqn:Ei; [|reflexivity].
  f_equal.
  assert (Hids : In (Some i) (map SewerInspection.id records))
    by (rewrite <- Ei; apply in_map; exact Hr).
  destruct (existsb (String.eqb i) (row_ids rs)) eqn:Hstored.
  - apply has_In. apply existingIds_In.
    split; [apply existsb_eqb_In; exact Hstored|exact Hids].
  - destruct (has _ (Some i)) eqn:Hhas; [|reflexivity].
    apply has_In, existingIds_In in Hhas. destruct Hhas as [Hin _].
    apply existsb_eqb_In in Hin. rewrite Hin in Hstored. discriminate.
Qed.

Lemma startOffset_any_flag l fileName resume :
  startOffset l fileName resume = calculateResumeOffset l fileName.
Proof.
  unfold startOffset, canResumeImport.
  destruct (Nat.ltb_spec 0 (calculateResumeOffset l fileName)) as [Hpos|Hz].
  - rewrite orb_true_r. reflexivity.
  - destruct resume; simpl; lia.
Qed.

Lemma existingProgress_any_flag l fileName resume :
  existingProgress l fileName resume = existingProgress l fileName false.
Proof.
  unfold existingProgress, canResumeImport.
  destruct (0 <? calculateResumeOffset l fileName).
  - rewrite !orb_true_r. reflexivity.
  - rewrite !andb_false_r. reflexivity.
Qed.

(** X27.  What a run does depends neither on its [resume] argument nor
    on the flags the importer carries when it starts: a checkpoint with
    a positive count is taken up also without [resume], a pending stop
    request is discarded at the start, and the first decode call starts
    at the offset of the latest checkpoint of the file. *)
Theorem resume_flag_and_pending_stop_do_not_change_a_run
  (E : Env.t) (options : ImportOptions.t) (fuel : nat) (w : World.t)
  (this that : DataImporter.t) (fileName : string) (resume : bool) :
  importFromS3 E options fuel w this fileName resume
  = importFromS3 E options fuel w that fileName false
  /\ startOffset (Database.import_log (World.db w)) fileName resume
     = calculateResumeOffset (Database.import_log (World.db w)) fileName.
Proof.
  split; [|apply startOffset_any_flag].
  assert (Hprep : prepare E w this fileName resume
                  = prepare E w that fileName false).
  { unfold prepare.
    rewrite (existingProgress_any_flag _ fileName resume).
    rewrite !startOffset_any_flag. reflexivity. }
  rewrite !importFromS3_unfold, Hprep, !startOffset_any_flag. reflexivity.
Qed.

End RunStart.

(* ================================================================== *)
(** * Importing an object a second time *)
(* ================================================================== *)

Section SecondRun.
Import Importer Spec Facts.

Variable E : Env.t.
Variable options : ImportOptions.t.
Hypothesis Hquiet : undisturbed E.
Hypothesis Hpos : 0 < ImportOptions.batchSize options.

Variable fileName : string.
Variable lines : list S3Stream.Line.
Hypothesis Hbucket : Env.bucket E fileName = Some lines.

(** ** Every record of the object reaches the store *)

Lemma firstn_In_more {A} n : forall (l : list A) x,
  In x (firstn n l) -> In x (firstn (S n) l).
Proof.
  induction n as [|n IH]; intros l x H; [destruct H|].
  destruct l as [|y l]; [destruct H|].
  change (In x (y :: firstn n l)) in H.
  change (In x (y :: firstn (S n) l)).
  destruct H as [H|H]; [left; exact H|right; apply IH; exact H].
Qed.

Lemma parsed_firstn_or_rest n : forall ls r,
  In r (S3Stream.parsed ls) ->
  In r (firstn n (S3Stream.parsed ls)) \/ In r (S3Stream.parsed (skipn n ls)).
Proof.
  induction n as [|n IH]; intros ls r Hr; [right; exact Hr|].
  destruct ls as [|[|t|r0] rest].
  - destruct Hr.
  - change (In r (S3Stream.parsed rest)) in Hr.
    destruct (IH rest r Hr) as [H|H]; [left|right; exact H].
    apply firstn_In_more. exact H.
  - change (In r (S3Stream.parsed rest)) in Hr.
    destruct (IH rest r Hr) as [H|H]; [left|right; exact H].
    apply firstn_In_more. exact H.
  - change (In r (r0 :: S3Stream.parsed rest)) in Hr.
    change (In r (r0 :: firstn n (S3Stream.parsed rest))
            \/ In r (S3Stream.parsed (skipn n rest))).
    destruct Hr as [->|Hr]; [left; left; reflexivity|].
    destruct (IH rest r Hr) as [H|H]; [left; right; exact H|right; exact H].
Qed.

Lemma validBatch_In batch r :
  In r (validBatch options batch)
  <-> In r batch /\ (ImportOptions.validateData options = true -> complete r).
Proof.
  unfold validBatch.
  destruct (ImportOptions.validateData options).
  - rewrite filter_In, validateRecord_complete. tauto.
  - split; [intros H; split; [exact H|discriminate]|tauto].
Qed.

Lemma createBatches_covers (chunk : list SewerInspection.t) batches r :
  createBatches chunk (ImportOptions.batchSize options) = Some batches ->
  In r chunk -> exists b, In b batches /\ In r b.
Proof.
  intros Hcut Hr. unfold createBatches in Hcut.
  destruct (createBatches_loop_partition chunk (ImportOptions.batchSize options)
              Hpos (length chunk) 0 [] ltac:(lia) eq_refl (Forall_nil _))
    as (all & Hall & Hcat & _).
  rewrite Hall in Hcut. inversion Hcut; subst all.
  rewrite <- Hcat in Hr. apply in_concat in Hr.
  destruct Hr as (b & Hb & Hin). exists b. split; assumption.
Qed.

(** After an undisturbed loop from [offset], every record of the
    object from that line on which validation lets through and the
    engine accepts is in the store. *)
Lemma chunk_loop_covers logId fuel : forall st offset st' thrown,
  stopped st = false ->
  chunk_loop E options logId fileName fuel st offset = Some (st', thrown) ->
  forall r,
    In r (S3Stream.parsed (skipn offset (S3Stream.nonblank lines))) ->
    (ImportOptions.validateData options = true -> complete r) ->
    covered (Env.faults E) (rows st') r.
Proof.
  induction fuel as [|fuel IH]; intros st offset st' thrown Hgo Hrun r Hr Hv.
  - simpl in Hrun. unfold stopped in Hgo. rewrite Hgo in Hrun. discriminate.
  - rewrite chunk_loop_unfold in Hrun. cbv zeta in Hrun. rewrite Hgo in Hrun.
    rewrite (streamFromS3_window _ _ lines _ _ Hbucket) in Hrun.
    unfold S3Stream.window in Hrun.
    set (rest := S3Stream.parsed (skipn offset (S3Stream.nonblank lines))) in *.
    set (chunk := firstn chunkSize rest) in *.
    set (c := {| S3Stream.call_file := fileName;
                 S3Stream.call_limit := chunkSize;
                 S3Stream.call_offset := offset;
                 S3Stream.call_produced := Some chunk |}) in *.
    pose proof (fetching_goes_on E Hquiet st c Hgo) as Hf.
    assert (Hchunk : forall x, In x chunk ->
               (ImportOptions.validateData options = true -> complete x) ->
               forall batches,
                 createBatches chunk (ImportOptions.batchSize options)
                 = Some batches ->
                 covered (Env.faults E)
                   (rows (batch_loop E options logId (fetching E st c) batches)) x).
    { intros x Hx Hvx batches Hcut.
      destruct (createBatches_covers chunk batches x Hcut Hx) as (b & Hb & Hin).
      apply (batch_loop_covers E options Hquiet logId batches
               (fetching E st c) b x Hf Hb).
      apply validBatch_In. split; assumption. }
    destruct (Nat.eqb_spec (length chunk) 0) as [Hempty|Hsome].
    { exfalso. subst chunk. unfold chunkSize in Hempty.
      destruct rest; [destruct Hr|discriminate Hempty]. }
    destruct (createBatches chunk (ImportOptions.batchSize options))
      as [batches|] eqn:Hcut; [|discriminate].
    destruct (Nat.ltb_spec (length chunk) chunkSize) as [Hshort|Hfull].
    + inversion Hrun; subst st' thrown.
      apply (Hchunk r); [|exact Hv|reflexivity].
      subst chunk. rewrite length_firstn in Hshort.
      rewrite firstn_all2 by lia. exact Hr.
    + destruct (parsed_firstn_or_rest chunkSize
                  (skipn offset (S3Stream.nonblank lines)) r Hr) as [Hin|Hlater].
      * apply covered_mono
          with (rs := rows (batch_loop E options logId (fetching E st c) batches)).
        -- intros i. eapply chunk_loop_keeps. exact Hrun.
        -- apply (Hchunk r Hin Hv batches eq_refl).
      * apply (IH _ _ _ _ (batch_loop_goes_on E options Hquiet logId batches
                             _ Hf) Hrun r); [|exact Hv].
        rewrite skipn_skipn in Hlater.
        replace (offset + length chunk) with (chunkSize + offset); [exact Hlater|].
        subst chunk. rewrite length_firstn in Hfull |- *. lia.
Qed.

(** ** Without the duplicate filter a run writes what it is given *)

Lemma insert_each_written batch : forall rs n,
  snd (Sqlite.insert_each (Env.faults E) rs batch n)
  = n + length (filter (accepts (Env.faults E)) batch).
Proof.
  induction batch as [|r rest IH]; intros rs n; [simpl; lia|].
  rewrite insert_each_step, IH. unfold Sqlite.insertInspection, accepts.
  simpl filter.
  destruct (Sqlite.row_write_fails (Env.faults E) r);
    destruct (Sqlite.defect_write_fails (Env.faults E) r); simpl; lia.
Qed.

Lemma writes_app a b :
  writes E options (a ++ b) = writes E options a + writes E options b.
Proof.
  unfold writes, validBatch.
  destruct (ImportOptions.validateData options);
    rewrite ?filter_app, length_app; reflexivity.
Qed.

Hypothesis Hoff : ImportOptions.skipDuplicates options = false.

Lemma batch_loop_writes logId batches : forall st,
  stopped st = false ->
  imported (batch_loop E options logId st batches)
  = imported st + writes E options (concat batches).
Proof.
  induction batches as [|b rest IH]; intros st Hgo; simpl.
  - unfold writes, validBatch.
    destruct (ImportOptions.validateData options); simpl; lia.
  - unfold stopped in Hgo. rewrite Hgo.
    rewrite IH by (apply process_batch_goes_on; assumption).
    destruct (process_batch_committed E options logId st b) as [_ [Hp _]];
      [apply Hquiet|].
    unfold imported at 1. rewrite Hp. unfold filteredBatch. rewrite Hoff.
    rewrite insert_each_written, writes_app. unfold writes, imported.
    simpl. lia.
Qed.

(** The number of records an undisturbed loop from [offset] writes
    depends on the object only, not on the store it starts from. *)
Lemma chunk_loop_writes fuel : forall offset,
  exists written,
    forall logId st st' thrown,
      stopped st = false ->
      chunk_loop E options logId fileName fuel st offset = Some (st', thrown) ->
      imported st' = imported st + written.
Proof.
  induction fuel as [|fuel IH]; intros offset.
  - exists 0. intros logId st st' thrown Hgo Hrun.
    simpl in Hrun. unfold stopped in Hgo. rewrite Hgo in Hrun. discriminate.
  - set (chunk := S3Stream.window lines chunkSize offset).
    destruct (IH (offset + length chunk)) as [later Hlater].
    exists (if length chunk =? 0 then 0
            else writes E options chunk
                 + if length chunk <? chunkSize then 0 else later).
    intros logId st st' thrown Hgo Hrun.
    rewrite chunk_loop_unfold in Hrun. cbv zeta in Hrun. rewrite Hgo in Hrun.
    rewrite (streamFromS3_window _ _ lines _ _ Hbucket) in Hrun.
    fold chunk in Hrun.
    set (c := {| S3Stream.call_file := fileName;
                 S3Stream.call_limit := chunkSize;
                 S3Stream.call_offset := offset;
                 S3Stream.call_produced := Some chunk |}) in *.
    pose proof (fetching_goes_on E Hquiet st c Hgo) as Hf.
    destruct (length chunk =? 0).
    { inversion Hrun; subst st' thrown. unfold imported.
      rewrite fetching_progress. lia. }
    destruct (createBatches chunk (ImportOptions.batchSize options))
      as [batches|] eqn:Hcut; [|discriminate].
    assert (Hcat : concat batches = chunk).
    { unfold createBatches in Hcut.
      destruct (createBatches_loop_partition chunk
                  (ImportOptions.batchSize options) Hpos (length chunk) 0 []
                  ltac:(lia) eq_refl (Forall_nil _))
        as (all & Hall & Hcat & _).
      rewrite Hall in Hcut. inversion Hcut; subst all. exact Hcat. }
    pose proof (batch_loop_writes logId batches (fetching E st c) Hf) as Hw.
    rewrite Hcat in Hw. unfold imported at 2 in Hw.
    rewrite fetching_progress in Hw. fold (imported st) in Hw.
    destruct (length chunk <? chunkSize).
    + inversion Hrun; subst st' thrown. lia.
    + rewrite (Hlater logId _ st' thrown
                 (batch_loop_goes_on E options Hquiet logId batches _ Hf) Hrun).
      lia.
Qed.

(** ** Without the duplicate filter a run replaces the rows *)

Let from := in_file E fileName.
Let held := upserted E fileName.

Lemma insertInspection_held_on rs x r :
  from x -> held rs r ->
  held (fst (Sqlite.insertInspection (Env.faults E) rs x)) r.
Proof.
  intros Hx (r' & Hfrom & Hkey & Hin). unfold Sqlite.insertInspection.
  destruct (Sqlite.row_write_fails (Env.faults E) x);
    [exists r'; repeat split; assumption|].
  assert (Hnew : held (Sqlite.insert_or_replace
                         (Sqlite.transformInspectionForDb x) rs) r).
  { destruct (String.eqb_spec (key r') (key x)) as [Heq|Hne].
    - exists x. split; [exact Hx|]. split; [congruence|].
      unfold Sqlite.insert_or_replace. apply in_or_app. right. left. reflexivity.
    - exists r'. split; [exact Hfrom|]. split; [exact Hkey|].
      unfold Sqlite.insert_or_replace. apply in_or_app. left.
      apply filter_In. split; [exact Hin|].
      apply negb_true_iff. apply String.eqb_neq. exact Hne. }
  destruct (Sqlite.defect_write_fails (Env.faults E) x); exact Hnew.
Qed.

Lemma insertInspection_holds rs x :
  from x -> Sqlite.row_write_fails (Env.faults E) x = false ->
  held (fst (Sqlite.insertInspection (Env.faults E) rs x)) x.
Proof.
  intros Hx Hok. exists x. split; [exact Hx|]. split; [reflexivity|].
  unfold Sqlite.insertInspection. rewrite Hok.
  destruct (Sqlite.defect_write_fails (Env.faults E) x); cbn [fst];
    unfold Sqlite.insert_or_replace; apply in_or_app; right; left; reflexivity.
Qed.

Lemma insert_each_held_on batch : forall rs n r,
  (forall x, In x batch -> from x) ->
  held rs r ->
  held (fst (Sqlite.insert_each (Env.faults E) rs batch n)) r.
Proof.
  induction batch as [|x rest IH]; intros rs n r Hfrom Hr; [exact Hr|].
  rewrite insert_each_step. apply IH.
  - intros y Hy. apply Hfrom. right. exact Hy.
  - apply insertInspection_held_on; [apply Hfrom; left; reflexivity|exact Hr].
Qed.

Lemma insert_each_holds batch : forall rs n r,
  (forall x, In x batch -> from x) ->
  In r batch -> Sqlite.row_write_fails (Env.faults E) r = false ->
  held (fst (Sqlite.insert_each (Env.faults E) rs batch n)) r.
Proof.
  induction batch as [|x rest IH]; intros rs n r Hfrom Hin Hok; [destruct Hin|].
  rewrite insert_each_step.
  assert (Hrest : forall y, In y rest -> from y)
    by (intros y Hy; apply Hfrom; right; exact Hy).
  destruct Hin as [->|Hin].
  - apply insert_each_held_on; [exact Hrest|].
    apply insertInspection_holds; [apply Hfrom; left; reflexivity|exact Hok].
  - apply IH; assumption.
Qed.

Lemma process_batch_held_on logId st batch r :
  (forall x, In x batch -> from x) ->
  held (rows st) r -> held (rows (process_batch E options logId st batch)) r.
Proof.
  intros Hfrom Hr.
  destruct (process_batch_committed E options logId st batch) as [-> _];
    [apply Hquiet|].
  apply insert_each_held_on; [|exact Hr].
  intros x Hx. apply Hfrom.
  eapply validBatch_incl. eapply filteredBatch_incl. exact Hx.
Qed.

Lemma process_batch_holds logId st batch r :
  (forall x, In x batch -> from x) ->
  In r (validBatch options batch) ->
  Sqlite.row_write_fails (Env.faults E) r = false ->
  held (rows (process_batch E options logId st batch)) r.
Proof.
  intros Hfrom Hr Hok.
  destruct (process_batch_committed E options logId st batch) as [-> _];
    [apply Hquiet|].
  unfold filteredBatch. rewrite Hoff.
  apply insert_each_holds; [|exact Hr|exact Hok].
  intros x Hx. apply Hfrom. eapply validBatch_incl. exact Hx.
Qed.

Lemma batch_loop_held_on logId batches : forall st r,
  (forall b x, In b batches -> In x b -> from x) ->
  held (rows st) r -> held (rows (batch_loop E options logId st batches)) r.
Proof.
  intros st r Hfrom.
  apply (batch_loop_steps E options logId fileName
           (fun a b => held (rows a) r -> held (rows b) r)); auto.
  intros a batch Hbatch. apply process_batch_held_on. exact Hbatch.
Qed.

Lemma batch_loop_holds logId batches : forall st b r,
  (forall b x, In b batches -> In x b -> from x) ->
  stopped st = false ->
  In b batches -> In r (validBatch options b) ->
  Sqlite.row_write_fails (Env.faults E) r = false ->
  held (rows (batch_loop E options logId st batches)) r.
Proof.
  induction batches as [|b0 rest IH]; intros st b r Hfrom Hgo Hb Hr Hok;
    [destruct Hb|].
  simpl. unfold stopped in Hgo. rewrite Hgo.
  assert (Hrest : forall b x, In b rest -> In x b -> from x)
    by (intros b' x Hb' Hx; apply (Hfrom b' x); [right; exact Hb'|exact Hx]).
  destruct Hb as [->|Hb].
  - apply batch_loop_held_on; [exact Hrest|].
    apply process_batch_holds; [|exact Hr|exact Hok].
    intros x Hx. apply (Hfrom b x); [left; reflexivity|exact Hx].
  - apply IH with (b := b); try assumption.
    apply process_batch_goes_on; assumption.
Qed.

Lemma chunk_loop_held_on logId fuel st offset st' thrown r :
  chunk_loop E options logId fileName fuel st offset = Some (st', thrown) ->
  held (rows st) r -> held (rows st') r.
Proof.
  apply (chunk_loop_steps E options logId fileName
           (fun a b => held (rows a) r -> held (rows b) r)); auto.
  intros a batch Hbatch. apply process_batch_held_on. exact Hbatch.
Qed.

(** After an undisturbed loop from [offset] without the duplicate
    filter, the row under the identifier of every record from that
    line on which validation lets through and the engine accepts is
    the row of a record of the object. *)
Lemma chunk_loop_holds logId fuel : forall st offset st' thrown,
  stopped st = false ->
  chunk_loop E options logId fileName fuel st offset = Some (st', thrown) ->
  forall r,
    In r (S3Stream.parsed (skipn offset (S3Stream.nonblank lines))) ->
    (ImportOptions.validateData options = true -> complete r) ->
    Sqlite.row_write_fails (Env.faults E) r = false ->
    held (rows st') r.
Proof.
  induction fuel as [|fuel IH];
    intros st offset st' thrown Hgo Hrun r Hr Hv Hok.
  - simpl in Hrun. unfold stopped in Hgo. rewrite Hgo in Hrun. discriminate.
  - rewrite chunk_loop_unfold in Hrun. cbv zeta in Hrun. rewrite Hgo in Hrun.
    rewrite (streamFromS3_window _ _ lines _ _ Hbucket) in Hrun.
    assert (Hfile : forall x,
               In x (S3Stream.window lines chunkSize offset) -> from x).
    { intros x Hx. exists lines. split; [exact Hbucket|].
      apply (window_In lines chunkSize offset x Hx). }
    unfold S3Stream.window in Hrun, Hfile.
    set (rest := S3Stream.parsed (skipn offset (S3Stream.nonblank lines))) in *.
    set (chunk := firstn chunkSize rest) in *.
    set (c := {| S3Stream.call_file := fileName;
                 S3Stream.call_limit := chunkSize;
                 S3Stream.call_offset := offset;
                 S3Stream.call_produced := Some chunk |}) in *.
    pose proof (fetching_goes_on E Hquiet st c Hgo) as Hf.
    destruct (Nat.eqb_spec (length chunk) 0) as [Hempty|Hsome].
    { exfalso. subst chunk. unfold chunkSize in Hempty.
      destruct rest; [destruct Hr|discriminate Hempty]. }
    destruct (createBatches chunk (ImportOptions.batchSize options))
      as [batches|] eqn:Hcut; [|discriminate].
    assert (Hfrom : forall b x, In b batches -> In x b -> from x).
    { intros b x Hb Hx. apply Hfile.
      destruct (createBatches_total chunk (ImportOptions.batchSize options) Hpos)
        as (batches' & Hcut' & Hsub).
      rewrite Hcut in Hcut'. inversion Hcut'; subst batches'.
      apply (Hsub b x Hb Hx). }
    assert (Hchunk : forall x, In x chunk ->
               (ImportOptions.validateData options = true -> complete x) ->
               Sqlite.row_write_fails (Env.faults E) x = false ->
               held (rows (batch_loop E options logId (fetching E st c) batches)) x).
    { intros x Hx Hvx Hokx.
      destruct (createBatches_covers chunk batches x Hcut Hx) as (b & Hb & Hin).
      apply (batch_loop_holds logId batches (fetching E st c) b x Hfrom Hf Hb);
        [|exact Hokx].
      apply validBatch_In. split; assumption. }
    destruct (Nat.ltb_spec (length chunk) chunkSize) as [Hshort|Hfull].
    + inversion Hrun; subst st' thrown.
      apply (Hchunk r); [|exact Hv|exact Hok].
      subst chunk. rewrite length_firstn in Hshort.
      rewrite firstn_all2 by lia. exact Hr.
    + destruct (parsed_firstn_or_rest chunkSize
                  (skipn offset (S3Stream.nonblank lines)) r Hr) as [Hin|Hlater].
      * eapply chunk_loop_held_on; [exact Hrun|].
        apply (Hchunk r Hin Hv Hok).
      * apply (IH _ _ _ _ (batch_loop_goes_on E options Hquiet logId batches
                             _ Hf) Hrun r); [|exact Hv|exact Hok].
        rewrite skipn_skipn in Hlater.
        replace (offset + length chunk) with (chunkSize + offset); [exact Hlater|].
        subst chunk. rewrite length_firstn in Hfull |- *. lia.
Qed.

End SecondRun.

Section ReimportClaim.
Import Importer Spec Facts.

(** C4 (as amended).  Importing an unchanged object twice, undisturbed
    and starting without a checkpoint to resume from.  Both runs
    return.  After the first run every record of the object that
    validation lets through and the engine accepts has its identifier
    in the store.  The second run leaves the store with exactly the
    same identifiers, each of them once, and the same number of rows,
    whether the duplicate filter is on or off.  With the duplicate
    filter on, and every record that reaches the filter carrying an
    identifier, the second run reports [recordsImported = 0] and leaves
    the rows as they are.  With the duplicate filter off, the second
    run writes as many records as the first did and reports them as
    imported, and the row it leaves under the identifier of such a
    record is the row of a record of the object. *)
Theorem reimport_is_idempotent
  (E : Env.t) (options : ImportOptions.t) (w : World.t) (this : DataImporter.t)
  (fileName : string) (lines : list S3Stream.Line) (fuel : nat) :
  undisturbed E ->
  Env.bucket E fileName = Some lines ->
  0 < ImportOptions.batchSize options ->
  calculateResumeOffset (Database.import_log (World.db w)) fileName = 0 ->
  NoDup (Database.ids (World.db w)) ->
  length lines < fuel ->
  exists run1 run2,
    importFromS3 E options fuel w this fileName false = Some run1
    /\ importFromS3 E options fuel (world run1) (importer run1) fileName false
       = Some run2
    /\ (forall r,
          In (S3Stream.JsonLine r) lines ->
          (ImportOptions.validateData options = true -> complete r) ->
          Sqlite.row_write_fails (Env.faults E) r = false ->
          In (key r) (row_ids (rows run1)))
    /\ NoDup (Database.ids (World.db (world run2)))
    /\ length (rows run2) = length (rows run1)
    /\ (forall i, In i (row_ids (rows run2)) <-> In i (row_ids (rows run1)))
    /\ (ImportOptions.skipDuplicates options = true ->
        identified options lines ->
        ImportProgress.recordsImported (progress run2) = 0
        /\ rows run2 = rows run1)
    /\ (ImportOptions.skipDuplicates options = false ->
        ImportProgress.recordsImported (progress run2)
        = ImportProgress.recordsImported (progress run1)
        /\ forall r,
             In (S3Stream.JsonLine r) lines ->
             (ImportOptions.validateData options = true -> complete r) ->
             Sqlite.row_write_fails (Env.faults E) r = false ->
             exists r',
               In (S3Stream.JsonLine r') lines /\ key r' = key r
               /\ In (Sqlite.transformInspectionForDb r') (rows run2)).
Proof.
  intros Hquiet Hb Hpos Hzero Hnodup Hfuel.
  assert (Henough : enough_fuel E fileName <= fuel)
    by (unfold enough_fuel; rewrite Hb; lia).
  destruct (importFromS3_total E options w this fileName false fuel Hpos Henough)
    as [run1 Hrun1].
  destruct (importFromS3_total E options (world run1) (importer run1) fileName
              false fuel Hpos Henough) as [run2 Hrun2].
  (* the loop of the first run *)
  destruct (prepare_fresh E w this fileName false Hzero)
    as (Hoff1 & _ & _ & _ & Hi1 & _).
  pose proof Hrun1 as Hloop1. rewrite importFromS3_unfold, Hoff1 in Hloop1.
  destruct (chunk_loop E options (snd (prepare E w this fileName false)) fileName
              fuel (fst (prepare E w this fileName false)) 0)
    as [[st1 thrown1]|] eqn:Eloop1; [|discriminate].
  pose proof (chunk_loop_no_exception E options _ fileName lines fuel Hb
                _ _ st1 thrown1 Eloop1) as Hnone. subst thrown1.
  pose proof (chunk_loop_goes_on E options Hquiet _ fileName fuel _ 0 st1 None
                (prepare_stopped E w this fileName false) Eloop1) as Hgo1.
  assert (Hdone : ImportProgress.status (progress run1) = completed).
  { inversion Hloop1; subst run1. apply finish_completed. exact Hgo1. }
  assert (Hrows1 : rows run1 = rows st1)
    by (inversion Hloop1; subst run1; apply finish_rows).
  assert (Himp1 : imported run1 = imported st1).
  { inversion Hloop1; subst run1.
    destruct (finish_counters E (snd (prepare E w this fileName false)) st1 None)
      as (_ & H & _). exact H. }
  (* the loop of the second run *)
  pose proof (checkpoint_closed E options fuel w this fileName run1
                Hzero Hrun1 Hdone) as Hzero2.
  destruct (prepare_fresh E (world run1) (importer run1) fileName false Hzero2)
    as (Hoff2 & _ & _ & _ & Hi2 & _).
  pose proof Hrun2 as Hloop2. rewrite importFromS3_unfold, Hoff2 in Hloop2.
  destruct (chunk_loop E options
              (snd (prepare E (world run1) (importer run1) fileName false))
              fileName fuel
              (fst (prepare E (world run1) (importer run1) fileName false)) 0)
    as [[st2 thrown2]|] eqn:Eloop2; [|discriminate].
  assert (Himp2 : imported run2 = imported st2).
  { inversion Hloop2; subst run2.
    destruct (finish_counters E
                (snd (prepare E (world run1) (importer run1) fileName false))
                st2 thrown2) as (_ & H & _). exact H. }
  assert (Hrows2 : rows run2 = rows st2)
    by (inversion Hloop2; subst run2; apply finish_rows).
  assert (Hline : forall r, In (S3Stream.JsonLine r) lines ->
                    In r (S3Stream.parsed (skipn 0 (S3Stream.nonblank lines)))).
  { intros r Hr. apply parsed_In. unfold S3Stream.nonblank. apply filter_In.
    split; [exact Hr|reflexivity]. }
  destruct (reimport_upserts E options Hquiet w this fileName lines fuel run1 run2
              Hb Hzero Hnodup Hrun1 Hrun2 Hdone) as [Hnd [Hlen Hsame]].
  exists run1, run2.
  split; [exact Hrun1|]. split; [exact Hrun2|]. split.
  { intros r Hr Hv Hok. rewrite Hrows1.
    apply (chunk_loop_covers E options Hquiet Hpos fileName lines Hb _ fuel
             _ 0 st1 None (prepare_stopped E w this fileName false) Eloop1 r);
      [apply Hline; exact Hr|exact Hv|exact Hok]. }
  split; [exact Hnd|]. split; [exact Hlen|]. split; [exact Hsame|]. split.
  - intros Hskip Hident.
    destruct (reimport E options w this fileName lines fuel Hquiet Hb Hpos Hskip
                Hident Hzero Hfuel)
      as [r1 [r2 [Hr1 [Hr2 [_ [_ [Himp [_ [_ Hrows]]]]]]]]].
    rewrite Hrun1 in Hr1. inversion Hr1; subst r1.
    rewrite Hrun2 in Hr2. inversion Hr2; subst r2.
    split; [exact Himp|exact Hrows].
  - intros Hoff.
    destruct (chunk_loop_writes E options Hquiet Hpos fileName lines Hb Hoff fuel 0)
      as [written Hwritten].
    pose proof (Hwritten _ _ st1 None (prepare_stopped E w this fileName false)
                  Eloop1) as H1.
    pose proof (Hwritten _ _ st2 thrown2
                  (prepare_stopped E (world run1) (importer run1) fileName false)
                  Eloop2) as H2.
    split; [change (imported run2 = imported run1); lia|].
    intros r Hr Hv Hok. rewrite Hrows2.
    destruct (chunk_loop_holds E options Hquiet Hpos fileName lines Hb Hoff _ fuel
                _ 0 st2 thrown2
                (prepare_stopped E (world run1) (importer run1) fileName false)
                Eloop2 r (Hline r Hr) Hv Hok)
      as (r' & (lines' & Hb' & Hr') & Hkey & Hin).
    rewrite Hb in Hb'. inversion Hb'; subst lines'.
    exists r'. repeat split; assumption.
Qed.

Lemma reimport_is_idempotent_witness :
  (exists run1 run2,
     importFromS3 (Examples.env Examples.two_records)
       ImportOptions.DEFAULT_OPTIONS 3 (World.initial Database.empty)
       DataImporter.new Examples.part1 false = Some run1
     /\ importFromS3 (Examples.env Examples.two_records)
          ImportOptions.DEFAULT_OPTIONS 3 (world run1) (importer run1)
          Examples.part1 false = Some run2
     /\ In "a"%string (row_ids (rows run1))
     /\ In "b"%string (row_ids (rows run1))
     /\ NoDup (Database.ids (World.db (world run2)))
     /\ length (rows run2) = length (rows run1)
     /\ ImportProgress.recordsImported (progress run2) = 0
     /\ rows run2 = rows run1)
  /\ (exists run1 run2,
        importFromS3 (Examples.env Examples.two_records)
          Scenarios.unfiltered_import 3 (World.initial Scenarios.stale_db)
          DataImporter.new Examples.part1 false = Some run1
        /\ importFromS3 (Examples.env Examples.two_records)
             Scenarios.unfiltered_import 3 (world run1) (importer run1)
             Examples.part1 false = Some run2
        /\ NoDup (Database.ids (World.db (world run2)))
        /\ length (rows run1) = 2
        /\ length (rows run2) = 2
        /\ ImportProgress.recordsImported (progress run1) = 2
        /\ ImportProgress.recordsImported (progress run2) = 2
        /\ In (Sqlite.transformInspectionForDb Examples.houston) (rows run2)).
Proof.
  split.
  - destruct (reimport_is_idempotent (Examples.env Examples.two_records)
                ImportOptions.DEFAULT_OPTIONS (World.initial Database.empty)
                DataImporter.new Examples.part1 Examples.two_records 3)
      as (run1 & run2 & Hrun1 & Hrun2 & Hcov & Hnodup & Hlen & _ & Hon & _).
    + split; intros k; reflexivity.
    + reflexivity.
    + simpl; lia.
    + reflexivity.
    + constructor.
    + simpl; lia.
    + destruct (Hon eq_refl (or_introl eq_refl)) as [Himported Hrows].
      exists run1, run2.
      split; [exact Hrun1|]. split; [exact Hrun2|]. split.
      { apply (Hcov Examples.houston); [left; reflexivity| |reflexivity].
        intros _. repeat split; try reflexivity; discriminate. }
      split.
      { apply (Hcov Examples.austin); [right; left; reflexivity| |reflexivity].
        intros _. repeat split; try reflexivity; discriminate. }
      repeat split; assumption.
  - destruct (reimport_is_idempotent (Examples.env Examples.two_records)
                Scenarios.unfiltered_import (World.initial Scenarios.stale_db)
                DataImporter.new Examples.part1 Examples.two_records 3)
      as (run1 & run2 & Hrun1 & Hrun2 & _ & Hnodup & Hlen & _ & _ & Hoff).
    + split; intros k; reflexivity.
    + reflexivity.
    + simpl; lia.
    + reflexivity.
    + constructor; [intros []|constructor].
    + simpl; lia.
    + destruct (Hoff eq_refl) as [Hagain Hheld].
      assert (Hfirst : ImportProgress.recordsImported (progress run1) = 2
                       /\ length (rows run1) = 2).
      { vm_compute in Hrun1. inversion Hrun1. split; reflexivity. }
      destruct Hfirst as [Hfirst Htwo].
      exists run1, run2.
      split; [exact Hrun1|]. split; [exact Hrun2|]. split; [exact Hnodup|].
      split; [exact Htwo|]. split; [rewrite Hlen; exact Htwo|].
      split; [exact Hfirst|]. split; [rewrite Hagain; exact Hfirst|].
      destruct (Hheld Examples.houston) as (r' & Hr' & Hkey & Hin).
      * left. reflexivity.
      * intros _. repeat split; try reflexivity; discriminate.
      * reflexivity.
      * destruct Hr' as [Hr'|[Hr'|[]]]; inversion Hr'; subst r';
          [exact Hin|discriminate Hkey].
Defined.

(** C4, counterexample.  With the duplicate filter on and validation
    off, an object whose one record has no identifier is imported again
    by the second run: the query of the filter binds the missing
    identifier as [NULL] and finds no row, so the record is kept and
    written over the row stored under the empty key. *)
Lemma reimport_without_identifier_imports_again :
  ImportOptions.skipDuplicates Scenarios.unvalidated = true
  /\ exists run1 run2,
       importFromS3 (Examples.env [S3Stream.JsonLine Scenarios.nameless])
         Scenarios.unvalidated 2 (World.initial Database.empty)
         DataImporter.new Examples.part1 false = Some run1
       /\ importFromS3 (Examples.env [S3Stream.JsonLine Scenarios.nameless])
            Scenarios.unvalidated 2 (world run1) (importer run1)
            Examples.part1 false = Some run2
       /\ ImportProgress.status (progress run2) = completed
       /\ ImportProgress.recordsImported (progress run2) = 1
       /\ length (rows run2) = 1.
Proof.
  split; [reflexivity|].
  eexists. eexists. split; [vm_compute; reflexivity|].
  split; [vm_compute; reflexivity|]. repeat split.
Qed.

End ReimportClaim.
